(* ===== verification/_CoqProject ===== *)
-Q . S2P
Prelude.v
CString.v
Ipaddr.v
IpaddrThms.v
InetRef.v
IpaddrMain.v
Lists.v
Types.v
Config.v
Kernel.v
KernelRef.v
Maps.v
MapsThms.v
ConfigThms.v
ConfigMain.v
Log.v
LogMain.v
DropTable.v
DropThms.v
TableMain.v
Snap.v
SnapThms.v
SnapMain.v
Double.v
Policy.v
PolicyThms.v
SweepThms.v
TickThms.v
PolicyMain.v
PolicyRate.v
Xdp.v
XdpThms.v
XdpMain.v
XdpWitness.v
MapsMain.v
Detect.v
Ctl.v
CtlThms.v
CtlMain.v
Http.v
Client.v
Os.v
Setup.v
Daemon.v
ProcThms.v
BpfMaps.v
DaemonThms.v
DaemonTime.v
System.v
Traced.v
TracedThms.v
DetectMain.v
Wake.v
TracedMain.v
DaemonMain.v
DaemonReach.v
Peers.v
PeersThms.v
PeersMain.v
Scenario.v
Instances.v
DaemonWitness.v
TracedWitness.v
UnitCidr.v
UnitPolicy.v
PeersWitness.v
DetectWitness.v
