(* ===== verification/Prelude.v ===== *)
(** * voidGate: a verification of the gate

    voidGate keeps flooding hosts away from a server.  An XDP program
    (src/src/bpf/voidgate.bpf.c) judges every packet against tries of dropped,
    allowed and local prefixes and counts what comes from each remote address;
    a daemon reads the counters once per tick, lists the remotes that are over
    a threshold, lifts what has expired, arms and disarms the program; an
    operator talks to the daemon over a Unix socket with a small client.  The
    parts share state only through the BPF maps and the controller record.

    ** Files and sources

    Shared:
    - [Prelude]: machine integers, the state-and-failure monad [M] with its
      total-correctness predicate [wp], tactics, bits of byte strings;
    - [CString]: the C library functions on strings that the sources use
      ([strchr], [strtoull], [strtol], [snprintf], ...);
    - [Double]: binary64 arithmetic ([SpecFloat]) and [%.0f];
    - [Types] (voidgate.h): constants, map values, header layouts.

    Components, each with its definitions in the first file:
    - prefixes (ipaddr.c): [Ipaddr], lemmas [IpaddrThms], theorems
      [IpaddrMain]; [inet_pton] and [inet_ntop] are the class [Inet] with laws,
      [InetRef] is an instance;
    - intrusive lists (list.h): [Lists], pointers in an explicit memory, with
      the representation predicates of both list kinds;
    - configuration (config.c): [Config], [ConfigThms], [ConfigMain];
    - the log (log.h, log.c): [Log], the text the functions write to stderr,
      and [LogMain];
    - the kernel: the class [Kernel] of BPF map calls, clocks and the XDP
      program's map accesses, its documented behaviour as the classes
      [KernelLaws] and [XdpLaws] ([Kernel]), and an executable instance
      ([KernelRef]).  A world has a past: [failed] says which map updates and
      deletes the kernel has failed so far, so that a theorem can speak of
      the deletes refused in the run at hand ([refused]);
    - map access (maps.c): [Maps], [MapsThms], [MapsMain];
    - the index of listed drops (policy.c): [DropTable], [DropThms],
      [TableMain]: a pool, a list in order of arrival, a free list and hash
      buckets over one memory;
    - rate snapshots (policy.c): [Snap], [SnapThms], [SnapMain];
    - the controller (policy.c): [Policy] ([vg_ctrl], arm, disarm, drop,
      undrop, expiry, aggregation, rate policy, tick); [PolicyThms],
      [SweepThms], [TickThms] carry the invariant through the operations;
      theorems in [PolicyMain] and [PolicyRate];
    - detection: [Detect] states what the kernel holds still during a tick
      (the class [Calm]: keys of the counter hashes, room in the tries, the
      clock within bounds; counters may still grow), what an operation costs
      of it, and the walk over remotes as an invariant on the keys visited;
      [DetectMain] and [Wake] have the theorems on active and idle gates;
    - the data plane (voidgate.bpf.c): [Xdp] is [voidgate_xdp] over a byte
      list with every load checked; [XdpThms], [XdpMain], [XdpWitness];
    - the control socket (ctl_server.c): [Ctl] (requests, commands, replies,
      reload, sending), [CtlThms], [CtlMain];
    - the metrics page (http.c): [Http];
    - the client (voidgatectl.c): [Client];
    - the daemon (voidgate.c, and the parts of maps.c, ctl_server.c and http.c
      that open and close things): [Os] has the system calls as requests
      answered by the class [Os], the descriptor table (with the descriptors
      that libbpf holds for a loaded BPF object), lock and call log of the
      process, and a monad of computations that may exit; [Setup] and
      [Daemon] are the code; [ProcThms] a logic of triples and
      what a log says of the XDP hook (a detach takes a program off only if
      it names its interface and flags and succeeds: [xdp_on], [stuck]),
      [DaemonThms] the specifications of the parts; [DaemonMain], [DaemonTime], [DaemonReach]
      the theorems; [BpfMaps] has the map declarations of voidgate.bpf.c and
      compares them with the tables of the daemon ([tables_fit]);
    - the whole system: [System], runs as sequences of ticks, requests,
      packets and other kernel activity; [DaemonReach] shows that the states
      of the running [main] are among them;
    - inside an operation: [Traced] runs the same code on a kernel that
      records every state it goes through and relates the two runs,
      [TracedThms] splits every operation into a phase that only adds drops
      and one that only removes them, [TracedMain] has the theorems;
    - several daemons: [Peers] is the shared system (pid file, its inodes and
      locks, the socket, the program on each interface, which a later attach
      replaces) on which any number of runs of [main] interleave with
      kills and crashes, [PeersThms] the shape of the log of [main],
      [PeersMain] mutual exclusion;
    - the unit tests of the repository: [UnitCidr] (t/unit/cidr.c) and
      [UnitPolicy] (t/unit/policy.c) are the test programs as definitions,
      the second against maps that record what they are asked.  The
      controller sees the walk over remotes through the class [RemoteWalk],
      so that it can be run on maps.c and on the walk of the test.

    [Scenario], [Instances], [XdpWitness], [DaemonWitness], [TracedWitness],
    [PeersWitness] and [DetectWitness] run the theorems at concrete inputs.

    ** How code becomes definitions

    A C function is a Rocq function of the same name; code that changes state
    is a computation in [M] over that state.  [None] is undefined behaviour (a
    bad pointer, a read outside the packet, signed overflow) or a loop out of
    fuel; the theorems say that it does not occur.  Fixed-width arithmetic is
    on [Z] with the wrap-around written out; the exceptions are three [int]
    counters that are only counted up and printed, [drop_count] (at most the
    size of the pool) and the per-tick [drops_new] and [drops_again], which
    are unbounded.  A failing call is its [errno]
    value or [- errno], never an exception.  Pointers between records are
    indices into the pool, list nodes are locations of an explicit memory, and
    the shared configuration that a reload overwrites is a field of the
    controller that the loop of [main] reads.

    Loops over lists of the program run on the number of nodes ([walk_fuel],
    the number of trie keys in [flush_lpm], [turns] of [foreach_loop] is the
    source's own budget), and the theorems show that this is enough.  The loop
    of [main] and the wait of the starting parent take the number of turns to
    run; a run cut off there is reported as such ([Cut]), so a theorem for
    every number of turns is about the daemon at any time of its life.

    ** What is proved

    - Data plane: the verdict equals a declarative specification on every
      packet and no load is outside the packet ([xdp_verdict]); every packet
      is counted exactly once ([xdp_metrics_accounting], [xdp_counters]); an
      allowed port exempts only the local side ([xdp_tcp_port_local_side]).
    - System: in every reachable state the index is sound, every listed drop
      is in the kernel's maps, and, but for entries whose delete the kernel
      has refused in this run, everything in the maps is listed and nothing
      protected is ([reachable_consistent]); listed prefixes are dropped
      ([listed_drop_enforced]), protected hosts, in a run without such a
      refusal, never ([protected_never_dropped]); nothing gets stuck
      ([reachable_progress]).
      A remote over a threshold is listed by the next tick of an active gate
      ([flood_dropped]) and by the third tick of an idle one
      ([flood_from_idle]), and its packets are dropped until the daemon
      changes the maps again; this is for an unprotected remote within the
      walk budget, ticks during which the keys of the counter hashes hold
      still and calls succeed, and tables with room for two drops of every
      remote.
      Both kinds of safety hold in every kernel state inside an operation too
      ([protected_throughout], [drop_without_gap]), so when the daemon is
      killed at any moment; what does not is the exemption of allowed ports
      while a reload refills the local networks ([reload_window]).
    - Daemon: [main_reaches] puts the real start sequence and loop under these
      theorems; [main_lock_discipline], [main_returns_clean],
      [main_failure_detaches], [main_descriptors_bounded] hold for any answers
      of the operating system; [turn_completes] and [turn_timing] are about
      the loop, [stop_signals] about [-s stop].  [daemons_exclude]: of several
      daemons on one pid file at most one is at work, unless one starts just
      while another removes the file, where [daemons_race] has two, of which
      the first to stop takes the program of the other off the interface.
    - Controller: the outcome of every operation on every branch
      ([drop_add_outcome], [undrop_lifts], [expire_exact],
      [prune_protected_exact], [disarm_clears], [timed_drop_extends],
      [remote_policy], [aggregate_decides], [tick_quiet_disarms],
      [reload_applies]).
    - Tables: the drop index and the snapshots refine a bounded list and a
      finite map ([drop_index_refines], [snap_get_updates],
      [snap_prune_forgets]).
    - Texts: prefixes and numbers round-trip ([parse_cidr_normalises],
      [scalar_line_sets]); a file loads only into range
      ([config_load_in_range]); the lines of the configuration a daemon
      logs, without the tree drawn around them, load to the configuration it
      has ([logged_config_loads]); client and server agree
      ([client_request], [client_drop_status]); the metrics page fits its
      buffers ([http_response]).
    - Tests: the assertions of the unit tests hold on the model
      ([cidr_test_passes], [policy_test_passes]).
    - Where the code falls short of its intention this is proved too:
      [drop_buckets_diverge], [parse_u64_negative], the error path of
      [main_failure_detaches], the pid of [stop_signals], the refused deletes
      of [disarm_clears], the failed detach of [main_returns_clean], the
      short read of [client_drop_status], [reload_window], [daemons_race].

    ** Not modelled

    The log functions are modelled, the messages of their callers are not: no
    operation of the controller or of the daemon carries its log lines, and
    the two unit tests that search the log for them (test_expire_log,
    test_drop_log) are left out.  The print callback of libbpf and the
    freeing of memory have no effect on what is modelled.
    [getopt] is represented by the options it returns.  The BPF verifier,
    libbpf and the kernel are the classes above; of libc the text functions
    are modelled, and [inet_pton] and [inet_ntop] are the class [Inet].  The
    random test of t/unit/policy.c is run for its first twenty steps, which is
    what evaluates in seconds.  The functional tests (t/), the Lua client and
    the documentation site are not part of the gate. *)

From stdpp Require Export base list gmap sets.
From Stdlib Require Export ZArith Lia.

(** ** Machine integers

    A w-bit unsigned integer is a [Z]; the wrap-around of C is written out at
    every place the source relies on it. *)
Open Scope Z_scope.

Definition u8 (x : Z) : Z := x mod 2 ^ 8.
Definition u16 (x : Z) : Z := x mod 2 ^ 16.
Definition u32 (x : Z) : Z := x mod 2 ^ 32.
Definition u64 (x : Z) : Z := x mod 2 ^ 64.

(** Conversion to [int]. *)
Definition s32 (x : Z) : Z := (x + 2 ^ 31) mod 2 ^ 32 - 2 ^ 31.

(** The result of an operation on [int]; overflow is undefined. *)
Definition int_res (x : Z) : option Z := if (- 2 ^ 31 <=? x) && (x <? 2 ^ 31) then Some x else None.

(** The value range of [uint8_t]. *)
Definition is_byte (b : Z) : Prop := 0 ≤ b < 256.
#[export] Instance is_byte_dec b : Decision (is_byte b).
Proof. unfold is_byte. apply _. Defined.

(** A byte string. *)
Definition bytes_ok (l : list Z) : Prop := Forall is_byte l.
#[export] Instance bytes_ok_dec l : Decision (bytes_ok l).
Proof. unfold bytes_ok. apply _. Defined.

(** ** The state-and-failure monad

    Stateful C code is a function from a state to [Some (result, state)];
    [None] stands for undefined behaviour (a NULL or out-of-bounds
    dereference) and for a loop that ran out of the fuel it was given.  The
    theorems show that [None] does not occur. *)
Definition M (S A : Type) : Type := S → option (A * S).

#[export] Instance M_ret S : MRet (M S) := λ A a s, Some (a, s).
#[export] Instance M_bind S : MBind (M S) := λ A B f m s,
  match m s with Some (a, s') => f a s' | None => None end.

Definition gets {S A} (f : S → A) : M S A := λ s, Some (f s, s).
Definition modify {S} (f : S → S) : M S unit := λ s, Some (tt, f s).
Definition lift {S A} (o : option A) : M S A := λ s,
  match o with Some a => Some (a, s) | None => None end.

Lemma mbind_step {S A B} (m : M S A) (f : A → M S B) s a s' :
  m s = Some (a, s') → (m ≫= f) s = f a s'.
Proof. intros E. unfold mbind, M_bind. by rewrite E. Qed.

Lemma mbind_inv {S A B} (m : M S A) (f : A → M S B) s r :
  (m ≫= f) s = Some r → ∃ a s', m s = Some (a, s') ∧ f a s' = Some r.
Proof.
  unfold mbind, M_bind. destruct (m s) as [[a s']|] eqn:E; [|done].
  intros Hf. by exists a, s'.
Qed.

(** Total correctness: [m] run in [s] returns, and its result satisfies [Q]. *)
Definition wp {S A} (m : M S A) (Q : A → S → Prop) (s : S) : Prop :=
  ∃ a s', m s = Some (a, s') ∧ Q a s'.

Lemma wp_bind {S A B} (m : M S A) (f : A → M S B) Q s :
  wp m (λ a s', wp (f a) Q s') s → wp (m ≫= f) Q s.
Proof.
  intros (a & s' & E & b & s'' & E' & HQ). exists b, s''. split; [|done].
  by rewrite (mbind_step _ _ _ _ _ E).
Qed.

Lemma wp_det {S A} (m : M S A) (Q : A → S → Prop) s a s' : wp m Q s → m s = Some (a, s') → Q a s'.
Proof. intros (b & t & E & HQ) E'. rewrite E in E'. by injection E' as <- <-. Qed.

Lemma wp_ret {S A} (a : A) (Q : A → S → Prop) s : Q a s → wp (mret a) Q s.
Proof. intros. by exists a, s. Qed.

Lemma wp_gets {S A} (f : S → A) (Q : A → S → Prop) s : Q (f s) s → wp (gets f) Q s.
Proof. intros. by exists (f s), s. Qed.

Lemma wp_modify {S} (f : S → S) (Q : unit → S → Prop) s : Q tt (f s) → wp (modify f) Q s.
Proof. intros. by exists tt, (f s). Qed.

Lemma wp_lift {S A} (o : option A) a (Q : A → S → Prop) s :
  o = Some a → Q a s → wp (lift o) Q s.
Proof. intros -> ?. by exists a, s. Qed.

Lemma wp_mono {S A} (m : M S A) (Q Q' : A → S → Prop) s :
  wp m Q s → (∀ a s', Q a s' → Q' a s') → wp m Q' s.
Proof. intros (a & s' & E & HQ) HQQ. exists a, s'. eauto. Qed.

(** ** Hint databases and tactics of the development *)
Create HintDb vg discriminated.
Create HintDb vgbytes.

(** Boolean tests of the source turned into the propositions they decide. *)
Ltac breflect :=
  repeat match goal with
  | H : (_ && _) = true |- _ => apply andb_true_iff in H as [? ?]
  | H : (_ || _) = false |- _ => apply orb_false_iff in H as [? ?]
  | H : negb _ = true |- _ => apply negb_true_iff in H
  | H : negb _ = false |- _ => apply negb_false_iff in H
  | H : (_ =? _) = true |- _ => apply Z.eqb_eq in H
  | H : (_ =? _) = false |- _ => apply Z.eqb_neq in H
  | H : (_ <? _) = true |- _ => apply Z.ltb_lt in H
  | H : (_ <? _) = false |- _ => apply Z.ltb_ge in H
  | H : (_ <=? _) = true |- _ => apply Z.leb_le in H
  | H : (_ <=? _) = false |- _ => apply Z.leb_gt in H
  | H : bool_decide _ = true |- _ => apply bool_decide_eq_true in H
  | H : bool_decide _ = false |- _ => apply bool_decide_eq_false in H
  end.

(** Case analysis on the first [if] or [match] of the goal. *)
Ltac split_if :=
  match goal with
  | |- context [if ?b then _ else _] => destruct b eqn:?
  | |- context [match ?b with _ => _ end] => destruct b eqn:?
  end.

(** ** Bits of byte strings

    [bit_at l i] is bit [i] of the byte string [l], counted from the most
    significant bit of its first byte: network order, the order prefix
    lengths count in. *)
Definition bit_at (l : list Z) (i : nat) : bool :=
  Z.testbit (default 0 (l !! (i / 8)%nat)) (7 - Z.of_nat (i mod 8)).

Lemma testbit_byte_ge b i : is_byte b → 8 ≤ i → Z.testbit b i = false.
Proof.
  intros [? ?] ?. destruct (decide (b = 0)) as [->|]; [apply Z.bits_0|].
  apply Z.bits_above_log2; [lia|].
  assert (Z.log2 b < 8) by (apply Z.log2_lt_pow2; lia). lia.
Qed.

Lemma byte_eq a b :
  is_byte a → is_byte b →
  (∀ i, (i < 8)%nat → Z.testbit a (7 - Z.of_nat i) = Z.testbit b (7 - Z.of_nat i)) →
  a = b.
Proof.
  intros Ha Hb H. apply Z.bits_inj'. intros n Hn.
  destruct (decide (n < 8)).
  - specialize (H (Z.to_nat (7 - n)) ltac:(lia)).
    replace (7 - Z.of_nat (Z.to_nat (7 - n))) with n in H by lia. done.
  - rewrite !testbit_byte_ge by (done || lia). done.
Qed.

Lemma bit_at_cons b l i :
  bit_at (b :: l) i =
    if decide (i < 8)%nat then Z.testbit b (7 - Z.of_nat i) else bit_at l (i - 8).
Proof.
  unfold bit_at. case_decide.
  - rewrite Nat.div_small, Nat.mod_small by lia. done.
  - destruct (Nat.le_exists_sub 8 i) as (j & -> & _); [lia|].
    replace (j + 8 - 8)%nat with j by lia.
    replace (j + 8)%nat with (j + 1 * 8)%nat by lia.
    rewrite Nat.div_add, Nat.Div0.mod_add by lia.
    replace (j / 8 + 1)%nat with (S (j / 8)) by lia. done.
Qed.

Lemma bit_at_nil i : bit_at [] i = false.
Proof. unfold bit_at. simpl. apply Z.bits_0. Qed.

(** Two byte strings of one length are equal when their bits are. *)
Lemma bytes_eq_bits l1 l2 :
  bytes_ok l1 → bytes_ok l2 → length l1 = length l2 →
  (∀ i, (i < 8 * length l1)%nat → bit_at l1 i = bit_at l2 i) → l1 = l2.
Proof.
  revert l2. induction l1 as [|a l1 IH]; intros [|b l2] H1 H2 Hl Hb;
    try done; simpl in *; try lia.
  apply Forall_cons in H1 as [Ha H1]. apply Forall_cons in H2 as [Hb' H2].
  f_equal.
  - apply byte_eq; [done..|]. intros i Hi. specialize (Hb i ltac:(lia)).
    rewrite !bit_at_cons in Hb. by case_decide.
  - apply IH; [done..|lia|]. intros i Hi. specialize (Hb (i + 8)%nat ltac:(lia)).
    rewrite !bit_at_cons in Hb. case_decide; [lia|].
    by replace (i + 8 - 8)%nat with i in Hb by lia.
Qed.

(** The byte string with given bits, the converse of [bit_at]. *)
Definition byte_of_bits (f : nat → bool) : Z :=
  foldr (λ i acc, Z.b2z (f i) * 2 ^ (7 - Z.of_nat i) + acc) 0 (seq 0 8).

Fixpoint bytes_of_bits (n : nat) (f : nat → bool) : list Z :=
  match n with
  | O => []
  | S n => byte_of_bits f :: bytes_of_bits n (λ i, f (i + 8)%nat)
  end.

Lemma byte_of_bits_spec f :
  is_byte (byte_of_bits f) ∧
  ∀ i, (i < 8)%nat → Z.testbit (byte_of_bits f) (7 - Z.of_nat i) = f i.
Proof.
  unfold byte_of_bits. cbn [seq foldr]. split.
  - unfold is_byte.
    destruct (f 0%nat), (f 1%nat), (f 2%nat), (f 3%nat), (f 4%nat), (f 5%nat),
      (f 6%nat), (f 7%nat); vm_compute; split; congruence.
  - intros i Hi. destruct i as [|[|[|[|[|[|[|[|i]]]]]]]]; [..|lia];
    destruct (f 0%nat), (f 1%nat), (f 2%nat), (f 3%nat), (f 4%nat), (f 5%nat),
      (f 6%nat), (f 7%nat); reflexivity.
Qed.

Lemma bytes_of_bits_length n f : length (bytes_of_bits n f) = n.
Proof. revert f. induction n; intros; simpl; [done|]. by rewrite IHn. Qed.

Lemma bytes_of_bits_ok n f : bytes_ok (bytes_of_bits n f).
Proof.
  revert f. induction n; intros; simpl; [constructor|].
  constructor; [apply byte_of_bits_spec | apply IHn].
Qed.

Lemma bit_at_bytes_of_bits n f i :
  (i < 8 * n)%nat → bit_at (bytes_of_bits n f) i = f i.
Proof.
  revert f i. induction n as [|n IH]; intros f i Hi; [lia|].
  simpl. rewrite bit_at_cons. case_decide.
  - by apply byte_of_bits_spec.
  - rewrite IH by lia. f_equal. lia.
Qed.
