(* ===== verification/CString.v ===== *)
(** * C strings

    A C string is the list of its bytes, without the terminating NUL.  This
    file holds the parts of the C library the sources use on them ([strchr],
    [isspace], [strtok_r], [strtoull], the [%u] conversion of [snprintf]) and
    their lemmas. *)

From Stdlib Require Import Ascii String.
From S2P Require Import Prelude.
Open Scope Z_scope.

(** The bytes of a string literal of the source. *)
Fixpoint bs (s : string) : list Z :=
  match s with
  | EmptyString => []
  | String c s => Z.of_N (N_of_ascii c) :: bs s
  end.

(** [strchr]: the text before and after the first [c], if there is one. *)
Fixpoint strchr (c : Z) (s : list Z) : option (list Z * list Z) :=
  match s with
  | [] => None
  | x :: s' =>
      if x =? c then Some ([], s')
      else match strchr c s' with
           | Some (a, b) => Some (x :: a, b)
           | None => None
           end
  end.

(** The string a buffer holds: its bytes up to the first NUL. *)
Definition cstr (buf : list Z) : list Z :=
  match strchr 0 buf with Some (s, _) => s | None => buf end.

(** [strstr(s, needle) != NULL] *)
Fixpoint strstr (needle s : list Z) : bool :=
  bool_decide (take (List.length needle) s = needle)
  || match s with [] => false | _ :: s => strstr needle s end.

(** [memchr(s, c, n) != NULL], and [strchr(s, c) != NULL]. *)
Definition has_byte (c : Z) (s : list Z) : bool := existsb (λ x, x =? c) s.

Definition is_digit (c : Z) : bool := (48 <=? c) && (c <=? 57).

(** The [%u] conversion. *)
Fixpoint dec_loop (fuel : nat) (n : Z) (acc : list Z) : list Z :=
  match fuel with
  | O => acc
  | S fuel =>
      let acc := (48 + n mod 10) :: acc in
      if n <? 10 then acc else dec_loop fuel (n / 10) acc
  end.

Definition dec (n : Z) : list Z := dec_loop (S (Z.to_nat (Z.log2 n))) n [].

(** The [%d] and [%ld] conversions. *)
Definition dec_signed (n : Z) : list Z := if n <? 0 then 45 :: dec (- n) else dec n.

(** The string [snprintf] leaves in a buffer of [n] bytes. *)
Definition snprintf (n : Z) (text : list Z) : list Z := take (Z.to_nat n - 1) text.

(** The bytes of an [n]-byte integer in memory, little-endian. *)
Fixpoint le_bytes (n : nat) (x : Z) : list Z :=
  match n with O => [] | S n => x mod 256 :: le_bytes n (x / 256) end.

(** One step of reading decimal digits: [v * 10 + (c - '0')]. *)
Definition dec_step (v c : Z) : Z := v * 10 + (c - 48).

(** [isspace] in the C locale. *)
Definition isspace (c : Z) : bool := (c =? 32) || ((9 <=? c) && (c <=? 13)).

(** The longest prefix of digits, and what follows it. *)
Fixpoint span_digits (s : list Z) : list Z * list Z :=
  match s with
  | [] => ([], [])
  | c :: s' =>
      if is_digit c then let '(d, r) := span_digits s' in (c :: d, r)
      else ([], s)
  end.

Fixpoint skip_spaces (s : list Z) : list Z :=
  match s with
  | c :: s' => if isspace c then skip_spaces s' else s
  | [] => []
  end.

(** [strtoull(s, &end, 10)]: leading white space, an optional sign, digits.
    [None] is [end == s] (no digits); the value saturates at ULLONG_MAX, and
    a minus sign negates modulo 2^64 what did not saturate. *)
Definition ULLONG_MAX : Z := 2 ^ 64 - 1.

Definition strtoull (s : list Z) : option (Z * list Z) :=
  let s := skip_spaces s in
  let '(neg, s) :=
    match s with
    | c :: s' => if c =? 45 then (true, s') else if c =? 43 then (false, s')
                 else (false, s)
    | [] => (false, s)
    end in
  match span_digits s with
  | ([], _) => None
  | (ds, rest) =>
      let v := fold_left dec_step ds 0 in
      Some (if ULLONG_MAX <? v then ULLONG_MAX
            else if neg then u64 (- v) else v, rest)
  end.

(** [strtol(s, NULL, 10)]: 0 when there are no digits, saturated at
    LONG_MIN and LONG_MAX. *)
Definition LONG_MAX : Z := 2 ^ 63 - 1.

Definition strtol (s : list Z) : Z :=
  let s := skip_spaces s in
  let '(neg, s) :=
    match s with
    | c :: s' => if c =? 45 then (true, s') else if c =? 43 then (false, s')
                 else (false, s)
    | [] => (false, s)
    end in
  let v := fold_left dec_step (span_digits s).1 0 in
  if (neg : bool) then Z.max (- v) (- LONG_MAX - 1) else Z.min v LONG_MAX.

(** The fields [strtok_r(_, delim, _)] returns one after the other: the
    non-empty runs between delimiters. *)
Fixpoint strtok_all (delim : Z) (s : list Z) (cur : list Z) : list (list Z) :=
  match s with
  | [] => match cur with [] => [] | _ => [reverse cur] end
  | c :: s' =>
      if c =? delim then
        match cur with
        | [] => strtok_all delim s' []
        | _ => reverse cur :: strtok_all delim s' []
        end
      else strtok_all delim s' (c :: cur)
  end.

(** The lines [getline] reads from a file: with their newlines, the last one
    perhaps without. *)
Fixpoint lines_of (s cur : list Z) : list (list Z) :=
  match s with
  | [] => match cur with [] => [] | _ => [reverse cur] end
  | c :: s => if c =? 10 then reverse (c :: cur) :: lines_of s [] else lines_of s (c :: cur)
  end.

(** ** Lemmas *)

Lemma strchr_None c s : strchr c s = None ↔ c ∉ s.
Proof.
  induction s as [|x s IH]; simpl; [split; [intros _; apply not_elem_of_nil|done]|].
  rewrite not_elem_of_cons. destruct (x =? c) eqn:E; breflect; [naive_solver|].
  destruct (strchr c s) as [[a b]|]; naive_solver.
Qed.

Lemma strchr_app c a b : c ∉ a → strchr c (a ++ c :: b) = Some (a, b).
Proof.
  induction a as [|x a IH]; simpl; intros Hn; [by rewrite Z.eqb_refl|].
  apply not_elem_of_cons in Hn as [Hne Hn].
  apply not_eq_sym, Z.eqb_neq in Hne. by rewrite Hne, IH.
Qed.

Lemma strchr_split c s a b : strchr c s = Some (a, b) → s = a ++ c :: b ∧ c ∉ a.
Proof.
  revert a. induction s as [|x s IH]; intros a; simpl; [done|].
  destruct (x =? c) eqn:E; breflect.
  - intros [= <- <-]. split; [by subst|apply not_elem_of_nil].
  - destruct (strchr c s) as [[a' b']|]; [|done]. intros [= <- <-].
    destruct (IH a') as [-> ?]; [done|]. rewrite not_elem_of_cons. naive_solver.
Qed.

Lemma has_byte_true c s : has_byte c s = true ↔ c ∈ s.
Proof.
  unfold has_byte. rewrite existsb_exists. split.
  - intros (x & Hx & ->%Z.eqb_eq). by apply list_elem_of_In.
  - intros. exists c. split; [by apply list_elem_of_In | apply Z.eqb_refl].
Qed.

Lemma has_byte_false c s : has_byte c s = false ↔ c ∉ s.
Proof. rewrite <-has_byte_true. by destruct (has_byte c s). Qed.

(** Reading back a printed number gives it. *)
Lemma dec_loop_fold fuel n acc :
  0 ≤ n < 10 ^ Z.of_nat fuel →
  fold_left dec_step (dec_loop fuel n acc) 0 = fold_left dec_step acc n.
Proof.
  revert n acc. induction fuel as [|fuel IH]; intros n acc Hn.
  - simpl in *. by replace n with 0 by lia.
  - simpl. destruct (n <? 10) eqn:E; breflect.
    + simpl. f_equal. unfold dec_step. rewrite Z.mod_small; lia.
    + rewrite IH.
      * simpl. f_equal. unfold dec_step. pose proof (Z.div_mod n 10). lia.
      * rewrite Nat2Z.inj_succ, Z.pow_succ_r in Hn by lia.
        split; [apply Z.div_pos; lia|]. apply Z.div_lt_upper_bound; lia.
Qed.

Lemma dec_fuel n : 0 ≤ n → n < 10 ^ Z.of_nat (S (Z.to_nat (Z.log2 n))).
Proof.
  intros Hn. destruct (decide (n = 0)) as [->|]; [done|].
  assert (n < 2 ^ Z.succ (Z.log2 n)) by (apply Z.log2_spec; lia).
  pose proof (Z.log2_nonneg n).
  replace (Z.of_nat (S (Z.to_nat (Z.log2 n)))) with (Z.succ (Z.log2 n)) by lia.
  eapply Z.lt_le_trans; [done|]. apply Z.pow_le_mono_l. lia.
Qed.

Lemma dec_value n : 0 ≤ n → fold_left dec_step (dec n) 0 = n.
Proof.
  intros Hn. unfold dec. rewrite dec_loop_fold; [done|].
  split; [done|]. by apply dec_fuel.
Qed.

Lemma dec_loop_digits fuel n acc :
  0 ≤ n → Forall (λ c, is_digit c = true) acc →
  Forall (λ c, is_digit c = true) (dec_loop fuel n acc).
Proof.
  revert n acc. induction fuel as [|fuel IH]; intros n acc Hn Ha; simpl; [done|].
  assert (Forall (λ c, is_digit c = true) (48 + n mod 10 :: acc)) as Ha'.
  { constructor; [|done]. pose proof (Z.mod_pos_bound n 10).
    unfold is_digit. apply andb_true_iff. rewrite !Z.leb_le. lia. }
  split_if; [done|]. apply IH; [apply Z.div_pos; lia|done].
Qed.

Lemma dec_digits n : 0 ≤ n → Forall (λ c, is_digit c = true) (dec n).
Proof. intros. apply dec_loop_digits; [done|constructor]. Qed.

Lemma dec_loop_nonempty fuel n acc : dec_loop (S fuel) n acc ≠ [].
Proof.
  revert n acc. induction fuel as [|fuel IH]; intros n acc; simpl; [by split_if|].
  split_if; [done|]. apply IH.
Qed.

Lemma strtok_fields_nonempty delim s cur :
  Forall (λ t, t ≠ []) (strtok_all delim s cur).
Proof.
  revert cur. induction s as [|c s IH]; intros cur; simpl.
  - destruct cur; constructor; [|constructor]. rewrite reverse_cons. by destruct (reverse cur).
  - split_if; [|apply IH]. destruct cur; [apply IH|]. constructor; [|apply IH].
    rewrite reverse_cons. by destruct (reverse cur).
Qed.

Lemma dec_loop_length fuel n acc k :
  n < 10 ^ Z.of_nat k → (1 ≤ k)%nat → 0 ≤ n →
  (List.length (dec_loop fuel n acc) ≤ k + List.length acc)%nat.
Proof.
  revert n acc k. induction fuel as [|fuel IH]; intros n acc k Hn Hk H0; simpl; [lia|].
  split_if; breflect; simpl; [lia|]. destruct k as [|k]; [lia|].
  rewrite Nat2Z.inj_succ, Z.pow_succ_r in Hn by lia.
  assert (k ≠ 0%nat) by (intros ->; simpl in Hn; lia).
  etransitivity; [apply (IH _ _ k); [|lia|]|simpl; lia].
  - apply Z.div_lt_upper_bound; lia.
  - apply Z.div_pos; lia.
Qed.

Lemma dec_length n k : 0 ≤ n < 10 ^ Z.of_nat k → (1 ≤ k)%nat → (List.length (dec n) ≤ k)%nat.
Proof.
  intros [??] ?. unfold dec. etransitivity; [by apply (dec_loop_length _ _ _ k)|simpl; lia].
Qed.

Lemma dec_signed_length n k :
  - 10 ^ Z.of_nat k < n < 10 ^ Z.of_nat k → (1 ≤ k)%nat → (List.length (dec_signed n) ≤ S k)%nat.
Proof.
  intros Hn ?. unfold dec_signed. split_if; breflect; simpl.
  - apply le_n_S, dec_length; lia.
  - etransitivity; [apply (dec_length _ k); lia|lia].
Qed.

Lemma snprintf_fits n text : Z.of_nat (List.length text) < n → snprintf n text = text.
Proof. intros. unfold snprintf. apply take_ge. lia. Qed.

Lemma strstr_spec needle s : strstr needle s = true ↔ ∃ a b, s = a ++ needle ++ b.
Proof.
  induction s as [|x s IH]; cbn [strstr]; rewrite orb_true_iff, bool_decide_eq_true.
  - rewrite take_nil. split; [intros [<-|]; [by exists [], []|done]|].
    intros (a & b & E). left. by destruct a, needle.
  - rewrite IH. split.
    + intros [H|(a & b & ->)]; [|by exists (x :: a), b].
      exists [], (drop (List.length needle) (x :: s)). simpl. by rewrite <-H at 1; rewrite take_drop.
    + intros (a & b & E). destruct a as [|y a]; simpl in E.
      * left. rewrite E. by rewrite take_app_length.
      * right. injection E as <- ->. by exists a, b.
Qed.

Lemma cstr_no_nul s : 0 ∉ s → cstr s = s.
Proof. intros H. unfold cstr. by apply strchr_None in H as ->. Qed.
