(* ===== verification/Ipaddr.v ===== *)
(** * ipaddr.c: CIDR prefixes

    Parsing, masking, containment and printing of [struct vg_cidr].  The
    reference semantics of a prefix is the set of addresses it covers
    ([in_cidr]); the theorems relate the byte loops of the source to it. *)

From S2P Require Import Prelude CString.
Open Scope Z_scope.

Definition AF_INET : Z := 2.
Definition AF_INET6 : Z := 10.

(** [struct vg_cidr]: [addr] is the 16-byte array of the source; an IPv4
    prefix uses its first four bytes. *)
Record vg_cidr := Cidr { family : Z; addr : list Z; prefixlen : Z }.

#[export] Instance vg_cidr_eq_dec : EqDecision vg_cidr.
Proof. solve_decision. Defined.

(** [inet_pton] and [inet_ntop] of the C library: the text form of addresses
    is a parameter of the model.  [None] is a return value other than 1. *)
Class Inet := {
  inet_pton : Z → list Z → option (list Z);
  inet_ntop : Z → list Z → list Z;
}.

(** [family == AF_INET ? 4 : 16] *)
Definition addr_bytes (f : Z) : nat := if f =? AF_INET then 4%nat else 16%nat.

(** [family == AF_INET6 ? 128 : 32] *)
Definition max_plen (f : Z) : Z := if f =? AF_INET6 then 128 else 32.

(** The loop of [vg_cidr_mask] over the bytes still to visit. *)
Fixpoint mask_loop (nbytes : nat) (bits : Z) (a : list Z) : list Z :=
  match nbytes, a with
  | O, _ => a
  | S _, [] => []
  | S n, b :: a' =>
      if 8 <=? bits then b :: mask_loop n (bits - 8) a'
      else if 0 <? bits then
        Z.land b (u8 (Z.shiftl 255 (8 - bits))) :: mask_loop n 0 a'
      else 0 :: mask_loop n bits a'
  end.

Definition vg_cidr_mask (p : vg_cidr) : vg_cidr :=
  {| family := family p;
     addr := mask_loop (addr_bytes (family p)) (prefixlen p) (addr p);
     prefixlen := prefixlen p |}.

(** [memcmp(a, b, n) == 0] *)
Definition mem_eq (n : nat) (a b : list Z) : bool :=
  bool_decide (take n a = take n b).

Definition bits_equal (a b : list Z) (bits : Z) : bool :=
  let bytes := Z.to_nat (bits / 8) in
  let rem := bits mod 8 in
  if (0 <? bits / 8) && negb (mem_eq bytes a b) then false
  else if negb (rem =? 0) then
    let mask := u8 (Z.shiftl 255 (8 - rem)) in
    Z.land (default 0 (a !! bytes)) mask =? Z.land (default 0 (b !! bytes)) mask
  else true.

Definition vg_cidr_contains (hay needle : vg_cidr) : bool :=
  if negb (family hay =? family needle) then false
  else if prefixlen needle <? prefixlen hay then false
  else bits_equal (addr hay) (addr needle) (prefixlen hay).

Definition vg_cidr_covers_or_overlaps (a b : vg_cidr) : bool :=
  vg_cidr_contains a b || vg_cidr_contains b a.

(** [None] is the return value -1. *)
Definition vg_cidr_v4_slash24 (host : vg_cidr) : option vg_cidr :=
  if negb (family host =? AF_INET) then None
  else Some (vg_cidr_mask {| family := family host; addr := addr host;
                             prefixlen := 24 |}).

Definition vg_cidr_v6_slash64 (host : vg_cidr) : option vg_cidr :=
  if negb (family host =? AF_INET6) then None
  else Some (vg_cidr_mask {| family := family host; addr := addr host;
                             prefixlen := 64 |}).

(** [ntohl] of four bytes in memory. *)
Definition be32 (m : list Z) : Z :=
  fold_left (λ acc b, acc * 256 + b) (take 4 m) 0.

(** The IPv4 loop of [vg_netmask_to_prefixlen], [i] bits above bit 0. *)
Fixpoint netmask4_loop (m : Z) (i : nat) (bits : Z) : Z :=
  match i with
  | O => bits
  | S i' => if Z.testbit m (Z.of_nat i') then netmask4_loop m i' (bits + 1)
            else bits
  end.

(** The loop over [k] inside one byte. *)
Fixpoint netmask_byte_loop (c : Z) (k : nat) (bits : Z) : Z :=
  match k with
  | O => bits
  | S k' => if Z.testbit c (Z.of_nat k') then netmask_byte_loop c k' (bits + 1)
            else bits
  end.

Fixpoint netmask6_loop (b : list Z) (bits : Z) : Z :=
  match b with
  | [] => bits
  | c :: b' => if c =? 255 then netmask6_loop b' (bits + 8)
               else netmask_byte_loop c 8 bits
  end.

Definition vg_netmask_to_prefixlen (f : Z) (mask : list Z) : Z :=
  if f =? AF_INET then netmask4_loop (be32 mask) 32 0
  else netmask6_loop (take 16 mask) 0.

(** The digit loop of [vg_parse_cidr_len]; [None] is the return value -1. *)
Fixpoint plen_loop (p : list Z) (plen : Z) : option Z :=
  match p with
  | [] => Some plen
  | c :: p' =>
      if (c <? 48) || (57 <? c) || (128 <? plen) then None
      else plen_loop p' (plen * 10 + (c - 48))
  end.

(** Bytes written at the start of a zeroed 16-byte array. *)
Definition store16 (a : list Z) : list Z := a ++ replicate (16 - length a) 0.

Section WithInet.
Context {I : Inet}.

(** [s] is the first [n] bytes at the pointer; [None] is the return value -1.
    [plen] is -1 when there is no slash. *)
Definition vg_parse_cidr_len (s : list Z) : option vg_cidr :=
  if (128 <=? Z.of_nat (length s)) || has_byte 0 s then None
  else
    tmp_plen ←
      match strchr 47 s with
      | Some (tmp, []) => None
      | Some (tmp, p) => plen ← plen_loop p 0; Some (tmp, plen)
      | None => Some (s, -1)
      end;
    let '(tmp, plen) := tmp_plen in
    let fam := if has_byte 58 tmp then AF_INET6 else AF_INET in
    let max := max_plen fam in
    a ← inet_pton fam tmp;
    if max <? plen then None
    else Some (vg_cidr_mask {| family := fam; addr := store16 a;
                               prefixlen := u8 (if plen <? 0 then max else plen) |}).

(** A NUL-terminated string; NULL is not a value of the model. *)
Definition vg_parse_cidr (s : list Z) : option vg_cidr := vg_parse_cidr_len s.

(** The text [snprintf] leaves in a buffer of [buflen] bytes (>= 1). *)
Definition vg_cidr_to_str (p : vg_cidr) (buflen : nat) : list Z :=
  take (buflen - 1)
    (inet_ntop (family p) (take (addr_bytes (family p)) (addr p))
     ++ 47 :: dec (prefixlen p)).

End WithInet.

(** ** Well-formed prefixes and their meaning *)

(** The ranges the C types and [vg_parse_cidr_len] give a prefix. *)
Record cidr_ok (p : vg_cidr) : Prop := {
  ok_family : family p = AF_INET ∨ family p = AF_INET6;
  ok_len : length (addr p) = 16%nat;
  ok_bytes : bytes_ok (addr p);
  ok_plen : 0 ≤ prefixlen p ≤ max_plen (family p);
}.

(** No bit set at or after the prefix length, in the whole array. *)
Definition cidr_canon (p : vg_cidr) : Prop :=
  ∀ i, (Z.to_nat (prefixlen p) ≤ i < 128)%nat → bit_at (addr p) i = false.

(** The address [a] is covered by [p]. *)
Definition in_cidr (p : vg_cidr) (a : list Z) : Prop :=
  ∀ i, (i < Z.to_nat (prefixlen p))%nat → bit_at a i = bit_at (addr p) i.

(** An address of the family of [p]. *)
Definition addr_ok (f : Z) (a : list Z) : Prop :=
  length a = addr_bytes f ∧ bytes_ok a.
