(* ===== verification/IpaddrThms.v ===== *)
(** * Theorems on CIDR prefixes

    The byte loops of ipaddr.c against the set semantics of prefixes, and the
    parse/print round trip. *)

From S2P Require Import Prelude CString Ipaddr.
Open Scope Z_scope.

(** ** Masks *)

Lemma mask_byte_bit r j :
  0 < r < 8 → (j < 8)%nat →
  Z.testbit (u8 (Z.shiftl 255 (8 - r))) (7 - Z.of_nat j) = bool_decide (Z.of_nat j < r).
Proof.
  intros Hr Hj.
  assert (r = 1 ∨ r = 2 ∨ r = 3 ∨ r = 4 ∨ r = 5 ∨ r = 6 ∨ r = 7) as Hc by lia.
  destruct j as [|[|[|[|[|[|[|[|j]]]]]]]]; [..|lia];
    destruct_or!; subst; reflexivity.
Qed.

Lemma mask_loop_length n bits a : length (mask_loop n bits a) = length a.
Proof.
  revert bits a. induction n as [|n IH]; intros bits [|b a]; simpl; try done.
  repeat split_if; simpl; by rewrite IH.
Qed.

Lemma land_byte b m : is_byte b → is_byte (Z.land b m).
Proof.
  intros [H1 H2]. unfold is_byte.
  assert (0 ≤ Z.land b m) by (apply Z.land_nonneg; lia). split; [done|].
  apply Z.nle_gt. intros Hge.
  assert (Z.land b m ≤ b); [|lia].
  apply Z.ldiff_le; [done|]. apply Z.bits_inj'. intros n Hn.
  rewrite Z.ldiff_spec, Z.land_spec, Z.bits_0.
  by destruct (Z.testbit b n), (Z.testbit m n).
Qed.

Lemma mask_loop_ok n bits a : bytes_ok a → bytes_ok (mask_loop n bits a).
Proof.
  revert bits a. induction n as [|n IH]; intros bits [|b a] H; simpl; try done.
  apply Forall_cons in H as [Hb H].
  repeat split_if; constructor; eauto using land_byte; try by apply IH.
  unfold is_byte; lia.
Qed.

Lemma mask_loop_bit n bits a i :
  0 ≤ bits → (n ≤ length a)%nat →
  bit_at (mask_loop n bits a) i =
    if decide (i < 8 * n)%nat then bool_decide (Z.of_nat i < bits) && bit_at a i
    else bit_at a i.
Proof.
  revert bits a i. induction n as [|n IH]; intros bits a i Hb Hl; [done|].
  destruct a as [|b a]; [simpl in *; lia|]. simpl in Hl. cbn [mask_loop].
  destruct (8 <=? bits) eqn:E8; breflect; [|destruct (0 <? bits) eqn:E0; breflect];
    rewrite !bit_at_cons; (destruct (decide (i < 8)%nat) as [Hi|Hi];
    [rewrite decide_True by lia | rewrite IH by lia;
     case_decide; [rewrite decide_True by lia|rewrite decide_False by lia; done]]).
  - rewrite bool_decide_eq_true_2 by lia. done.
  - f_equal. apply bool_decide_ext. lia.
  - rewrite Z.land_spec, mask_byte_bit by lia. apply andb_comm.
  - rewrite !bool_decide_eq_false_2 by lia. done.
  - rewrite bool_decide_eq_false_2 by lia. apply Z.bits_0.
  - rewrite !bool_decide_eq_false_2 by lia. done.
Qed.

Lemma addr_bytes_max f :
  f = AF_INET ∨ f = AF_INET6 → Z.of_nat (8 * addr_bytes f) = max_plen f.
Proof. intros [-> | ->]; reflexivity. Qed.

Lemma addr_bytes_le f : (addr_bytes f ≤ 16)%nat.
Proof. unfold addr_bytes. destruct (f =? AF_INET); lia. Qed.

Lemma mask_in_cidr p a : cidr_ok p → in_cidr (vg_cidr_mask p) a ↔ in_cidr p a.
Proof.
  intros [Hf Hl Hb Hp]. unfold in_cidr; simpl.
  pose proof (addr_bytes_max _ Hf). pose proof (addr_bytes_le (family p)).
  split; intros Hi i Hlt; specialize (Hi i Hlt); rewrite Hi, mask_loop_bit by lia;
    rewrite decide_True by lia; rewrite bool_decide_eq_true_2 by lia; done.
Qed.

Lemma mask_ok p : cidr_ok p → cidr_ok (vg_cidr_mask p).
Proof.
  intros [Hf Hl Hb Hp]. split; simpl; [done| |by apply mask_loop_ok|done].
  by rewrite mask_loop_length.
Qed.

(** Masking clears every bit after the prefix length; [store16] leaves none
    after the bytes of the family. *)
Lemma mask_canon p :
  cidr_ok p →
  (∀ i, (8 * addr_bytes (family p) ≤ i < 128)%nat → bit_at (addr p) i = false) →
  cidr_canon (vg_cidr_mask p).
Proof.
  intros [Hf Hl Hb Hp] Htail i Hi. simpl in *.
  pose proof (addr_bytes_le (family p)).
  rewrite mask_loop_bit by lia. case_decide.
  - rewrite bool_decide_eq_false_2 by lia. done.
  - apply Htail. lia.
Qed.

Lemma canon_mask_id p : cidr_ok p → cidr_canon p → vg_cidr_mask p = p.
Proof.
  intros [Hf Hl Hb Hp] Hc. destruct p as [f a n]; simpl in *.
  unfold vg_cidr_mask; simpl. f_equal.
  pose proof (addr_bytes_le f).
  apply bytes_eq_bits; [by apply mask_loop_ok|done|apply mask_loop_length|].
  rewrite mask_loop_length, Hl. intros i Hi. rewrite mask_loop_bit by lia.
  case_decide; [|done]. case_bool_decide; [done|].
  rewrite Hc; [done|]. simpl. lia.
Qed.

(** ** Comparison of leading bits *)

Lemma bit_at_take n l i : (i < 8 * n)%nat → bit_at (take n l) i = bit_at l i.
Proof.
  intros Hi. unfold bit_at. rewrite lookup_take_lt; [done|].
  apply Nat.Div0.div_lt_upper_bound; lia.
Qed.

Lemma mem_eq_bits n a b :
  bytes_ok a → bytes_ok b → (n ≤ length a)%nat → (n ≤ length b)%nat →
  mem_eq n a b = true ↔ ∀ i, (i < 8 * n)%nat → bit_at a i = bit_at b i.
Proof.
  intros Ha Hb Hla Hlb. unfold mem_eq. rewrite bool_decide_eq_true. split.
  - intros E i Hi. by rewrite <-(bit_at_take n a), <-(bit_at_take n b), E by done.
  - intros E. apply bytes_eq_bits; [by apply Forall_take|by apply Forall_take| |].
    + rewrite !length_take. lia.
    + rewrite length_take. intros i Hi. rewrite !bit_at_take by lia. apply E. lia.
Qed.

Lemma land_mask_eq a b r :
  0 < r < 8 → is_byte a → is_byte b →
  Z.land a (u8 (Z.shiftl 255 (8 - r))) = Z.land b (u8 (Z.shiftl 255 (8 - r))) ↔
  ∀ j, (Z.of_nat j < r) → Z.testbit a (7 - Z.of_nat j) = Z.testbit b (7 - Z.of_nat j).
Proof.
  intros Hr Ha Hb. split.
  - intros E j Hj. apply (f_equal (λ z, Z.testbit z (7 - Z.of_nat j))) in E.
    rewrite !Z.land_spec, mask_byte_bit in E by lia.
    rewrite bool_decide_eq_true_2 in E by lia. by rewrite !andb_true_r in E.
  - intros E. apply byte_eq; [by apply land_byte..|]. intros j Hj.
    rewrite !Z.land_spec, mask_byte_bit by lia. case_bool_decide; [|by rewrite !andb_false_r].
    by rewrite E.
Qed.

(** Reading a bit inside byte [q]. *)
Lemma bit_at_byte l q j :
  (j < 8)%nat → bit_at l (8 * q + j) = Z.testbit (default 0 (l !! q)) (7 - Z.of_nat j).
Proof.
  intros Hj. unfold bit_at.
  replace (8 * q + j)%nat with (j + q * 8)%nat by lia.
  rewrite Nat.div_add, Nat.Div0.mod_add, Nat.div_small, Nat.mod_small by lia. done.
Qed.

Lemma lookup_byte_ok l q : bytes_ok l → is_byte (default 0 (l !! q)).
Proof.
  intros H. destruct (l !! q) eqn:E; simpl; [|unfold is_byte; lia].
  by eapply Forall_lookup_1.
Qed.

(** [bits_equal] decides agreement on the first [bits] bits. *)
Lemma bits_equal_spec a b bits :
  bytes_ok a → bytes_ok b → length a = 16%nat → length b = 16%nat → 0 ≤ bits ≤ 128 →
  bits_equal a b bits = true ↔
  ∀ i, (i < Z.to_nat bits)%nat → bit_at a i = bit_at b i.
Proof.
  intros Ha Hb Hla Hlb Hbits. unfold bits_equal.
  pose proof (Z.div_mod bits 8 ltac:(lia)) as Hdm.
  pose proof (Z.mod_pos_bound bits 8 ltac:(lia)) as Hr.
  pose proof (Z.div_pos bits 8 ltac:(lia) ltac:(lia)) as Hq.
  set (q := bits / 8) in *. set (r := bits mod 8) in *.
  assert (Z.to_nat bits = 8 * Z.to_nat q + Z.to_nat r)%nat as Hn by lia.
  assert ((0 <? q) && negb (mem_eq (Z.to_nat q) a b) = false ↔
    ∀ i, (i < 8 * Z.to_nat q)%nat → bit_at a i = bit_at b i) as Hpre.
  { rewrite <-mem_eq_bits by (done || lia). destruct (0 <? q) eqn:E; breflect.
    - simpl. by rewrite negb_false_iff.
    - assert (q = 0) as -> by lia. by split. }
  destruct ((0 <? q) && negb (mem_eq (Z.to_nat q) a b)) eqn:E1.
  { split; [done|]. intros H. exfalso.
    assert (true = false); [|done]. apply Hpre. intros i Hi. apply H. lia. }
  destruct Hpre as [Hpre _]. specialize (Hpre eq_refl).
  destruct (r =? 0) eqn:E2; breflect; simpl.
  { split; [|done]. intros _ i Hi. apply Hpre. lia. }
  rewrite Z.eqb_eq, land_mask_eq by (lia || by apply lookup_byte_ok). split.
  - intros H i Hi. destruct (decide (i < 8 * Z.to_nat q)%nat); [by apply Hpre|].
    destruct (Nat.le_exists_sub (8 * Z.to_nat q) i) as (j & -> & _); [lia|].
    rewrite (Nat.add_comm j). rewrite !bit_at_byte by lia. apply H. lia.
  - intros H j Hj. rewrite <-!bit_at_byte by lia. apply H. lia.
Qed.

Lemma ok_plen_128 p : cidr_ok p → 0 ≤ prefixlen p ≤ 128.
Proof.
  intros [Hf _ _ Hp]. unfold max_plen in Hp. destruct (family p =? AF_INET6); lia.
Qed.

Lemma contains_bits hay needle :
  cidr_ok hay → cidr_ok needle →
  vg_cidr_contains hay needle = true ↔
  family hay = family needle ∧ prefixlen hay ≤ prefixlen needle ∧
  in_cidr hay (addr needle).
Proof.
  intros Hh Hn. unfold vg_cidr_contains, in_cidr.
  pose proof (ok_plen_128 _ Hh).
  destruct (family hay =? family needle) eqn:E1; breflect; simpl; [|naive_solver].
  destruct (prefixlen needle <? prefixlen hay) eqn:E2; breflect; [naive_solver lia|].
  rewrite bits_equal_spec by (apply Hh || apply Hn || lia). split.
  - intros H'. split_and!; [done..|]. intros i Hi. symmetry. by apply H'.
  - intros (_ & _ & H') i Hi. symmetry. by apply H'.
Qed.
#[export] Hint Resolve ok_plen_128 mask_ok : vg.

(** An address covered by a prefix, other than at one bit position. *)
Definition flip_at (l : list Z) (k : nat) (v : bool) (n : nat) : list Z :=
  bytes_of_bits n (λ i, if decide (i = k) then v else bit_at l i).

Lemma flip_at_ok f l k v : addr_ok f (flip_at l k v (addr_bytes f)).
Proof. split; [apply bytes_of_bits_length | apply bytes_of_bits_ok]. Qed.

Lemma flip_at_bit l k v n i :
  (i < 8 * n)%nat → bit_at (flip_at l k v n) i = if decide (i = k) then v else bit_at l i.
Proof. intros. unfold flip_at. by rewrite bit_at_bytes_of_bits. Qed.

Lemma in_cidr_take p a : cidr_ok p → in_cidr p (take (addr_bytes (family p)) a) ↔ in_cidr p a.
Proof.
  intros [Hf Hl Hb Hp]. pose proof (addr_bytes_max _ Hf). unfold in_cidr.
  split; intros H' i Hi; specialize (H' i Hi); by rewrite bit_at_take in * by lia.
Qed.

Lemma take_addr_ok p : cidr_ok p → addr_ok (family p) (take (addr_bytes (family p)) (addr p)).
Proof.
  intros Hp. split; [|apply Forall_take, Hp].
  rewrite length_take, (ok_len _ Hp). pose proof (addr_bytes_le (family p)). lia.
Qed.

Lemma in_cidr_self p : in_cidr p (addr p).
Proof. by intros i Hi. Qed.

Lemma in_cidr_trans p q a :
  prefixlen p ≤ prefixlen q → in_cidr p (addr q) → in_cidr q a → in_cidr p a.
Proof. intros Hle Hpq Hqa i Hi. rewrite Hqa by lia. by apply Hpq. Qed.

(** A prefix whose addresses are all covered by [hay] is not shorter. *)
Lemma subset_plen hay needle :
  cidr_ok hay → cidr_ok needle → family hay = family needle →
  (∀ a, addr_ok (family needle) a → in_cidr needle a → in_cidr hay a) →
  prefixlen hay ≤ prefixlen needle.
Proof.
  intros Hh Hn Hf Hsub. apply Z.nlt_ge. intros Hlt.
  pose proof (addr_bytes_max _ (ok_family _ Hn)) as Hmax.
  pose proof (ok_plen _ Hh). pose proof (ok_plen _ Hn). rewrite Hf in *.
  set (k := Z.to_nat (prefixlen needle)).
  set (a := flip_at (addr needle) k (negb (bit_at (addr hay) k))
              (addr_bytes (family needle))).
  assert (in_cidr hay a) as Ha.
  { apply Hsub; [apply flip_at_ok|]. intros i Hi. unfold a.
    rewrite flip_at_bit by lia. rewrite decide_False by lia. done. }
  specialize (Ha k ltac:(lia)). unfold a in Ha. rewrite flip_at_bit in Ha by lia.
  rewrite decide_True in Ha by done. by destruct (bit_at (addr hay) k).
Qed.

(** [vg_cidr_contains(hay, needle)] returns 1 exactly when both prefixes
    have one family and every address of [needle] is an address of [hay]. *)
Theorem cidr_contains_subset (hay needle : vg_cidr) :
  cidr_ok hay → cidr_ok needle →
  vg_cidr_contains hay needle = true ↔
  family hay = family needle ∧
  ∀ a, addr_ok (family needle) a → in_cidr needle a → in_cidr hay a.
Proof.
  intros Hh Hn. rewrite contains_bits by done. split.
  - intros (Hf & Hle & Hin). split; [done|]. intros a _. by apply in_cidr_trans.
  - intros (Hf & Hsub). split_and!; [done|by apply subset_plen|].
    rewrite <-in_cidr_take by done. rewrite Hf. apply Hsub; [by apply take_addr_ok|].
    by apply in_cidr_take, in_cidr_self.
Qed.

Lemma overlap_intersect p q :
  cidr_ok p → cidr_ok q →
  vg_cidr_covers_or_overlaps p q = true ↔
  family p = family q ∧ ∃ a, addr_ok (family p) a ∧ in_cidr p a ∧ in_cidr q a.
Proof.
  intros Hp Hq. unfold vg_cidr_covers_or_overlaps.
  rewrite orb_true_iff, !contains_bits by done. split.
  - intros [(Hf & Hle & Hin)|(Hf & Hle & Hin)]; (split; [done|]).
    + exists (take (addr_bytes (family p)) (addr q)). split_and!.
      * rewrite Hf. by apply take_addr_ok.
      * by apply in_cidr_take.
      * rewrite Hf. by apply in_cidr_take, in_cidr_self.
    + exists (take (addr_bytes (family p)) (addr p)). split_and!.
      * by apply take_addr_ok.
      * by apply in_cidr_take, in_cidr_self.
      * rewrite <-Hf. by apply in_cidr_take.
  - intros (Hf & a & _ & Hpa & Hqa).
    destruct (decide (prefixlen p ≤ prefixlen q)); [left|right]; (split_and!; [done|lia|]);
      intros i Hi; rewrite <-Hpa by lia; rewrite <-Hqa by lia; done.
Qed.

(** C36: [vg_cidr_covers_or_overlaps] returns 1 exactly when some address lies
    in both prefixes: prefixes either nest or are disjoint. *)
Theorem cidr_overlap_iff_common_address (p q : vg_cidr) :
  cidr_ok p → cidr_ok q →
  vg_cidr_covers_or_overlaps p q = true ↔
  family p = family q ∧ ∃ a, addr_ok (family p) a ∧ in_cidr p a ∧ in_cidr q a.
Proof. apply overlap_intersect. Qed.

(** ** Aggregation prefixes *)

Lemma slash_spec f n host net :
  (f = AF_INET ∧ n = 24 ∨ f = AF_INET6 ∧ n = 64) →
  cidr_ok host → cidr_canon host → family host = f → n ≤ prefixlen host →
  net = vg_cidr_mask {| family := family host; addr := addr host; prefixlen := n |} →
  cidr_ok net ∧ cidr_canon net ∧ prefixlen net = n ∧ family net = f ∧
  vg_cidr_contains net host = true.
Proof.
  intros Hfn Hok Hcan Hf Hn ->.
  set (q := {| family := family host; addr := addr host; prefixlen := n |}).
  assert (cidr_ok q) as Hq.
  { destruct Hok. split; simpl; try done. subst. unfold max_plen.
    destruct Hfn as [[Hf ->]|[Hf ->]]; rewrite Hf; simpl; lia. }
  assert (cidr_ok (vg_cidr_mask q)) as Hmq by by apply mask_ok.
  split_and!; [done| |done|done|].
  - apply mask_canon; [done|]. simpl. intros i Hi. apply Hcan. simpl in *.
    pose proof (addr_bytes_max _ (ok_family _ Hok)). pose proof (ok_plen _ Hok). lia.
  - apply contains_bits; [done..|]. split_and!; [done..|].
    apply mask_in_cidr; [done|]. by intros i Hi.
Qed.

(** ** Netmasks *)

Lemma netmask4_loop_run m i bits :
  ∃ r, (r ≤ i)%nat ∧ netmask4_loop m i bits = bits + Z.of_nat r ∧
    (∀ j, (i - r ≤ j < i)%nat → Z.testbit m (Z.of_nat j) = true) ∧
    ((r < i)%nat → Z.testbit m (Z.of_nat (i - r - 1)) = false).
Proof.
  revert bits. induction i as [|i IH]; intros bits; simpl.
  - exists 0%nat. split_and!; [lia..|intros; lia|lia].
  - destruct (Z.testbit m (Z.of_nat i)) eqn:E.
    + destruct (IH (bits + 1)) as (r & Hr & -> & Hone & Hz).
      exists (S r). split_and!; [lia|lia| |].
      * intros j Hj. destruct (decide (j = i)) as [->|]; [done|]. apply Hone. lia.
      * intros Hlt. replace (S i - S r - 1)%nat with (i - r - 1)%nat by lia. apply Hz. lia.
    + exists 0%nat. split_and!; [lia|lia|intros; lia|].
      intros _. by replace (S i - 0 - 1)%nat with i by lia.
Qed.

Lemma netmask_byte_loop_eq c k bits : netmask_byte_loop c k bits = netmask4_loop c k bits.
Proof. revert bits. induction k; intros; simpl; [done|]. by rewrite IHk. Qed.

Lemma netmask6_loop_run b bits :
  bytes_ok b →
  ∃ r, (r ≤ 8 * length b)%nat ∧ netmask6_loop b bits = bits + Z.of_nat r ∧
    (∀ j, (j < r)%nat → bit_at b j = true) ∧
    ((r < 8 * length b)%nat → bit_at b r = false).
Proof.
  revert bits. induction b as [|c b IH]; intros bits Hb; cbn [netmask6_loop length].
  - exists 0%nat. split_and!; [lia..|intros; lia|lia].
  - apply Forall_cons in Hb as [Hc Hb].
    destruct (c =? 255) eqn:E; breflect.
    + destruct (IH (bits + 8) Hb) as (r & Hr & -> & Hone & Hz).
      exists (r + 8)%nat. split_and!; [lia|lia| |].
      * intros j Hj. rewrite bit_at_cons. case_decide; [|apply Hone; lia].
        subst c. assert (Z.of_nat j < 8) by lia.
        destruct j as [|[|[|[|[|[|[|[|j]]]]]]]]; [reflexivity..|lia].
      * intros Hlt. rewrite bit_at_cons, decide_False by lia.
        replace (r + 8 - 8)%nat with r by lia. apply Hz. lia.
    + rewrite netmask_byte_loop_eq.
      destruct (netmask4_loop_run c 8 bits) as (r & Hr & -> & Hone & Hz).
      assert (r ≠ 8)%nat as Hr8.
      { intros ->. apply E. apply byte_eq; [done|by vm_compute|].
        intros i Hi. replace (7 - Z.of_nat i) with (Z.of_nat (7 - i)) by lia.
        rewrite Hone by lia. destruct i as [|[|[|[|[|[|[|[|i]]]]]]]]; [reflexivity..|lia]. }
      exists r. split_and!; [lia|lia| |].
      * intros j Hj. rewrite bit_at_cons, decide_True by lia.
        replace (7 - Z.of_nat j) with (Z.of_nat (7 - j)) by lia. apply Hone. lia.
      * intros _. rewrite bit_at_cons, decide_True by lia.
        replace (7 - Z.of_nat r) with (Z.of_nat (8 - r - 1)) by lia. apply Hz. lia.
Qed.

Lemma testbit_shift8 x b i :
  is_byte b → 0 ≤ i →
  Z.testbit (x * 256 + b) i = if decide (i < 8) then Z.testbit b i else Z.testbit x (i - 8).
Proof.
  intros [Hb1 Hb2] Hi. case_decide.
  - rewrite <-(Z.mod_pow2_bits_low _ 8) by lia. change (2 ^ 8) with 256.
    rewrite Z.add_comm, Z.mod_add, Z.mod_small by lia. done.
  - replace i with (i - 8 + 8) at 1 by lia. rewrite <-Z.div_pow2_bits by lia.
    change (2 ^ 8) with 256. rewrite Z.div_add_l, (Z.div_small b) by lia. f_equal. lia.
Qed.

Lemma be32_bit m i :
  bytes_ok m → (4 ≤ length m)%nat → (i < 32)%nat →
  Z.testbit (be32 m) (Z.of_nat (31 - i)) = bit_at m i.
Proof.
  intros Hm Hl Hi. destruct m as [|a [|b [|c [|d m]]]]; simpl in Hl; try lia.
  repeat (apply Forall_cons in Hm as [? Hm]).
  unfold be32. change (take 4 (a :: b :: c :: d :: m)) with [a; b; c; d].
  cbn [fold_left].
  repeat (rewrite testbit_shift8 by (done || lia); case_decide);
    repeat (rewrite bit_at_cons; case_decide); try lia;
    first [done | f_equal; lia].
Qed.

(** [vg_netmask_to_prefixlen] returns the number of leading one bits of
    the mask, for both families. *)
Theorem netmask_prefixlen_leading_ones (f : Z) (mask : list Z) :
  f = AF_INET ∨ f = AF_INET6 → addr_ok f mask →
  ∃ r : nat, vg_netmask_to_prefixlen f mask = Z.of_nat r ∧
    Z.of_nat r ≤ max_plen f ∧
    (∀ j, (j < r)%nat → bit_at mask j = true) ∧
    (Z.of_nat r < max_plen f → bit_at mask r = false).
Proof.
  intros Hf [Hl Hb]. unfold vg_netmask_to_prefixlen.
  pose proof (addr_bytes_max f Hf) as Hmax.
  destruct (f =? AF_INET) eqn:E; breflect.
  - subst f. change (addr_bytes AF_INET) with 4%nat in *.
    destruct (netmask4_loop_run (be32 mask) 32 0) as (r & Hr & -> & Hone & Hz).
    exists r. split_and!; [lia|lia| |].
    + intros j Hj. rewrite <-be32_bit by (done || lia). apply Hone. lia.
    + intros Hlt. rewrite <-be32_bit by (done || lia).
      replace (31 - r)%nat with (32 - r - 1)%nat by lia. apply Hz. lia.
  - destruct Hf as [|Hf]; [done|]. subst f. change (addr_bytes AF_INET6) with 16%nat in *.
    rewrite take_ge by lia.
    destruct (netmask6_loop_run mask 0 Hb) as (r & Hr & -> & Hone & Hz).
    exists r. split_and!; [lia|lia|done|]. intros. apply Hz. lia.
Qed.

(** ** Parsing and printing *)

(** What the development assumes of [inet_pton] and [inet_ntop]: an accepted
    text yields as many bytes as the family has, and the printed form of an
    address is accepted again, fits [INET6_ADDRSTRLEN], consists of
    hexadecimal digits, dots and colons, and has a colon exactly for IPv6. *)
Definition addr_char (c : Z) : bool :=
  is_digit c || ((65 <=? c) && (c <=? 70)) || ((97 <=? c) && (c <=? 102)) || (c =? 46) || (c =? 58).

Class InetLaws (I : Inet) : Prop := {
  pton_ok : ∀ f s a, f = AF_INET ∨ f = AF_INET6 → inet_pton f s = Some a → addr_ok f a;
  ntop_pton : ∀ f a, f = AF_INET ∨ f = AF_INET6 → addr_ok f a →
    inet_pton f (inet_ntop f a) = Some a;
  ntop_len : ∀ f a, f = AF_INET ∨ f = AF_INET6 → addr_ok f a →
    (length (inet_ntop f a) < 46)%nat;
  ntop_chars : ∀ f a, f = AF_INET ∨ f = AF_INET6 → addr_ok f a →
    Forall (λ c, addr_char c = true) (inet_ntop f a) ∧ ((58 ∈ inet_ntop f a) ↔ f = AF_INET6);
}.

Lemma addr_char_not c : addr_char c = true → isspace c = false ∧ c ≠ 0 ∧ c ≠ 44 ∧ c ≠ 47.
Proof.
  unfold addr_char, is_digit, isspace. rewrite !orb_true_iff, !andb_true_iff, !Z.leb_le, !Z.eqb_eq.
  intros H. split; [|lia]. rewrite orb_false_iff, andb_false_iff, Z.eqb_neq, !Z.leb_gt. lia.
Qed.

Lemma addr_text_not l : Forall (λ c, addr_char c = true) l → (0 ∉ l) ∧ (47 ∉ l).
Proof.
  rewrite Forall_forall. intros H. split; intros Hc%H%addr_char_not; tauto.
Qed.

Lemma plen_loop_bound p plen n :
  0 ≤ plen → plen_loop p plen = Some n → 0 ≤ n.
Proof.
  revert plen. induction p as [|c p IH]; intros plen Hp; simpl; [naive_solver|].
  destruct (c <? 48) eqn:E1, (57 <? c) eqn:E2, (128 <? plen) eqn:E3; simpl; try done.
  breflect. intros H. eapply IH; [|done]. lia.
Qed.

Lemma store16_bits f a i :
  addr_ok f a → (8 * addr_bytes f ≤ i < 128)%nat → bit_at (store16 a) i = false.
Proof.
  intros [Hl Hb] Hi. unfold bit_at, store16.
  rewrite lookup_app_r.
  - destruct (replicate (16 - length a) 0 !! (i / 8 - length a)%nat) eqn:E.
    + apply lookup_replicate in E as [-> _]. simpl. apply Z.bits_0.
    + simpl. apply Z.bits_0.
  - rewrite Hl. apply Nat.div_le_lower_bound; lia.
Qed.

Lemma store16_length f a : addr_ok f a → length (store16 a) = 16%nat.
Proof.
  intros [Hl _]. unfold store16. rewrite length_app, length_replicate.
  pose proof (addr_bytes_le f). lia.
Qed.

Lemma store16_bytes a : bytes_ok a → bytes_ok (store16 a).
Proof.
  intros. unfold store16. apply Forall_app. split; [done|].
  apply Forall_replicate. unfold is_byte. lia.
Qed.

Lemma take_store16 f a : addr_ok f a → take (addr_bytes f) (store16 a) = a.
Proof. intros [<- _]. unfold store16. by rewrite take_app_length. Qed.

Lemma u8_small x : 0 ≤ x < 256 → u8 x = x.
Proof. intros. unfold u8. by rewrite Z.mod_small. Qed.

Section Parse.
Context {I : Inet} {IL : InetLaws I}.

(** Every prefix the parser accepts is in range and masked. *)
Lemma parse_ok s p : vg_parse_cidr_len s = Some p → cidr_ok p ∧ cidr_canon p.
Proof.
  unfold vg_parse_cidr_len. destruct ((128 <=? Z.of_nat (length s)) || has_byte 0 s); [done|].
  intros H. apply bind_Some in H as ([tmp plen] & Hsplit & H).
  assert (-1 ≤ plen) as Hplen.
  { destruct (strchr 47 s) as [[tmp' [|c q]]|] eqn:Es; [done| |].
    - apply bind_Some in Hsplit as (n & Hn & [= -> ->]).
      apply plen_loop_bound in Hn; lia.
    - injection Hsplit as <- <-. lia. }
  set (fam := if has_byte 58 tmp then AF_INET6 else AF_INET) in *.
  assert (fam = AF_INET ∨ fam = AF_INET6) as Hfam
    by (unfold fam; destruct (has_byte 58 tmp); auto).
  apply bind_Some in H as (a & Ha & H).
  apply pton_ok in Ha; [|done].
  destruct (max_plen fam <? plen) eqn:Em; [done|]. breflect. injection H as <-.
  assert (0 ≤ (if plen <? 0 then max_plen fam else plen) ≤ max_plen fam ∧ max_plen fam ≤ 128)
    as [Hr Hm].
  { assert (32 ≤ max_plen fam ≤ 128) by (destruct Hfam as [-> | ->]; vm_compute; split; congruence).
    destruct (plen <? 0) eqn:E; breflect; lia. }
  rewrite u8_small by lia.
  assert (cidr_ok {| family := fam; addr := store16 a;
    prefixlen := if plen <? 0 then max_plen fam else plen |}) as Hok.
  { split; simpl; [done|by eapply store16_length|apply store16_bytes, Ha|done]. }
  split; [by apply mask_ok|]. apply mask_canon; [done|]. intros. by eapply store16_bits.
Qed.

Lemma plen_loop_dec n : 0 ≤ n ≤ 128 → plen_loop (dec n) 0 = Some n.
Proof.
  intros Hn.
  assert (forallb (λ k, bool_decide (plen_loop (dec (Z.of_nat k)) 0 = Some (Z.of_nat k)))
            (seq 0 129) = true) as Hall by by vm_compute.
  rewrite forallb_forall in Hall. specialize (Hall (Z.to_nat n)).
  rewrite bool_decide_eq_true, Z2Nat.id in Hall by lia. apply Hall.
  apply in_seq. lia.
Qed.

Lemma dec_cons n : ∃ c l, dec n = c :: l.
Proof.
  pose proof (dec_loop_nonempty (Z.to_nat (Z.log2 n)) n []) as Hne. unfold dec.
  destruct (dec_loop _ _ _); [done|]. eauto.
Qed.

Lemma dec_plen_length n : 0 ≤ n ≤ 128 → (length (dec n) ≤ 3)%nat ∧ 0 ∉ dec n.
Proof.
  intros Hn.
  assert (forallb (λ k, (length (dec (Z.of_nat k)) <=? 3)%nat && negb (has_byte 0 (dec (Z.of_nat k))))
            (seq 0 129) = true) as Hall by by vm_compute.
  rewrite forallb_forall in Hall. specialize (Hall (Z.to_nat n)).
  rewrite Z2Nat.id in Hall by lia.
  assert (In (Z.to_nat n) (seq 0 129)) as Hin by (apply in_seq; lia).
  apply Hall, andb_true_iff in Hin as [H1 H2].
  split; [by apply Nat.leb_le|]. by apply has_byte_false, negb_true_iff.
Qed.

(** The bytes of the family hold all of a masked prefix. *)
Lemma canon_store16 p :
  cidr_ok p → cidr_canon p → store16 (take (addr_bytes (family p)) (addr p)) = addr p.
Proof.
  intros Hok Hcan. set (f := family p). assert (addr_ok f (take (addr_bytes f) (addr p))) as Ha
    by by apply take_addr_ok.
  apply bytes_eq_bits; [apply store16_bytes, Ha|apply Hok|
    rewrite (store16_length f) by done; by rewrite (ok_len _ Hok)|].
  rewrite (store16_length f) by done. intros i Hi.
  destruct (decide (i < 8 * addr_bytes f)%nat).
  - rewrite <-(bit_at_take (addr_bytes f)) by done. rewrite take_store16 by done.
    by rewrite bit_at_take.
  - rewrite (store16_bits f) by (done || lia). symmetry. apply Hcan.
    pose proof (addr_bytes_max f (ok_family _ Hok)). pose proof (ok_plen _ Hok).
    unfold f in *. lia.
Qed.

(** Parsing the text [vg_cidr_to_str] prints gives the prefix back. *)
Lemma parse_print p n :
  cidr_ok p → cidr_canon p → (80 ≤ n)%nat →
  vg_parse_cidr_len (vg_cidr_to_str p n) = Some p.
Proof.
  intros Hok Hcan Hn. unfold vg_cidr_to_str.
  set (f := family p). set (a := take (addr_bytes f) (addr p)).
  assert (addr_ok f a) as Ha by by apply take_addr_ok.
  pose proof (ntop_len f a (ok_family _ Hok) Ha) as Hlen.
  destruct (ntop_chars f a (ok_family _ Hok) Ha) as [[H0 H47]%addr_text_not H58].
  pose proof (ok_plen_128 _ Hok) as Hpl.
  destruct (dec_plen_length _ Hpl) as [Hd Hd0].
  rewrite take_ge by (rewrite length_app; simpl; lia).
  unfold vg_parse_cidr_len.
  rewrite (proj2 (has_byte_false 0 _)) by
    (rewrite elem_of_app, elem_of_cons; naive_solver).
  replace (128 <=? _) with false
    by (symmetry; apply Z.leb_gt; rewrite length_app; simpl; lia).
  cbn [orb]. rewrite strchr_app by done.
  destruct (dec_cons (prefixlen p)) as (c & l & Hcl). rewrite Hcl. rewrite <-Hcl.
  rewrite plen_loop_dec by done. cbn [mbind option_bind].
  assert ((if has_byte 58 (inet_ntop f a) then AF_INET6 else AF_INET) = f) as ->.
  { destruct (has_byte 58 _) eqn:E.
    - apply has_byte_true, H58 in E. by rewrite E.
    - apply has_byte_false in E. destruct (ok_family _ Hok); [done|].
      exfalso. by apply E, H58. }
  rewrite ntop_pton by (apply Hok || done). cbn [mbind option_bind].
  replace (max_plen f <? prefixlen p) with false
    by (symmetry; apply Z.ltb_ge; apply Hok).
  replace (prefixlen p <? 0) with false by (symmetry; apply Z.ltb_ge; lia).
  rewrite u8_small by lia. f_equal.
  unfold a, f. rewrite canon_store16 by done. destruct p; by apply canon_mask_id.
Qed.

End Parse.
