(* ===== verification/InetRef.v ===== *)
(** * A reference instance of the address text interface

    The development takes [inet_pton]/[inet_ntop] as a parameter ([Inet]) with
    named laws ([InetLaws]).  This file gives one executable implementation
    that satisfies the laws: dotted quads without leading zeros, and IPv6
    groups of one to four hexadecimal digits with at most one [::].  It is
    what the concrete examples of the development run on. *)

From S2P Require Import Prelude CString Ipaddr IpaddrThms.
Open Scope Z_scope.

(** The fields between separators, empty ones included. *)
Fixpoint fields (sep : Z) (s : list Z) : list (list Z) :=
  match s with
  | [] => [[]]
  | c :: s' =>
      if c =? sep then [] :: fields sep s'
      else match fields sep s' with
           | f :: fs => (c :: f) :: fs
           | [] => [[c]]
           end
  end.

Fixpoint join (sep : Z) (fs : list (list Z)) : list Z :=
  match fs with
  | [] => []
  | [f] => f
  | f :: fs => f ++ sep :: join sep fs
  end.

Definition octet (s : list Z) : option Z :=
  let v := fold_left dec_step s 0 in
  if forallb is_digit s && (1 <=? length s)%nat && (length s <=? 3)%nat
     && (v <=? 255) && bool_decide (s = dec v)
  then Some v else None.

Definition hex_val (c : Z) : option Z :=
  if is_digit c then Some (c - 48)
  else if (97 <=? c) && (c <=? 102) then Some (c - 87)
  else if (65 <=? c) && (c <=? 70) then Some (c - 55)
  else None.

Definition hex_digit (v : Z) : Z := if v <? 10 then 48 + v else 87 + v.

(** One 16-bit group as two bytes. *)
Definition group (s : list Z) : option (list Z) :=
  if (1 <=? length s)%nat && (length s <=? 4)%nat then
    ds ← mapM hex_val s;
    let v := fold_left (λ acc d, (acc * 16 + d) mod 65536) ds 0 in
    Some [(v / 256) mod 256; v mod 256]
  else None.

Definition groups (s : list Z) : option (list Z) :=
  match s with
  | [] => Some []
  | _ => mjoin <$> mapM group (fields 58 s)
  end.

(** The text around the first [::]. *)
Fixpoint split_gap (s : list Z) : option (list Z * list Z) :=
  match s with
  | a :: ((b :: s') as t) =>
      if (a =? 58) && (b =? 58) then Some ([], s')
      else match split_gap t with
           | Some (x, y) => Some (a :: x, y)
           | None => None
           end
  | _ => None
  end.

Definition pton4 (s : list Z) : option (list Z) :=
  a ← mapM octet (fields 46 s);
  if bool_decide (length a = 4%nat) then Some a else None.

Definition pton6 (s : list Z) : option (list Z) :=
  match split_gap s with
  | Some (x, y) =>
      a ← groups x; b ← groups y;
      if (length a + length b <=? 14)%nat
      then Some (a ++ replicate (16 - (length a + length b)) 0 ++ b) else None
  | None => a ← groups s; if bool_decide (length a = 16%nat) then Some a else None
  end.

Definition byte_hex (b : Z) : list Z := [hex_digit (b / 16); hex_digit (b mod 16)].

Fixpoint pairs (a : list Z) : list (list Z) :=
  match a with
  | h :: l :: a' => (byte_hex h ++ byte_hex l) :: pairs a'
  | _ => []
  end.

#[export] Instance ref_inet : Inet := {
  inet_pton f s := if f =? AF_INET then pton4 s else pton6 s;
  inet_ntop f a := if f =? AF_INET then join 46 (dec <$> a) else join 58 (pairs a);
}.

(** ** The laws *)

Lemma fields_join sep fs :
  fs ≠ [] → Forall (λ f, sep ∉ f) fs → fields sep (join sep fs) = fs.
Proof.
  intros Hne Hfs.
  assert (∀ f rest, sep ∉ f → fields sep rest ≠ [] →
    fields sep (f ++ sep :: rest) = f :: fields sep rest) as Hstep.
  { intros f rest. induction f as [|c f IH]; simpl; intros Hn Hr; [by rewrite Z.eqb_refl|].
    apply not_elem_of_cons in Hn as [Hc Hn].
    replace (c =? sep) with false by (symmetry; apply Z.eqb_neq; congruence).
    by rewrite IH. }
  assert (∀ f, sep ∉ f → fields sep f = [f]) as Hone.
  { induction f as [|c f IH]; simpl; intros Hn; [done|].
    apply not_elem_of_cons in Hn as [Hc Hn].
    replace (c =? sep) with false by (symmetry; apply Z.eqb_neq; congruence).
    by rewrite IH. }
  induction Hfs as [|f fs Hf Hfs IH]; [done|]. destruct fs as [|g fs]; [by apply Hone|].
  change (join sep (f :: g :: fs)) with (f ++ sep :: join sep (g :: fs)).
  rewrite Hstep, IH; done || by rewrite IH.
Qed.

Lemma elem_of_join sep fs c :
  c ∈ join sep fs → c = sep ∨ ∃ f, f ∈ fs ∧ c ∈ f.
Proof.
  induction fs as [|f fs IH]; simpl; [set_solver|].
  destruct fs as [|g fs]; [set_solver|].
  rewrite elem_of_app, elem_of_cons. intros [?|[?|H]]; [set_solver..|].
  destruct (IH H) as [?|(h & ? & ?)]; set_solver.
Qed.

Lemma forall_bytes (P : Z → bool) :
  forallb (λ k, P (Z.of_nat k)) (seq 0 256) = true → ∀ b, is_byte b → P b = true.
Proof.
  intros Hall b [H1 H2]. rewrite forallb_forall in Hall.
  specialize (Hall (Z.to_nat b)). rewrite Z2Nat.id in Hall by lia.
  apply Hall, in_seq. lia.
Qed.

Lemma octet_dec b : is_byte b → octet (dec b) = Some b.
Proof.
  intros Hb. apply (bool_decide_eq_true_1 (octet (dec b) = Some b)).
  revert b Hb. apply forall_bytes. by vm_compute.
Qed.

Lemma dec_byte_chars b :
  is_byte b → (length (dec b) ≤ 3)%nat ∧ Forall (λ c, is_digit c = true) (dec b).
Proof.
  intros Hb. split; [|apply dec_digits; destruct Hb; lia].
  apply Nat.leb_le. revert b Hb. apply forall_bytes. by vm_compute.
Qed.

Lemma digit_not c : is_digit c = true → c ≠ 46 ∧ c ≠ 58 ∧ c ≠ 47 ∧ c ≠ 0.
Proof. unfold is_digit. intros. breflect. lia. Qed.

Definition hexish (c : Z) : bool := bool_decide (is_Some (hex_val c)).

Lemma byte_hex_spec b :
  is_byte b →
  ∃ x y, byte_hex b = [hex_digit x; hex_digit y] ∧ b = x * 16 + y ∧
    0 ≤ x < 16 ∧ 0 ≤ y < 16.
Proof.
  intros [H1 H2]. exists (b / 16), (b mod 16).
  pose proof (Z.div_mod b 16 ltac:(lia)). pose proof (Z.mod_pos_bound b 16 ltac:(lia)).
  split_and!; [done|lia|apply Z.div_pos; lia|apply Z.div_lt_upper_bound; lia|lia|lia].
Qed.

Lemma hex_val_digit x : 0 ≤ x < 16 → hex_val (hex_digit x) = Some x.
Proof.
  intros Hx.
  assert (x = 0 ∨ x = 1 ∨ x = 2 ∨ x = 3 ∨ x = 4 ∨ x = 5 ∨ x = 6 ∨ x = 7 ∨ x = 8 ∨
    x = 9 ∨ x = 10 ∨ x = 11 ∨ x = 12 ∨ x = 13 ∨ x = 14 ∨ x = 15) by lia.
  destruct_or!; subst; reflexivity.
Qed.

Lemma hex_val_not c v : hex_val c = Some v → c ≠ 46 ∧ c ≠ 58 ∧ c ≠ 47 ∧ c ≠ 0.
Proof.
  unfold hex_val. destruct (is_digit c) eqn:E; [intros; by apply digit_not|].
  destruct ((97 <=? c) && (c <=? 102)) eqn:E1; [intros; breflect; lia|].
  destruct ((65 <=? c) && (c <=? 70)) eqn:E2; [intros; breflect; lia|done].
Qed.

Lemma group_pair h l : is_byte h → is_byte l → group (byte_hex h ++ byte_hex l) = Some [h; l].
Proof.
  intros Hh Hl.
  destruct (byte_hex_spec h Hh) as (x & y & -> & -> & Hx & Hy).
  destruct (byte_hex_spec l Hl) as (z & w & -> & -> & Hz & Hw).
  unfold group. cbn [app length Nat.leb andb mapM].
  rewrite !hex_val_digit by done. cbn [mbind option_bind mret option_ret fold_left].
  rewrite (Z.mod_small (0 * 16 + x)), (Z.mod_small (_ * 16 + y)),
    (Z.mod_small (_ * 16 + z)), (Z.mod_small (_ * 16 + w)) by lia.
  replace (((((0 * 16 + x) * 16 + y) * 16 + z) * 16 + w))
    with ((x * 16 + y) * 256 + (z * 16 + w)) by lia.
  rewrite Z.div_add_l, (Z.div_small (z * 16 + w)), Z.mod_small by lia.
  rewrite (Z.add_comm (_ * 256)), Z.mod_add, Z.mod_small by lia.
  by rewrite Z.add_0_r.
Qed.

(** Texts made of hexadecimal digits. *)
Definition hex_text (f : list Z) : Prop := Forall (λ c, is_Some (hex_val c)) f.

Lemma hex_text_not f c : hex_text f → c = 46 ∨ c = 58 ∨ c = 47 ∨ c = 0 → c ∉ f.
Proof.
  intros Hf Hc Hin. unfold hex_text in Hf. rewrite Forall_forall in Hf.
  destruct (Hf c Hin) as [v Hv]. apply hex_val_not in Hv. lia.
Qed.

Lemma byte_hex_text b : is_byte b → hex_text (byte_hex b).
Proof.
  intros Hb. destruct (byte_hex_spec b Hb) as (x & y & -> & _ & Hx & Hy).
  repeat constructor; rewrite hex_val_digit by done; eauto.
Qed.

Lemma split_gap_cons a b s :
  (a =? 58) = false → split_gap (b :: s) = None → split_gap (a :: b :: s) = None.
Proof. intros Ha Hs. cbn in *. rewrite Ha. cbn in *. by rewrite Hs. Qed.

Lemma split_gap_app f rest :
  f ≠ [] → hex_text f → rest ≠ [] → head rest ≠ Some 58 → split_gap rest = None →
  split_gap (f ++ 58 :: rest) = None.
Proof.
  intros Hne Hf Hr Hh Hs. induction Hf as [|c f [v Hc] Hf IH]; [done|].
  apply hex_val_not in Hc as (_ & Hc & _). apply Z.eqb_neq in Hc.
  destruct f as [|d f].
  - simpl. rewrite Hc. simpl. destruct rest as [|e rest]; [done|].
    simpl in Hh. replace (e =? 58) with false
      by (symmetry; apply Z.eqb_neq; congruence).
    simpl in *. by rewrite Hs.
  - apply split_gap_cons; [done|]. by apply IH.
Qed.

Lemma split_gap_hex f : hex_text f → split_gap f = None.
Proof.
  intros Hf. induction Hf as [|c f [v Hc] Hf IH]; [done|]. destruct f as [|d f]; [done|].
  apply hex_val_not in Hc as (_ & Hc & _). apply Z.eqb_neq in Hc.
  by apply split_gap_cons.
Qed.

Lemma join_head fs :
  fs ≠ [] → Forall (λ f, f ≠ [] ∧ hex_text f) fs →
  join 58 fs ≠ [] ∧ head (join 58 fs) ≠ Some 58.
Proof.
  intros Hne Hf. destruct Hf as [|f fs [Hfn Hft] Hf]; [done|].
  destruct f as [|c f]; [done|]. apply Forall_cons in Hft as [[v Hc] _].
  apply hex_val_not in Hc as (_ & Hc & _).
  destruct fs; simpl; split; congruence.
Qed.

Lemma split_gap_join fs :
  fs ≠ [] → Forall (λ f, f ≠ [] ∧ hex_text f) fs → split_gap (join 58 fs) = None.
Proof.
  intros Hne Hf. induction Hf as [|f fs [Hfn Hft] Hf IH]; [done|].
  destruct fs as [|g fs]; [by apply split_gap_hex|].
  destruct (join_head (g :: fs)) as [H1 H2]; [done..|].
  by apply split_gap_app; [..|apply IH].
Qed.

Lemma pairs_text a :
  bytes_ok a → Forall (λ f, f ≠ [] ∧ hex_text f) (pairs a).
Proof.
  assert (∀ n a, (length a ≤ n)%nat → bytes_ok a →
    Forall (λ f, f ≠ [] ∧ hex_text f) (pairs a)) as H; [|by apply (H (length a))].
  induction n as [|n IH]; intros [|h [|l a']] Hl Ha; simpl in *; try constructor; try lia.
  - apply Forall_cons in Ha as [Hh Ha]. apply Forall_cons in Ha as [Hl' Ha].
    split; [done|]. apply (Forall_app_2 _ (byte_hex h)); by apply byte_hex_text.
  - do 2 apply Forall_cons in Ha as [_ Ha]. apply IH; [lia|done].
Qed.

Lemma mapM_group_pairs n a :
  length a = (2 * n)%nat → bytes_ok a → mjoin <$> mapM group (pairs a) = Some a.
Proof.
  revert a. induction n as [|n IH]; intros a Hl Ha; [by destruct a|].
  destruct a as [|h [|l a]]; simpl in Hl; try lia.
  apply Forall_cons in Ha as [Hh Ha]. apply Forall_cons in Ha as [Hl' Ha].
  cbn [pairs mapM]. rewrite group_pair by done. simpl.
  specialize (IH a ltac:(lia) Ha). destruct (mapM group (pairs a)); simplify_eq/=. done.
Qed.

Lemma pairs_nonempty a : length a = 16%nat → pairs a ≠ [].
Proof. by destruct a as [|? [|? a]]. Qed.

Lemma pton6_ntop a : addr_ok AF_INET6 a → pton6 (join 58 (pairs a)) = Some a.
Proof.
  intros [Hl Ha]. change (addr_bytes AF_INET6) with 16%nat in Hl.
  pose proof (pairs_text a Ha) as Hp. pose proof (pairs_nonempty a Hl) as Hne.
  unfold pton6. rewrite split_gap_join by done. unfold groups.
  destruct (join_head _ Hne Hp) as [Hj _].
  destruct (join 58 (pairs a)) as [|c j] eqn:Ej; [done|]. rewrite <-Ej.
  rewrite fields_join; [|done|].
  - rewrite (mapM_group_pairs 8) by done. simpl. by rewrite bool_decide_eq_true_2.
  - eapply Forall_impl; [done|]. intros f [_ Hf]. by apply hex_text_not; [|auto].
Qed.

Lemma mapM_octet_dec a : bytes_ok a → mapM octet (dec <$> a) = Some a.
Proof.
  intros Ha. induction Ha as [|b a Hb Ha IH]; [done|].
  cbn [fmap list_fmap mapM]. rewrite octet_dec by done. simpl.
  change (list_fmap _ _ dec a) with (dec <$> a). by rewrite IH.
Qed.

Lemma pton4_ntop a : addr_ok AF_INET a → pton4 (join 46 (dec <$> a)) = Some a.
Proof.
  intros [Hl Ha]. change (addr_bytes AF_INET) with 4%nat in Hl.
  unfold pton4. rewrite fields_join.
  - rewrite mapM_octet_dec by done. simpl. by rewrite bool_decide_eq_true_2.
  - by destruct a.
  - apply Forall_fmap. eapply Forall_impl; [done|]. intros b Hb Hin.
    destruct (dec_byte_chars b Hb) as [_ Hd]. rewrite Forall_forall in Hd.
    by destruct (digit_not _ (Hd _ Hin)).
Qed.

Lemma octet_byte s v : octet s = Some v → is_byte v.
Proof.
  unfold octet. set (w := fold_left dec_step s 0).
  destruct (forallb is_digit s && (1 <=? length s)%nat && (length s <=? 3)%nat
     && (w <=? 255) && bool_decide (s = dec w)) eqn:E; [|done].
  breflect. intros [= <-]. rewrite forallb_forall in *.
  assert (∀ acc, 0 ≤ acc → 0 ≤ fold_left dec_step s acc) as Hpos.
  { clear -H. induction s as [|c s IH]; intros acc Hacc; simpl in *; [done|].
    apply IH; [intros; apply H; auto|]. specialize (H c (or_introl eq_refl)).
    unfold is_digit in H. breflect. unfold dec_step. lia. }
  split; [apply Hpos|]; lia.
Qed.

Lemma mapM_octet_ok fs a : mapM octet fs = Some a → bytes_ok a.
Proof.
  intros H. apply mapM_Some in H. induction H; constructor; eauto using octet_byte.
Qed.

Lemma group_ok s b : group s = Some b → bytes_ok b.
Proof.
  unfold group. destruct ((1 <=? length s)%nat && (length s <=? 4)%nat); [|done].
  intros H. apply bind_Some in H as (ds & _ & [= <-]).
  repeat constructor; apply Z.mod_pos_bound; lia.
Qed.

Lemma groups_ok s b : groups s = Some b → bytes_ok b.
Proof.
  unfold groups. destruct s as [|c s]; [intros [= <-]; constructor|].
  intros H. apply fmap_Some in H as (gs & Hgs & ->). apply mapM_Some in Hgs.
  induction Hgs as [|f g fs gs Hg Hgs IH]; [constructor|].
  cbn. apply Forall_app. split; [by eapply group_ok|done].
Qed.

Lemma pton6_ok s a : pton6 s = Some a → addr_ok AF_INET6 a.
Proof.
  unfold pton6, addr_ok. change (addr_bytes AF_INET6) with 16%nat.
  destruct (split_gap s) as [[x y]|].
  - intros H. apply bind_Some in H as (g1 & H1 & H). apply bind_Some in H as (g2 & H2 & H).
    destruct (length g1 + length g2 <=? 14)%nat eqn:E; [|done].
    apply Nat.leb_le in E. injection H as <-.
    rewrite !length_app, length_replicate. split; [lia|].
    apply Forall_app; split; [by eapply groups_ok|].
    apply Forall_app; split; [|by eapply groups_ok].
    apply Forall_replicate. unfold is_byte. lia.
  - intros H. apply bind_Some in H as (g & Hg & H). case_bool_decide; [|done].
    injection H as <-. split; [done|]. by eapply groups_ok.
Qed.

Lemma join_dec_chars a c :
  bytes_ok a → c ∈ join 46 (dec <$> a) → is_digit c = true ∨ c = 46.
Proof.
  intros Ha [->|(f & Hf & Hc)]%elem_of_join; [by right|left].
  apply list_elem_of_fmap in Hf as (b & -> & Hb). unfold bytes_ok in Ha.
  rewrite Forall_forall in Ha.
  destruct (dec_byte_chars b (Ha _ Hb)) as [_ Hd]. rewrite Forall_forall in Hd. by apply Hd.
Qed.

Lemma join_pairs_chars a c :
  bytes_ok a → c ∈ join 58 (pairs a) → is_Some (hex_val c) ∨ c = 58.
Proof.
  intros Ha [->|(f & Hf & Hc)]%elem_of_join; [by right|left].
  pose proof (pairs_text a Ha) as Hp. rewrite Forall_forall in Hp.
  destruct (Hp f Hf) as [_ Ht]. unfold hex_text in Ht. rewrite Forall_forall in Ht. by apply Ht.
Qed.

Lemma ref_ntop_len f a :
  f = AF_INET ∨ f = AF_INET6 → addr_ok f a → (length (inet_ntop f a) < 46)%nat.
Proof.
  intros [-> | ->] [Hl Ha]; simpl.
  - change (addr_bytes AF_INET) with 4%nat in Hl.
    destruct a as [|a [|b [|c [|d [|]]]]]; simpl in Hl; try lia.
    repeat (apply Forall_cons in Ha as [? Ha]).
    destruct (dec_byte_chars a) as [? _], (dec_byte_chars b) as [? _],
      (dec_byte_chars c) as [? _], (dec_byte_chars d) as [? _]; [done..|].
    simpl. repeat (rewrite length_app; simpl). lia.
  - change (addr_bytes AF_INET6) with 16%nat in Hl.
    do 16 (destruct a as [|? a]; [simpl in Hl; lia|]). destruct a; [|simpl in Hl; lia].
    vm_compute. lia.
Qed.

Lemma hex_addr_char c : is_Some (hex_val c) → addr_char c = true.
Proof.
  intros [v Hv]. unfold hex_val in Hv. unfold addr_char.
  destruct (is_digit c); [done|]. destruct ((97 <=? c) && (c <=? 102)); [by rewrite !orb_true_r|].
  by destruct ((65 <=? c) && (c <=? 70)).
Qed.

Lemma ref_ntop_chars f a :
  f = AF_INET ∨ f = AF_INET6 → addr_ok f a →
  Forall (λ c, addr_char c = true) (inet_ntop f a) ∧ ((58 ∈ inet_ntop f a) ↔ f = AF_INET6).
Proof.
  intros [-> | ->] [Hl Ha]; simpl; (split; [apply Forall_forall; intros c|]).
  - intros [Hc| ->]%join_dec_chars; [|done..]. unfold addr_char. by rewrite Hc.
  - split; [|done]. by intros [|]%join_dec_chars.
  - intros [Hc| ->]%join_pairs_chars; [by apply hex_addr_char|done..].
  - split; [done|]. intros _. change (addr_bytes AF_INET6) with 16%nat in Hl.
    destruct a as [|? [|? [|? [|? a]]]]; simpl in Hl; try lia.
    change (58 ∈ (byte_hex z ++ byte_hex z0) ++ 58 :: join 58 (pairs (z1 :: z2 :: a))).
    apply elem_of_app. right. apply elem_of_cons. by left.
Qed.

#[export] Instance ref_inet_laws : InetLaws ref_inet.
Proof.
  split.
  - intros f s a [-> | ->] H; simpl in H.
    + unfold pton4 in H. apply bind_Some in H as (b & Hb & H).
      case_bool_decide; [|done]. injection H as <-. split; [done|]. by eapply mapM_octet_ok.
    + by eapply pton6_ok.
  - intros f a [-> | ->] Ha; simpl; [by apply pton4_ntop | by apply pton6_ntop].
  - apply ref_ntop_len.
  - apply ref_ntop_chars.
Qed.
