(* ===== verification/IpaddrMain.v ===== *)
(** * Prefixes: text round trips and concrete instances

    The two main theorems on parsing and printing, and instances of the
    theorems on prefixes at concrete addresses, on the [inet_pton] and
    [inet_ntop] of [InetRef]. *)

From Stdlib Require Import String.
From S2P Require Import Prelude CString Ipaddr IpaddrThms InetRef.
Open Scope Z_scope.

Section Text.
Context {I : Inet} {IL : InetLaws I}.

(** C37: what [vg_parse_cidr_len] accepts is a prefix in range whose host
    bits are zero, and printing it gives a text that parses to the same
    prefix: parsing normalises. *)
Theorem parse_cidr_normalises s p :
  vg_parse_cidr_len s = Some p →
  cidr_ok p ∧ cidr_canon p ∧ vg_parse_cidr_len (vg_cidr_to_str p 80) = Some p.
Proof. intros [Hok Hc]%parse_ok. split_and!; [done..|]. by apply parse_print. Qed.

(** Printing and parsing a masked prefix is the identity, in any buffer
    of at least 80 bytes. *)
Theorem print_parse_roundtrip p n :
  cidr_ok p → cidr_canon p → (80 ≤ n)%nat → vg_parse_cidr (vg_cidr_to_str p n) = Some p.
Proof. apply parse_print. Qed.
End Text.

(** ** Instances *)

Definition net24 : vg_cidr := Cidr AF_INET (store16 [203; 0; 113; 0]) 24.
Definition host32 : vg_cidr := Cidr AF_INET (store16 [203; 0; 113; 9]) 32.

Lemma net24_ok : cidr_ok net24.
Proof. split; [by left|done| |done]. vm_compute. repeat constructor; congruence. Defined.

Lemma host32_ok : cidr_ok host32.
Proof. split; [by left|done| |done]. vm_compute. repeat constructor; congruence. Defined.

Lemma net24_canon : cidr_canon net24.
Proof.
  intros i [H1 H2]. change (Z.to_nat (prefixlen net24)) with 24%nat in H1.
  do 24 (destruct i as [|i]; [lia|]). do 104 (destruct i as [|i]; [reflexivity|]). lia.
Defined.

(** Instance of [cidr_contains_subset]. *)
Lemma cidr_contains_subset_witness :
  family net24 = family host32
    ∧ ∀ a, addr_ok AF_INET a → in_cidr host32 a → in_cidr net24 a.
Proof. exact (proj1 (cidr_contains_subset net24 host32 net24_ok host32_ok) eq_refl). Defined.

(** Instance of [cidr_overlap_iff_common_address]. *)
Lemma cidr_overlap_iff_common_address_witness :
  ∃ a, addr_ok AF_INET a ∧ in_cidr host32 a ∧ in_cidr net24 a.
Proof.
  exact (proj2 (proj1 (cidr_overlap_iff_common_address host32 net24 host32_ok net24_ok) eq_refl)).
Defined.

(** Instance of [netmask_prefixlen_leading_ones]: 255.255.252.0. *)
Lemma netmask_prefixlen_leading_ones_witness :
  ∃ r : nat, vg_netmask_to_prefixlen AF_INET [255; 255; 252; 0] = Z.of_nat r ∧ Z.of_nat r ≤ 32
    ∧ (∀ j, (j < r)%nat → bit_at [255; 255; 252; 0] j = true)
    ∧ (Z.of_nat r < 32 → bit_at [255; 255; 252; 0] r = false).
Proof.
  apply (netmask_prefixlen_leading_ones AF_INET [255; 255; 252; 0]); [by left|].
  split; [done|]. repeat constructor; vm_compute; congruence.
Defined.

(** Instance of [parse_cidr_normalises]: host bits are cleared. *)
Lemma parse_cidr_normalises_witness :
  cidr_ok net24 ∧ cidr_canon net24 ∧ vg_parse_cidr_len (vg_cidr_to_str net24 80) = Some net24.
Proof. apply (parse_cidr_normalises (bs "203.0.113.77/24")). vm_compute. reflexivity. Defined.

(** Instance of [print_parse_roundtrip]. *)
Lemma print_parse_roundtrip_witness : vg_parse_cidr (vg_cidr_to_str net24 96) = Some net24.
Proof. apply (print_parse_roundtrip net24 96); [exact net24_ok|exact net24_canon|lia]. Defined.
