(* ===== verification/Lists.v ===== *)
(** * list.h: intrusive lists

    The pointer operations of the source over an explicit memory, and the
    sequences they represent.  [Dlist] models [struct vg_list] (circular,
    doubly linked, sentinel head), [Hlist] models [struct vg_hlist_head] and
    [struct vg_hlist_node] (bucket chains whose [pprev] points at whatever
    points to the node).  A pointer is an [option]: [None] is NULL, and
    dereferencing it makes an operation return [None]. *)

From S2P Require Import Prelude.

Module Dlist.
Section Dlist.
Context {L : Type} `{Countable L}.

(** [struct vg_list] *)
Record vg_list := Node { prev : option L; next : option L }.

(** Memory of list nodes; a location never written holds zero bytes. *)
Abbreviation heap := (gmap L vg_list).

Definition lget (h : heap) (l : L) : vg_list := default (Node None None) (h !! l).
Definition set_prev (h : heap) (l : L) (v : option L) : heap :=
  <[l := Node v (next (lget h l))]> h.
Definition set_next (h : heap) (l : L) (v : option L) : heap :=
  <[l := Node (prev (lget h l)) v]> h.

Definition vg_list_init (h : heap) (head : L) : heap :=
  set_next (set_prev h head (Some head)) head (Some head).

Definition vg_list_empty (h : heap) (head : L) : bool :=
  bool_decide (next (lget h head) = Some head).

Definition vg_list_add_tail (h : heap) (node head : L) : option heap :=
  let h := set_prev h node (prev (lget h head)) in
  let h := set_next h node (Some head) in
  last ← prev (lget h head);
  let h := set_next h last (Some node) in
  Some (set_prev h head (Some node)).

Definition vg_list_del (h : heap) (node : L) : option heap :=
  p ← prev (lget h node);
  let h := set_next h p (next (lget h node)) in
  n ← next (lget h node);
  let h := set_prev h n (prev (lget h node)) in
  let h := set_prev h node (Some node) in
  Some (set_next h node (Some node)).

(** ** The sequence a memory represents *)

(** Consecutive nodes of [l] point at each other. *)
Fixpoint chain (h : heap) (l : list L) : Prop :=
  match l with
  | a :: ((b :: _) as t) =>
      next (lget h a) = Some b ∧ prev (lget h b) = Some a ∧ chain h t
  | _ => True
  end.

(** The list at [head] holds the nodes [xs], in order. *)
Definition dlist (h : heap) (head : L) (xs : list L) : Prop :=
  NoDup (head :: xs) ∧ chain h (head :: xs ++ [head]).

Lemma lget_set_prev h l v l' :
  lget (set_prev h l v) l' = if decide (l = l') then Node v (next (lget h l)) else lget h l'.
Proof. unfold lget at 1, set_prev. rewrite lookup_insert. by case_decide. Qed.

Lemma lget_set_next h l v l' :
  lget (set_next h l v) l' = if decide (l = l') then Node (prev (lget h l)) v else lget h l'.
Proof. unfold lget at 1, set_next. rewrite lookup_insert. by case_decide. Qed.

(** Evaluates reads of freshly written locations. *)
Local Ltac lsimpl :=
  repeat (rewrite ?lget_set_prev, ?lget_set_next in *;
          first [rewrite decide_True by congruence
                |rewrite decide_False by congruence
                |case_decide; simplify_eq]);
  cbn [prev next] in *.

Lemma chain_app h l1 x l2 :
  chain h (l1 ++ x :: l2) ↔ chain h (l1 ++ [x]) ∧ chain h (x :: l2).
Proof.
  induction l1 as [|a l1 IH]; simpl.
  - destruct l2; tauto.
  - destruct l1 as [|b l1]; simpl in *; tauto.
Qed.

(** A chain depends only on its interior links. *)
Lemma chain_ext h h' l :
  (∀ a, a ∈ removelast l → next (lget h' a) = next (lget h a)) →
  (∀ a, a ∈ tail l → prev (lget h' a) = prev (lget h a)) →
  chain h l → chain h' l.
Proof.
  induction l as [|a [|b l] IH]; [done..|]. intros Hn Hp (H1 & H2 & H3).
  cbn [removelast tail] in *. split_and!.
  - rewrite Hn; [done|]. apply elem_of_cons; by left.
  - rewrite Hp; [done|]. apply elem_of_cons; by left.
  - apply IH; [| |done].
    + intros x Hx. apply Hn. apply elem_of_cons. by right.
    + intros x Hx. apply Hp. apply elem_of_cons. by right.
Qed.

Lemma dlist_frame h h' head xs :
  (∀ l, l ∈ head :: xs → lget h' l = lget h l) → dlist h head xs → dlist h' head xs.
Proof.
  intros Heq [Hnd Hc]. split; [done|].
  assert (∀ a, a ∈ head :: xs ++ [head] → lget h' a = lget h a) as Heq'.
  { intros a Ha. apply Heq. rewrite elem_of_cons, elem_of_app, list_elem_of_singleton in Ha.
    rewrite elem_of_cons. tauto. }
  eapply chain_ext; [| |done]; intros a Ha; rewrite Heq'; try done.
  - rewrite app_comm_cons, removelast_last in Ha. rewrite app_comm_cons, elem_of_app. by left.
  - by apply elem_of_cons; right.
Qed.

Lemma dlist_init h head :
  dlist (vg_list_init h head) head [] ∧
  ∀ l, l ≠ head → lget (vg_list_init h head) l = lget h l.
Proof.
  unfold vg_list_init. split.
  - split; [apply NoDup_singleton|]. simpl.
    rewrite !lget_set_next, !lget_set_prev, !decide_True by done. done.
  - intros l Hl. lsimpl. done.
Qed.

Lemma dlist_empty h head xs :
  dlist h head xs → vg_list_empty h head = bool_decide (xs = []).
Proof.
  intros [Hnd Hc]. unfold vg_list_empty. apply bool_decide_ext.
  destruct xs as [|x xs]; simpl in Hc; destruct Hc as (Hn & _); rewrite Hn; [by split|].
  apply NoDup_cons in Hnd as [Hnd _]. split; [|done]. intros [= ->].
  exfalso. apply Hnd, elem_of_cons. by left.
Qed.

Lemma dlist_first h head xs :
  dlist h head xs → next (lget h head) = Some (default head (hd_error xs)).
Proof. intros [_ Hc]. destruct xs as [|x xs]; simpl in *; tauto. Qed.

Lemma dlist_next h head xs x ys :
  dlist h head (xs ++ x :: ys) → next (lget h x) = Some (default head (hd_error ys)).
Proof.
  intros [_ Hc]. rewrite <-app_assoc in Hc.
  change (chain h ((head :: xs) ++ x :: (ys ++ [head]))) in Hc.
  rewrite chain_app in Hc. destruct Hc as [_ Hc].
  destruct ys as [|y ys]; simpl in *; tauto.
Qed.

Lemma dlist_next_prev h head xs x ys :
  dlist h head (xs ++ x :: ys) → prev (lget h (default head (hd_error ys))) = Some x.
Proof.
  intros [_ Hc]. rewrite <-app_assoc in Hc.
  change (chain h ((head :: xs) ++ x :: (ys ++ [head]))) in Hc.
  rewrite chain_app in Hc. destruct Hc as [_ Hc].
  destruct ys as [|y ys]; simpl in *; tauto.
Qed.

(** The node before the sentinel. *)
Lemma dlist_last h head xs :
  dlist h head xs → prev (lget h head) = Some (List.last xs head).
Proof.
  intros [_ Hc]. destruct (exists_last (l := head :: xs)) as (l & a & E); [done|].
  change (chain h ((head :: xs) ++ [head])) in Hc.
  rewrite E, <-app_assoc in Hc. change (chain h (l ++ a :: [head])) in Hc.
  rewrite chain_app in Hc. destruct Hc as (_ & _ & Hc & _). rewrite Hc. f_equal.
  destruct xs as [|x xs]; [by destruct l as [|? [|]]; simplify_eq/=|].
  change (List.last (x :: xs) head) with (List.last (head :: x :: xs) head).
  by rewrite E, last_last.
Qed.

Lemma chain_cons2 h a b l :
  chain h (a :: b :: l) ↔
  next (lget h a) = Some b ∧ prev (lget h b) = Some a ∧ chain h (b :: l).
Proof. done. Qed.

(** The last node of the open list [head :: xs]. *)
Lemma chain_last h head xs t :
  chain h (head :: xs ++ t) ↔ chain h (head :: xs) ∧ chain h (List.last xs head :: t).
Proof.
  revert head. induction xs as [|x xs IH]; intros head.
  - cbn [app List.last]. split; [|tauto]. done.
  - cbn [app]. rewrite !chain_cons2, IH.
    replace (List.last (x :: xs) head) with (List.last xs x); [tauto|].
    clear. revert x head. induction xs as [|y xs IH]; intros; [done|].
    change (List.last (y :: xs) x = List.last (y :: xs) head).
    by rewrite <-!IH.
Qed.

Lemma last_elem (head : L) xs : List.last xs head ∈ head :: xs.
Proof.
  induction xs as [|x xs IH]; [set_solver|]. destruct xs as [|y xs]; [set_solver|].
  change (List.last (x :: y :: xs) head) with (List.last (y :: xs) head).
  revert IH. rewrite !elem_of_cons. tauto.
Qed.

(** The last node is not one of the nodes before it. *)
Lemma removelast_not_last (head : L) xs a :
  NoDup (head :: xs) → a ∈ removelast (head :: xs) → a ∈ head :: xs ∧ a ≠ List.last xs head.
Proof.
  intros Hnd Ha. destruct (exists_last (l := head :: xs)) as (l0 & p & E); [done|].
  assert (List.last xs head = p) as ->.
  { destruct xs as [|x xs]; [by destruct l0 as [|? [|]]; simplify_eq/=|].
    change (List.last (x :: xs) head) with (List.last (head :: x :: xs) head).
    by rewrite E, last_last. }
  rewrite E in *. rewrite removelast_last in Ha. apply NoDup_app in Hnd as (_ & Hnd & _).
  split; [set_solver|]. intros ->. eapply Hnd; [done|set_solver].
Qed.

Lemma dlist_add_tail h head xs node :
  dlist h head xs → node ∉ head :: xs →
  ∃ h', vg_list_add_tail h node head = Some h' ∧ dlist h' head (xs ++ [node]) ∧
    ∀ l, l ∉ node :: head :: xs → lget h' l = lget h l.
Proof.
  intros Hd Hnode. pose proof (dlist_last _ _ _ Hd) as Hlast. destruct Hd as [Hnd Hc].
  pose proof (last_elem head xs) as Hpin. remember (List.last xs head) as p eqn:Ep.
  assert (node ≠ head ∧ node ≠ p) as [Hnh Hnp] by (split; intros ->; set_solver).
  unfold vg_list_add_tail.
  set (h1 := set_next (set_prev h node (prev (lget h head))) node (Some head)).
  assert (prev (lget h1 head) = Some p) as -> by (unfold h1; lsimpl; done).
  cbn [mbind option_bind]. eexists. split; [done|].
  apply chain_last in Hc as [Hc _]. pose proof Hnd as [Hhead Hnd']%NoDup_cons.
  split; [split|].
  - rewrite app_comm_cons. apply NoDup_app. split_and!; [done| |apply NoDup_singleton].
    by intros a Ha ->%list_elem_of_singleton.
  - rewrite <-app_assoc. cbn [app]. apply chain_last. rewrite <-?Ep. split.
    + eapply chain_ext; [| |done].
      * intros a Ha. apply removelast_not_last in Ha as [Ha ?]; [|done]. rewrite <-Ep in *.
        assert (a ≠ node) by (intros ->; done). unfold h1; lsimpl; done.
      * intros a Ha. cbn [tail] in Ha.
        assert (a ≠ head ∧ a ≠ node) as [? ?] by (split; intros ->; set_solver).
        unfold h1; lsimpl; done.
    + rewrite !chain_cons2. unfold h1; split_and!; lsimpl; done.
  - intros l Hl. assert (l ≠ node ∧ l ≠ head ∧ l ≠ p) as (? & ? & ?).
    { split_and!; intros ->; set_solver. }
    unfold h1. lsimpl. done.
Qed.

(** What [NoDup] says around one node of a circular list. *)
Lemma nodup_around (head : L) xs x ys n r :
  NoDup (head :: xs ++ x :: ys) → ys ++ [head] = n :: r →
  NoDup (head :: xs) ∧ NoDup (n :: r) ∧ (x ∉ head :: xs) ∧ (x ∉ n :: r) ∧ (n ∉ xs) ∧
  (List.last xs head ∉ ys) ∧ NoDup (head :: xs ++ ys).
Proof.
  intros Hnd Er.
  assert (NoDup (n :: r)) as Hnr.
  { rewrite <-Er. apply NoDup_cons in Hnd as [Hh Hnd]. apply NoDup_app in Hnd as (_ & _ & Hnd).
    apply NoDup_cons in Hnd as [_ Hnd]. apply NoDup_app. split_and!; [done| |apply NoDup_singleton].
    intros a Ha ->%list_elem_of_singleton. apply Hh. set_solver. }
  assert (∀ a, a ∈ n :: r ↔ a ∈ ys ∨ a = head) as Hin.
  { intros a. rewrite <-Er. set_solver. }
  assert (NoDup (head :: xs ++ ys)) as Hnd'.
  { apply (sublist_NoDup _ (head :: xs ++ x :: ys)); [done|].
    apply sublist_skip, sublist_app; [done|]. by apply sublist_cons. }
  rewrite NoDup_cons, NoDup_app, NoDup_cons in Hnd. destruct Hnd as (H1 & H2 & H3 & H4 & H5).
  split_and!; [apply NoDup_cons; set_solver|done|set_solver| | | |done].
  - rewrite Hin. set_solver.
  - intros Hn. assert (n ∈ ys ∨ n = head) as [Hy | ->] by (apply Hin; set_solver); [|set_solver].
    eapply H3; [done|]. apply elem_of_cons. by right.
  - intros Hl. pose proof (last_elem head xs) as [Hp|Hp]%elem_of_cons.
    + rewrite Hp in Hl. set_solver.
    + eapply H3; [done|]. apply elem_of_cons. by right.
Qed.

Lemma dlist_del h head xs x ys :
  dlist h head (xs ++ x :: ys) →
  ∃ h', vg_list_del h x = Some h' ∧ dlist h' head (xs ++ ys) ∧
    ∀ l, l ∉ head :: xs ++ x :: ys → lget h' l = lget h l.
Proof.
  intros [Hnd Hc]. rewrite <-app_assoc in Hc. cbn [app] in Hc.
  apply chain_last in Hc as [Hc1 Hc2].
  pose proof (last_elem head xs) as Hpin. remember (List.last xs head) as p eqn:Ep.
  destruct (ys ++ [head]) as [|n r] eqn:Er; [by destruct ys|].
  destruct (nodup_around _ _ _ _ _ _ Hnd Er) as (Hnx & Hnr & Hxx & Hxy & Hn & Hp & Hnd').
  rewrite <-Ep in Hp.
  assert (n ∈ head :: ys) as Hnin.
  { assert (n ∈ ys ++ [head]) by (rewrite Er; apply elem_of_cons; by left). set_solver. }
  rewrite !chain_cons2 in Hc2. destruct Hc2 as (Hpx & Hxp & Hxn & Hnp & Hc3).
  assert (x ≠ p ∧ x ≠ n) as [? ?]
    by (split; [congruence | intros ->; apply Hxy, elem_of_cons; by left]).
  unfold vg_list_del. rewrite Hxp. cbn [mbind option_bind].
  assert (next (lget (set_next h p (next (lget h x))) x) = Some n) as -> by (lsimpl; done).
  cbn [mbind option_bind]. eexists. split; [done|]. split; [split; [done|]|].
  - rewrite <-app_assoc. apply chain_last. rewrite <-Ep, Er. split.
    + eapply chain_ext; [| |done].
      * intros a Ha. apply removelast_not_last in Ha as [Ha ?]; [|done]. rewrite <-Ep in *.
        assert (a ≠ x) by (intros ->; done). lsimpl; done.
      * intros a Ha. cbn [tail] in Ha.
        assert (a ≠ n ∧ a ≠ x) as [? ?] by (split; intros ->; set_solver). lsimpl; done.
    + rewrite chain_cons2. split_and!; [lsimpl; done..|]. eapply chain_ext; [| |done].
      * intros a Ha. rewrite <-Er, removelast_last in Ha.
        assert (a ≠ p ∧ a ≠ x) as [? ?]; [|lsimpl; done].
        split; intros ->; [done|]. apply Hxy. rewrite <-Er. set_solver.
      * intros a Ha. cbn [tail] in Ha. apply NoDup_cons in Hnr as [Hnr _].
        assert (a ≠ n ∧ a ≠ x) as [? ?] by (split; intros ->; set_solver). lsimpl; done.
  - intros l Hl. assert (l ≠ x ∧ l ≠ p ∧ l ≠ n) as (? & ? & ?); [|lsimpl; done].
    split_and!; intros ->; set_solver.
Qed.

End Dlist.
Arguments vg_list : clear implicits.
End Dlist.

Module Hlist.
Section Hlist.
Context {B N : Type} `{Countable B} `{Countable N}.

(** What a [struct vg_hlist_node **] points at: the [first] field of a bucket
    or the [next] field of a node. *)
Inductive slot := SHead (b : B) | SNode (n : N).

(** Memory of bucket heads and nodes; an absent entry is NULL. *)
Record hmem := HMem {
  first : gmap B N;
  hnext : gmap N N;
  pprev : gmap N slot;
}.

Definition set_first (m : hmem) (b : B) (v : option N) : hmem :=
  HMem (partial_alter (λ _, v) b (first m)) (hnext m) (pprev m).
Definition set_hnext (m : hmem) (n : N) (v : option N) : hmem :=
  HMem (first m) (partial_alter (λ _, v) n (hnext m)) (pprev m).
Definition set_pprev (m : hmem) (n : N) (v : option slot) : hmem :=
  HMem (first m) (hnext m) (partial_alter (λ _, v) n (pprev m)).

(** Read and write through a [pprev] pointer. *)
Definition rd_slot (m : hmem) (s : slot) : option N :=
  match s with SHead b => first m !! b | SNode n => hnext m !! n end.
Definition wr_slot (m : hmem) (s : slot) (v : option N) : hmem :=
  match s with SHead b => set_first m b v | SNode n => set_hnext m n v end.

Definition vg_hlist_add_head (m : hmem) (node : N) (b : B) : hmem :=
  let m := set_hnext m node (first m !! b) in
  let m := match hnext m !! node with
           | Some nx => set_pprev m nx (Some (SNode node))
           | None => m
           end in
  let m := set_first m b (Some node) in
  set_pprev m node (Some (SHead b)).

Definition vg_hlist_del (m : hmem) (node : N) : option hmem :=
  pp ← pprev m !! node;
  let m := wr_slot m pp (hnext m !! node) in
  let m := match hnext m !! node with
           | Some nx => set_pprev m nx (pprev m !! node)
           | None => m
           end in
  Some (set_pprev (set_hnext m node None) node None).

(** ** The chain a bucket represents *)

Fixpoint hchain (m : hmem) (s : slot) (xs : list N) : Prop :=
  match xs with
  | [] => rd_slot m s = None
  | x :: xs' => rd_slot m s = Some x ∧ pprev m !! x = Some s ∧ hchain m (SNode x) xs'
  end.

Definition bucket (m : hmem) (b : B) (xs : list N) : Prop :=
  NoDup xs ∧ hchain m (SHead b) xs.

(** Two memories agree outside bucket [b] and the nodes [xs]. *)
Definition same_outside (m m' : hmem) (b : B) (xs : list N) : Prop :=
  (∀ b', b' ≠ b → first m' !! b' = first m !! b') ∧
  (∀ n, n ∉ xs → hnext m' !! n = hnext m !! n ∧ pprev m' !! n = pprev m !! n).

Lemma hchain_ext m m' s xs :
  rd_slot m' s = rd_slot m s →
  (∀ x, x ∈ xs → hnext m' !! x = hnext m !! x ∧ pprev m' !! x = pprev m !! x) →
  hchain m s xs → hchain m' s xs.
Proof.
  revert s. induction xs as [|x xs IH]; intros s Hs Hx; cbn [hchain].
  - congruence.
  - destruct (Hx x) as [Hx1 Hx2]; [set_solver|]. intros (H1 & H2 & H3).
    split_and!; [congruence..|]. apply IH; [done| |done]. intros y Hy. apply Hx. set_solver.
Qed.

Lemma bucket_frame m m' b b' xs ys :
  same_outside m m' b xs → b' ≠ b → (∀ n, n ∈ ys → n ∉ xs) →
  bucket m b' ys → bucket m' b' ys.
Proof.
  intros [Hf Hn] Hb Hd [Hnd Hc]. split; [done|]. eapply hchain_ext; [| |done].
  - simpl. by apply Hf.
  - intros x Hx. by apply Hn, Hd.
Qed.

Lemma set_hnext_lookup m n v n' :
  hnext (set_hnext m n v) !! n' = if decide (n = n') then v else hnext m !! n'.
Proof. simpl. by rewrite lookup_partial_alter; case_decide. Qed.
Lemma set_pprev_lookup m n v n' :
  pprev (set_pprev m n v) !! n' = if decide (n = n') then v else pprev m !! n'.
Proof. simpl. by rewrite lookup_partial_alter; case_decide. Qed.
Lemma set_first_lookup m b v b' :
  first (set_first m b v) !! b' = if decide (b = b') then v else first m !! b'.
Proof. simpl. by rewrite lookup_partial_alter; case_decide. Qed.

Local Ltac hsimpl :=
  cbn [set_first set_hnext set_pprev first hnext pprev rd_slot wr_slot];
  repeat (rewrite lookup_partial_alter;
          first [rewrite decide_True by congruence
                |rewrite decide_False by congruence
                |case_decide; simplify_eq]).

Lemma bucket_add_head m b xs node :
  bucket m b xs → node ∉ xs →
  bucket (vg_hlist_add_head m node b) b (node :: xs) ∧
  same_outside m (vg_hlist_add_head m node b) b (node :: xs).
Proof.
  intros [Hnd Hc] Hn. unfold vg_hlist_add_head.
  rewrite set_hnext_lookup, decide_True by done.
  destruct xs as [|x xs]; cbn [hchain rd_slot] in Hc.
  - rewrite Hc. split; [split|split].
    + apply NoDup_singleton.
    + cbn [hchain]. split_and!; hsimpl; done.
    + intros b' Hb. hsimpl. done.
    + intros n Hn'. assert (node ≠ n) by set_solver. split; hsimpl; done.
  - destruct Hc as (H1 & H2 & H3). rewrite H1.
    assert (node ≠ x) by set_solver.
    split; [split|split].
    + by apply NoDup_cons.
    + cbn [hchain]. split_and!; [hsimpl; done..|].
      apply NoDup_cons in Hnd as [Hx _].
      eapply hchain_ext; [| |done]; [hsimpl; done|].
      intros y Hy. assert (y ≠ x ∧ y ≠ node) as [? ?] by (split; intros ->; set_solver).
      split; hsimpl; done.
    + intros b' Hb. hsimpl. done.
    + intros n Hn'. assert (node ≠ n ∧ x ≠ n) as [? ?] by (split; intros ->; set_solver).
      split; hsimpl; done.
Qed.

(** The slot that points at what follows [xs]. *)
Fixpoint last_slot (s : slot) (xs : list N) : slot :=
  match xs with [] => s | x :: xs' => last_slot (SNode x) xs' end.

Lemma last_slot_in s xs : last_slot s xs ∈ s :: (SNode <$> xs).
Proof.
  revert s. induction xs as [|x xs IH]; intros s; simpl; [set_solver|].
  apply elem_of_cons. right. apply IH.
Qed.

Lemma hchain_mid m s xs x ys :
  hchain m s (xs ++ x :: ys) →
  pprev m !! x = Some (last_slot s xs) ∧ hnext m !! x = hd_error ys ∧ hchain m (SNode x) ys.
Proof.
  revert s. induction xs as [|y xs IH]; intros s; cbn [app hchain last_slot].
  - intros (H1 & H2 & H3). split_and!; [done| |done].
    destruct ys; cbn [hchain rd_slot] in H3; simpl; tauto.
  - intros (_ & _ & H3). by apply IH.
Qed.

(** Redirecting the slot after [xs] to [ys]. *)
Lemma hchain_splice m m' s xs x ys :
  NoDup (s :: (SNode <$> xs)) → hchain m s (xs ++ x :: ys) →
  (∀ t, t ∈ s :: (SNode <$> xs) → t ≠ last_slot s xs → rd_slot m' t = rd_slot m t) →
  (∀ a, a ∈ xs → pprev m' !! a = pprev m !! a) →
  hchain m' (last_slot s xs) ys → hchain m' s (xs ++ ys).
Proof.
  revert s. induction xs as [|y xs IH]; intros s Hnd Hc Hrd Hpp Hys; [done|].
  cbn [app hchain last_slot fmap list_fmap] in *. destruct Hc as (H1 & H2 & H3).
  pose proof Hnd as [Hs Hnd']%NoDup_cons.
  split_and!.
  - rewrite Hrd; [done|set_solver|]. intros E. apply Hs. rewrite E. apply last_slot_in.
  - rewrite Hpp; [done|set_solver].
  - apply IH; [done..| |set_solver|done]. intros t Ht. apply Hrd. apply elem_of_cons. by right.
Qed.

(** What memory reads after [vg_hlist_del]. *)
Lemma hlist_del_reads m x t :
  pprev m !! x = Some t → t ≠ SNode x → hnext m !! x ≠ Some x →
  ∃ m', vg_hlist_del m x = Some m' ∧ rd_slot m' t = hnext m !! x ∧
    (∀ t', t' ≠ t → t' ≠ SNode x → rd_slot m' t' = rd_slot m t') ∧
    (∀ y, hnext m !! x = Some y → pprev m' !! y = Some t) ∧
    (∀ a, a ≠ x → hnext m !! x ≠ Some a → pprev m' !! a = pprev m !! a).
Proof.
  intros Hpp Ht Hx. unfold vg_hlist_del. rewrite Hpp. cbn [mbind option_bind].
  assert (hnext (wr_slot m t (hnext m !! x)) !! x = hnext m !! x) as Hnx.
  { destruct t as [b'|n']; simpl; [done|]. hsimpl. done. }
  assert (pprev (wr_slot m t (hnext m !! x)) !! x = Some t) as Hpp' by (destruct t; done).
  rewrite Hnx, Hpp'. eexists. split; [done|]. split_and!.
  - destruct (hnext m !! x), t; simpl; hsimpl; done.
  - intros t' H1 H2. destruct (hnext m !! x), t, t'; simpl; hsimpl; done.
  - intros y Hy. rewrite Hy. destruct t; simpl; hsimpl; done.
  - intros a H1 H2. destruct (hnext m !! x), t; simpl; hsimpl; done.
Qed.

#[export] Instance SNode_inj : Inj (=) (=) (SNode : N → slot).
Proof. by intros ? ? [= ->]. Qed.

Lemma elem_of_snodes (n : N) xs : SNode n ∈ (SNode <$> xs : list slot) ↔ n ∈ xs.
Proof. by rewrite (list_elem_of_fmap_inj SNode). Qed.

Lemma bucket_del m b xs x ys :
  bucket m b (xs ++ x :: ys) →
  ∃ m', vg_hlist_del m x = Some m' ∧ bucket m' b (xs ++ ys) ∧
    same_outside m m' b (xs ++ x :: ys).
Proof.
  intros [Hnd Hc]. destruct (hchain_mid _ _ _ _ _ Hc) as (Hpp & Hnx & Hys).
  apply NoDup_app in Hnd as (Hn1 & Hn2 & Hn3). apply NoDup_cons in Hn3 as [Hn3 Hn4].
  pose proof (last_slot_in (SHead b) xs) as Hin.
  remember (last_slot (SHead b) xs) as t eqn:Et.
  assert (∀ n, t = SNode n → n ∈ xs) as Htn.
  { intros n ->. apply elem_of_cons in Hin as [?|Hin]; [done|]. by apply elem_of_snodes. }
  assert (x ∉ xs) as Hxs by (intros Hx; apply (Hn2 _ Hx); set_solver).
  assert (∀ a, hnext m !! x = Some a → a ∈ ys) as Hhd.
  { intros a. rewrite Hnx. destruct ys; [done|]. intros [= ->]. set_solver. }
  destruct (hlist_del_reads m x t) as (m' & -> & Hrt & Hr & Hpy & Hpo); [done|naive_solver..|].
  exists m'. split; [done|]. split; [split|split].
  - apply NoDup_app. split_and!; [done| |done]. intros a Ha Ha'. eapply Hn2; [done|set_solver].
  - eapply hchain_splice; [|done|rewrite <-?Et..].
    + apply NoDup_cons. split; [|by apply (NoDup_fmap_2 SNode)].
      by intros (? & ? & ?)%list_elem_of_fmap.
    + intros t' Ht' Hne. apply Hr; [done|]. intros ->.
      apply elem_of_cons in Ht' as [?|Ht']; [done|]. by apply elem_of_snodes in Ht'.
    + intros a Ha. apply Hpo; [naive_solver|]. intros Ha'%Hhd.
      apply (Hn2 a Ha). apply elem_of_cons. by right.
    + destruct ys as [|y ys]; cbn [hchain hd_error] in *; [congruence|].
      destruct Hys as (_ & _ & Hys). apply NoDup_cons in Hn4 as [Hy _].
      split_and!; [congruence|by apply Hpy|]. eapply hchain_ext; [| |done].
      * apply Hr; [|set_solver]. intros E. symmetry in E. apply Htn in E.
        apply (Hn2 _ E). set_solver.
      * intros a Ha. split.
        { apply (Hr (SNode a)); [|set_solver]. intros E. symmetry in E. apply Htn in E.
          apply (Hn2 _ E). set_solver. }
        apply Hpo; [set_solver|]. rewrite Hnx. congruence.
  - intros b' Hb. apply (Hr (SHead b')); [|done]. intros <-.
    apply elem_of_cons in Hin as [?|Hin]; [congruence|].
    by apply list_elem_of_fmap in Hin as (? & ? & ?).
  - intros n Hn. rewrite elem_of_app, elem_of_cons in Hn. split.
    + apply (Hr (SNode n)); [|naive_solver]. intros E. symmetry in E. apply Htn in E. tauto.
    + apply Hpo; [tauto|]. intros Ha%Hhd. tauto.
Qed.

End Hlist.
Arguments slot : clear implicits.
Arguments hmem B N {_ _ _ _}.
End Hlist.
