(* ===== verification/Types.v ===== *)
(** * voidgate.h: types shared by the data plane and the control plane

    Constants, map values and packet header layouts.  A packed header struct
    is its size and the offsets of the fields the program reads. *)

From S2P Require Import Prelude.
Open Scope Z_scope.

Definition VG_MAX_ALLOW_PORTS : nat := 8.
Definition VG_MAX_VLANS : nat := 2.
Definition VG_MAX_IPV6_EXT : nat := 8.

Definition VG_DROP_MAP_MAX : Z := 65536.
Definition VG_REMOTE_MAP_MAX : Z := 262144.

Definition VG_REASON_MANUAL : Z := 1.
Definition VG_REASON_POLICY : Z := 2.
Definition VG_REASON_AGGREGATE : Z := 3.
Definition VG_REASON_TIMED : Z := 4.

Definition VG_IPPROTO_TCP : Z := 6.
Definition VG_IPPROTO_UDP : Z := 17.
Definition VG_IPPROTO_ICMPV6 : Z := 58.
Definition VG_IPPROTO_FRAGMENT : Z := 44.
Definition VG_IPPROTO_HOPOPTS : Z := 0.
Definition VG_IPPROTO_ROUTING : Z := 43.
Definition VG_IPPROTO_AH : Z := 51.
Definition VG_IPPROTO_DSTOPTS : Z := 60.

Definition VG_ETH_P_IP : Z := 0x0800.
Definition VG_ETH_P_IPV6 : Z := 0x86dd.
Definition VG_ETH_P_8021Q : Z := 0x8100.
Definition VG_ETH_P_8021AD : Z := 0x88a8.

Definition VG_NDISC_RS : Z := 133.
Definition VG_NDISC_REDIRECT : Z := 137.
Definition VG_NDISC_HOP_LIMIT : Z := 255.

(** [struct host_counters] *)
Record host_counters := HostCounters { in_pkts : Z; in_bytes : Z }.

(** [struct vg_metrics], the per-CPU counters. *)
Record vg_metrics := Metrics {
  rx_pkts : Z; rx_bytes : Z; passed : Z; dropped : Z;
  non_ip : Z; map_full : Z; parse_err : Z;
}.

(** [struct vg_cfg]: [allow_ports] is the array of eight. *)
Record vg_cfg := BpfCfg {
  armed : Z;
  allow_ports : list Z;
  allow_port_count : Z;
}.

(** [struct drop_entry] *)
Record drop_entry := DropEntry { de_reason : Z; de_insert_time : Z }.

#[export] Instance host_counters_eq_dec : EqDecision host_counters.
Proof. solve_decision. Defined.
#[export] Instance vg_metrics_eq_dec : EqDecision vg_metrics.
Proof. solve_decision. Defined.
#[export] Instance vg_cfg_eq_dec : EqDecision vg_cfg.
Proof. solve_decision. Defined.
#[export] Instance drop_entry_eq_dec : EqDecision drop_entry.
Proof. solve_decision. Defined.

(** [struct vg_eth], [struct vg_vlan] *)
Definition eth_size : Z := 14.
Definition eth_proto_off : Z := 12.
Definition vlan_size : Z := 4.
Definition vlan_proto_off : Z := 2.

(** [struct vg_iphdr] *)
Definition iphdr_size : Z := 20.
Definition ip_ver_ihl_off : Z := 0.
Definition ip_frag_off_off : Z := 6.
Definition ip_protocol_off : Z := 9.
Definition ip_saddr_off : Z := 12.
Definition ip_daddr_off : Z := 16.

(** [struct vg_ipv6hdr] *)
Definition ipv6hdr_size : Z := 40.
Definition ip6_nexthdr_off : Z := 6.
Definition ip6_hop_limit_off : Z := 7.
Definition ip6_saddr_off : Z := 8.
Definition ip6_daddr_off : Z := 24.

(** [struct vg_ip6_frag] *)
Definition frag_size : Z := 8.
Definition frag_nexthdr_off : Z := 0.
Definition frag_off_off : Z := 2.

(** [struct vg_tcphdr], [struct vg_udphdr], [struct vg_icmpv6hdr]: both ports
    are the first two fields, the ICMPv6 type the first byte. *)
Definition tcphdr_size : Z := 20.
Definition udphdr_size : Z := 8.
Definition icmpv6hdr_size : Z := 4.
Definition l4_source_off : Z := 0.
Definition l4_dest_off : Z := 2.
Definition icmp6_type_off : Z := 0.
