(* ===== verification/Config.v ===== *)
(** * config.c: the configuration file

    [struct vg_config], its defaults, the parser of [key = value] lines and
    the local addresses taken from the interface.  An array with its count is
    the list of the elements in use.  The file is the list of lines [getline]
    returns and whether reading ended in an error; the address list is what
    [getifaddrs] returns. *)

From Stdlib Require Import String.
From S2P Require Import Prelude CString Ipaddr Types.
Open Scope Z_scope.

Definition VG_MAX_CIDR_LIST : Z := 256.
Definition VG_MAX_IFACE : Z := 32.
Definition VG_CFG_PATH_MAX : Z := 256.
Definition INT_MAX : Z := 2 ^ 31 - 1.

(** [struct vg_config] *)
Record vg_config := Config {
  interface : list Z; xdp_mode : list Z; log_file : list Z; pid_file : list Z;
  ctl_socket_group : list Z;
  wake_pps : Z; wake_mbps : Z; idle_poll_ms : Z; clear_seconds : Z;
  threshold_pps : Z; threshold_mbps : Z; ban_time : Z; aggregate_k : Z;
  metrics_port : Z; remote_map_size : Z; drop_map_size : Z;
  cfg_allow_ports : list Z; local_cidr : list vg_cidr; allow_cidr : list vg_cidr;
  auto_local : bool;
}.

(** Field updates: one per key of the file. *)
Section Setters.
Context (c : vg_config).

Definition set_strs (i m l p g : list Z) : vg_config :=
  Config i m l p g (wake_pps c) (wake_mbps c) (idle_poll_ms c) (clear_seconds c)
    (threshold_pps c) (threshold_mbps c) (ban_time c) (aggregate_k c) (metrics_port c)
    (remote_map_size c) (drop_map_size c) (cfg_allow_ports c) (local_cidr c) (allow_cidr c)
    (auto_local c).
Definition set_nums (wp wm ip cs tp tm bt ak mp rs ds : Z) : vg_config :=
  Config (interface c) (xdp_mode c) (log_file c) (pid_file c) (ctl_socket_group c)
    wp wm ip cs tp tm bt ak mp rs ds (cfg_allow_ports c) (local_cidr c) (allow_cidr c)
    (auto_local c).
Definition set_lists (ap : list Z) (lc ac : list vg_cidr) (al : bool) : vg_config :=
  Config (interface c) (xdp_mode c) (log_file c) (pid_file c) (ctl_socket_group c)
    (wake_pps c) (wake_mbps c) (idle_poll_ms c) (clear_seconds c) (threshold_pps c)
    (threshold_mbps c) (ban_time c) (aggregate_k c) (metrics_port c) (remote_map_size c)
    (drop_map_size c) ap lc ac al.
End Setters.

(** The kinds of [struct cfg_scalar]: what a key stores, and where. *)
Inductive cfg_scalar :=
  | CFG_STR (sz : Z) (set : vg_config → list Z → vg_config)
  | CFG_U64 (set : vg_config → Z → vg_config)
  | CFG_I32 (set : vg_config → Z → vg_config)
  | CFG_U32 (set : vg_config → Z → vg_config).

Definition scalars : list (list Z * cfg_scalar) := [
  (bs "interface", CFG_STR VG_MAX_IFACE (λ c v,
     set_strs c v (xdp_mode c) (log_file c) (pid_file c) (ctl_socket_group c)));
  (bs "xdp_mode", CFG_STR 16 (λ c v,
     set_strs c (interface c) v (log_file c) (pid_file c) (ctl_socket_group c)));
  (bs "log_file", CFG_STR VG_CFG_PATH_MAX (λ c v,
     set_strs c (interface c) (xdp_mode c) v (pid_file c) (ctl_socket_group c)));
  (bs "pid_file", CFG_STR VG_CFG_PATH_MAX (λ c v,
     set_strs c (interface c) (xdp_mode c) (log_file c) v (ctl_socket_group c)));
  (bs "ctl_socket_group", CFG_STR 64 (λ c v,
     set_strs c (interface c) (xdp_mode c) (log_file c) (pid_file c) v));
  (bs "wake_pps", CFG_U64 (λ c v,
     set_nums c v (wake_mbps c) (idle_poll_ms c) (clear_seconds c) (threshold_pps c)
       (threshold_mbps c) (ban_time c) (aggregate_k c) (metrics_port c) (remote_map_size c)
       (drop_map_size c)));
  (bs "wake_mbps", CFG_U64 (λ c v,
     set_nums c (wake_pps c) v (idle_poll_ms c) (clear_seconds c) (threshold_pps c)
       (threshold_mbps c) (ban_time c) (aggregate_k c) (metrics_port c) (remote_map_size c)
       (drop_map_size c)));
  (bs "idle_poll_ms", CFG_I32 (λ c v,
     set_nums c (wake_pps c) (wake_mbps c) v (clear_seconds c) (threshold_pps c)
       (threshold_mbps c) (ban_time c) (aggregate_k c) (metrics_port c) (remote_map_size c)
       (drop_map_size c)));
  (bs "clear_seconds", CFG_I32 (λ c v,
     set_nums c (wake_pps c) (wake_mbps c) (idle_poll_ms c) v (threshold_pps c)
       (threshold_mbps c) (ban_time c) (aggregate_k c) (metrics_port c) (remote_map_size c)
       (drop_map_size c)));
  (bs "threshold_pps", CFG_U64 (λ c v,
     set_nums c (wake_pps c) (wake_mbps c) (idle_poll_ms c) (clear_seconds c) v
       (threshold_mbps c) (ban_time c) (aggregate_k c) (metrics_port c) (remote_map_size c)
       (drop_map_size c)));
  (bs "threshold_mbps", CFG_U64 (λ c v,
     set_nums c (wake_pps c) (wake_mbps c) (idle_poll_ms c) (clear_seconds c)
       (threshold_pps c) v (ban_time c) (aggregate_k c) (metrics_port c) (remote_map_size c)
       (drop_map_size c)));
  (bs "ban_time", CFG_I32 (λ c v,
     set_nums c (wake_pps c) (wake_mbps c) (idle_poll_ms c) (clear_seconds c)
       (threshold_pps c) (threshold_mbps c) v (aggregate_k c) (metrics_port c)
       (remote_map_size c) (drop_map_size c)));
  (bs "aggregate_k", CFG_I32 (λ c v,
     set_nums c (wake_pps c) (wake_mbps c) (idle_poll_ms c) (clear_seconds c)
       (threshold_pps c) (threshold_mbps c) (ban_time c) v (metrics_port c)
       (remote_map_size c) (drop_map_size c)));
  (bs "metrics_port", CFG_I32 (λ c v,
     set_nums c (wake_pps c) (wake_mbps c) (idle_poll_ms c) (clear_seconds c)
       (threshold_pps c) (threshold_mbps c) (ban_time c) (aggregate_k c) v
       (remote_map_size c) (drop_map_size c)));
  (bs "remote_map_size", CFG_U32 (λ c v,
     set_nums c (wake_pps c) (wake_mbps c) (idle_poll_ms c) (clear_seconds c)
       (threshold_pps c) (threshold_mbps c) (ban_time c) (aggregate_k c) (metrics_port c) v
       (drop_map_size c)));
  (bs "drop_map_size", CFG_U32 (λ c v,
     set_nums c (wake_pps c) (wake_mbps c) (idle_poll_ms c) (clear_seconds c)
       (threshold_pps c) (threshold_mbps c) (ban_time c) (aggregate_k c) (metrics_port c)
       (remote_map_size c) v))
].

(** Leading and trailing white space removed. *)
Definition trim (s : list Z) : list Z := reverse (skip_spaces (reverse (skip_spaces s))).

(** [None] is the return value -1. *)
Definition parse_u64 (s : list Z) : option Z :=
  match s with
  | [] => None
  | _ => match strtoull s with
         | Some (v, []) => Some v
         | _ => None
         end
  end.

Definition parse_int (s : list Z) : option Z :=
  v ← parse_u64 s; if INT_MAX <? v then None else Some v.

Definition apply_scalar (c : vg_config) (s : cfg_scalar) (val : list Z) : option vg_config :=
  match s with
  | CFG_STR sz set =>
      if (sz =? 0) || bool_decide (val = []) || (sz <=? Z.of_nat (List.length val)) then None
      else Some (set c val)
  | CFG_U64 set => v ← parse_u64 val; Some (set c v)
  | CFG_I32 set => v ← parse_int val; Some (set c v)
  | CFG_U32 set => v ← parse_u64 val; if 0xffffffff <? v then None else Some (set c v)
  end.

(** The loop of [parse_allow_ports] over the fields, [acc] the ports so far. *)
Fixpoint allow_ports_loop (toks : list (list Z)) (acc : list Z) : option (list Z) :=
  match toks with
  | [] => Some acc
  | tok :: toks =>
      let tok := trim tok in
      if bool_decide (tok = []) then allow_ports_loop toks acc
      else if (VG_MAX_ALLOW_PORTS <=? List.length acc)%nat then None
      else
        v ← parse_u64 tok;
        if (v <? 1) || (65535 <? v) then None
        else allow_ports_loop toks (acc ++ [u16 v])
  end.

Definition parse_allow_ports (val : list Z) (c : vg_config) : option vg_config :=
  ports ← allow_ports_loop (strtok_all 44 val []) [];
  Some (set_lists c ports (local_cidr c) (allow_cidr c) (auto_local c)).

Section WithInet.
Context {I : Inet}.

(** A literal prefix of the source, zero bytes had it not parsed. *)
Definition cidr_literal (s : string) : vg_cidr :=
  default (Cidr 0 (replicate 16 0) 0) (vg_parse_cidr (bs s)).

Definition vg_config_defaults : vg_config := {|
  interface := bs "eth0"; xdp_mode := bs "auto"; log_file := bs "/var/log/voidgate.log";
  pid_file := bs "/run/voidgate.pid"; ctl_socket_group := [];
  wake_pps := 2000; wake_mbps := 25; idle_poll_ms := 1000; clear_seconds := 30;
  threshold_pps := 500; threshold_mbps := 5; ban_time := 1900; aggregate_k := 8;
  metrics_port := 9105; remote_map_size := 262144; drop_map_size := 65536;
  cfg_allow_ports := [22]; local_cidr := [];
  allow_cidr := [cidr_literal "169.254.169.254/32"; cidr_literal "127.0.0.0/8";
                 cidr_literal "::1/128"; cidr_literal "fe80::/10"; cidr_literal "ff02::/16"];
  auto_local := true;
|}.

(** The loop of [parse_csv_cidrs]. *)
Fixpoint csv_cidrs_loop (toks : list (list Z)) (acc : list vg_cidr) (max : Z)
  : option (list vg_cidr) :=
  match toks with
  | [] => Some acc
  | tok :: toks =>
      let tok := trim tok in
      if bool_decide (tok = []) then csv_cidrs_loop toks acc max
      else if max <=? Z.of_nat (List.length acc) then None
      else p ← vg_parse_cidr tok; csv_cidrs_loop toks (acc ++ [p]) max
  end.

Definition parse_csv_cidrs (val : list Z) (max : Z) : option (list vg_cidr) :=
  csv_cidrs_loop (strtok_all 44 val []) [] max.

Fixpoint find_scalar (key : list Z) (l : list (list Z * cfg_scalar)) : option cfg_scalar :=
  match l with
  | [] => None
  | (k, s) :: l => if bool_decide (key = k) then Some s else find_scalar key l
  end.

(** What a key and its value do; an unknown key is only warned about. *)
Definition load_key (key val : list Z) (c : vg_config) : option vg_config :=
  match find_scalar key scalars with
  | Some s => apply_scalar c s val
  | None =>
      if bool_decide (key = bs "allow_ports") then parse_allow_ports val c
      else if bool_decide (key = bs "local_networks") then
        if bool_decide (val = []) then Some c
        else l ← parse_csv_cidrs val VG_MAX_CIDR_LIST;
             Some (set_lists c (cfg_allow_ports c) l (allow_cidr c) false)
      else if bool_decide (key = bs "allow_networks") then
        if bool_decide (val = []) then Some c
        else l ← parse_csv_cidrs val VG_MAX_CIDR_LIST;
             Some (set_lists c (cfg_allow_ports c) (local_cidr c) l (auto_local c))
      else Some c
  end.

(** One turn of the loop of [vg_config_load]; [None] is [goto fail]. *)
Definition load_line (line : list Z) (c : vg_config) : option vg_config :=
  let line := cstr line in
  match line with
  | [] => Some c
  | x :: _ =>
      if (x =? 35) || (x =? 10) then Some c
      else
        match strchr 61 line with
        | None => Some c
        | Some (k, v) =>
            let key := trim k in
            let val := trim v in
            if bool_decide (key = []) then Some c else load_key key val c
        end
  end.

Fixpoint load_lines (lines : list (list Z)) (c : vg_config) : option vg_config :=
  match lines with
  | [] => Some c
  | l :: lines => c ← load_line l c; load_lines lines c
  end.

(** [file] is [None] when there is no path or no file. *)
Definition vg_config_load (file : option (list (list Z) * bool)) : option vg_config :=
  match file with
  | None => Some vg_config_defaults
  | Some (lines, ferror) =>
      c ← load_lines lines vg_config_defaults;
      if (ferror : bool) then None
      else if idle_poll_ms c <=? 0 then
        Some (set_nums c (wake_pps c) (wake_mbps c) 1000 (clear_seconds c) (threshold_pps c)
                (threshold_mbps c) (ban_time c) (aggregate_k c) (metrics_port c)
                (remote_map_size c) (drop_map_size c))
      else Some c
  end.
End WithInet.

(** [struct ifaddrs]: interface name and address, either may be NULL. *)
Record ifaddr := IfAddr { ifa_name : option (list Z); ifa_addr : option (Z * list Z) }.

(** [IN6_IS_ADDR_LINKLOCAL], [IN6_IS_ADDR_LOOPBACK] *)
Definition in6_linklocal (a : list Z) : bool :=
  (default 0 (a !! 0%nat) =? 0xfe) && (Z.land (default 0 (a !! 1%nat)) 0xc0 =? 0x80).
Definition in6_loopback (a : list Z) : bool := bool_decide (a = replicate 15 0 ++ [1]).

(** The loop of [local_cidr_from_nic], [n] prefixes written so far. *)
Fixpoint nic_loop (nic : list Z) (l : list ifaddr) (out : list vg_cidr) (max : Z)
  : list vg_cidr :=
  match l with
  | [] => out
  | p :: l =>
      if max <=? Z.of_nat (List.length out) then out
      else
        match ifa_addr p, ifa_name p with
        | Some (f, a), Some name =>
            if negb (bool_decide (name = nic)) then nic_loop nic l out max
            else if f =? AF_INET then
              if default 0 (a !! 0%nat) =? 127 then nic_loop nic l out max
              else nic_loop nic l (out ++ [Cidr AF_INET (store16 (take 4 a)) 32]) max
            else if f =? AF_INET6 then
              if in6_linklocal a || in6_loopback a then nic_loop nic l out max
              else nic_loop nic l (out ++ [Cidr AF_INET6 (store16 (take 16 a)) 128]) max
            else nic_loop nic l out max
        | _, _ => nic_loop nic l out max
        end
  end.

(** [ifa] is [None] when [getifaddrs] fails. *)
Definition local_cidr_from_nic (nic : list Z) (ifa : option (list ifaddr)) (max : Z)
  : option (list vg_cidr) :=
  l ← ifa; Some (nic_loop nic l [] max).

Definition vg_config_auto_local (c : vg_config) (ifa : option (list ifaddr))
  : option vg_config :=
  if negb (auto_local c) then Some c
  else l ← local_cidr_from_nic (interface c) ifa VG_MAX_CIDR_LIST;
       Some (set_lists c (cfg_allow_ports c) l (allow_cidr c) (auto_local c)).

Definition vg_cidr_is_protected (c : vg_config) (p : vg_cidr) : bool :=
  existsb (vg_cidr_covers_or_overlaps p) (local_cidr c)
  || existsb (vg_cidr_covers_or_overlaps p) (allow_cidr c).
