(* ===== verification/Kernel.v ===== *)
(** * The interface to the kernel

    BPF maps, the clock and the system calls the sources make are not part of
    the repository: they are a parameter of the model.  [Kernel K] lists the
    calls on a world [K] (the kernel may evolve between any two of them, so
    each returns a world), [KernelLaws] states the documented behaviour the
    theorems rely on, in terms of the observations [lpm_view] and [lpm_keys].
    [failed] observes the past of a world: which deletes of a trie entry
    failed with anything but [ENOENT], and which updates failed, since the
    maps were created; the laws say exactly when it changes.  An error result is the [errno] value; 0 is success. *)

From S2P Require Import Prelude Types Ipaddr.
Open Scope Z_scope.

Definition ENOENT : Z := 2.

(** The six LPM tries and the four counter hashes of voidgate.bpf.c. *)
Inductive lpm_map := drop_v4 | drop_v6 | allow_v4 | allow_v6 | local_v4 | local_v6.
Inductive hash_map := host_v4 | host_v6 | remote_v4 | remote_v6.

#[export] Instance lpm_map_eq_dec : EqDecision lpm_map.
Proof. solve_decision. Defined.
#[export] Instance hash_map_eq_dec : EqDecision hash_map.
Proof. solve_decision. Defined.

(** [struct vg_lpm_v4] and [struct vg_lpm_v6]: prefix length and data. *)
Abbreviation lpm_key := (Z * list Z)%type.

(** A trie value: a drop entry, or the byte the allow and local tries hold. *)
Inductive lpm_val := VDrop (e : drop_entry) | VByte (b : Z).

(** [struct timespec] *)
Record timespec := Timespec { tv_sec : Z; tv_nsec : Z }.

(** Key width of a trie: 32 or 128 bits. *)
Definition lpm_bits (m : lpm_map) : Z :=
  match m with
  | drop_v4 | allow_v4 | local_v4 => 32
  | drop_v6 | allow_v6 | local_v6 => 128
  end.

(** Key length of a counter hash, in bytes. *)
Definition hash_key_len (h : hash_map) : nat :=
  match h with host_v4 | remote_v4 => 4 | host_v6 | remote_v6 => 16 end.

(** The address [a] matches the key: its leading bits are the key's. *)
Definition key_covers (k : lpm_key) (a : list Z) : Prop :=
  ∀ i, (i < Z.to_nat k.1)%nat → bit_at a i = bit_at k.2 i.

(** A key in range whose bits after the prefix length are zero.  The kernel
    compares only the leading bits, so two such keys are one trie node
    exactly when they are equal; the observations below name a node by its
    key in this form. *)
Definition key_ok (m : lpm_map) (k : lpm_key) : Prop :=
  0 ≤ k.1 ≤ lpm_bits m ∧ Z.of_nat (8 * length k.2) = lpm_bits m ∧ bytes_ok k.2 ∧
  ∀ i, (Z.to_nat k.1 ≤ i)%nat → bit_at k.2 i = false.

(** The calls that change a trie. *)
Inductive lpm_call := LpmUpdate | LpmDelete.

Class Kernel (K : Type) := {
  (* bpf(2) on the tries *)
  bpf_lpm_update : lpm_map → lpm_key → lpm_val → K → Z * K;
  bpf_lpm_delete : lpm_map → lpm_key → K → Z * K;
  bpf_lpm_next_key : lpm_map → option lpm_key → K → option lpm_key * K;
  (* bpf(2) on the cfg array and the per-CPU maps; a read yields one word per
     counter and CPU, CPU by CPU *)
  bpf_cfg_update : vg_cfg → K → Z * K;
  bpf_metrics_read : K → option (list Z) * K;
  bpf_hash_next_key : hash_map → option (list Z) → K → option (list Z) * K;
  bpf_hash_read : hash_map → list Z → K → option (list Z) * K;
  (* time(NULL) and clock_gettime(CLOCK_MONOTONIC) *)
  sys_time : K → Z * K;
  sys_clock : K → timespec * K;
  (* what the XDP program does through map pointers, on its CPU *)
  xdp_cfg : K → option vg_cfg;
  xdp_metrics : K → option vg_metrics;
  xdp_metrics_store : vg_metrics → K → K;
  xdp_lpm_hit : lpm_map → list Z → K → bool;
  xdp_hash_lookup : hash_map → list Z → K → option host_counters;
  xdp_hash_update_noexist : hash_map → list Z → host_counters → K → K;
  xdp_hash_store : hash_map → list Z → host_counters → K → K;
  (* observations *)
  lpm_view : lpm_map → K → gmap lpm_key lpm_val;
  lpm_keys : lpm_map → K → list lpm_key;
  failed : lpm_call → lpm_map → lpm_key → K → Prop;
}.

Section Views.
Context {K : Type} `{!Kernel K}.

(** One trie of two worlds holds the same entries, in the same order. *)
Definition same_trie (m : lpm_map) (w w' : K) : Prop :=
  lpm_view m w' = lpm_view m w ∧ lpm_keys m w' = lpm_keys m w.

(** The tries and the cfg array of two worlds are the same. *)
Definition same_tries (w w' : K) : Prop :=
  (∀ m, same_trie m w w') ∧ xdp_cfg w' = xdp_cfg w.

(** In the past of the world a delete of the key was refused; an update of
    the key failed. *)
Definition refused (m : lpm_map) (k : lpm_key) (w : K) : Prop := failed LpmDelete m k w.
Definition unstored (m : lpm_map) (k : lpm_key) (w : K) : Prop := failed LpmUpdate m k w.

(** No call failed from one world to the other. *)
Definition same_past (w w' : K) : Prop := ∀ o m k, failed o m k w' ↔ failed o m k w.

(** What failed once is never forgotten. *)
Definition past (w w' : K) : Prop := ∀ o m k, failed o m k w → failed o m k w'.

(** The maps are the same, and no call on them failed. *)
Definition same_maps (w w' : K) : Prop :=
  (∀ m, same_trie m w w') ∧ xdp_cfg w' = xdp_cfg w ∧ same_past w w'.

(** ... but for the trie [m]. *)
Definition same_but (m : lpm_map) (w w' : K) : Prop :=
  (∀ m', m' ≠ m → same_trie m' w w') ∧ xdp_cfg w' = xdp_cfg w.

(** The key after [k] in a list of keys. *)
Fixpoint key_after (k : lpm_key) (l : list lpm_key) : option lpm_key :=
  match l with
  | [] => None
  | x :: l' => if decide (x = k) then hd_error l' else key_after k l'
  end.

(** [bpf(2)] for LPM tries: a successful update sets the entry, a successful
    delete removes it, [ENOENT] means it was not there, a delete never adds
    an entry, a failed call changes nothing (an update that fails, and a
    delete that fails otherwise than with [ENOENT], are noted in [failed],
    and nothing else is); the keys
    of a trie can be walked in a fixed order that a delete does not disturb;
    no other call touches a trie; the keys of a counter hash are addresses of
    its family.  The longest-prefix
    lookup of a full-length key succeeds when some entry covers it. *)
Class KernelLaws : Prop := {
  update_ok m k v w w' : key_ok m k → bpf_lpm_update m k v w = (0, w') →
    lpm_view m w' = <[k := v]> (lpm_view m w) ∧ same_but m w w';
  update_fail m k v w e w' : bpf_lpm_update m k v w = (e, w') → e ≠ 0 → same_tries w w';
  update_but m k v w : same_but m w (bpf_lpm_update m k v w).2;
  update_past m k v w e w' o m' k' : bpf_lpm_update m k v w = (e, w') →
    failed o m' k' w' ↔ failed o m' k' w ∨ (o = LpmUpdate ∧ m' = m ∧ k' = k ∧ e ≠ 0);
  delete_ok m k w w' : key_ok m k → bpf_lpm_delete m k w = (0, w') →
    is_Some (lpm_view m w !! k) ∧ lpm_view m w' = delete k (lpm_view m w) ∧
    lpm_keys m w' = filter (λ x, x ≠ k) (lpm_keys m w) ∧ same_but m w w';
  delete_fail m k w e w' : bpf_lpm_delete m k w = (e, w') → e ≠ 0 → same_tries w w';
  delete_past m k w e w' o m' k' : bpf_lpm_delete m k w = (e, w') →
    failed o m' k' w' ↔
    failed o m' k' w ∨ (o = LpmDelete ∧ m' = m ∧ k' = k ∧ e ≠ 0 ∧ e ≠ ENOENT);
  delete_sub m k w : lpm_view m (bpf_lpm_delete m k w).2 ⊆ lpm_view m w
    ∧ same_but m w (bpf_lpm_delete m k w).2;
  delete_enoent m k w w' : key_ok m k → bpf_lpm_delete m k w = (ENOENT, w') →
    lpm_view m w !! k = None;
  keys_nodup m w : NoDup (lpm_keys m w);
  keys_ok m w k : k ∈ lpm_keys m w → key_ok m k;
  keys_view m w k : k ∈ lpm_keys m w ↔ is_Some (lpm_view m w !! k);
  next_first m w : (bpf_lpm_next_key m None w).1 = hd_error (lpm_keys m w);
  next_after m w k : k ∈ lpm_keys m w →
    (bpf_lpm_next_key m (Some k) w).1 = key_after k (lpm_keys m w);
  next_same m o w : same_maps w (bpf_lpm_next_key m o w).2;
  cfg_update_ok c w w' : bpf_cfg_update c w = (0, w') → xdp_cfg w' = Some c;
  cfg_update_fail c w e w' : bpf_cfg_update c w = (e, w') → e ≠ 0 → xdp_cfg w' = xdp_cfg w;
  cfg_update_tries c w m : same_trie m w (bpf_cfg_update c w).2;
  cfg_update_past c w : same_past w (bpf_cfg_update c w).2;
  metrics_same w : same_maps w (bpf_metrics_read w).2;
  hash_key_ok h o w k : (bpf_hash_next_key h o w).1 = Some k →
    length k = hash_key_len h ∧ bytes_ok k;
  hash_next_same h o w : same_maps w (bpf_hash_next_key h o w).2;
  hash_read_same h k w : same_maps w (bpf_hash_read h k w).2;
  time_same w : same_maps w (sys_time w).2;
  clock_same w : same_maps w (sys_clock w).2;
  hit_iff m a w : Z.of_nat (8 * length a) = lpm_bits m →
    xdp_lpm_hit m a w = true ↔ ∃ k, is_Some (lpm_view m w !! k) ∧ key_covers k a;
}.

(** Pointers into the per-CPU maps: what is stored is read back, a store or an
    insert changes neither the tries nor the other kind of counter, and an
    insert (which may fail, or evict from an LRU map) leaves a present entry
    of its own key as it was. *)
Class XdpLaws : Prop := {
  mstore_get m w : is_Some (xdp_metrics w) → xdp_metrics (xdp_metrics_store m w) = Some m;
  mstore_hit x w m a : xdp_lpm_hit m a (xdp_metrics_store x w) = xdp_lpm_hit m a w;
  mstore_cfg x w : xdp_cfg (xdp_metrics_store x w) = xdp_cfg w;
  mstore_hash x w h a : xdp_hash_lookup h a (xdp_metrics_store x w) = xdp_hash_lookup h a w;
  hstore_get h a c w : is_Some (xdp_hash_lookup h a w) →
    xdp_hash_lookup h a (xdp_hash_store h a c w) = Some c;
  hstore_other h a c w h' a' : (h', a') ≠ (h, a) →
    xdp_hash_lookup h' a' (xdp_hash_store h a c w) = xdp_hash_lookup h' a' w;
  hstore_metrics h a c w : xdp_metrics (xdp_hash_store h a c w) = xdp_metrics w;
  hstore_hit h a c w m b : xdp_lpm_hit m b (xdp_hash_store h a c w) = xdp_lpm_hit m b w;
  hupdate_metrics h a c w : xdp_metrics (xdp_hash_update_noexist h a c w) = xdp_metrics w;
  hupdate_hit h a c w m b :
    xdp_lpm_hit m b (xdp_hash_update_noexist h a c w) = xdp_lpm_hit m b w;
  hupdate_new h a c w : xdp_hash_lookup h a w = None →
    xdp_hash_lookup h a (xdp_hash_update_noexist h a c w) = Some c ∨
    xdp_hash_lookup h a (xdp_hash_update_noexist h a c w) = None;
  mstore_maps x w : same_maps w (xdp_metrics_store x w);
  hstore_maps h a c w : same_maps w (xdp_hash_store h a c w);
  hupdate_maps h a c w : same_maps w (xdp_hash_update_noexist h a c w);
  hupdate_other_map h a c w h' a' : h' ≠ h →
    xdp_hash_lookup h' a' (xdp_hash_update_noexist h a c w) = xdp_hash_lookup h' a' w;
}.

Lemma same_maps_refl w : same_maps w w.
Proof. done. Qed.

Lemma same_maps_trans w1 w2 w3 : same_maps w1 w2 → same_maps w2 w3 → same_maps w1 w3.
Proof.
  intros (H1 & H2 & H5) (H3 & H4 & H6). split_and!; [|congruence|].
  - intros m. destruct (H1 m), (H3 m). split; congruence.
  - intros o m k. etrans; [apply H6|apply H5].
Qed.

Lemma same_maps_tries w w' : same_maps w w' → same_tries w w'.
Proof. intros (H1 & H2 & _). by split. Qed.

Lemma past_refl w : past w w.
Proof. by intros o m k. Qed.

Lemma past_trans w1 w2 w3 : past w1 w2 → past w2 w3 → past w1 w3.
Proof. intros H1 H2 o m k H. by apply H2, H1. Qed.

Lemma same_past_past w w' : same_past w w' → past w w'.
Proof. intros H o m k. apply H. Qed.

Lemma same_maps_past w w' : same_maps w w' → past w w'.
Proof. intros (_ & _ & H). by apply same_past_past. Qed.

Lemma past_refused w w' m k : past w w' → refused m k w → refused m k w'.
Proof. intros H. apply H. Qed.

Lemma delete_grows `{!KernelLaws} m k w : past w (bpf_lpm_delete m k w).2.
Proof.
  intros o m' k' Hr. destruct (bpf_lpm_delete m k w) as [e w'] eqn:E.
  apply (delete_past _ _ _ _ _ o m' k' E). by left.
Qed.

Lemma update_grows `{!KernelLaws} m k v w : past w (bpf_lpm_update m k v w).2.
Proof.
  intros o m' k' Hr. destruct (bpf_lpm_update m k v w) as [e w'] eqn:E.
  apply (update_past _ _ _ _ _ _ o m' k' E). by left.
Qed.

End Views.
Arguments KernelLaws K {_}.
Arguments XdpLaws K {_}.
#[export] Hint Resolve same_maps_refl : vg.
