(* ===== verification/KernelRef.v ===== *)
(** * An executable kernel

    The instance of [Kernel] the witnesses run on: tries as association
    lists with a capacity, counter maps as finite maps with a capacity, one
    CPU, and scripts for the results of system calls ([k_errs], consumed by
    the calls that can fail) and for the clocks.  It satisfies [KernelLaws]
    and [XdpLaws]. *)

From S2P Require Import Prelude Types Ipaddr Kernel.
Open Scope Z_scope.

Abbreviation trie := (list (lpm_key * lpm_val)).

Record kref := KRef {
  k_trie : lpm_map → trie;
  k_hash : hash_map → gmap (list Z) host_counters;
  k_cap : nat;              (* entries per map *)
  k_cfg : option vg_cfg;
  k_metrics : option vg_metrics;
  k_errs : list Z;          (* errors of the next calls, 0 for none *)
  k_times : list Z;
  k_clocks : list timespec;
  k_failed : list (lpm_call * lpm_map * lpm_key);   (* calls that failed *)
}.

Definition E2BIG : Z := 7.

Definition set_trie (m : lpm_map) (t : trie) (w : kref) : kref :=
  KRef (λ m', if decide (m' = m) then t else k_trie w m') (k_hash w) (k_cap w) (k_cfg w)
       (k_metrics w) (k_errs w) (k_times w) (k_clocks w) (k_failed w).
Definition set_hash (h : hash_map) (t : gmap (list Z) host_counters) (w : kref) : kref :=
  KRef (k_trie w) (λ h', if decide (h' = h) then t else k_hash w h') (k_cap w) (k_cfg w)
       (k_metrics w) (k_errs w) (k_times w) (k_clocks w) (k_failed w).
Definition set_kcfg (c : vg_cfg) (w : kref) : kref :=
  KRef (k_trie w) (k_hash w) (k_cap w) (Some c) (k_metrics w) (k_errs w) (k_times w) (k_clocks w) (k_failed w).
Definition set_kmetrics (x : vg_metrics) (w : kref) : kref :=
  KRef (k_trie w) (k_hash w) (k_cap w) (k_cfg w) (Some x) (k_errs w) (k_times w) (k_clocks w) (k_failed w).
Definition set_errs (l : list Z) (w : kref) : kref :=
  KRef (k_trie w) (k_hash w) (k_cap w) (k_cfg w) (k_metrics w) l (k_times w) (k_clocks w) (k_failed w).
Definition set_times (l : list Z) (w : kref) : kref :=
  KRef (k_trie w) (k_hash w) (k_cap w) (k_cfg w) (k_metrics w) (k_errs w) l (k_clocks w) (k_failed w).
Definition set_clocks (l : list timespec) (w : kref) : kref :=
  KRef (k_trie w) (k_hash w) (k_cap w) (k_cfg w) (k_metrics w) (k_errs w) (k_times w) l (k_failed w).
Definition note_failed (o : lpm_call) (m : lpm_map) (k : lpm_key) (w : kref) : kref :=
  KRef (k_trie w) (k_hash w) (k_cap w) (k_cfg w) (k_metrics w) (k_errs w) (k_times w) (k_clocks w)
       ((o, m, k) :: k_failed w).

(** The scripted result of the next call, and the world without it. *)
Definition next_err (w : kref) : Z * kref :=
  (default 0 (hd_error (k_errs w)), set_errs (tl (k_errs w)) w).

(** [key_ok], decided. *)
Definition key_ok_b (m : lpm_map) (k : lpm_key) : bool :=
  (0 <=? k.1) && (k.1 <=? lpm_bits m) && (Z.of_nat (8 * length k.2) =? lpm_bits m)
  && bool_decide (bytes_ok k.2)
  && forallb (λ i, negb (bit_at k.2 i)) (seq (Z.to_nat k.1) (8 * length k.2 - Z.to_nat k.1)).

(** The entries of a trie. *)
Definition trie_of (w : kref) (m : lpm_map) : trie :=
  filter (λ x, key_ok_b m x.1 = true) (k_trie w m).

Definition EINVAL : Z := 22.

Definition trie_keys (t : trie) : list lpm_key := remove_dups t.*1.
Definition trie_del (k : lpm_key) (t : trie) : trie := filter (λ x, x.1 ≠ k) t.

Definition ref_lpm_update (m : lpm_map) (k : lpm_key) (v : lpm_val) (w : kref) : Z * kref :=
  let '(e, w) := next_err w in
  if negb (e =? 0) then (e, note_failed LpmUpdate m k w)
  else if negb (key_ok_b m k) then (EINVAL, note_failed LpmUpdate m k w)
  else if bool_decide (k ∉ (trie_of w m).*1) && (k_cap w <=? length (trie_of w m))%nat
  then (E2BIG, note_failed LpmUpdate m k w)
  else (0, set_trie m ((k, v) :: trie_del k (trie_of w m)) w).

Definition ref_lpm_delete (m : lpm_map) (k : lpm_key) (w : kref) : Z * kref :=
  let '(e, w) := next_err w in
  if negb (e =? 0) && negb (e =? ENOENT) then (e, note_failed LpmDelete m k w)
  else if bool_decide (k ∈ (trie_of w m).*1) then (0, set_trie m (trie_del k (trie_of w m)) w)
  else (ENOENT, w).

Definition key_covers_b (k : lpm_key) (a : list Z) : bool :=
  forallb (λ i, Bool.eqb (bit_at a i) (bit_at k.2 i)) (seq 0 (Z.to_nat k.1)).

(** The element after [k] in a list, the first when [k] is not there. *)
Fixpoint after_key (k : list Z) (l : list (list Z)) : option (list Z) :=
  match l with
  | [] => None
  | x :: l' => if decide (x = k) then hd_error l' else after_key k l'
  end.

(** The addresses of a counter hash. *)
Definition hash_keys (w : kref) (h : hash_map) : list (list Z) :=
  filter (λ k, length k = hash_key_len h ∧ bytes_ok k) (map_to_list (k_hash w h)).*1.

Lemma after_key_in k l x : after_key k l = Some x → x ∈ l.
Proof.
  induction l as [|y l IH]; simpl; [done|]. case_decide.
  - destruct l; [done|]. intros [= ->]. set_solver.
  - intros E. apply elem_of_cons. right. by apply IH.
Qed.

#[export] Instance ref_kernel : Kernel kref := {
  bpf_lpm_update := ref_lpm_update;
  bpf_lpm_delete := ref_lpm_delete;
  bpf_lpm_next_key m o w :=
    (match o with
     | None => hd_error (trie_keys (trie_of w m))
     | Some k => key_after k (trie_keys (trie_of w m))
     end, w);
  bpf_cfg_update c w :=
    let '(e, w) := next_err w in if negb (e =? 0) then (e, w) else (0, set_kcfg c w);
  bpf_metrics_read w :=
    ((λ x, [rx_pkts x; rx_bytes x; passed x; dropped x; non_ip x; map_full x; parse_err x])
       <$> k_metrics w, w);
  bpf_hash_next_key h o w :=
    (match o with
     | None => hd_error (hash_keys w h)
     | Some k => after_key k (hash_keys w h)
     end, w);
  bpf_hash_read h k w := ((λ c, [in_pkts c; in_bytes c]) <$> k_hash w h !! k, w);
  sys_time w := (default 0 (hd_error (k_times w)), set_times (tl (k_times w)) w);
  sys_clock w :=
    (let t := default (Timespec 0 0) (hd_error (k_clocks w)) in
     Timespec (tv_sec t) (tv_nsec t mod 10 ^ 9), set_clocks (tl (k_clocks w)) w);
  xdp_cfg := k_cfg;
  xdp_metrics := k_metrics;
  xdp_metrics_store x w := set_kmetrics x w;
  xdp_lpm_hit m a w := existsb (λ k, key_covers_b k a) (trie_of w m).*1;
  xdp_hash_lookup h a w := k_hash w h !! a;
  xdp_hash_update_noexist h a c w :=
    if bool_decide (is_Some (k_hash w h !! a)) || (k_cap w <=? size (k_hash w h))%nat then w
    else set_hash h (<[a := c]> (k_hash w h)) w;
  xdp_hash_store h a c w := set_hash h (<[a := c]> (k_hash w h)) w;
  lpm_view m w := list_to_map (trie_of w m);
  lpm_keys m w := trie_keys (trie_of w m);
  failed o m k w := (o, m, k) ∈ k_failed w;
}.

(** ** The laws *)

Lemma trie_del_fst k t : (trie_del k t).*1 = filter (λ x, x ≠ k) t.*1.
Proof.
  unfold trie_del. induction t as [|[k' v] t IH]; [done|]. cbn [fmap list_fmap].
  rewrite !filter_cons. cbn. case_decide; cbn; by rewrite IH.
Qed.

Lemma remove_dups_filter (P : lpm_key → Prop) `{!∀ x, Decision (P x)} l :
  remove_dups (filter P l) = filter P (remove_dups l).
Proof.
  induction l as [|x l IH]; [done|]. rewrite filter_cons. cbn [remove_dups].
  destruct (decide (P x)) as [Hx|Hx]; cbn [remove_dups].
  - rewrite IH. destruct (decide_rel elem_of x (filter P l)) as [Hin|Hin];
      destruct (decide_rel elem_of x l) as [Hin'|Hin']; try done.
    + apply list_elem_of_filter in Hin as [_ ?]. done.
    + destruct Hin. by apply list_elem_of_filter.
    + rewrite filter_cons. by rewrite decide_True.
  - rewrite IH. destruct (decide_rel elem_of x l); [done|]. rewrite filter_cons.
    by rewrite decide_False.
Qed.

Lemma view_del k (t : trie) :
  (list_to_map (trie_del k t) : gmap lpm_key lpm_val) = delete k (list_to_map t).
Proof.
  induction t as [|[k' v] t IH]; [symmetry; apply delete_empty|].
  unfold trie_del. rewrite filter_cons. fold (trie_del k t). cbn [fst].
  destruct (decide (k' ≠ k)) as [Hk|Hk]; cbn [list_to_map foldr fst snd].
  - change (foldr _ _ t) with (list_to_map t : gmap lpm_key lpm_val).
    simpl. rewrite IH. by rewrite delete_insert_ne.
  - apply dec_stable in Hk as ->. rewrite IH. simpl. by rewrite delete_insert_eq.
Qed.

Lemma view_in k (t : trie) :
  is_Some ((list_to_map t : gmap lpm_key lpm_val) !! k) ↔ k ∈ t.*1.
Proof.
  split.
  - intros [v Hv]. apply elem_of_list_to_map_2 in Hv. apply list_elem_of_fmap. by exists (k, v).
  - intros Hin. apply not_eq_None_Some. intros Hn. by apply not_elem_of_list_to_map in Hn.
Qed.

Lemma key_covers_b_spec k a : key_covers_b k a = true ↔ key_covers k a.
Proof.
  unfold key_covers_b, key_covers. rewrite forallb_forall. split.
  - intros H i Hi. apply Bool.eqb_prop, H, in_seq. lia.
  - intros H i Hi%in_seq. rewrite H by lia. apply Bool.eqb_reflx.
Qed.

Lemma key_ok_b_spec m k : key_ok_b m k = true ↔ key_ok m k.
Proof.
  unfold key_ok_b, key_ok. rewrite !andb_true_iff, !Z.leb_le, Z.eqb_eq, bool_decide_eq_true,
    forallb_forall. split.
  - intros ((((H1 & H2) & H3) & H4) & H5). split_and!; try done. intros i Hi.
    destruct (decide (i < 8 * length k.2)%nat) as [Hlt|Hge].
    + apply negb_true_iff, H5, in_seq. lia.
    + unfold bit_at. rewrite lookup_ge_None_2; [apply Z.bits_0|].
      apply Nat.div_le_lower_bound; lia.
  - intros ((H1 & H2) & H3 & H4 & H5). split_and!; try done. intros i Hi%in_seq.
    apply negb_true_iff, H5. lia.
Qed.

(** Storing entries whose keys are in form. *)
Lemma trie_of_set m (t : trie) w :
  Forall (λ x, key_ok_b m x.1 = true) t → trie_of (set_trie m t w) m = t.
Proof.
  intros Ht. unfold trie_of, set_trie. simpl. rewrite decide_True by done.
  induction Ht as [|x t Hx Ht IH]; [done|]. rewrite filter_cons, decide_True by done. by rewrite IH.
Qed.

Lemma trie_of_ok w m : Forall (λ x, key_ok_b m x.1 = true) (trie_of w m).
Proof. apply Forall_forall. intros x Hx. by apply list_elem_of_filter in Hx as [? _]. Qed.

Lemma trie_del_ok w m k : Forall (λ x, key_ok_b m x.1 = true) (trie_del k (trie_of w m)).
Proof.
  apply Forall_forall. intros x Hx. apply list_elem_of_filter in Hx as [_ Hx].
  by apply list_elem_of_filter in Hx as [? _].
Qed.

Lemma set_trie_but m t w l : same_but m w (set_trie m t (set_errs l w)).
Proof.
  split; [|done]. intros m' Hm. split; simpl; unfold trie_of; simpl; by rewrite decide_False.
Qed.

Lemma ref_past w w' : k_failed w' = k_failed w → same_past w w'.
Proof. intros Hr o m k. cbn. by rewrite Hr. Qed.

Lemma ref_kept w w' o m k (φ : Prop) :
  k_failed w' = k_failed w → ¬ φ → failed o m k w' ↔ failed o m k w ∨ φ.
Proof. intros E Hn. cbn. rewrite E. tauto. Qed.

Lemma ref_noted o m k w w' o' m' k' :
  k_failed w' = (o, m, k) :: k_failed w →
  failed o' m' k' w' ↔ failed o' m' k' w ∨ o' = o ∧ m' = m ∧ k' = k.
Proof.
  intros E. change ((o', m', k') ∈ k_failed w' ↔ (o', m', k') ∈ k_failed w ∨ o' = o ∧ m' = m ∧ k' = k).
  rewrite E, elem_of_cons. split.
  - intros [[= -> -> ->]|?]; [by right|by left].
  - intros [?|(-> & -> & ->)]; [by right|by left].
Qed.

(** Where nothing failed no delete was refused. *)
Lemma none_refused w : k_failed w = [] → ∀ m k, ¬ refused m k w.
Proof. intros E m k. change ((LpmDelete, m, k) ∉ k_failed w). rewrite E. apply not_elem_of_nil. Qed.

(** A change of anything but the maps and the past. *)
Lemma ref_same w w' :
  k_trie w' = k_trie w → k_cfg w' = k_cfg w → k_failed w' = k_failed w → same_maps w w'.
Proof.
  intros Ht Hc Hr. split; [|split; [done|]].
  - intros m. unfold same_trie. cbn. unfold trie_of. by rewrite Ht.
  - by apply ref_past.
Qed.

(** Unfolds an operation of the reference kernel, its fault named [e0]. *)
Local Ltac ref_call :=
  unfold bpf_lpm_update, bpf_lpm_delete, bpf_cfg_update, ref_kernel, ref_lpm_update, ref_lpm_delete, next_err;
  set (e0 := default 0 (hd_error (k_errs _))).

Lemma ref_update_ok m k v w w' :
  bpf_lpm_update m k v w = (0, w') → lpm_view m w' = <[k := v]> (lpm_view m w) ∧ same_but m w w'.
Proof.
  ref_call. destruct (negb _) eqn:E; [intros [= E1 <-]; breflect; by rewrite E1 in E|].
  destruct (key_ok_b m k) eqn:Ek; cbn [negb]; [|done].
  destruct (bool_decide _ && _); [done|]. intros [= <-]. split; [|apply set_trie_but].
  unfold lpm_view. rewrite trie_of_set by (constructor; [done|apply trie_del_ok]).
  simpl. rewrite view_del. apply insert_delete_eq.
Qed.

Lemma ref_update_past m k v w e w' o' m' k' :
  bpf_lpm_update m k v w = (e, w') →
  failed o' m' k' w' ↔ failed o' m' k' w ∨ (o' = LpmUpdate ∧ m' = m ∧ k' = k ∧ e ≠ 0).
Proof.
  ref_call. assert (∀ x y, x ≠ 0 → k_failed y = (LpmUpdate, m, k) :: k_failed w → (x, y) = (e, w') →
    failed o' m' k' w' ↔ failed o' m' k' w ∨ (o' = LpmUpdate ∧ m' = m ∧ k' = k ∧ e ≠ 0)) as Hn.
  { intros x y Hx Hy [= <- <-]. rewrite (ref_noted _ _ _ _ _ _ _ _ Hy). intuition. }
  destruct (negb (e0 =? 0)) eqn:E0; [breflect; by apply Hn|].
  destruct (negb (key_ok_b m k)); [by apply Hn|].
  destruct (bool_decide _ && _); [by apply Hn|]. intros [= <- <-].
  apply ref_kept; [done|]. by intros (_ & _ & _ & ?).
Qed.

Lemma ref_delete_ok m k w w' :
  bpf_lpm_delete m k w = (0, w') →
  is_Some (lpm_view m w !! k) ∧ lpm_view m w' = delete k (lpm_view m w)
  ∧ lpm_keys m w' = filter (λ x, x ≠ k) (lpm_keys m w) ∧ same_but m w w'.
Proof.
  ref_call. destruct (negb _ && _) eqn:E; [intros [= E1 <-]; breflect; by rewrite E1 in *|].
  case_bool_decide as Hin; intros [=<-]. split_and!.
  - by apply view_in.
  - unfold lpm_view. rewrite trie_of_set by apply trie_del_ok. apply view_del.
  - unfold lpm_keys. rewrite trie_of_set by apply trie_del_ok. unfold trie_keys. rewrite trie_del_fst.
    apply remove_dups_filter.
  - apply set_trie_but.
Qed.

#[export] Instance ref_kernel_laws : KernelLaws kref.
Proof.
  split.
  - intros m k v w w' _. apply ref_update_ok.
  - intros m k v w e w'. ref_call.
    destruct (negb (_ =? 0)); [intros [= <- <-] _; done|].
    destruct (negb (key_ok_b m k)); [intros [= <- <-] _; done|].
    destruct (bool_decide _ && _); by intros [= <- <-].
  - intros m k v w. ref_call.
    destruct (negb (_ =? 0)); [done|]. destruct (negb (key_ok_b m k)); [done|].
    destruct (bool_decide _ && _); [done|apply set_trie_but].
  - apply ref_update_past.
  - intros m k w w' _. apply ref_delete_ok.
  - intros m k w e w'. ref_call.
    destruct (negb _ && _); [intros [= <- <-] _; done|]. case_match; intros [= <- <-]; done.
  - intros m k w e w' o' m' k'. ref_call. destruct (negb _ && _) eqn:E; breflect.
    + intros [= <- <-]. rewrite (ref_noted LpmDelete m k w) by done. intuition.
    + case_bool_decide; intros [= <- <-]; (apply ref_kept; [done|]); by intros (_ & _ & _ & ? & ?).
  - intros m k w. ref_call.
    destruct (negb _ && _); [split; [reflexivity|by split]|]. case_bool_decide; [|split; [reflexivity|by split]]. cbn [snd].
    split; [|apply set_trie_but]. unfold lpm_view. rewrite trie_of_set by apply trie_del_ok.
    rewrite view_del. apply delete_subseteq.
  - intros m k w w' _. ref_call.
    destruct (negb _ && _) eqn:E; [intros [= E1 <-]; breflect; by rewrite E1 in *|].
    case_bool_decide as Hin; intros [=<-]. apply eq_None_not_Some. intros Hs. apply Hin. by apply view_in.
  - intros m w. apply NoDup_remove_dups.
  - intros m w k Hk. change (k ∈ remove_dups (trie_of w m).*1) in Hk.
    rewrite elem_of_remove_dups in Hk. apply list_elem_of_fmap in Hk as (x & -> & Hx).
    apply key_ok_b_spec. by apply list_elem_of_filter in Hx as [? _].
  - intros m w k. change (lpm_keys m w) with (remove_dups (trie_of w m).*1).
    rewrite elem_of_remove_dups. symmetry. apply view_in.
  - done.
  - done.
  - done.
  - intros c w w'. ref_call. destruct (negb _) eqn:E; [intros [= E1 <-]; breflect; by rewrite E1 in E|].
    by intros [= <-].
  - intros c w e w'. ref_call. destruct (negb _) eqn:E; by intros [= <- <-].
  - intros c w m. ref_call. destruct (negb _); done.
  - intros c w. ref_call. destruct (negb _); by apply ref_past.
  - done.
  - intros h o w k Hk.
    assert (k ∈ hash_keys w h) as Hin.
    { destruct o as [k'|]; simpl in Hk; [by eapply after_key_in|].
      destruct (hash_keys w h); [done|]. injection Hk as ->. set_solver. }
    by apply list_elem_of_filter in Hin as [? _].
  - done.
  - done.
  - done.
  - done.
  - intros m a w _. simpl. rewrite existsb_exists. split.
    + intros (k & Hin & Hk). exists k. split; [apply view_in; by apply list_elem_of_In|].
      by apply key_covers_b_spec.
    + intros (k & Hin & Hk). exists k. split; [apply list_elem_of_In; by apply view_in|].
      by apply key_covers_b_spec.
Qed.

#[export] Instance ref_xdp_laws : XdpLaws kref.
Proof.
  split; try done.
  - intros h a c w _. simpl. rewrite decide_True by done. apply lookup_insert_eq.
  - intros h a c w h' a' Hn. simpl. case_decide; [subst|done]. apply lookup_insert_ne. congruence.
  - intros h a c w. simpl. by case_match.
  - intros h a c w m b. simpl. by case_match.
  - intros h a c w E. simpl in *. rewrite E. rewrite bool_decide_eq_false_2 by (by intros []).
    cbn [orb]. destruct (_ <=? _)%nat; [by right|]. left. simpl. rewrite decide_True by done.
    apply lookup_insert_eq.
  - intros h a c w. simpl. by case_match.
  - intros h a c w h' a' Hn. simpl. case_match; [done|]. simpl. by rewrite decide_False.
Qed.

(** An idle kernel: empty maps, disarmed. *)
Definition ref_boot (cap : nat) : kref :=
  KRef (λ _, []) (λ _, ∅) cap (Some (BpfCfg 0 [22; 0; 0; 0; 0; 0; 0; 0] 1))
       (Some (Metrics 0 0 0 0 0 0 0)) [] [] [] [].
