(* ===== verification/Maps.v ===== *)
(** * maps.c: the BPF maps seen from the daemon

    Updates and deletes of the tries, the flush loop, the cfg commit, the
    per-CPU sums and the walk over remote counters, on a kernel world.  The
    walk is generic in the callback and its state. *)

From S2P Require Import Prelude Types Ipaddr Config Kernel.
Open Scope Z_scope.

(** The fields of [struct vg_maps] the reads depend on. *)
Record vg_maps := Maps { ncpus : Z; sum_scratch_size : Z }.

Definition sizeof_host_counters : Z := 16.
Definition sizeof_vg_metrics : Z := 56.

Definition sum_scratch_need (n : Z) : Z :=
  n * (if sizeof_vg_metrics <? sizeof_host_counters then sizeof_host_counters
       else sizeof_vg_metrics).

(** The sizes [vg_maps_open] sets up, from what libbpf reports. *)
Definition maps_open_sizes (possible_cpus : Z) : vg_maps :=
  let n := if possible_cpus <=? 0 then 1 else possible_cpus in
  Maps n (sum_scratch_need n).

Section Maps.
Context {K : Type} `{!Kernel K}.

(** A call of the kernel in the monad. *)
Definition call {A} (f : K → A * K) : M K A := λ w, Some (f w).

(** The key [lpm_update] and [lpm_delete] build. *)
Definition lpm_key_of (p : vg_cidr) : lpm_key :=
  if family p =? AF_INET then (prefixlen p, take 4 (addr p))
  else (prefixlen p, take 16 (addr p)).

Definition lpm_update (fd : lpm_map) (p : vg_cidr) (val : lpm_val) : M K Z :=
  call (bpf_lpm_update fd (lpm_key_of p) val).

Definition lpm_delete (fd : lpm_map) (p : vg_cidr) : M K Z :=
  call (bpf_lpm_delete fd (lpm_key_of p)).

Definition drop_fd (p : vg_cidr) : lpm_map := if family p =? AF_INET then drop_v4 else drop_v6.

(** The result is [errno], 0 on success. *)
Definition vg_drop_add (p : vg_cidr) (reason now : Z) : M K Z :=
  lpm_update (drop_fd p) p (VDrop (DropEntry reason now)).

Definition vg_drop_del (p : vg_cidr) : M K Z := lpm_delete (drop_fd p) p.

(** The [for (;;)] of [flush_lpm]. *)
Fixpoint flush_loop (fuel : nat) (fd : lpm_map) (key : lpm_key) : M K unit :=
  match fuel with
  | O => λ _, None
  | S fuel =>
      nx ← call (bpf_lpm_next_key fd (Some key));
      _ ← call (bpf_lpm_delete fd key);
      match nx with
      | None => mret tt
      | Some next => flush_loop fuel fd next
      end
  end.

(** One turn per key: the fuel is the number of keys. *)
Definition flush_lpm (fd : lpm_map) : M K unit :=
  n ← gets (λ w, length (lpm_keys fd w));
  k ← call (bpf_lpm_next_key fd None);
  match k with
  | None => mret tt
  | Some key => flush_loop n fd key
  end.

Definition vg_drop_flush : M K unit := _ ← flush_lpm drop_v4; flush_lpm drop_v6.

(** [lpm_update] of every prefix of a list; failures are only logged. *)
Fixpoint populate_loop (fd4 fd6 : lpm_map) (l : list vg_cidr) : M K unit :=
  match l with
  | [] => mret tt
  | p :: l =>
      _ ← lpm_update (if family p =? AF_INET then fd4 else fd6) p (VByte 1);
      populate_loop fd4 fd6 l
  end.

Definition vg_populate_local (cfg : vg_config) : M K unit :=
  _ ← flush_lpm local_v4; _ ← flush_lpm local_v6;
  populate_loop local_v4 local_v6 (local_cidr cfg).

Definition vg_populate_allow (cfg : vg_config) : M K unit :=
  _ ← flush_lpm allow_v4; _ ← flush_lpm allow_v6;
  populate_loop allow_v4 allow_v6 (allow_cidr cfg).

(** [bc.allow_ports] after the copy loop, zero-padded. *)
Definition bpf_cfg_of (armed : Z) (cfg : vg_config) : vg_cfg :=
  let n := u16 (Z.of_nat (length (cfg_allow_ports cfg))) in
  let n := if Z.of_nat VG_MAX_ALLOW_PORTS <? n then Z.of_nat VG_MAX_ALLOW_PORTS else n in
  let ports := take (Z.to_nat n) (cfg_allow_ports cfg) in
  BpfCfg armed (ports ++ replicate (VG_MAX_ALLOW_PORTS - length ports) 0) n.

Definition vg_cfg_commit (armed : Z) (cfg : vg_config) : M K Z :=
  call (bpf_cfg_update (bpf_cfg_of armed cfg)).

(** [dst[i] += src[i]] over the words of one CPU. *)
Definition add_words (dst src : list Z) : list Z := zip_with (λ d s, u64 (d + s)) dst src.

(** The words of one CPU; the buffer was zeroed before the read. *)
Definition cpu_words (buf : list Z) (words cpu : nat) : list Z :=
  (λ i, default 0 (buf !! (cpu * words + i)%nat)) <$> seq 0 words.

Fixpoint sum_loop (n cpu : nat) (buf : list Z) (words : nat) (dst : list Z) : list Z :=
  match n with
  | O => dst
  | S n => sum_loop n (S cpu) buf words (add_words dst (cpu_words buf words cpu))
  end.

(** [None]: the return value -1. *)
Definition vg_sum_percpu (m : vg_maps) (read : K → option (list Z) * K) (val_size : Z)
  : M K (option (list Z)) :=
  let n := if ncpus m <=? 0 then 1 else ncpus m in
  let words := Z.to_nat (val_size / 8) in
  if sum_scratch_size m <? n * val_size then mret None
  else
    buf ← call read;
    match buf with
    | None => mret None
    | Some buf => mret (Some (sum_loop (Z.to_nat n) 0 buf words (replicate words 0)))
    end.

Definition vg_metrics_read (m : vg_maps) : M K (option vg_metrics) :=
  r ← vg_sum_percpu m bpf_metrics_read sizeof_vg_metrics;
  mret (l ← r; let g i := default 0 (l !! i) in
        Some (Metrics (g 0%nat) (g 1%nat) (g 2%nat) (g 3%nat) (g 4%nat) (g 5%nat) (g 6%nat))).

(** *** The walk over remote counters, state [T] besides the kernel *)
Section Foreach.
Context {T : Type} (fn : Z → list Z → host_counters → M (T * K) unit).

(** A kernel computation in the wider state. *)
Definition liftK {A} (f : M K A) : M (T * K) A := λ sk,
  match f sk.2 with Some (a, k) => Some (a, (sk.1, k)) | None => None end.

(** The loop of [foreach_family]: [budget - visited] turns left; [cur] is
    [None] while [first].  Result: the last key and whether the budget ran
    out. *)
Fixpoint foreach_loop (turns : nat) (m : vg_maps) (h : hash_map) (fam : Z)
    (cur : option (list Z)) : M (T * K) (option (list Z) * bool) :=
  match turns with
  | O => mret (cur, true)
  | S turns =>
      nx ← liftK (call (bpf_hash_next_key h cur));
      match nx with
      | None => mret (cur, false)
      | Some key =>
          s ← liftK (vg_sum_percpu m (bpf_hash_read h key) sizeof_host_counters);
          _ ← match s with
              | Some l => fn fam key (HostCounters (default 0 (l !! 0%nat)) (default 0 (l !! 1%nat)))
              | None => mret tt
              end;
          foreach_loop turns m h fam (Some key)
      end
  end.

Definition foreach_family (m : vg_maps) (h : hash_map) (fam : Z) (budget : Z)
  : M (T * K) bool :=
  r ← foreach_loop (Z.to_nat budget) m h fam None;
  let '(cur, full) := r in
  if negb full then mret true
  else
    nx ← liftK (call (bpf_hash_next_key h cur));
    mret (match nx with None => true | Some _ => false end).

(** 1 is [true], 0 is [false]; -1 needs a NULL argument or a closed map. *)
Definition vg_remote_foreach (m : vg_maps) (budget : Z) : M (T * K) bool :=
  let budget := if budget =? 0 then VG_REMOTE_MAP_MAX else budget in
  c4 ← foreach_family m remote_v4 AF_INET budget;
  c6 ← foreach_family m remote_v6 AF_INET6 budget;
  mret (c4 && c6).
End Foreach.
End Maps.

(** The walk as the controller sees it: [vg_remote_foreach] of maps.h, which
    the unit test of the controller replaces by one of its own. *)
Class RemoteWalk (K : Type) :=
  remote_foreach : ∀ {T : Type}, (Z → list Z → host_counters → M (T * K) unit) → vg_maps → Z → M (T * K) bool.

#[export] Instance maps_remote_walk {K} `{!Kernel K} : RemoteWalk K := λ T fn, vg_remote_foreach fn.
