(* ===== verification/MapsThms.v ===== *)
(** * Lemmas on the map operations

    The key of a prefix determines it and matches exactly its addresses;
    updates, deletes and flushes described by the view of the tries. *)

From S2P Require Import Prelude Types Ipaddr IpaddrThms Config Kernel Maps.
Open Scope Z_scope.

(** A prefix as the parser and the policy make them. *)
Definition prefix_ok (p : vg_cidr) : Prop := cidr_ok p ∧ cidr_canon p.

Lemma lpm_key_eq p :
  cidr_ok p → lpm_key_of p = (prefixlen p, take (addr_bytes (family p)) (addr p)).
Proof.
  intros Hp. unfold lpm_key_of, addr_bytes. by destruct (ok_family _ Hp) as [-> | ->].
Qed.

(** The trie of a prefix has its width. *)
Definition fits (m : lpm_map) (p : vg_cidr) : Prop := lpm_bits m = max_plen (family p).

Lemma drop_fd_fits p : cidr_ok p → fits (drop_fd p) p.
Proof. intros Hp. unfold fits, drop_fd, max_plen. by destruct (ok_family _ Hp) as [-> | ->]. Qed.

Lemma lpm_key_ok m p : prefix_ok p → fits m p → key_ok m (lpm_key_of p).
Proof.
  intros [Hp Hc] Hf. rewrite lpm_key_eq by done. unfold key_ok. simpl. rewrite Hf.
  pose proof (addr_bytes_max _ (ok_family _ Hp)) as Hm.
  destruct (take_addr_ok p Hp) as [Hl Hb]. rewrite Hl.
  split_and!; [apply Hp|apply Hp|done|done|]. intros i Hi.
  pose proof (addr_bytes_le (family p)) as Hle. unfold bit_at.
  destruct (decide (i < 8 * addr_bytes (family p))%nat) as [Hlt|Hge].
  - pose proof (bit_at_take (addr_bytes (family p)) (addr p) i Hlt) as E. unfold bit_at in E.
    rewrite E. apply (Hc i). lia.
  - rewrite lookup_ge_None_2; [apply Z.bits_0|]. rewrite Hl.
    apply Nat.div_le_lower_bound; lia.
Qed.

Lemma lpm_key_inj p q :
  prefix_ok p → prefix_ok q → family p = family q → lpm_key_of p = lpm_key_of q → p = q.
Proof.
  intros [Hp Hcp] [Hq Hcq] Hf. rewrite !lpm_key_eq by done. intros [= Hn Ht].
  assert (addr p = addr q); [|destruct p, q; simpl in *; congruence].
  pose proof (addr_bytes_max _ (ok_family _ Hp)) as Hm.
  pose proof (addr_bytes_le (family p)). pose proof (ok_plen _ Hp).
  apply bytes_eq_bits; [apply Hp|apply Hq|by rewrite (ok_len _ Hp), (ok_len _ Hq)|].
  rewrite (ok_len _ Hp). intros i Hi.
  destruct (decide (i < 8 * addr_bytes (family p))%nat).
  - rewrite <-(bit_at_take (addr_bytes (family p))) by done. rewrite Ht, <-Hf. by rewrite bit_at_take.
  - rewrite (Hcp i), (Hcq i) by lia. done.
Qed.

Lemma drop_fd_family p q : cidr_ok p → cidr_ok q → drop_fd p = drop_fd q → family p = family q.
Proof.
  intros Hp Hq. unfold drop_fd.
  destruct (ok_family _ Hp) as [-> | ->], (ok_family _ Hq) as [-> | ->]; done.
Qed.

(** An address matches the key of a prefix exactly when it is covered. *)
Lemma key_covers_cidr p a : cidr_ok p → key_covers (lpm_key_of p) a ↔ in_cidr p a.
Proof.
  intros Hp. rewrite lpm_key_eq by done. unfold key_covers, in_cidr. simpl.
  pose proof (addr_bytes_max _ (ok_family _ Hp)). pose proof (ok_plen _ Hp).
  split; intros H' i Hi; specialize (H' i Hi); by rewrite bit_at_take in * by lia.
Qed.

(** ** The past only grows *)
Section Grows.
Context {K : Type} `{!Kernel K}.

(** A computation on a state with a kernel world in it forgets no refusal. *)
Definition grows {S A} (π : S → K) (m : M S A) : Prop :=
  ∀ s a s', m s = Some (a, s') → past (π s) (π s').

Lemma wp_past {S A} (π : S → K) (m : M S A) (Q : A → S → Prop) s :
  grows π m → wp m Q s → wp m (λ a s', Q a s' ∧ past (π s) (π s')) s.
Proof. intros Hm (a & s' & E & HQ). exists a, s'. split_and!; [done|done|by eapply Hm]. Qed.

Lemma grows_bind {S A B} (π : S → K) (m : M S A) (f : A → M S B) :
  grows π m → (∀ a, grows π (f a)) → grows π (m ≫= f).
Proof.
  intros Hm Hf s b s'. unfold mbind, M_bind. destruct (m s) as [[a s1]|] eqn:E; [|done].
  intros E'. eapply past_trans; [by eapply Hm|by eapply Hf].
Qed.

Lemma grows_still {S A} (π : S → K) (m : M S A) :
  (∀ s a s', m s = Some (a, s') → π s' = π s) → grows π m.
Proof. intros Hm s a s' E. rewrite (Hm _ _ _ E). apply past_refl. Qed.

Lemma grows_ret {S A} (π : S → K) (a : A) : grows π (mret a).
Proof. apply grows_still. by intros s x s' [= _ <-]. Qed.

Lemma grows_none {S A} (π : S → K) : grows π (λ _, None : option (A * S)).
Proof. by intros s a s'. Qed.

Lemma grows_gets {S A} (π : S → K) (f : S → A) : grows π (gets f).
Proof. apply grows_still. by intros s x s' [= _ <-]. Qed.

Lemma grows_lift {S A} (π : S → K) (o : option A) : grows π (lift o).
Proof. apply grows_still. intros s x s'. unfold lift. destruct o; [|done]. by intros [= _ <-]. Qed.

Lemma grows_call {A} (g : K → A * K) : (∀ w, past w (g w).2) → grows id (call g).
Proof. intros Hg w a w'. unfold call. intros [= E]. specialize (Hg w). by rewrite E in Hg. Qed.

Lemma grows_liftK {T A} (m : M K A) : grows id m → grows snd (liftK (T := T) m).
Proof.
  intros Hm [t w] a s'. unfold liftK. cbn [fst snd]. destruct (m w) as [[x w']|] eqn:E; [|done].
  intros [= _ <-]. by apply (Hm _ _ _ E).
Qed.
End Grows.

Create HintDb grows.
#[export] Hint Resolve grows_ret grows_none grows_gets grows_lift grows_call grows_liftK : grows.
#[export] Hint Resolve past_refl same_past_past same_maps_past delete_grows update_grows : grows.

(** Through a computation, call by call. *)
Ltac grows :=
  repeat first
    [ progress intros
    | solve [eauto with grows]
    | match goal with
      | |- grows _ (_ ≫= _) => apply grows_bind
      | |- grows _ (if ?b then _ else _) => destruct b
      | |- grows _ (match ?b with _ => _ end) => destruct b
      end ].

Section MapsThms.
Context {K : Type} `{!Kernel K} `{!KernelLaws K}.
Implicit Types w : K.

Lemma grows_update m k v : grows (K := K) id (call (bpf_lpm_update m k v)).
Proof. apply grows_call. apply update_grows. Qed.

Lemma grows_delete m k : grows (K := K) id (call (bpf_lpm_delete m k)).
Proof. apply grows_call. apply delete_grows. Qed.

Lemma grows_next m o : grows (K := K) id (call (bpf_lpm_next_key m o)).
Proof. apply grows_call. intros w. apply same_maps_past, next_same. Qed.

Lemma grows_commit a cf : grows (K := K) id (vg_cfg_commit a cf).
Proof. apply grows_call. intros w. apply same_past_past, cfg_update_past. Qed.

Lemma grows_flush_loop n m key : grows (K := K) id (flush_loop n m key).
Proof.
  revert key. induction n as [|n IH]; intros key; cbn [flush_loop]; [apply grows_none|].
  apply grows_bind; [apply grows_next|]. intros nx. apply grows_bind; [apply grows_delete|].
  intros _. destruct nx; [apply IH|apply grows_ret].
Qed.

Lemma grows_flush m : grows (K := K) id (flush_lpm m).
Proof.
  unfold flush_lpm. apply grows_bind; [apply grows_gets|]. intros n.
  apply grows_bind; [apply grows_next|]. intros [k|]; [apply grows_flush_loop|apply grows_ret].
Qed.

Lemma grows_populate_loop fd4 fd6 l : grows (K := K) id (populate_loop fd4 fd6 l).
Proof.
  induction l as [|p l IH]; cbn [populate_loop]; [apply grows_ret|].
  apply grows_bind; [apply grows_update|]. intros _. exact IH.
Qed.

Lemma grows_populate fd4 fd6 l :
  grows (K := K) id (_ ← flush_lpm fd4; _ ← flush_lpm fd6; populate_loop fd4 fd6 l).
Proof. do 2 (apply grows_bind; [apply grows_flush|]; intros ?). apply grows_populate_loop. Qed.

Lemma wp_call {A} (g : K → A * K) Q w : Q (g w).1 (g w).2 → wp (call g) Q w.
Proof. intros H. exists (g w).1, (g w).2. unfold call. by destruct (g w). Qed.

(** Work on a trie refuses no delete of another one. *)
Definition spares {A} (x : lpm_map) (m : M K A) : Prop :=
  ∀ w a w' k, m w = Some (a, w') → refused x k w' → refused x k w.

Lemma spares_bind {A B} x (m : M K A) (f : A → M K B) :
  spares x m → (∀ a, spares x (f a)) → spares x (m ≫= f).
Proof. intros Hm Hf w b w' k E. apply mbind_inv in E as (a & w1 & E1 & E2). intros Hr. by eapply Hm, Hf. Qed.

Lemma spares_ret {A} x (a : A) : spares x (mret a).
Proof. by intros w b w' k [= _ <-]. Qed.

Lemma spares_gets {A} x (f : K → A) : spares x (gets f).
Proof. by intros w b w' k [= _ <-]. Qed.

Lemma spares_next x m o : spares x (call (bpf_lpm_next_key m o)).
Proof. intros w a w' k [= E]. pose proof (next_same m o w) as (_ & _ & H). rewrite E in H. apply H. Qed.

Lemma spares_delete x m key : x ≠ m → spares x (call (bpf_lpm_delete m key)).
Proof.
  intros Hx w a w' k [= E] Hr. apply (delete_past _ _ _ _ _ LpmDelete x k E) in Hr as [?|(_ & ? & _)]; done.
Qed.

Lemma spares_update x m key v : spares x (call (bpf_lpm_update m key v)).
Proof.
  intros w a w' k [= E] Hr. apply (update_past _ _ _ _ _ _ LpmDelete x k E) in Hr as [?|(? & _)]; done.
Qed.

Lemma spares_flush x m : x ≠ m → spares x (flush_lpm m).
Proof.
  intros Hx. assert (∀ n key, spares x (flush_loop n m key)) as Hl.
  { induction n as [|n IH]; intros key; cbn [flush_loop]; [done|].
    apply spares_bind; [apply spares_next|]. intros nx.
    apply spares_bind; [by apply spares_delete|]. intros _. destruct nx; [apply IH|apply spares_ret]. }
  unfold flush_lpm. apply spares_bind; [apply spares_gets|]. intros n.
  apply spares_bind; [apply spares_next|]. intros [k|]; [apply Hl|apply spares_ret].
Qed.

Lemma spares_populate x fd4 fd6 l :
  x ≠ fd4 → x ≠ fd6 → spares x (_ ← flush_lpm fd4; _ ← flush_lpm fd6; populate_loop fd4 fd6 l).
Proof.
  intros H4 H6. apply spares_bind; [by apply spares_flush|]. intros _.
  apply spares_bind; [by apply spares_flush|]. intros _.
  induction l as [|p l IH]; cbn [populate_loop]; [apply spares_ret|].
  apply spares_bind; [apply spares_update|]. intros _. exact IH.
Qed.

Lemma same_trie_refl m w : same_trie m w w.
Proof. done. Qed.

Lemma same_but_trans m w1 w2 w3 : same_but m w1 w2 → same_but m w2 w3 → same_but m w1 w3.
Proof.
  intros [H1 H2] [H3 H4]. split; [|congruence]. intros m' Hm.
  destruct (H1 m' Hm), (H3 m' Hm). split; congruence.
Qed.

Lemma same_tries_but m w w' : same_tries w w' → same_but m w w'.
Proof. intros [H1 H2]. split; [|done]. intros m' _. apply H1. Qed.

Lemma same_maps_but m w w' : same_maps w w' → same_but m w w'.
Proof. intros H. by apply same_tries_but, same_maps_tries. Qed.

Lemma key_after_mid (k : lpm_key) pre post :
  k ∉ pre → key_after k (pre ++ k :: post) = hd_error post.
Proof.
  induction pre as [|x pre IH]; intros Hn; simpl.
  - by rewrite decide_True.
  - rewrite decide_False by set_solver. apply IH. set_solver.
Qed.

Lemma filter_mid (k : lpm_key) pre post :
  k ∉ pre → k ∉ post → filter (λ x, x ≠ k) (pre ++ k :: post) = pre ++ post.
Proof.
  intros H1 H2. rewrite filter_app, filter_cons, decide_False by (by intros []).
  assert (∀ l : list lpm_key, k ∉ l → filter (λ x, x ≠ k) l = l) as Hf.
  { induction l as [|x l IH]; intros Hl; [done|]. rewrite filter_cons, decide_True by set_solver.
    rewrite IH by set_solver. done. }
  by rewrite !Hf.
Qed.

(** ** Flush *)

Lemma flush_loop_spec m fuel pre key post w :
  lpm_keys m w = pre ++ key :: post → (length post < fuel)%nat →
  wp (flush_loop fuel m key) (λ _ w',
    same_but m w w' ∧ lpm_view m w' ⊆ lpm_view m w ∧
    ∀ k, k ∈ lpm_keys m w' → k ∈ pre ∨ refused m k w') w.
Proof.
  revert pre key post w. induction fuel as [|fuel IH]; intros pre key post w Hk Hf; [lia|].
  cbn [flush_loop]. apply wp_bind.
  assert (key ∈ lpm_keys m w) as Hin by (rewrite Hk; set_solver).
  pose proof (keys_nodup m w) as Hnd. rewrite Hk in Hnd.
  apply NoDup_app in Hnd as (Hnd1 & Hnd2 & Hnd3). apply NoDup_cons in Hnd3 as [Hnd3 Hnd4].
  assert (key ∉ pre) as Hpre by (intros Hp; apply (Hnd2 key Hp); set_solver).
  pose proof (next_after m w key Hin) as Hnx. rewrite Hk, key_after_mid in Hnx by done.
  pose proof (next_same m (Some key) w) as Hs1. unfold call, wp at 1.
  destruct (bpf_lpm_next_key m (Some key) w) as [nx w1] eqn:E1. simpl in *. subst nx.
  exists (hd_error post), w1. split; [done|]. apply wp_bind. unfold wp at 1.
  destruct (bpf_lpm_delete m key w1) as [e w2] eqn:E2. exists e, w2. split; [done|].
  destruct (proj1 Hs1 m) as [Hv1 Hk1].
  assert (key_ok m key) as Hok by (by apply (keys_ok m w)).
  (* the trie after this turn: without the key, or the delete was refused *)
  assert (∃ pre', lpm_keys m w2 = pre' ++ post ∧ same_but m w w2 ∧ lpm_view m w2 ⊆ lpm_view m w
    ∧ (∀ k, k ∈ pre' → k ∈ pre ∨ refused m k w2)) as (pre' & Hk2 & Hb2 & Hv2 & Hp2).
  { destruct (decide (e = 0)) as [->|He].
    - destruct (delete_ok m key w1 w2 Hok E2) as (_ & Hv & Hkk & Hb). exists pre. split_and!.
      + by rewrite Hkk, Hk1, Hk, filter_mid.
      + eapply same_but_trans; [by apply same_maps_but|done].
      + rewrite Hv, Hv1. apply delete_subseteq.
      + by left.
    - pose proof (delete_fail m key w1 e w2 E2 He) as Hs2. pose proof (proj1 Hs2 m) as [Hv Hkk].
      exists (pre ++ [key]). split_and!.
      + rewrite Hkk, Hk1, Hk. by rewrite <-app_assoc.
      + eapply same_but_trans; [by apply same_maps_but|by apply same_tries_but].
      + by rewrite Hv, Hv1.
      + intros k. rewrite elem_of_app, list_elem_of_singleton. intros [?| ->]; [by left|right].
        apply (delete_past _ _ _ _ _ LpmDelete m key E2). right. split_and!; [done..|]. intros ->.
        pose proof (delete_enoent m key w1 w2 Hok E2) as Hn.
        assert (is_Some (lpm_view m w1 !! key)) as [? Hx] by (apply keys_view; by rewrite Hk1).
        congruence. }
  destruct post as [|next post]; simpl.
  - apply wp_ret. split_and!; [done..|]. rewrite Hk2, app_nil_r. done.
  - simpl in Hf. eapply wp_mono; [eapply wp_past; [apply grows_flush_loop|apply (IH pre' next post w2 Hk2); lia]|].
    intros _ w' ((H1 & H2 & H3) & H4). split_and!.
    + by eapply same_but_trans.
    + by etrans.
    + intros k Hk'. destruct (H3 k Hk') as [[|Hp]%Hp2|]; [by left|right; by apply H4|by right].
Qed.

Lemma flush_lpm_spec m w :
  wp (flush_lpm m) (λ _ w',
    same_but m w w' ∧ lpm_view m w' ⊆ lpm_view m w ∧
    ∀ k, is_Some (lpm_view m w' !! k) → refused m k w') w.
Proof.
  unfold flush_lpm. apply wp_bind, wp_gets, wp_bind. unfold call, wp at 1.
  pose proof (next_first m w) as Hnx. pose proof (next_same m None w) as Hs.
  destruct (bpf_lpm_next_key m None w) as [nx w1] eqn:E. simpl in *. subst nx.
  exists (hd_error (lpm_keys m w)), w1. split; [done|].
  pose proof (proj1 Hs m) as [Hv Hk].
  destruct (lpm_keys m w) as [|key post] eqn:El; cbn [hd_error].
  - apply wp_ret. split_and!; [by apply same_maps_but|by rewrite Hv|].
    intros k Hks. apply keys_view in Hks. rewrite Hk in Hks. by apply elem_of_nil in Hks.
  - eapply wp_mono; [apply (flush_loop_spec m _ [] key post w1 Hk); simpl; lia|].
    intros _ w' (H1 & H2 & H3). split_and!.
    + eapply same_but_trans; [by apply same_maps_but|done].
    + by rewrite <-Hv.
    + intros k Hks%keys_view. destruct (H3 k Hks) as [Hn|]; [by apply elem_of_nil in Hn|done].
Qed.
End MapsThms.
