(* ===== verification/ConfigThms.v ===== *)
(** * The configuration a file can produce

    Whatever the file holds, a configuration that loads fits the C types and
    buffers it is stored in, and its prefixes are in range and masked. *)

From Stdlib Require Import String.
From S2P Require Import Prelude CString Ipaddr IpaddrThms Types Config Kernel Maps MapsThms.
Open Scope Z_scope.

(** The ranges of the fields of [struct vg_config]. *)
Record cfg_ok (c : vg_config) : Prop := {
  ok_interface : Z.of_nat (List.length (interface c)) < VG_MAX_IFACE;
  ok_xdp_mode : Z.of_nat (List.length (xdp_mode c)) < 16;
  ok_log_file : Z.of_nat (List.length (log_file c)) < VG_CFG_PATH_MAX;
  ok_pid_file : Z.of_nat (List.length (pid_file c)) < VG_CFG_PATH_MAX;
  ok_group : Z.of_nat (List.length (ctl_socket_group c)) < 64;
  ok_u64 : Forall (λ v, 0 ≤ v < 2 ^ 64)
    [wake_pps c; wake_mbps c; threshold_pps c; threshold_mbps c];
  ok_int : Forall (λ v, 0 ≤ v ≤ INT_MAX)
    [idle_poll_ms c; clear_seconds c; ban_time c; aggregate_k c; metrics_port c];
  ok_u32 : Forall (λ v, 0 ≤ v < 2 ^ 32) [remote_map_size c; drop_map_size c];
  ok_ports : (List.length (cfg_allow_ports c) ≤ VG_MAX_ALLOW_PORTS)%nat
    ∧ Forall (λ v, 1 ≤ v ≤ 65535) (cfg_allow_ports c);
  ok_local : Z.of_nat (List.length (local_cidr c)) ≤ VG_MAX_CIDR_LIST
    ∧ Forall prefix_ok (local_cidr c);
  ok_allow : Z.of_nat (List.length (allow_cidr c)) ≤ VG_MAX_CIDR_LIST
    ∧ Forall prefix_ok (allow_cidr c);
}.

(** ** Numbers *)

Lemma fold_dec_nonneg ds v :
  Forall (λ c, is_digit c = true) ds → 0 ≤ v → 0 ≤ fold_left dec_step ds v.
Proof.
  intros Hd. revert v. induction Hd as [|c ds Hc Hd IH]; intros v Hv; simpl; [done|].
  apply IH. unfold is_digit in Hc. breflect. unfold dec_step. lia.
Qed.

Lemma span_digits_ok s ds rest : span_digits s = (ds, rest) → Forall (λ c, is_digit c = true) ds.
Proof.
  revert ds. induction s as [|c s IH]; intros ds; simpl; [by intros [= <- <-]|].
  destruct (is_digit c) eqn:E; [|by intros [= <- <-]].
  destruct (span_digits s) as [d r]. intros [= <- <-]. constructor; [done|]. by apply IH.
Qed.

Lemma strtoull_range s v rest : strtoull s = Some (v, rest) → 0 ≤ v < 2 ^ 64.
Proof.
  unfold strtoull. destruct (match skip_spaces s with [] => _ | _ => _ end) as [neg s'].
  destruct (span_digits s') as [ds r] eqn:E. apply span_digits_ok in E.
  destruct ds as [|d ds]; [done|]. intros [= <- <-].
  pose proof (fold_dec_nonneg (d :: ds) 0 E ltac:(lia)) as Hn. cbn [fold_left] in Hn.
  destruct (ULLONG_MAX <? _) eqn:E1; [by vm_compute|]. apply Z.ltb_ge in E1.
  unfold ULLONG_MAX in E1. destruct neg; [|lia]. unfold u64. apply Z.mod_pos_bound. lia.
Qed.

Lemma parse_u64_range s v : parse_u64 s = Some v → 0 ≤ v < 2 ^ 64.
Proof.
  unfold parse_u64. destruct s; [done|]. destruct (strtoull _) as [[x [|]]|] eqn:E; try done.
  intros [= <-]. by eapply strtoull_range.
Qed.

Lemma parse_int_range s v : parse_int s = Some v → 0 ≤ v ≤ INT_MAX.
Proof.
  unfold parse_int. intros (x & Hx & H)%bind_Some. apply parse_u64_range in Hx.
  destruct (INT_MAX <? x) eqn:E; [done|]. breflect. injection H as <-. lia.
Qed.

(** ** Scalar keys *)

(** A key stores only values its field can hold. *)
Definition scalar_ok (s : cfg_scalar) : Prop :=
  match s with
  | CFG_STR sz set => ∀ c v, cfg_ok c → Z.of_nat (List.length v) < sz → cfg_ok (set c v)
  | CFG_U64 set => ∀ c v, cfg_ok c → 0 ≤ v < 2 ^ 64 → cfg_ok (set c v)
  | CFG_I32 set => ∀ c v, cfg_ok c → 0 ≤ v ≤ INT_MAX → cfg_ok (set c v)
  | CFG_U32 set => ∀ c v, cfg_ok c → 0 ≤ v < 2 ^ 32 → cfg_ok (set c v)
  end.

Lemma scalars_ok : Forall (λ x, scalar_ok x.2) scalars.
Proof.
  unfold scalars. repeat (apply Forall_cons; split); try apply Forall_nil_2;
    cbn [snd scalar_ok]; intros c v [] Hv; decompose_Forall_hyps;
    (split; cbn; try done; repeat (apply Forall_cons; split); try apply Forall_nil_2; done || lia).
Qed.

Lemma apply_scalar_ok c s val c' :
  scalar_ok s → cfg_ok c → apply_scalar c s val = Some c' → cfg_ok c'.
Proof.
  intros Hs Hc. destruct s as [sz set|set|set|set]; cbn [apply_scalar scalar_ok] in *.
  - destruct (_ || _) eqn:E; [done|]. breflect. intros [= <-]. by apply Hs.
  - intros (v & Hv & [= <-])%bind_Some. apply Hs; [done|]. by eapply parse_u64_range.
  - intros (v & Hv & [= <-])%bind_Some. apply Hs; [done|]. by eapply parse_int_range.
  - intros (v & Hv & H)%bind_Some. apply parse_u64_range in Hv.
    destruct (0xffffffff <? v) eqn:E; [done|]. breflect. injection H as <-. apply Hs; [done|]. lia.
Qed.

Lemma find_scalar_ok key s : find_scalar key scalars = Some s → scalar_ok s.
Proof.
  pose proof scalars_ok as Ha. induction Ha as [|[k x] l Hx Hl IH]; simpl; [done|].
  case_bool_decide; [by intros [= <-]|done].
Qed.

(** ** Lists *)

Lemma allow_ports_loop_ok toks acc ports :
  (List.length acc ≤ VG_MAX_ALLOW_PORTS)%nat → Forall (λ v, 1 ≤ v ≤ 65535) acc →
  allow_ports_loop toks acc = Some ports →
  (List.length ports ≤ VG_MAX_ALLOW_PORTS)%nat ∧ Forall (λ v, 1 ≤ v ≤ 65535) ports.
Proof.
  revert acc. induction toks as [|t toks IH]; intros acc Hl Ha; cbn [allow_ports_loop];
    [by intros [= <-]|].
  case_bool_decide; [by apply IH|]. destruct (VG_MAX_ALLOW_PORTS <=? _)%nat eqn:E; [done|].
  apply Nat.leb_gt in E. intros (v & Hv & H')%bind_Some.
  destruct (_ || _) eqn:Ev; [done|]. breflect.
  assert (u16 v = v) as Eu by (unfold u16; apply Z.mod_small; lia). rewrite Eu in H'.
  eapply IH; [| |done].
  - rewrite length_app. simpl. lia.
  - apply Forall_app. split; [done|]. repeat constructor; lia.
Qed.

Section WithInet.
Context {I : Inet} `{!InetLaws I}.

Lemma csv_loop_ok toks acc max l :
  Z.of_nat (List.length acc) ≤ max → Forall prefix_ok acc → csv_cidrs_loop toks acc max = Some l →
  Z.of_nat (List.length l) ≤ max ∧ Forall prefix_ok l.
Proof.
  revert acc. induction toks as [|t toks IH]; intros acc Hl Ha; cbn [csv_cidrs_loop];
    [by intros [= <-]|].
  case_bool_decide; [by apply IH|]. destruct (max <=? _) eqn:E; [done|]. breflect.
  intros (p & Hp & H')%bind_Some. eapply IH; [| |done].
  - rewrite length_app. simpl. lia.
  - apply Forall_app. split; [done|]. apply Forall_singleton. by apply parse_ok in Hp.
Qed.

Lemma load_line_ok line c c' : cfg_ok c → load_line line c = Some c' → cfg_ok c'.
Proof.
  intros Hc. unfold load_line. destruct (cstr line) as [|x line']; [by intros [= <-]|].
  destruct (_ || _); [by intros [= <-]|]. destruct (strchr 61 _) as [[k v]|]; [|by intros [= <-]].
  case_bool_decide; [by intros [= <-]|]. unfold load_key.
  destruct (find_scalar (trim k) scalars) as [s|] eqn:Es.
  { apply apply_scalar_ok; [by eapply find_scalar_ok|done]. }
  case_bool_decide.
  { unfold parse_allow_ports. intros (l & Hl & [= <-])%bind_Some.
    apply allow_ports_loop_ok in Hl; [|simpl; lia|constructor]. destruct Hc. by split. }
  case_bool_decide.
  { case_bool_decide; [by intros [= <-]|]. intros (l & Hl & [= <-])%bind_Some.
    apply csv_loop_ok in Hl; [|done|constructor]. destruct Hc. by split. }
  case_bool_decide; [|by intros [= <-]].
  case_bool_decide; [by intros [= <-]|]. intros (l & Hl & [= <-])%bind_Some.
  apply csv_loop_ok in Hl; [|done|constructor]. destruct Hc. by split.
Qed.

(** The five default prefixes parse. *)
Definition defaults_parse : Prop := Forall prefix_ok (allow_cidr vg_config_defaults).

Lemma defaults_ok : defaults_parse → cfg_ok vg_config_defaults.
Proof.
  intros Hd. split; cbn [vg_config_defaults interface xdp_mode log_file pid_file ctl_socket_group
    wake_pps wake_mbps threshold_pps threshold_mbps idle_poll_ms clear_seconds ban_time aggregate_k
    metrics_port remote_map_size drop_map_size cfg_allow_ports local_cidr].
  1-5: by vm_compute.
  1-3: repeat (apply Forall_cons; split; [by vm_compute|]); apply Forall_nil_2.
  - split; [by apply Nat.leb_le|]. apply Forall_singleton. lia.
  - split; [done|constructor].
  - split; [done|exact Hd].
Qed.

Lemma load_lines_ok lines c c' : cfg_ok c → load_lines lines c = Some c' → cfg_ok c'.
Proof.
  revert c. induction lines as [|l lines IH]; intros c Hc; simpl; [by intros [= <-]|].
  intros (c1 & H1 & H2)%bind_Some. eapply IH; [|done]. by eapply load_line_ok.
Qed.

Lemma config_load_range file c :
  defaults_parse → vg_config_load file = Some c → cfg_ok c ∧ 0 < idle_poll_ms c.
Proof.
  intros Hd%defaults_ok. unfold vg_config_load. destruct file as [[lines err]|].
  2:{ intros [= <-]. by split. }
  intros (c1 & H1 & H2)%bind_Some. apply load_lines_ok in H1; [|done]. destruct err; [done|].
  destruct (idle_poll_ms c1 <=? 0) eqn:E; breflect; injection H2 as <-; [|by split].
  split; [|done]. destruct H1 as []. decompose_Forall_hyps. split; cbn; try done.
  all: repeat (apply Forall_cons; split); try apply Forall_nil_2; done || lia.
Qed.
End WithInet.

(** ** Local addresses of the interface *)

(** What [getifaddrs] returns: addresses of their family. *)
Definition ifaddr_ok (p : ifaddr) : Prop :=
  ∀ f a, ifa_addr p = Some (f, a) → f = AF_INET ∨ f = AF_INET6 → addr_ok f a.

Lemma host_prefix_ok f a n :
  f = AF_INET ∨ f = AF_INET6 → addr_ok f a → n = max_plen f →
  prefix_ok (Cidr f (store16 (take (addr_bytes f) a)) n).
Proof.
  intros Hf Ha ->. pose proof Ha as [Hl Hb]. rewrite take_ge by lia.
  split; [split|]; simpl; [done|by eapply store16_length|by apply store16_bytes| |].
  - destruct Hf as [-> | ->]; cbn; lia.
  - pose proof (addr_bytes_max _ Hf). intros i Hi. simpl in Hi. eapply store16_bits; [done|]. lia.
Qed.

Lemma nic_loop_ok nic l out max :
  Forall ifaddr_ok l → Z.of_nat (List.length out) ≤ max → Forall prefix_ok out →
  Z.of_nat (List.length (nic_loop nic l out max)) ≤ max ∧ Forall prefix_ok (nic_loop nic l out max).
Proof.
  intros Hl. revert out. induction Hl as [|p l Hp Hl IH]; intros out Hlen Hout; [done|].
  cbn [nic_loop]. destruct (max <=? _) eqn:E; [done|]. breflect.
  destruct (ifa_addr p) as [[f a]|] eqn:Ea; [|by apply IH].
  destruct (ifa_name p) as [name|]; [|by apply IH]. destruct (negb _); [by apply IH|].
  assert (∀ q, prefix_ok q → Z.of_nat (List.length (out ++ [q])) ≤ max ∧ Forall prefix_ok (out ++ [q]))
    as Hadd.
  { intros q Hq. rewrite length_app, Forall_app. simpl. split; [lia|]. split; [done|]. by constructor. }
  destruct (f =? AF_INET) eqn:E4; breflect.
  - subst f. destruct (_ =? 127); [by apply IH|].
    apply IH; apply Hadd, (host_prefix_ok AF_INET); auto.
  - destruct (f =? AF_INET6) eqn:E6; breflect; [|by apply IH]. subst f.
    destruct (_ || _); [by apply IH|]. apply IH; apply Hadd, (host_prefix_ok AF_INET6); auto.
Qed.

Lemma auto_local_ok c ifa c' :
  cfg_ok c → (∀ l, ifa = Some l → Forall ifaddr_ok l) →
  vg_config_auto_local c ifa = Some c' → cfg_ok c'.
Proof.
  intros Hc Hi. unfold vg_config_auto_local. destruct (negb _); [by intros [= <-]|].
  intros (l & Hl & [= <-])%bind_Some. unfold local_cidr_from_nic in Hl.
  apply bind_Some in Hl as (il & -> & [= <-]).
  pose proof (nic_loop_ok (interface c) il [] VG_MAX_CIDR_LIST (Hi il eq_refl) ltac:(done)
    ltac:(constructor)). destruct Hc. by split.
Qed.

(** ** Protection *)

(** A prefix is protected exactly when it shares an address with a local or
    allowed network. *)
Lemma protected_spec c p :
  cfg_ok c → cidr_ok p →
  vg_cidr_is_protected c p = true ↔
  ∃ q, q ∈ local_cidr c ++ allow_cidr c ∧ family p = family q
    ∧ ∃ a, addr_ok (family p) a ∧ in_cidr p a ∧ in_cidr q a.
Proof.
  intros Hc Hp. unfold vg_cidr_is_protected. rewrite orb_true_iff, !existsb_exists.
  assert (∀ q, q ∈ local_cidr c ++ allow_cidr c → cidr_ok q) as Hok.
  { intros q. destruct (ok_local _ Hc) as [_ Hl], (ok_allow _ Hc) as [_ Ha].
    rewrite Forall_forall in Hl, Ha. rewrite elem_of_app. intros [?%Hl|?%Ha]; apply H. }
  split.
  - intros [(q & Hq & Ho)|(q & Hq & Ho)]; exists q; apply list_elem_of_In in Hq;
      (split; [set_solver|]); apply overlap_intersect; try done; apply Hok; set_solver.
  - intros (q & Hq & Hx). apply overlap_intersect in Hx; [|done|by apply Hok].
    apply elem_of_app in Hq as [Hq|Hq]; [left|right]; exists q; split; try done; by apply list_elem_of_In.
Qed.
