(* ===== verification/ConfigMain.v ===== *)
(** * The configuration file: main theorems *)

From Stdlib Require Import String.
From S2P Require Import Prelude CString Ipaddr IpaddrThms Types Config Kernel Maps MapsThms.
From S2P Require Import ConfigThms.
Open Scope Z_scope.

(** ** Words between spaces *)

Definition spaces (s : list Z) : Prop := Forall (λ c, isspace c = true) s.
Definition word (s : list Z) : Prop := s ≠ [] ∧ Forall (λ c, isspace c = false) s.

Lemma skip_spaces_app a s : spaces a → skip_spaces (a ++ s) = skip_spaces s.
Proof. induction 1 as [|c a Hc Ha IH]; [done|]. simpl. by rewrite Hc. Qed.

Lemma skip_spaces_word x s : word x → skip_spaces (x ++ s) = x ++ s.
Proof. intros [Hn Hx]. destruct Hx as [|c x Hc Hx]; [done|]. simpl. by rewrite Hc. Qed.

Lemma word_reverse x : word x → word (reverse x).
Proof. intros [Hn Hx]. split; [|by apply Forall_reverse].
  intros E. apply Hn. by rewrite <-(reverse_involutive x), E. Qed.

(** A text without white space at its ends. *)
Definition trimmed (s : list Z) : Prop :=
  skip_spaces s = s ∧ skip_spaces (reverse s) = reverse s.

Lemma skip_spaces_nil b : spaces b → skip_spaces b = [].
Proof. intros Hb. pose proof (skip_spaces_app b [] Hb) as H. by rewrite app_nil_r in H. Qed.

Lemma skip_spaces_fix x c s : skip_spaces (c :: x) = c :: x → skip_spaces ((c :: x) ++ s) = (c :: x) ++ s.
Proof.
  cbn [skip_spaces app]. destruct (isspace c) eqn:E; [|done]. intros H. exfalso.
  assert (∀ l, (List.length (skip_spaces l) ≤ List.length l)%nat) as Hle.
  { intros l. induction l as [|y l IH]; [done|]. cbn [skip_spaces]. destruct (isspace y); simpl; lia. }
  specialize (Hle x). rewrite H in Hle. simpl in Hle. lia.
Qed.

Lemma trim_between a x b : spaces a → trimmed x → spaces b → trim (a ++ x ++ b) = x.
Proof.
  intros Ha [Hx Hr] Hb. unfold trim. rewrite skip_spaces_app by done.
  destruct x as [|c x]; [cbn [app]; by rewrite (skip_spaces_nil b)|].
  rewrite skip_spaces_fix, reverse_app, skip_spaces_app by (done || by apply Forall_reverse).
  rewrite Hr. apply reverse_involutive.
Qed.

Lemma word_trimmed x : word x → trimmed x.
Proof.
  intros Hx. split; [rewrite <-(app_nil_r x) at 1|rewrite <-(app_nil_r (reverse x)) at 1];
    rewrite skip_spaces_word, app_nil_r; auto using word_reverse.
Qed.

Lemma trim_word a x b : spaces a → word x → spaces b → trim (a ++ x ++ b) = x.
Proof. intros. apply trim_between; auto using word_trimmed. Qed.

(** ** Decimal numbers *)

Lemma digit_char_not c : is_digit c = true →
  isspace c = false ∧ c ≠ 0 ∧ c ≠ 45 ∧ c ≠ 43 ∧ c ≠ 61.
Proof.
  unfold is_digit, isspace. intros [H1%Z.leb_le H2%Z.leb_le]%andb_true_iff.
  split; [|lia]. rewrite orb_false_iff, andb_false_iff, Z.eqb_neq, !Z.leb_gt. lia.
Qed.

Lemma dec_word n : 0 ≤ n → word (dec n).
Proof.
  intros Hn. split; [apply dec_loop_nonempty|]. eapply Forall_impl; [by apply dec_digits|].
  intros c Hc. by apply digit_char_not.
Qed.

Lemma span_digits_all ds : Forall (λ c, is_digit c = true) ds → span_digits ds = (ds, []).
Proof. induction 1 as [|c ds Hc Hd IH]; [done|]. simpl. by rewrite Hc, IH. Qed.

(** What [strtoull] makes of a printed number, with a minus sign or not. *)
Lemma parse_u64_dec n : 0 ≤ n → parse_u64 (dec n) = Some (Z.min n ULLONG_MAX).
Proof.
  intros Hn. pose proof (dec_word n Hn) as Hw. pose proof (dec_digits n Hn) as Hd.
  pose proof (dec_value n Hn) as Hv. destruct (dec n) as [|c ds] eqn:E; [by destruct Hw|].
  unfold parse_u64, strtoull. rewrite <-(app_nil_r (c :: ds)), skip_spaces_word, app_nil_r by done.
  pose proof (Forall_inv Hd) as Hc. apply digit_char_not in Hc as (_ & _ & Hm & Hp & _).
  apply Z.eqb_neq in Hm, Hp. rewrite Hm, Hp, span_digits_all by done. rewrite Hv.
  destruct (ULLONG_MAX <? n) eqn:El; breflect; f_equal; lia.
Qed.

(** ** Claims *)

(** A number with a minus sign is not refused: [parse_u64] returns it
    modulo 2^64, so [threshold_pps = -1] loads as 2^64 - 1. *)
Theorem parse_u64_negative n :
  1 ≤ n < 2 ^ 64 → parse_u64 (45 :: dec n) = Some (2 ^ 64 - n).
Proof.
  intros Hn. pose proof (dec_digits n ltac:(lia)) as Hd. pose proof (dec_value n ltac:(lia)) as Hv.
  pose proof (dec_word n ltac:(lia)) as [Hne _].
  unfold parse_u64, strtoull. simpl skip_spaces. cbn [Z.eqb Pos.eqb].
  rewrite span_digits_all by done. destruct (dec n) as [|c ds]; [done|]. rewrite Hv.
  replace (ULLONG_MAX <? n) with false by (symmetry; apply Z.ltb_ge; unfold ULLONG_MAX; lia).
  do 2 f_equal. unfold u64. replace (- n) with (2 ^ 64 - n + (-1) * 2 ^ 64) by lia.
  rewrite Z.mod_add, Z.mod_small by lia. done.
Qed.

(** What a scalar key makes of a number. *)
Definition scalar_value (s : cfg_scalar) (n : Z) (c : vg_config) : option vg_config :=
  match s with
  | CFG_STR sz set => if Z.of_nat (List.length (dec n)) <? sz then Some (set c (dec n)) else None
  | CFG_U64 set => Some (set c (Z.min n ULLONG_MAX))
  | CFG_I32 set => if n <=? INT_MAX then Some (set c n) else None
  | CFG_U32 set => if n <? 2 ^ 32 then Some (set c n) else None
  end.

Lemma apply_scalar_dec c s n :
  0 ≤ n → (∀ sz set, s = CFG_STR sz set → 0 < sz) → apply_scalar c s (dec n) = scalar_value s n c.
Proof.
  intros Hn Hsz. unfold apply_scalar, scalar_value, parse_int. destruct s as [sz set|set|set|set].
  - specialize (Hsz sz set eq_refl). replace (sz =? 0) with false by (symmetry; apply Z.eqb_neq; lia).
    rewrite bool_decide_eq_false_2 by apply dec_word, Hn. cbn [orb]. rewrite Z.leb_antisym.
    by destruct (_ <? sz).
  - by rewrite parse_u64_dec.
  - rewrite parse_u64_dec by done. cbn [mbind option_bind]. unfold INT_MAX, ULLONG_MAX.
    destruct (2 ^ 31 - 1 <? _) eqn:E1, (n <=? 2 ^ 31 - 1) eqn:E2; breflect; try lia; try done.
    cbn. do 2 f_equal. lia.
  - rewrite parse_u64_dec by done. cbn [mbind option_bind]. unfold ULLONG_MAX.
    destruct (0xffffffff <? _) eqn:E1, (n <? 2 ^ 32) eqn:E2; breflect; try lia; try done.
    do 2 f_equal. lia.
Qed.

(** The keys of the table are words of letters and underscores. *)
Definition key_char (c : Z) : bool := ((97 <=? c) && (c <=? 122)) || (c =? 95).

Lemma key_char_not c : key_char c = true → isspace c = false ∧ c ≠ 0 ∧ c ≠ 10 ∧ c ≠ 35 ∧ c ≠ 61.
Proof.
  unfold key_char, isspace. intros H. assert (95 ≤ c ≤ 122) as Hc.
  { apply orb_true_iff in H as [[H1%Z.leb_le H2%Z.leb_le]%andb_true_iff|H%Z.eqb_eq]; lia. }
  split; [|lia]. rewrite orb_false_iff, andb_false_iff, Z.eqb_neq, !Z.leb_gt. lia.
Qed.

Lemma scalars_keys :
  Forall (λ x, x.1 ≠ [] ∧ Forall (λ c, key_char c = true) x.1
               ∧ ∀ sz set, x.2 = CFG_STR sz set → 0 < sz) scalars.
Proof.
  unfold scalars. repeat (apply Forall_cons; split; [split_and!;
    [done|apply Forall_forall; intros c Hc%list_elem_of_In; revert c Hc; apply forallb_forall; reflexivity
    |by intros ? ? [= <- <-]]|]). by apply Forall_nil_2.
Qed.

Lemma find_scalar_in key s l : find_scalar key l = Some s → (key, s) ∈ l.
Proof.
  induction l as [|[k s'] l IH]; simpl; [done|]. case_bool_decide as E.
  - intros [= ->]. subst. apply elem_of_cons. by left.
  - intros H. apply elem_of_cons. right. by apply IH.
Qed.

(** A line [key = value] does what the key does with the value. *)
Lemma load_line_key {I : Inet} key val c :
  key ≠ [] → Forall (λ c, key_char c = true) key → trimmed val → 0 ∉ val →
  load_line (key ++ bs " = " ++ val ++ [10]) c = load_key key val c.
Proof.
  intros Hne Hk Hv H0. rewrite Forall_forall in Hk.
  assert (word key) as Hw.
  { split; [done|]. apply Forall_forall. intros x Hx. by apply key_char_not, Hk. }
  assert (∀ x, x ∈ key → x ≠ 0 ∧ x ≠ 10 ∧ x ≠ 35 ∧ x ≠ 61) as Hkn
    by (intros x Hx; by apply key_char_not, Hk).
  unfold load_line. set (line := key ++ bs " = " ++ val ++ [10]). rewrite (cstr_no_nul line).
  2:{ unfold line. change (bs " = ") with [32; 61; 32]. rewrite !elem_of_app, list_elem_of_singleton.
      intros [Hx|[Hx|[Hx|Hx]]]; [by destruct (Hkn _ Hx)|set_solver|done|done]. }
  assert (strchr 61 line = Some (key ++ [32], [32] ++ val ++ [10])) as ->.
  { unfold line. change (bs " = ") with ([32] ++ 61 :: [32]). rewrite <-app_assoc, app_assoc.
    cbn [app]. apply strchr_app. rewrite elem_of_app. intros [Hx|Hx]; [|set_solver].
    apply Hkn in Hx. tauto. }
  assert (line = hd 0 key :: tl line) as -> by (unfold line; by destruct key).
  assert (hd 0 key ∈ key) as Hhd by (destruct key; [done|apply elem_of_cons; by left]).
  apply Hkn in Hhd as (_ & H10 & H35 & _). apply Z.eqb_neq in H10, H35. rewrite H10, H35. cbn [orb].
  assert (spaces [32]) as Hs by (by apply Forall_singleton).
  assert (spaces [10]) as Hs' by (by apply Forall_singleton).
  pose proof (trim_word [] key [32] (Forall_nil_2 _) Hw Hs) as Ek. cbn [app] in Ek.
  rewrite Ek, (trim_between [32] val [10]) by done. by rewrite bool_decide_eq_false_2.
Qed.

Lemma dec_no_nul n : 0 ≤ n → 0 ∉ dec n.
Proof.
  intros Hn Hx. pose proof (dec_digits n Hn) as Hd. rewrite Forall_forall in Hd.
  by apply Hd, digit_char_not in Hx as (_ & ? & _).
Qed.

(** Every scalar key of the file stores the number it is given: the
    line [key = n] sets the field of the key to [n], or is an error when [n]
    does not fit its type; only the 64-bit keys saturate at 2^64 - 1. *)
Theorem scalar_line_sets {I : Inet} key s n c :
  find_scalar key scalars = Some s → 0 ≤ n →
  load_line (key ++ bs " = " ++ dec n ++ [10]) c = scalar_value s n c.
Proof.
  intros Hf Hn. pose proof (find_scalar_in _ _ _ Hf) as Hin.
  pose proof (proj1 (Forall_forall _ _) scalars_keys _ Hin) as (Hne & Hk & Hsz). cbn [fst snd] in *.
  rewrite load_line_key by auto using dec_no_nul, word_trimmed, dec_word.
  unfold load_key. rewrite Hf. by apply apply_scalar_dec.
Qed.

(** C39: a configuration that loads is in range, whatever the file holds:
    every number fits its C type, every string its buffer, the ports are 1 to
    65535 and at most 8, the network lists are within their arrays and hold
    masked prefixes, and the poll interval is positive. *)
Theorem config_load_in_range {I : Inet} `{!InetLaws I} file c :
  defaults_parse → vg_config_load file = Some c → cfg_ok c ∧ 0 < idle_poll_ms c.
Proof. apply config_load_range. Qed.

(** [vg_cidr_is_protected] is 1 exactly for the prefixes that share an
    address with a local or an allowed network. *)
Theorem protected_iff_shares c p :
  cfg_ok c → cidr_ok p →
  vg_cidr_is_protected c p = true ↔
  ∃ q, q ∈ local_cidr c ++ allow_cidr c ∧ family p = family q
    ∧ ∃ a, addr_ok (family p) a ∧ in_cidr p a ∧ in_cidr q a.
Proof. apply protected_spec. Qed.
