(* ===== verification/Log.v ===== *)
(** * log.c and log.h: the log

    What the logging functions write to stderr, as text.  The terminal, the
    environment and the local time are arguments: [localtime_r] and [isatty]
    are system calls.  The messages of [vg_log] and its companions come
    formatted, [file] and [line] are the macros [__FILE__] and [__LINE__]. *)

From Stdlib Require Import String.
From S2P Require Import Prelude CString Ipaddr Types Config.
Open Scope Z_scope.

(** The fields of [struct tm] that the format asks for. *)
Record tm := Tm { tm_year : Z; tm_mon : Z; tm_mday : Z; tm_hour : Z; tm_min : Z; tm_sec : Z }.

Definition two_digits (n : Z) : list Z := [48 + n / 10; 48 + n mod 10].

(** [strftime] with the format [%Y-%m-%dT%H:%M:%S]. *)
Definition strftime (t : tm) : list Z :=
  dec_signed (tm_year t + 1900) ++ bs "-" ++ two_digits (tm_mon t + 1) ++ bs "-"
  ++ two_digits (tm_mday t) ++ bs "T" ++ two_digits (tm_hour t) ++ bs ":"
  ++ two_digits (tm_min t) ++ bs ":" ++ two_digits (tm_sec t).

(** What a call that logs finds: whether stderr is a terminal, whether
    [NO_COLOR] is set, the local time. *)
Record log_env := LogEnv { stderr_tty : bool; no_color : bool; now_tm : tm }.

Definition esc (s : string) : list Z := 27 :: bs s.
Definition VG_SGR_DIM : list Z := esc "[2m".
Definition VG_SGR_CYAN : list Z := esc "[36m".
Definition VG_SGR_YELLOW : list Z := esc "[33m".
Definition VG_SGR_RED : list Z := esc "[31m".
Definition VG_SGR_RESET : list Z := esc "[0m".

Definition vg_log_color (e : log_env) : bool := stderr_tty e && negb (no_color e).

Definition vg_log_prefix (e : log_env) (level : string) (sgr : list Z) : list Z :=
  let tbuf := snprintf 32 (strftime (now_tm e)) in
  if vg_log_color e then
    VG_SGR_DIM ++ tbuf ++ VG_SGR_RESET ++ bs " voidGate " ++ sgr ++ bs "[" ++ bs level ++ bs "]"
    ++ VG_SGR_RESET ++ bs " "
  else tbuf ++ bs " voidGate [" ++ bs level ++ bs "] ".

Definition vg_log_loc (e : log_env) (file : list Z) (line : Z) : list Z :=
  if vg_log_color e then
    bs " " ++ VG_SGR_DIM ++ bs "at " ++ file ++ bs ":" ++ dec_signed line ++ VG_SGR_RESET ++ [10]
  else bs " at " ++ file ++ bs ":" ++ dec_signed line ++ [10].

Definition vg_log_at (e : log_env) (file : list Z) (line : Z) (msg : list Z) : list Z :=
  vg_log_prefix e "INFO" VG_SGR_CYAN ++ msg ++ vg_log_loc e file line.

Definition vg_warn_at (e : log_env) (file : list Z) (line : Z) (msg : list Z) : list Z :=
  vg_log_prefix e "WARN" VG_SGR_YELLOW ++ msg ++ vg_log_loc e file line.

(** The text and the exit status. *)
Definition vg_die_at (e : log_env) (file : list Z) (line : Z) (msg : list Z) : list Z * Z :=
  (vg_log_prefix e "FATL" VG_SGR_RED ++ msg ++ vg_log_loc e file line, 1).

(** [vg_vlog] and [vg_vvlog]: from which [vg_verbose] on the text is written. *)
Definition vg_vlog (verbose : Z) (text : list Z) : list Z := if 1 <=? verbose then text else [].
Definition vg_vvlog (verbose : Z) (text : list Z) : list Z := if 2 <=? verbose then text else [].

(** The [%x] conversion. *)
Definition hex_char (v : Z) : Z := if v <? 10 then 48 + v else 87 + v.

Fixpoint hex_loop (fuel : nat) (n : Z) (acc : list Z) : list Z :=
  match fuel with
  | O => acc
  | S fuel =>
      let acc := hex_char (n mod 16) :: acc in
      if n <? 16 then acc else hex_loop fuel (n / 16) acc
  end.

Definition hex (n : Z) : list Z := hex_loop (S (Z.to_nat (Z.log2 n))) n [].

(** The loops of [log_config_cidrs] and [log_config_ports]. *)
Fixpoint csv_loop {A} (show : A → list Z) (i : nat) (l : list A) : list Z :=
  match l with
  | [] => []
  | x :: l => (if (i =? 0)%nat then [] else bs ", ") ++ show x ++ csv_loop show (S i) l
  end.

(** One line [key = value] of the block. *)
Definition log_field (branch key : string) (val : list Z) : list Z :=
  bs branch ++ bs key ++ bs " = " ++ val ++ [10].

Section WithInet.
Context {I : Inet}.

Definition log_config_cidrs (key : string) (cidrs : list vg_cidr) : list Z :=
  log_field "  ├─ " key (csv_loop (λ p, vg_cidr_to_str p 80) 0 cidrs).

Definition log_config_ports (cfg : vg_config) : list Z :=
  log_field "  ├─ " "allow_ports" (csv_loop dec 0 (cfg_allow_ports cfg)).

(** [e] and [e'] are found by the two calls of [vg_log_at]. *)
Definition vg_log_config_at (verbose : Z) (e e' : log_env) (file : list Z) (line : Z)
    (cfg : vg_config) (attach_flags : Z) : list Z :=
  if verbose <? 1 then []
  else
    vg_log_at e file line (bs "xdp attach flags 0x" ++ hex attach_flags)
    ++ vg_log_at e' file line (bs "active configuration")
    ++ log_field "  ├─ " "interface" (interface cfg)
    ++ log_field "  ├─ " "xdp_mode" (xdp_mode cfg)
    ++ log_field "  ├─ " "wake_pps" (dec (wake_pps cfg))
    ++ log_field "  ├─ " "wake_mbps" (dec (wake_mbps cfg))
    ++ log_field "  ├─ " "idle_poll_ms" (dec_signed (idle_poll_ms cfg))
    ++ log_field "  ├─ " "clear_seconds" (dec_signed (clear_seconds cfg))
    ++ log_field "  ├─ " "threshold_pps" (dec (threshold_pps cfg))
    ++ log_field "  ├─ " "threshold_mbps" (dec (threshold_mbps cfg))
    ++ log_field "  ├─ " "ban_time" (dec_signed (ban_time cfg))
    ++ log_field "  ├─ " "aggregate_k" (dec_signed (aggregate_k cfg))
    ++ log_config_cidrs "local_networks" (local_cidr cfg)
    ++ log_config_cidrs "allow_networks" (allow_cidr cfg)
    ++ log_config_ports cfg
    ++ log_field "  ├─ " "remote_map_size" (dec (remote_map_size cfg))
    ++ log_field "  ├─ " "drop_map_size" (dec (drop_map_size cfg))
    ++ log_field "  └─ " "metrics_port" (dec_signed (metrics_port cfg)).
End WithInet.
