(* ===== verification/LogMain.v ===== *)
(** * The log: main theorem

    The configuration block of the log is a configuration file: its lines,
    read by [vg_config_load], give the configuration that was logged. *)

From Stdlib Require Import String.
From S2P Require Import Prelude CString Ipaddr IpaddrThms Types Config Kernel Maps MapsThms.
From S2P Require Import ConfigThms ConfigMain Log.
Open Scope Z_scope.

(** ** Lines *)

Lemma lines_of_app l s cur :
  10 ∉ l → lines_of (l ++ 10 :: s) cur = (reverse cur ++ l ++ [10]) :: lines_of s [].
Proof.
  revert cur. induction l as [|c l IH]; intros cur Hn; cbn [app lines_of].
  { by rewrite Z.eqb_refl, reverse_cons. }
  apply not_elem_of_cons in Hn as [Hc Hn]. rewrite (proj2 (Z.eqb_neq c 10)) by done.
  rewrite IH by done. by rewrite reverse_cons, <-app_assoc.
Qed.

Lemma lines_of_line l s : 10 ∉ l → lines_of ((l ++ [10]) ++ s) [] = (l ++ [10]) :: lines_of s [].
Proof. intros Hl. rewrite <-app_assoc. by apply lines_of_app. Qed.

(** The lines of a file have no newline but at their end. *)
Definition one_line (l : list Z) : Prop := ∀ x y, l = x ++ 10 :: y → y = [].

Lemma one_line_prefix p q : one_line (p ++ q) → one_line p.
Proof.
  intros H x y E. specialize (H x (y ++ q)). rewrite E, <-app_assoc in H.
  by apply app_eq_nil in H as [-> _].
Qed.

Lemma one_line_suffix p q : one_line (q ++ p) → one_line p.
Proof. intros H x y ->. apply (H (q ++ x)). by rewrite <-app_assoc. Qed.

Lemma one_line_none l : 10 ∉ l → one_line l.
Proof. intros H x y ->. destruct H. apply elem_of_app. right. apply elem_of_cons. by left. Qed.

Lemma lines_of_one_line s cur : 10 ∉ cur → Forall one_line (lines_of s cur).
Proof.
  revert cur. induction s as [|c s IH]; intros cur Hn; cbn [lines_of].
  - destruct cur as [|x cur]; constructor; [|constructor]. apply one_line_none.
    by rewrite elem_of_reverse.
  - destruct (c =? 10) eqn:E; breflect; [|apply IH; rewrite not_elem_of_cons; auto].
    constructor; [|apply IH, not_elem_of_nil]. intros x y Ex. rewrite reverse_cons, E in Ex.
    destruct y as [|z y] using rev_ind; [done|]. exfalso.
    rewrite app_comm_cons, app_assoc in Ex. apply app_inj_tail in Ex as [Ex _].
    apply Hn. rewrite <-elem_of_reverse, Ex, elem_of_app. right. apply elem_of_cons. by left.
Qed.

(** ** The strings of a loaded configuration *)

Lemma skip_spaces_suffix s : ∃ a, s = a ++ skip_spaces s ∧ spaces a.
Proof.
  induction s as [|c s (a & E & Ha)]; [by exists []; split; [|constructor]|]. cbn [skip_spaces].
  destruct (isspace c) eqn:Ec; [|by exists []; split; [|constructor]].
  exists (c :: a). cbn [app]. rewrite <-E. split; [done|by constructor].
Qed.

Lemma skip_spaces_idem s : skip_spaces (skip_spaces s) = skip_spaces s.
Proof.
  induction s as [|c s IH]; [done|]. cbn [skip_spaces]. destruct (isspace c) eqn:Ec; [done|].
  cbn [skip_spaces]. by rewrite Ec.
Qed.

(** [trim] takes white space off both ends. *)
Lemma trim_split s : ∃ a b, s = a ++ trim s ++ b ∧ spaces a ∧ spaces b.
Proof.
  destruct (skip_spaces_suffix s) as (a & E & Ha).
  destruct (skip_spaces_suffix (reverse (skip_spaces s))) as (b & Eb & Hb).
  exists a, (reverse b). split_and!; [|done|by apply Forall_reverse].
  unfold trim. by rewrite <-reverse_app, <-Eb, reverse_involutive, <-E.
Qed.

Lemma trim_trimmed s : trimmed (trim s).
Proof.
  unfold trim. set (t := skip_spaces s). split; [|rewrite reverse_involutive; apply skip_spaces_idem].
  destruct (skip_spaces_suffix (reverse t)) as (a & E & Ha).
  assert (t = reverse (skip_spaces (reverse t)) ++ reverse a) as Et
    by (by rewrite <-reverse_app, <-E, reverse_involutive).
  destruct (reverse (skip_spaces (reverse t))) as [|c x]; [done|]. cbn [skip_spaces].
  destruct (isspace c) eqn:Ec; [|done]. exfalso.
  assert (skip_spaces t = t) as Hi by apply skip_spaces_idem. rewrite Et in Hi. cbn [app skip_spaces] in Hi.
  rewrite Ec in Hi. destruct (skip_spaces_suffix (x ++ reverse a)) as (b & Eb & _).
  rewrite Hi in Eb. apply (f_equal List.length) in Eb. rewrite !length_app in Eb.
  cbn [List.length] in Eb. rewrite length_app in Eb. lia.
Qed.

Lemma trim_sub s c : c ∈ trim s → c ∈ s.
Proof.
  intros Hc. destruct (trim_split s) as (a & b & E & _). rewrite E, !elem_of_app. auto.
Qed.

Lemma trim_one_line l : one_line l → 10 ∉ trim l.
Proof.
  intros Hl Hc. destruct (trim_split l) as (a & b & E & _ & _).
  apply list_elem_of_split in Hc as (x & y & Ex).
  rewrite E, Ex in Hl. specialize (Hl (a ++ x) (y ++ b)). rewrite <-!app_assoc in Hl.
  specialize (Hl eq_refl). apply app_eq_nil in Hl as [-> _].
  destruct (trim_trimmed l) as [_ Hr]. rewrite Ex, reverse_app in Hr. cbn in Hr.
  destruct (skip_spaces_suffix (reverse x)) as (z & Ez & _). rewrite Hr in Ez.
  apply (f_equal List.length) in Ez. rewrite length_app in Ez. cbn [List.length] in Ez. lia.
Qed.

(** A string that can be written to the file and read back. *)
Definition plain (s : list Z) : Prop := trimmed s ∧ (0 ∉ s) ∧ (10 ∉ s).
Definition texts_ok (c : vg_config) : Prop :=
  (interface c ≠ [] ∧ plain (interface c)) ∧ (xdp_mode c ≠ [] ∧ plain (xdp_mode c)).

Lemma scalars_texts :
  Forall (λ x, ∀ c val c', texts_ok c → plain val → apply_scalar c x.2 val = Some c' → texts_ok c') scalars.
Proof.
  unfold scalars. repeat (apply Forall_cons; split); try apply Forall_nil_2; cbn [snd apply_scalar];
    intros c val c' Hc Hv; try (by intros (v & _ & [= <-])%bind_Some);
    try (intros (v & _ & H)%bind_Some; revert H; destruct (_ <? v); [done|]; by intros [= <-]);
    (destruct (_ || _) eqn:E; [done|]); breflect; intros [= <-]; destruct Hc;
    split; first [done|by split].
Qed.

Lemma load_line_texts {I : Inet} l c c' :
  one_line l → texts_ok c → load_line l c = Some c' → texts_ok c'.
Proof.
  intros Hl Hc. unfold load_line.
  assert (one_line (cstr l) ∧ 0 ∉ cstr l) as [H1 H0].
  { unfold cstr. destruct (strchr 0 l) as [[a b]|] eqn:E; [|by apply strchr_None in E].
    apply strchr_split in E as [-> E]. split; [by eapply one_line_prefix|done]. }
  destruct (cstr l) as [|x s]; [by intros [= <-]|]. destruct (_ || _); [by intros [= <-]|].
  destruct (strchr 61 _) as [[k v]|] eqn:E; [|by intros [= <-]].
  apply strchr_split in E as [E _]. rewrite E in H1, H0. case_bool_decide; [by intros [= <-]|].
  assert (plain (trim v)) as Hv.
  { split_and!; [apply trim_trimmed| |].
    - intros Hc0%trim_sub. apply H0. rewrite elem_of_app, elem_of_cons. auto.
    - apply trim_one_line. apply (one_line_suffix _ [61]). by eapply one_line_suffix. }
  unfold load_key. destruct (find_scalar (trim k) scalars) as [sc|] eqn:Es.
  { apply find_scalar_in in Es. by apply (proj1 (Forall_forall _ _) scalars_texts _ Es). }
  unfold parse_allow_ports. repeat case_bool_decide; try (by intros [= <-]);
    by intros (ll & _ & [= <-])%bind_Some.
Qed.

Lemma load_texts {I : Inet} text c :
  vg_config_load (Some (lines_of text [], false)) = Some c → texts_ok c.
Proof.
  unfold vg_config_load. intros (c1 & H1 & H2)%bind_Some.
  assert (texts_ok c1) as Ht; [|destruct (idle_poll_ms c1 <=? 0); injection H2 as <-; done].
  clear H2. assert (texts_ok vg_config_defaults) as Hd
    by (repeat split; try done; apply has_byte_false; reflexivity).
  revert Hd H1. generalize vg_config_defaults as c0. pose proof (lines_of_one_line text [] (not_elem_of_nil _)) as Hl.
  induction Hl as [|l ls H Hl IH]; intros c0 H0; cbn [load_lines]; [by intros [= <-]|].
  intros (c2 & E2 & E)%bind_Some. eapply IH; [|done]. by eapply load_line_texts.
Qed.

(** ** Lists of values *)

Section Csv.
Context {A : Type} (show : A → list Z).

(** The values are printed as words without commas. *)
Definition shown (x : A) : Prop := word (show x) ∧ (44 ∉ show x) ∧ (0 ∉ show x).

Lemma csv_loop_app l x i :
  csv_loop show i (l ++ [x])
  = csv_loop show i l ++ (if (i + List.length l =? 0)%nat then [] else bs ", ") ++ show x.
Proof.
  revert i. induction l as [|y l IH]; intros i; cbn [app csv_loop List.length].
  - by rewrite Nat.add_0_r, app_nil_r.
  - rewrite IH, <-!app_assoc. by replace (i + S (List.length l))%nat with (S i + List.length l)%nat by lia.
Qed.

Lemma csv_trimmed l : Forall shown l → trimmed (csv_loop show 0 l).
Proof.
  intros Hl. split.
  - destruct Hl as [|x l [Hx _] _]; [done|]. cbn [csv_loop Nat.eqb app]. by apply skip_spaces_word.
  - destruct l as [|x l _] using rev_ind; [done|]. apply Forall_app in Hl as [_ [[Hx _] _]%Forall_cons].
    rewrite csv_loop_app, !reverse_app, <-app_assoc. by apply skip_spaces_word, word_reverse.
Qed.

Lemma csv_not c l i : c ≠ 32 → c ≠ 44 → Forall (λ x, c ∉ show x) l → c ∉ csv_loop show i l.
Proof.
  intros H1 H2 Hl. revert i. induction Hl as [|x l Hx Hl IH]; intros i; cbn [csv_loop];
    [apply not_elem_of_nil|].
  rewrite !elem_of_app. intros [Hc|[Hc|Hc]]; [|done|by apply IH in Hc].
  destruct (i =? 0)%nat; [by apply elem_of_nil in Hc|]. change (bs ", ") with [44; 32] in Hc. set_solver.
Qed.

Lemma strtok_word s r cur : 44 ∉ s → strtok_all 44 (s ++ r) cur = strtok_all 44 r (reverse s ++ cur).
Proof.
  revert cur. induction s as [|c s IH]; intros cur Hn; [done|]. cbn [app strtok_all].
  apply not_elem_of_cons in Hn as [Hc Hn]. rewrite (proj2 (Z.eqb_neq c 44)) by done.
  by rewrite IH, reverse_cons, <-app_assoc.
Qed.

Lemma strtok_csv_tail l i cur :
  Forall shown l → cur ≠ [] →
  strtok_all 44 (csv_loop show (S i) l) cur = reverse cur :: ((λ x, 32 :: show x) <$> l).
Proof.
  intros Hl. revert i cur. induction Hl as [|x l (Hx & Hc & _) Hl IH]; intros i cur Hn;
    cbn [csv_loop Nat.eqb]; [by destruct cur|].
  change (bs ", ") with [44; 32]. cbn [app strtok_all Z.eqb Pos.eqb]. destruct cur as [|c cur]; [done|].
  f_equal. rewrite strtok_word, IH by (done || by destruct (reverse (show x))).
  cbn [fmap list_fmap]. by rewrite reverse_app, reverse_involutive.
Qed.

(** The fields of the printed list. *)
Lemma strtok_csv l :
  Forall shown l →
  Forall2 (λ t x, ∃ a, spaces a ∧ t = a ++ show x) (strtok_all 44 (csv_loop show 0 l) []) l.
Proof.
  intros Hl. destruct Hl as [|x l (Hx & Hc & _) Hl]; [constructor|]. cbn [csv_loop Nat.eqb app].
  rewrite strtok_word, app_nil_r, strtok_csv_tail, reverse_involutive; [|done| |done].
  2:{ intros E. apply (f_equal reverse) in E. rewrite reverse_involutive in E. by destruct Hx. }
  constructor; [by exists []; split; [constructor|]|]. apply Forall2_fmap_l, Forall_Forall2_diag.
  apply Forall_forall. intros y _. exists [32]. split; [by apply Forall_singleton|done].
Qed.
End Csv.

Lemma trim_field (a x : list Z) : spaces a → word x → trim (a ++ x) = x.
Proof. intros Ha Hx. rewrite <-(app_nil_r x) at 1. by apply trim_word; [..|constructor]. Qed.

Lemma ports_csv toks ports acc :
  Forall2 (λ t x, ∃ a, spaces a ∧ t = a ++ dec x) toks ports → Forall (λ v, 1 ≤ v ≤ 65535) ports →
  (List.length (acc ++ ports) ≤ VG_MAX_ALLOW_PORTS)%nat →
  allow_ports_loop toks acc = Some (acc ++ ports).
Proof.
  intros Ht Hp. revert acc. induction Ht as [|t x toks ports (a & Ha & ->) Ht IH]; intros acc Hlen;
    cbn [allow_ports_loop]; [by rewrite app_nil_r|].
  apply Forall_cons in Hp as [Hx Hp]. rewrite trim_field by (done || apply dec_word; lia).
  rewrite bool_decide_eq_false_2 by (apply dec_word; lia). rewrite length_app in Hlen. cbn [List.length] in Hlen.
  rewrite (proj2 (Nat.leb_gt _ _)) by lia. rewrite parse_u64_dec by lia.
  rewrite Z.min_l by (unfold ULLONG_MAX; lia). cbn [mbind option_bind].
  rewrite (proj2 (Z.ltb_ge x 1)), (proj2 (Z.ltb_ge 65535 x)) by lia. cbn [orb].
  rewrite IH by (done || (rewrite !length_app; cbn [List.length]; lia)).
  unfold u16. rewrite Z.mod_small by lia. by rewrite <-app_assoc.
Qed.

Section WithInet.
Context {I : Inet} `{!InetLaws I}.

Lemma cidrs_csv toks l acc max :
  Forall2 (λ t p, ∃ a, spaces a ∧ t = a ++ vg_cidr_to_str p 80) toks l →
  Forall prefix_ok l → Forall (λ p, word (vg_cidr_to_str p 80)) l →
  Z.of_nat (List.length (acc ++ l)) ≤ max → csv_cidrs_loop toks acc max = Some (acc ++ l).
Proof.
  intros Ht Hp Hw. revert acc. induction Ht as [|t p toks l (a & Ha & ->) Ht IH]; intros acc Hlen;
    cbn [csv_cidrs_loop]; [by rewrite app_nil_r|].
  apply Forall_cons in Hp as [Hx Hp], Hw as [Hw1 Hw]. rewrite trim_field by done.
  rewrite bool_decide_eq_false_2 by apply Hw1. rewrite length_app in Hlen. cbn [List.length] in Hlen.
  rewrite (proj2 (Z.leb_gt _ _)) by lia. unfold vg_parse_cidr.
  rewrite parse_print by (apply Hx || lia). cbn [mbind option_bind].
  rewrite IH by (done || (rewrite !length_app; cbn [List.length]; lia)). by rewrite <-app_assoc.
Qed.

Lemma cidr_text_chars p :
  prefix_ok p → Forall (λ c, addr_char c = true ∨ c = 47) (vg_cidr_to_str p 80).
Proof.
  intros [Hok _]. unfold vg_cidr_to_str. apply Forall_take, Forall_app. split.
  - destruct (ntop_chars (family p) (take (addr_bytes (family p)) (addr p)) (ok_family _ Hok)) as [H _].
    { by apply take_addr_ok. }
    eapply Forall_impl; [exact H|]. auto.
  - constructor; [by right|]. pose proof (ok_plen_128 _ Hok) as Hpl.
    eapply Forall_impl; [apply dec_digits; lia|]. intros c Hc. left. unfold addr_char. by rewrite Hc.
Qed.

Lemma cidr_shown p : prefix_ok p → shown (λ p, vg_cidr_to_str p 80) p ∧ (10 ∉ vg_cidr_to_str p 80).
Proof.
  intros Hp. pose proof (cidr_text_chars p Hp) as Hc.
  assert (∀ c, addr_char c = true ∨ c = 47 → isspace c = false ∧ c ≠ 0 ∧ c ≠ 44) as Hn.
  { intros c [H%addr_char_not| ->]; [tauto|done]. }
  rewrite Forall_forall in Hc. unfold shown. split_and!; [split| | |].
  - unfold vg_cidr_to_str. by destruct (inet_ntop _ _).
  - apply Forall_forall. intros c H. by apply Hn, Hc.
  - intros H%Hc%Hn. tauto.
  - intros H%Hc%Hn. tauto.
  - by intros [H _]%Hc%Hn.
Qed.
End WithInet.

(** ** The lines of the block *)

Definition no_nl (l : list Z) : Prop := 10 ∉ l.

Lemma no_nl_app a b : no_nl a → no_nl b → no_nl (a ++ b).
Proof. unfold no_nl. rewrite elem_of_app. tauto. Qed.

Lemma no_nl_check l : has_byte 10 l = false → no_nl l.
Proof. apply has_byte_false. Qed.

Lemma no_nl_dec n : 0 ≤ n → no_nl (dec n).
Proof.
  intros Hn H. pose proof (dec_digits n Hn) as Hd. rewrite Forall_forall in Hd.
  apply Hd, digit_char_not in H as [H _]. done.
Qed.

Lemma no_nl_dec_signed n : no_nl (dec_signed n).
Proof.
  unfold dec_signed. destruct (n <? 0) eqn:E; breflect; [|by apply no_nl_dec].
  apply (no_nl_app [45]); [by apply no_nl_check|]. apply no_nl_dec. lia.
Qed.

Lemma no_nl_hex n : no_nl (hex n).
Proof.
  unfold hex. generalize (S (Z.to_nat (Z.log2 n))) as fuel. intros fuel.
  assert (no_nl []) as Ha by apply not_elem_of_nil. revert n Ha. generalize (@nil Z) as acc.
  induction fuel as [|fuel IH]; intros acc n Ha; cbn [hex_loop]; [done|].
  assert (no_nl (hex_char (n mod 16) :: acc)) as Hx.
  { apply not_elem_of_cons. split; [|done]. pose proof (Z.mod_pos_bound n 16 eq_refl).
    unfold hex_char. destruct (_ <? 10) eqn:E; breflect; lia. }
  destruct (n <? 16); [done|]. by apply IH.
Qed.

Lemma no_nl_two n : 0 ≤ n → no_nl (two_digits n).
Proof.
  intros Hn. unfold no_nl, two_digits. pose proof (Z.mod_pos_bound n 10 eq_refl).
  pose proof (Z.div_pos n 10 Hn eq_refl). rewrite !not_elem_of_cons. pose proof (not_elem_of_nil (10 : Z)).
  split_and!; [lia|lia|done].
Qed.

Ltac no_nl := repeat apply no_nl_app;
  first [done | by apply no_nl_check | apply no_nl_dec_signed | apply no_nl_hex
        | apply no_nl_two; lia | apply no_nl_dec; lia].

(** What [localtime_r] leaves in a [struct tm]. *)
Definition tm_ok (t : tm) : Prop :=
  0 ≤ tm_mon t ∧ 0 ≤ tm_mday t ∧ 0 ≤ tm_hour t ∧ 0 ≤ tm_min t ∧ 0 ≤ tm_sec t.

Lemma no_nl_prefix e level sgr :
  tm_ok (now_tm e) → no_nl (bs level) → no_nl sgr → no_nl (vg_log_prefix e level sgr).
Proof.
  intros (? & ? & ? & ? & ?) Hl Hs.
  assert (no_nl (snprintf 32 (strftime (now_tm e)))) as Ht.
  { assert (no_nl (strftime (now_tm e))) as Hn by (unfold strftime; no_nl).
    unfold no_nl, snprintf in *. rewrite list_elem_of_In in *. intros Hc. apply Hn.
    rewrite <-(firstn_skipn 31). apply in_or_app. by left. }
  unfold vg_log_prefix. destruct (vg_log_color e); no_nl.
Qed.

(** A message is one line. *)
Lemma log_at_line e file line msg rest :
  tm_ok (now_tm e) → no_nl file → no_nl msg →
  lines_of (vg_log_at e file line msg ++ rest) [] = vg_log_at e file line msg :: lines_of rest [].
Proof.
  intros Ht Hf Hm. unfold vg_log_at.
  assert (∃ b, vg_log_loc e file line = b ++ [10] ∧ no_nl b) as (b & -> & Hb).
  { unfold vg_log_loc. pose proof (no_nl_dec_signed line).
    destruct (vg_log_color e); rewrite !app_assoc; eexists; (split; [reflexivity|no_nl]). }
  pose proof (no_nl_prefix e "INFO" VG_SGR_CYAN Ht ltac:(no_nl) ltac:(no_nl)) as Hp.
  rewrite !app_assoc. by rewrite lines_of_line by no_nl.
Qed.

Lemma log_field_line branch key val rest :
  no_nl (bs branch) → no_nl (bs key) → no_nl val →
  lines_of (log_field branch key val ++ rest) [] = log_field branch key val :: lines_of rest [].
Proof.
  intros Hb Hk Hv. unfold log_field. rewrite !app_assoc. by rewrite lines_of_line by no_nl.
Qed.

(** What the text of a line of the block does when it is loaded. *)
Lemma load_field {I : Inet} key val c :
  bs key ≠ [] → forallb key_char (bs key) = true → plain val →
  load_line (bs key ++ bs " = " ++ val ++ [10]) c = load_key (bs key) val c.
Proof.
  intros Hn Hk (Ht & H0 & _).
  apply load_line_key; try done. apply Forall_forall. intros x Hx. rewrite forallb_forall in Hk.
  by apply Hk, list_elem_of_In.
Qed.

(** ** Reading the block *)

Section Reading.
Context {I : Inet} `{!InetLaws I}.

Lemma load_str key sz set val c :
  find_scalar key scalars = Some (CFG_STR sz set) → val ≠ [] → Z.of_nat (List.length val) < sz →
  load_key key val c = Some (set c val).
Proof.
  intros Hf Hn Hl. unfold load_key. rewrite Hf. cbn [apply_scalar].
  rewrite (proj2 (Z.eqb_neq sz 0)), bool_decide_eq_false_2, (proj2 (Z.leb_gt _ _)) by (done || lia). done.
Qed.

Lemma load_number key s n c :
  find_scalar key scalars = Some s → 0 ≤ n → load_key key (dec n) c = scalar_value s n c.
Proof.
  intros Hf Hn. pose proof (find_scalar_in _ _ _ Hf) as Hin.
  pose proof (proj1 (Forall_forall _ _) scalars_keys _ Hin) as (_ & _ & Hsz).
  unfold load_key. rewrite Hf. by apply apply_scalar_dec.
Qed.

Lemma load_u64 key set n c :
  find_scalar key scalars = Some (CFG_U64 set) → 0 ≤ n < 2 ^ 64 → load_key key (dec n) c = Some (set c n).
Proof.
  intros Hf Hn. rewrite (load_number _ _ _ _ Hf) by lia. cbn [scalar_value].
  by rewrite Z.min_l by (unfold ULLONG_MAX; lia).
Qed.

Lemma load_i32 key set n c :
  find_scalar key scalars = Some (CFG_I32 set) → 0 ≤ n ≤ INT_MAX →
  load_key key (dec_signed n) c = Some (set c n).
Proof.
  intros Hf Hn. unfold dec_signed. rewrite (proj2 (Z.ltb_ge n 0)) by lia.
  rewrite (load_number _ _ _ _ Hf) by lia. cbn [scalar_value]. by rewrite (proj2 (Z.leb_le _ _)) by lia.
Qed.

Lemma load_u32 key set n c :
  find_scalar key scalars = Some (CFG_U32 set) → 0 ≤ n < 2 ^ 32 → load_key key (dec n) c = Some (set c n).
Proof.
  intros Hf Hn. rewrite (load_number _ _ _ _ Hf) by lia. cbn [scalar_value].
  by rewrite (proj2 (Z.ltb_lt _ _)) by lia.
Qed.

Lemma port_shown n : 1 ≤ n ≤ 65535 → shown dec n.
Proof.
  intros Hn. pose proof (dec_digits n ltac:(lia)) as Hd. rewrite Forall_forall in Hd.
  split_and!; [apply dec_word; lia| |]; intros Hc%Hd; done.
Qed.

Lemma load_ports ports c :
  Forall (λ v, 1 ≤ v ≤ 65535) ports → (List.length ports ≤ VG_MAX_ALLOW_PORTS)%nat →
  load_key (bs "allow_ports") (csv_loop dec 0 ports) c
  = Some (set_lists c ports (local_cidr c) (allow_cidr c) (auto_local c)).
Proof.
  intros Hp Hl. change (load_key (bs "allow_ports") (csv_loop dec 0 ports) c)
    with (parse_allow_ports (csv_loop dec 0 ports) c). unfold parse_allow_ports.
  rewrite (ports_csv _ ports []); [done| |done|done]. apply strtok_csv.
  eapply Forall_impl; [exact Hp|]. apply port_shown.
Qed.

Abbreviation cidrs_text := (csv_loop (λ p, vg_cidr_to_str p 80) 0).

Lemma cidrs_load l :
  Forall prefix_ok l → Z.of_nat (List.length l) ≤ VG_MAX_CIDR_LIST →
  parse_csv_cidrs (cidrs_text l) VG_MAX_CIDR_LIST = Some l.
Proof.
  intros Hp Hl. unfold parse_csv_cidrs. rewrite (cidrs_csv _ l []); [done| |done| |done].
  - apply strtok_csv. eapply Forall_impl; [exact Hp|]. intros p Hq. apply cidr_shown, Hq.
  - eapply Forall_impl; [exact Hp|]. intros p Hq. apply cidr_shown, Hq.
Qed.

Lemma cidrs_text_nil l : Forall prefix_ok l → cidrs_text l = [] → l = [].
Proof.
  destruct 1 as [|p l [[Hw _] _]%cidr_shown _]; [done|]. cbn [csv_loop Nat.eqb app].
  intros [E _]%app_eq_nil. by destruct Hw.
Qed.

Lemma load_local l c :
  Forall prefix_ok l → Z.of_nat (List.length l) ≤ VG_MAX_CIDR_LIST → local_cidr c = [] → auto_local c = true →
  load_key (bs "local_networks") (cidrs_text l) c
  = Some (set_lists c (cfg_allow_ports c) l (allow_cidr c) (bool_decide (l = []))).
Proof.
  intros Hp Hl Hc Ha. change (load_key (bs "local_networks") (cidrs_text l) c) with
    (if bool_decide (cidrs_text l = []) then Some c
     else l ← parse_csv_cidrs (cidrs_text l) VG_MAX_CIDR_LIST;
          Some (set_lists c (cfg_allow_ports c) l (allow_cidr c) false)).
  case_bool_decide as E.
  - apply cidrs_text_nil in E as ->; [|done]. destruct c. cbn in *. by subst.
  - rewrite cidrs_load by done. cbn [mbind option_bind]. rewrite bool_decide_eq_false_2; [done|].
    by intros ->.
Qed.

Lemma load_allow l c :
  Forall prefix_ok l → Z.of_nat (List.length l) ≤ VG_MAX_CIDR_LIST → l ≠ [] →
  load_key (bs "allow_networks") (cidrs_text l) c
  = Some (set_lists c (cfg_allow_ports c) (local_cidr c) l (auto_local c)).
Proof.
  intros Hp Hl Hn. change (load_key (bs "allow_networks") (cidrs_text l) c) with
    (if bool_decide (cidrs_text l = []) then Some c
     else l ← parse_csv_cidrs (cidrs_text l) VG_MAX_CIDR_LIST;
          Some (set_lists c (cfg_allow_ports c) (local_cidr c) l (auto_local c))).
  rewrite bool_decide_eq_false_2 by (by intros E%cidrs_text_nil).
  by rewrite cidrs_load by done.
Qed.

Lemma cidrs_plain l : Forall prefix_ok l → plain (cidrs_text l) ∧ no_nl (cidrs_text l).
Proof.
  intros Hl.
  assert (Forall (shown (λ p, vg_cidr_to_str p 80)) l) as Hs
    by (eapply Forall_impl; [exact Hl|]; intros p Hp; apply cidr_shown, Hp).
  assert (no_nl (cidrs_text l)) as Hn.
  { apply csv_not; [done|done|]. eapply Forall_impl; [exact Hl|]. intros p Hp. apply cidr_shown, Hp. }
  split; [split_and!|done]; [by apply csv_trimmed| |exact Hn].
  apply csv_not; [done|done|]. eapply Forall_impl; [exact Hs|]. intros p Hp. apply Hp.
Qed.

Lemma ports_plain l : Forall (λ v, 1 ≤ v ≤ 65535) l → plain (csv_loop dec 0 l) ∧ no_nl (csv_loop dec 0 l).
Proof.
  intros Hl. assert (no_nl (csv_loop dec 0 l)) as Hn.
  { apply csv_not; [done|done|]. eapply Forall_impl; [exact Hl|]. intros n [Hv _]. apply no_nl_dec. lia. }
  split; [split_and!|done]; [| |exact Hn].
  - apply csv_trimmed. eapply Forall_impl; [exact Hl|]. apply port_shown.
  - apply csv_not; [done|done|]. eapply Forall_impl; [exact Hl|]. intros n Hv. by apply port_shown.
Qed.

Lemma dec_plain n : 0 ≤ n → plain (dec n) ∧ no_nl (dec n).
Proof.
  intros Hn. split; [split_and!|by apply no_nl_dec]; [by apply word_trimmed, dec_word|by apply dec_no_nul|].
  by apply no_nl_dec.
Qed.

Lemma dec_signed_plain n : 0 ≤ n → plain (dec_signed n) ∧ no_nl (dec_signed n).
Proof. intros Hn. unfold dec_signed. rewrite (proj2 (Z.ltb_ge n 0)) by lia. by apply dec_plain. Qed.

(** The fields of the block, in its order. *)
Definition block (c : vg_config) : list (string * string * list Z) := [
  ("  ├─ ", "interface", interface c);
  ("  ├─ ", "xdp_mode", xdp_mode c);
  ("  ├─ ", "wake_pps", dec (wake_pps c));
  ("  ├─ ", "wake_mbps", dec (wake_mbps c));
  ("  ├─ ", "idle_poll_ms", dec_signed (idle_poll_ms c));
  ("  ├─ ", "clear_seconds", dec_signed (clear_seconds c));
  ("  ├─ ", "threshold_pps", dec (threshold_pps c));
  ("  ├─ ", "threshold_mbps", dec (threshold_mbps c));
  ("  ├─ ", "ban_time", dec_signed (ban_time c));
  ("  ├─ ", "aggregate_k", dec_signed (aggregate_k c));
  ("  ├─ ", "local_networks", cidrs_text (local_cidr c));
  ("  ├─ ", "allow_networks", cidrs_text (allow_cidr c));
  ("  ├─ ", "allow_ports", csv_loop dec 0 (cfg_allow_ports c));
  ("  ├─ ", "remote_map_size", dec (remote_map_size c));
  ("  ├─ ", "drop_map_size", dec (drop_map_size c));
  ("  └─ ", "metrics_port", dec_signed (metrics_port c))]%string.

Definition field_line (f : string * string * list Z) : list Z := log_field f.1.1 f.1.2 f.2.

(** ... and what follows the tree drawing on the line. *)
Definition field_text (f : string * string * list Z) : list Z := bs f.1.2 ++ bs " = " ++ f.2 ++ [10].

(** A line is a branch of the tree drawing, then the text. *)
Definition drawn (l t : list Z) : Prop := l = bs "  ├─ " ++ t ∨ l = bs "  └─ " ++ t.

(** Branches are those of the drawing, keys have key characters. *)
Definition field_ok (f : string * string * list Z) : Prop :=
  ((f.1.1 = "  ├─ " ∨ f.1.1 = "  └─ ")%string ∧ has_byte 10 (bs f.1.1) = false ∧ bs f.1.2 ≠ []
   ∧ forallb key_char (bs f.1.2) = true ∧ has_byte 10 (bs f.1.2) = false)
  ∧ plain f.2 ∧ no_nl f.2.

Lemma cfg_ranges c : cfg_ok c →
  (0 ≤ wake_pps c < 2 ^ 64 ∧ 0 ≤ wake_mbps c < 2 ^ 64
   ∧ 0 ≤ threshold_pps c < 2 ^ 64 ∧ 0 ≤ threshold_mbps c < 2 ^ 64)
  ∧ (0 ≤ idle_poll_ms c ≤ INT_MAX ∧ 0 ≤ clear_seconds c ≤ INT_MAX ∧ 0 ≤ ban_time c ≤ INT_MAX
     ∧ 0 ≤ aggregate_k c ≤ INT_MAX ∧ 0 ≤ metrics_port c ≤ INT_MAX)
  ∧ 0 ≤ remote_map_size c < 2 ^ 32 ∧ 0 ≤ drop_map_size c < 2 ^ 32.
Proof. intros []. by decompose_Forall_hyps. Qed.

Lemma block_ok c : cfg_ok c → texts_ok c → Forall field_ok (block c).
Proof.
  intros Hc [[_ Hi] [_ Hm]].
  assert (∀ s, plain s → plain s ∧ no_nl s) as Hp by (intros s Hs; split; [done|apply Hs]).
  apply Hp in Hi, Hm. clear Hp.
  destruct (cfg_ranges c Hc) as (? & ? & ?).
  unfold block. repeat (apply Forall_cons; split); try apply Forall_nil_2;
    (split; [split; [first [by left|by right]|by vm_compute]|]); cbn [snd];
    first [done|by split|apply dec_plain; lia|apply dec_signed_plain; lia
          |apply cidrs_plain; apply Hc|apply ports_plain; apply Hc].
Qed.

(** The lines of the logged text: two headings and those of the block. *)
Lemma logged_lines v e e' file line c flags :
  1 ≤ v → cfg_ok c → texts_ok c → tm_ok (now_tm e) → tm_ok (now_tm e') → no_nl file →
  lines_of (vg_log_config_at v e e' file line c flags) []
  = vg_log_at e file line (bs "xdp attach flags 0x" ++ hex flags)
    :: vg_log_at e' file line (bs "active configuration") :: (field_line <$> block c).
Proof.
  intros Hv Hc Ht He He' Hf.
  assert (∀ l, Forall field_ok l → lines_of (concat (field_line <$> l)) [] = field_line <$> l) as Hl.
  { intros l. induction 1 as [|f l ((_ & Hb & _ & _ & Hk) & _ & Ht0) Hl IH]; [done|].
    cbn [fmap list_fmap concat]. unfold field_line at 1.
    rewrite log_field_line by first [done|by apply no_nl_check]. by rewrite IH. }
  pose proof (Hl _ (block_ok c Hc Ht)) as Hb.
  assert (vg_log_config_at v e e' file line c flags
    = vg_log_at e file line (bs "xdp attach flags 0x" ++ hex flags)
      ++ vg_log_at e' file line (bs "active configuration") ++ concat (field_line <$> block c)) as ->.
  { unfold vg_log_config_at, block, field_line, log_config_cidrs, log_config_ports.
    rewrite (proj2 (Z.ltb_ge v 1)) by lia. cbn [fmap list_fmap concat fst snd]. by rewrite app_nil_r. }
  by rewrite !log_at_line, Hb by no_nl.
Qed.

(** The configuration that the block describes: what is not printed has its
    default, and the local networks become configured ones ([auto_local] is
    only left on when there are none). *)
Definition as_logged (c : vg_config) : vg_config := {|
  interface := interface c; xdp_mode := xdp_mode c;
  log_file := log_file vg_config_defaults; pid_file := pid_file vg_config_defaults;
  ctl_socket_group := ctl_socket_group vg_config_defaults;
  wake_pps := wake_pps c; wake_mbps := wake_mbps c; idle_poll_ms := idle_poll_ms c;
  clear_seconds := clear_seconds c; threshold_pps := threshold_pps c;
  threshold_mbps := threshold_mbps c; ban_time := ban_time c; aggregate_k := aggregate_k c;
  metrics_port := metrics_port c; remote_map_size := remote_map_size c;
  drop_map_size := drop_map_size c; cfg_allow_ports := cfg_allow_ports c;
  local_cidr := local_cidr c; allow_cidr := allow_cidr c;
  auto_local := bool_decide (local_cidr c = []);
|}.

Lemma block_drawn l : Forall field_ok l → Forall2 drawn (field_line <$> l) (field_text <$> l).
Proof.
  induction 1 as [|[[b k] t] l (([E|E] & _) & _) Hl IH]; constructor; try done;
    cbn in E; subst b; [by left|by right].
Qed.

Lemma load_block_step f l c :
  field_ok f → load_lines (field_text <$> f :: l) c
  = (c1 ← load_key (bs f.1.2) f.2 c; load_lines (field_text <$> l) c1).
Proof.
  intros ((? & _ & ? & ? & _) & ? & _).
  change (load_lines _ c) with (c1 ← load_line (field_text f) c; load_lines (field_text <$> l) c1).
  assert (load_line (field_text f) c = load_key (bs f.1.2) f.2 c) as E by (by apply load_field). by rewrite E.
Qed.

(** One field of the block; the configuration stays a literal record. *)
Ltac log_step :=
  rewrite load_block_step by done; cbn [fst snd];
  first [erewrite load_str; [|reflexivity|done|apply ok_interface || apply ok_xdp_mode; done]
        | erewrite load_u64; [|reflexivity|done]
        | erewrite load_i32; [|reflexivity|done] | erewrite load_u32; [|reflexivity|done]
        | rewrite load_local by (done || apply ok_local; done)
        | rewrite load_allow by (done || apply ok_allow; done)
        | rewrite load_ports by (apply ok_ports; done)];
  cbn [mbind option_bind];
  cbn [set_nums set_strs set_lists interface xdp_mode log_file pid_file ctl_socket_group wake_pps wake_mbps
       idle_poll_ms clear_seconds threshold_pps threshold_mbps ban_time aggregate_k metrics_port
       remote_map_size drop_map_size cfg_allow_ports local_cidr allow_cidr auto_local].

(** The lines of the block set its fields. *)
Lemma block_loads c :
  cfg_ok c → texts_ok c → allow_cidr c ≠ [] →
  load_lines (field_text <$> block c) vg_config_defaults = Some (as_logged c).
Proof.
  intros Hc Ht Ha. pose proof (block_ok c Hc Ht) as Hb.
  destruct (cfg_ranges c Hc) as ((? & ? & ? & ?) & (? & ? & ? & ? & ?) & ? & ?).
  destruct Ht as [[Hi _] [Hm _]]. unfold block in *.
  repeat match goal with
  | H : Forall field_ok (_ :: _) |- _ => apply Forall_cons in H as [? H]
  end.
  unfold vg_config_defaults. do 16 log_step. done.
Qed.

(** C38: what -v logs of the configuration can be read back.  Where the daemon
    runs with a configuration that it loaded from a file and completed with
    the addresses of its interface (no -i), and some network is allowed, the
    logged text is two heading lines and then lines that are each a branch of
    a tree drawing followed by a line of a configuration file.  Without the
    headings and the drawing (with them it is no configuration file) those
    lines load, and give the running configuration, but for the two paths and
    the group, which are not logged and have their defaults, and for the
    source of the local networks, which are now configured ones. *)
Theorem logged_config_loads v e e' file line text ifa c0 c flags :
  1 ≤ v → defaults_parse → vg_config_load (Some (lines_of text [], false)) = Some c0 →
  (∀ l, ifa = Some l → Forall ifaddr_ok l) → vg_config_auto_local c0 ifa = Some c →
  allow_cidr c ≠ [] → tm_ok (now_tm e) → tm_ok (now_tm e') → no_nl file →
  ∃ ls ts, lines_of (vg_log_config_at v e e' file line c flags) []
      = vg_log_at e file line (bs "xdp attach flags 0x" ++ hex flags)
        :: vg_log_at e' file line (bs "active configuration") :: ls
    ∧ Forall2 drawn ls ts ∧ vg_config_load (Some (ts, false)) = Some (as_logged c).
Proof.
  intros Hv Hd El Hif Ea Hne He He' Hf. pose proof (load_texts _ _ El) as Ht.
  destruct (config_load_range _ _ Hd El) as [Hc0 Hp]. pose proof (auto_local_ok _ _ _ Hc0 Hif Ea) as Hc.
  assert (texts_ok c ∧ idle_poll_ms c = idle_poll_ms c0) as [Htc Hpc].
  { unfold vg_config_auto_local in Ea. destruct (negb _); [by injection Ea as <-|].
    by apply bind_Some in Ea as (l & _ & [= <-]). }
  exists (field_line <$> block c), (field_text <$> block c).
  split; [by apply logged_lines|]. split; [by apply block_drawn, block_ok|].
  unfold vg_config_load. rewrite block_loads by done. cbn [mbind option_bind].
  rewrite (proj2 (Z.leb_gt (idle_poll_ms (as_logged c)) 0)); [done|]. cbn [as_logged idle_poll_ms]. lia.
Qed.

End Reading.
