(* ===== verification/DropTable.v ===== *)
(** * policy.c: the index of listed drops

    The pool of records, the two lists through it ([drop_all], oldest first,
    and [drop_free]) and the hash buckets.  Pointers to records are pool
    indices; list nodes and bucket chains are the memories of [Lists].  A
    read outside the pool, of a NULL link, or a walk longer than the pool is
    [None]. *)

From S2P Require Import Prelude Types Ipaddr Lists.
Import Dlist Hlist.
Open Scope Z_scope.

(** The data fields of [struct vg_drop_rec]. *)
Record vg_drop_rec := DropRec { cidr : vg_cidr; reason : Z; inserted : Z; expires : Z }.

(** A record of the zeroed pool. *)
Definition zero_rec : vg_drop_rec := DropRec (Cidr 0 (replicate 16 0) 0) 0 0 0.

(** The [struct vg_list] nodes: the two heads and [all] of each record. *)
Inductive loc := L_free | L_all | L_rec (i : Z).

#[export] Instance loc_eq_dec : EqDecision loc.
Proof. solve_decision. Defined.
#[export] Instance loc_countable : Countable loc.
Proof.
  apply (inj_countable' (λ x, match x with L_free => inl false | L_all => inl true
                                         | L_rec i => inr i end)
           (λ x, match x with inl false => L_free | inl true => L_all
                            | inr i => L_rec i end)).
  by intros [].
Defined.

#[export] Instance slot_eq_dec : EqDecision (slot Z Z).
Proof. solve_decision. Defined.

(** The fields of [struct vg_ctrl] named [drop_*].  [drop_count] is an [int]
    of the source and an unbounded number here: it never exceeds the capacity
    of the pool ([rep]), so it would wrap only with a pool of 2^31 records,
    which takes a [drop_map_size] of 2^30. *)
Record drop_tab := DropTab {
  drop_pool : gmap Z vg_drop_rec;
  drop_pool_cap : Z;
  drop_used : Z;
  drop_nodes : gmap loc (vg_list loc);      (* drop_free, drop_all, rec->all *)
  drop_count : Z;
  drop_heads : hmem Z Z;              (* drop_heads, rec->hash *)
  drop_nbuckets : Z;
}.

Definition set_pool (t : drop_tab) v := DropTab v (drop_pool_cap t) (drop_used t) (drop_nodes t)
  (drop_count t) (drop_heads t) (drop_nbuckets t).
Definition set_used (t : drop_tab) v := DropTab (drop_pool t) (drop_pool_cap t) v (drop_nodes t)
  (drop_count t) (drop_heads t) (drop_nbuckets t).
Definition set_nodes (t : drop_tab) v := DropTab (drop_pool t) (drop_pool_cap t) (drop_used t) v
  (drop_count t) (drop_heads t) (drop_nbuckets t).
Definition set_count (t : drop_tab) v := DropTab (drop_pool t) (drop_pool_cap t) (drop_used t)
  (drop_nodes t) v (drop_heads t) (drop_nbuckets t).
Definition set_heads (t : drop_tab) v := DropTab (drop_pool t) (drop_pool_cap t) (drop_used t)
  (drop_nodes t) (drop_count t) v (drop_nbuckets t).

(** Reading through a record pointer. *)
Definition get_rec (t : drop_tab) (i : Z) : vg_drop_rec := default zero_rec (drop_pool t !! i).
Definition in_pool (t : drop_tab) (i : Z) : bool := (0 <=? i) && (i <? drop_pool_cap t).
Definition rec_at (t : drop_tab) (i : Z) : option vg_drop_rec :=
  if in_pool t i then Some (get_rec t i) else None.

(** Writing the data fields of a record. *)
Definition put_rec (i : Z) (r : vg_drop_rec) : M drop_tab unit := λ t,
  if in_pool t i then Some (tt, set_pool t (<[i := r]> (drop_pool t))) else None.

(** List and bucket operations on the table. *)
Definition on_nodes (f : gmap loc (vg_list loc) → option (gmap loc (vg_list loc))) : M drop_tab unit := λ t,
  h ← f (drop_nodes t); Some (tt, set_nodes t h).
Definition on_heads (f : hmem Z Z → option (hmem Z Z)) : M drop_tab unit := λ t,
  h ← f (drop_heads t); Some (tt, set_heads t h).

Definition HASH_PRIME : Z := 16777619.

(** [h = (h ^ x) * 16777619u] *)
Definition hash_step (h x : Z) : Z := u32 (Z.lxor h x * HASH_PRIME).

Definition drop_hash (t : drop_tab) (p : vg_cidr) : Z :=
  let h := u32 (family p * HASH_PRIME) in
  let h := hash_step h (prefixlen p) in
  let h := fold_left hash_step (take (addr_bytes (family p)) (addr p)) h in
  Z.land h (drop_nbuckets t - 1).

(** The key comparison of [drops_find]. *)
Definition same_key (a p : vg_cidr) : bool :=
  (family a =? family p) && (prefixlen a =? prefixlen p)
  && mem_eq (addr_bytes (family p)) (addr a) (addr p).

(** The [for] of [drops_find] from node [n]. *)
Fixpoint find_loop (fuel : nat) (t : drop_tab) (n : option Z) (p : vg_cidr)
  : option (option Z) :=
  match n with
  | None => Some None
  | Some i =>
      match fuel with
      | O => None
      | S fuel =>
          r ← rec_at t i;
          if same_key (cidr r) p then Some (Some i)
          else find_loop fuel t (hnext (drop_heads t) !! i) p
      end
  end.

Definition walk_fuel (t : drop_tab) : nat := Z.to_nat (drop_pool_cap t).

Definition drops_find (p : vg_cidr) : M drop_tab (option Z) := λ t,
  r ← find_loop (walk_fuel t) t (first (drop_heads t) !! drop_hash t p) p;
  Some (r, t).

Definition node_next (t : drop_tab) (l : loc) : option loc := next (lget (drop_nodes t) l).

(** [vg_list_entry]: only records are entries. *)
Definition list_entry (l : loc) : option Z := match l with L_rec i => Some i | _ => None end.

Definition drop_alloc : M drop_tab (option Z) := λ t,
  if negb (vg_list_empty (drop_nodes t) L_free) then
    l ← node_next t L_free;
    h ← vg_list_del (drop_nodes t) l;
    i ← list_entry l;
    Some (Some i, set_nodes t h)
  else if drop_used t <? drop_pool_cap t then
    Some (Some (drop_used t), set_used t (u32 (drop_used t + 1)))
  else Some (None, t).

Definition drops_reset : M drop_tab unit := λ t,
  let t := set_heads t (HMem ∅ (hnext (drop_heads t)) (pprev (drop_heads t))) in
  let t := set_nodes t (vg_list_init (vg_list_init (drop_nodes t) L_free) L_all) in
  Some (tt, set_count (set_used t 0) 0).

(** [drop_remove] once the map entry is gone. *)
Definition drop_unlink (r : Z) : M drop_tab unit :=
  _ ← on_heads (λ h, vg_hlist_del h r);
  _ ← on_nodes (λ h, vg_list_del h (L_rec r));
  _ ← on_nodes (λ h, vg_list_add_tail h (L_rec r) L_free);
  modify (λ t, set_count t (drop_count t - 1)).

(** [drop_add] of a new record once the map entry is set. *)
Definition drop_link (r : Z) (p : vg_cidr) (rs now exp : Z) : M drop_tab unit :=
  _ ← put_rec r (DropRec p rs now exp);
  b ← gets (λ t, drop_hash t p);
  _ ← on_heads (λ h, Some (vg_hlist_add_head h r b));
  _ ← on_nodes (λ h, vg_list_add_tail h (L_rec r) L_all);
  modify (λ t, set_count t (drop_count t + 1)).

(** [drop_add] of a new record when the map refused the entry. *)
Definition drop_give_back (r : Z) : M drop_tab unit :=
  on_nodes (λ h, vg_list_add_tail h (L_rec r) L_free).

(** A read-only walk of [drop_all] from node [l]: the records it visits. *)
Fixpoint all_loop (fuel : nat) (t : drop_tab) (l : loc) : option (list Z) :=
  if bool_decide (l = L_all) then Some []
  else
    match fuel with
    | O => None
    | S fuel =>
        i ← list_entry l;
        nx ← node_next t l;
        rest ← all_loop fuel t nx;
        Some (i :: rest)
    end.

Definition drop_all_walk (t : drop_tab) : option (list Z) :=
  l ← node_next t L_all; all_loop (walk_fuel t) t l.

(** ** Initialisation *)

(** [while (drop_nbuckets < drop_pool_cap) drop_nbuckets <<= 1], 32 turns. *)
Fixpoint nbuckets_loop (fuel : nat) (nb cap : Z) : option Z :=
  if nb <? cap then
    match fuel with O => None | S fuel => nbuckets_loop fuel (u32 (Z.shiftl nb 1)) cap end
  else Some nb.

Definition drop_pool_cap_of (drop_map_size : Z) : Z :=
  u32 (2 * (if drop_map_size =? 0 then VG_DROP_MAP_MAX else drop_map_size)).

(** The part of [vg_ctrl_init] on these fields, when [calloc] succeeds. *)
Definition drops_init (drop_map_size : Z) : option drop_tab :=
  let cap := drop_pool_cap_of drop_map_size in
  nb ← nbuckets_loop 32 1024 cap;
  Some (DropTab ∅ cap 0 (vg_list_init (vg_list_init ∅ L_free) L_all) 0 (HMem ∅ ∅ ∅) nb).

(** ** The self-check *)

(** The first loop of [vg_ctrl_drops_check]; [None] inside is [return -1]. *)
Fixpoint check_all (fuel : nat) (t : drop_tab) (l : loc) (listed : Z) : option (option Z) :=
  if bool_decide (l = L_all) then Some (Some listed)
  else
    match fuel with
    | O => None
    | S fuel =>
        i ← list_entry l;
        nx ← node_next t l;
        if negb (bool_decide (prev (lget (drop_nodes t) nx) = Some l)) then Some None
        else if (i <? 0) || (drop_used t <=? i) then Some None
        else
          r ← rec_at t i;
          found ← drops_find (cidr r) t;
          if negb (bool_decide (found.1 = Some i)) then Some None
          else if drop_count t <? listed + 1 then Some None
          else check_all fuel t nx (listed + 1)
    end.

(** The chain of one bucket, [pp] what must point at [n]. *)
Fixpoint check_chain (fuel : nat) (t : drop_tab) (b : Z) (pp : slot Z Z) (n : option Z)
    (hashed : Z) : option (option Z) :=
  match n with
  | None => Some (Some hashed)
  | Some i =>
      match fuel with
      | O => None
      | S fuel =>
          r ← rec_at t i;
          if negb (bool_decide (pprev (drop_heads t) !! i = Some pp)) then Some None
          else if negb (drop_hash t (cidr r) =? b) then Some None
          else if drop_count t <? hashed + 1 then Some None
          else check_chain fuel t b (SNode i) (hnext (drop_heads t) !! i) (hashed + 1)
      end
  end.

(** The loop over the buckets from [b], [fuel] for each chain. *)
Fixpoint check_buckets (n fuel : nat) (t : drop_tab) (b : Z) (hashed : Z) : option (option Z) :=
  match n with
  | O => Some (Some hashed)
  | S n =>
      r ← check_chain fuel t b (SHead b) (first (drop_heads t) !! b) hashed;
      match r with
      | None => Some None
      | Some hashed => check_buckets n fuel t (b + 1) hashed
      end
  end.

Definition vg_ctrl_drops_check (t : drop_tab) : option Z :=
  l ← node_next t L_all;
  listed ← check_all (walk_fuel t) t l 0;
  match listed with
  | None => Some (-1)
  | Some listed =>
      hashed ← check_buckets (Z.to_nat (drop_nbuckets t)) (walk_fuel t) t 0 0;
      match hashed with
      | None => Some (-1)
      | Some hashed =>
          Some (if (listed =? drop_count t) && (hashed =? drop_count t) then 0 else -1)
      end
  end.
