(* ===== verification/DropThms.v ===== *)
(** * The drop index implements a list of records

    [rep t l f x] says that the table [t] lists the records [l], oldest
    first, keeps [f] for reuse and has handed out [x] but not linked it yet.
    Every operation of the index takes a represented table to a represented
    table and does to the list what its name says. *)

From S2P Require Import Prelude Types Ipaddr IpaddrThms Lists DropTable.
Import Dlist Hlist.
Open Scope Z_scope.

Record rep (t : drop_tab) (l f x : list Z) : Prop := {
  rep_all : dlist (drop_nodes t) L_all (L_rec <$> l);
  rep_free : dlist (drop_nodes t) L_free (L_rec <$> f);
  rep_nodup : NoDup (l ++ f ++ x);
  rep_used : Z.of_nat (length (l ++ f ++ x)) = drop_used t;
  rep_range : ∀ i, i ∈ l ++ f ++ x → 0 ≤ i < drop_used t;
  rep_cap : drop_used t ≤ drop_pool_cap t < 2 ^ 32;
  rep_count : drop_count t = Z.of_nat (length l);
  rep_nb : ∃ k, 0 ≤ k < 32 ∧ drop_nbuckets t = 2 ^ k;
  rep_bucket : ∀ b, 0 ≤ b < drop_nbuckets t →
    ∃ xs, bucket (drop_heads t) b xs ∧
      ∀ i, i ∈ xs ↔ i ∈ l ∧ drop_hash t (cidr (get_rec t i)) = b;
  rep_ok : ∀ i, i ∈ l → cidr_ok (cidr (get_rec t i)) ∧ cidr_canon (cidr (get_rec t i));
  rep_uniq : ∀ i j, i ∈ l → j ∈ l →
    cidr (get_rec t i) = cidr (get_rec t j) → i = j;
}.

(** The listed records, the abstract value of the index. *)
Definition listed (t : drop_tab) (l : list Z) : list vg_drop_rec := get_rec t <$> l.

(** ** Keys *)

Lemma same_key_eq a p :
  cidr_ok a → cidr_canon a → cidr_ok p → cidr_canon p →
  same_key a p = true ↔ a = p.
Proof.
  intros Ha Hca Hp Hcp. unfold same_key. split.
  - intros [[Hf%Z.eqb_eq Hn%Z.eqb_eq]%andb_true_iff Hm]%andb_true_iff.
    pose proof (addr_bytes_max _ (ok_family _ Hp)). pose proof (addr_bytes_le (family p)).
    destruct Ha as [_ Hla Hba Hpa], Hp as [_ Hlp Hbp Hpp].
    pose proof (proj1 (mem_eq_bits (addr_bytes (family p)) (addr a) (addr p) Hba Hbp ltac:(lia) ltac:(lia)) Hm) as Hbits.
    assert (addr a = addr p) as Haddr.
    { apply bytes_eq_bits; [done..|congruence|]. intros i Hi.
      destruct (decide (i < 8 * addr_bytes (family p))%nat); [by apply Hbits|].
      rewrite (Hca i), (Hcp i); [done|lia..]. }
    destruct a, p; simpl in *. congruence.
  - intros ->. rewrite !Z.eqb_refl. unfold mem_eq. by rewrite bool_decide_eq_true_2.
Qed.

Lemma land_mask_range h k : 0 ≤ k → 0 ≤ h → 0 ≤ Z.land h (2 ^ k - 1) < 2 ^ k.
Proof.
  intros Hk Hh. replace (2 ^ k - 1) with (Z.ones k) by (rewrite Z.ones_equiv; lia). rewrite Z.land_ones by lia. apply Z.mod_pos_bound. lia.
Qed.

Lemma hash_step_range h x : 0 ≤ hash_step h x.
Proof. unfold hash_step, u32. apply Z.mod_pos_bound. lia. Qed.

Lemma drop_hash_range t l f x p : rep t l f x → 0 ≤ drop_hash t p < drop_nbuckets t.
Proof.
  intros Hr. destruct (rep_nb _ _ _ _ Hr) as (k & Hk & E). unfold drop_hash. rewrite E.
  apply land_mask_range; [lia|].
  assert (∀ a h, 0 ≤ h → 0 ≤ fold_left hash_step a h) as Hf.
  { induction a; intros h Hh; simpl; [done|]. apply IHa, hash_step_range. }
  apply Hf, hash_step_range.
Qed.

Lemma rec_at_in t l f x i : rep t l f x → i ∈ l ++ f ++ x → rec_at t i = Some (get_rec t i).
Proof.
  intros Hr Hi. pose proof (rep_range _ _ _ _ Hr i Hi). pose proof (rep_cap _ _ _ _ Hr).
  unfold rec_at, in_pool.
  replace (0 <=? i) with true by (symmetry; apply Z.leb_le; lia).
  by replace (i <? drop_pool_cap t) with true by (symmetry; apply Z.ltb_lt; lia).
Qed.

(** No chain is longer than the pool. *)
Lemma rep_length t l f x : rep t l f x → (length l ≤ walk_fuel t)%nat.
Proof.
  intros Hr. pose proof (rep_used _ _ _ _ Hr). pose proof (rep_cap _ _ _ _ Hr).
  unfold walk_fuel. rewrite !length_app in *. lia.
Qed.

Lemma sub_length (xs l : list Z) : NoDup xs → (∀ i, i ∈ xs → i ∈ l) → (length xs ≤ length l)%nat.
Proof. intros Hn Hs. apply submseteq_length, NoDup_submseteq; [done|]. by intros i ?%Hs. Qed.

(** ** Lookup *)

Lemma find_loop_spec t p xs s fuel :
  hchain (drop_heads t) s xs → (length xs ≤ fuel)%nat →
  (∀ i, i ∈ xs → rec_at t i = Some (get_rec t i)) →
  find_loop fuel t (rd_slot (drop_heads t) s) p =
  Some (List.find (λ i, same_key (cidr (get_rec t i)) p) xs).
Proof.
  revert s fuel. induction xs as [|i xs IH]; intros s fuel Hc Hl Hr; cbn [hchain] in Hc.
  - rewrite Hc. by destruct fuel.
  - destruct Hc as (-> & _ & Hc). destruct fuel as [|fuel]; simpl in Hl; [lia|].
    cbn [find_loop List.find]. rewrite Hr by set_solver. cbn [mbind option_bind].
    destruct (same_key _ p); [done|]. apply (IH (SNode i)); [done|lia|]. set_solver.
Qed.

Lemma find_unique (P : Z → bool) xs r :
  List.find P xs = r →
  match r with Some i => i ∈ xs ∧ P i = true | None => ∀ i, i ∈ xs → P i = false end.
Proof.
  intros <-. destruct (List.find P xs) eqn:E.
  - apply List.find_some in E as [? ?]. split; [by apply list_elem_of_In|done].
  - intros i Hi%list_elem_of_In. by eapply List.find_none in E.
Qed.

Lemma drops_find_spec t l f x p :
  rep t l f x → cidr_ok p → cidr_canon p →
  ∃ o, drops_find p t = Some (o, t) ∧
    match o with
    | Some i => i ∈ l ∧ cidr (get_rec t i) = p
    | None => ∀ i, i ∈ l → cidr (get_rec t i) ≠ p
    end.
Proof.
  intros Hr Hp Hc. unfold drops_find.
  destruct (rep_bucket _ _ _ _ Hr _ (drop_hash_range _ _ _ _ p Hr)) as (xs & [Hnd Hch] & Hin).
  assert (∀ i, i ∈ xs → i ∈ l) as Hsub by (intros i Hi; by apply Hin in Hi as [? _]).
  rewrite (find_loop_spec t p xs (SHead (drop_hash t p))); [|done| |].
  - eexists. split; [done|].
    pose proof (find_unique (λ i, same_key (cidr (get_rec t i)) p) xs _ eq_refl) as Hf.
    destruct (List.find _ xs) as [i|].
    + destruct Hf as [Hi Hk]. split; [by apply Hsub|].
      destruct (rep_ok _ _ _ _ Hr i (Hsub i Hi)). by apply same_key_eq in Hk.
    + intros i Hi E. destruct (rep_ok _ _ _ _ Hr i Hi).
      assert (i ∈ xs) as Hx by (apply Hin; by rewrite E).
      specialize (Hf i Hx). cbv beta in Hf. rewrite E in Hf.
      assert (same_key p p = true) by (by apply same_key_eq). congruence.
  - pose proof (rep_length _ _ _ _ Hr). pose proof (sub_length xs l Hnd Hsub). lia.
  - intros i Hi. eapply rec_at_in; [done|]. rewrite !elem_of_app. left. by apply Hsub.
Qed.

(** ** Frames *)

(** The nodes of one list are not nodes of the other. *)
Lemma nodes_disjoint (h1 h2 : loc) (l f : list Z) :
  h1 ≠ h2 → (∀ i, h1 ≠ L_rec i) → (∀ i, h2 ≠ L_rec i) → (∀ i, i ∈ l → i ∉ f) →
  ∀ a, a ∈ h1 :: (L_rec <$> l) → a ∉ h2 :: (L_rec <$> f).
Proof.
  intros Hne H1 H2 Hd a Ha Hb. rewrite elem_of_cons, list_elem_of_fmap in Ha, Hb.
  destruct Ha as [->|(i & -> & Hi)], Hb as [Hb|(j & Hb & Hj)]; try congruence;
    try (by eapply H1); try (by eapply H2). simplify_eq. by eapply Hd.
Qed.

Lemma rep_disjoint t l f x : rep t l f x → ∀ i, i ∈ l → i ∉ f.
Proof.
  intros Hr i Hl Hf. pose proof (rep_nodup _ _ _ _ Hr) as Hn.
  apply NoDup_app in Hn as (_ & Hn & _). apply (Hn i Hl). apply elem_of_app. by left.
Qed.

(** Rearranging which list a record is on keeps the pool facts. *)
Lemma pool_perm t l f x s :
  rep t l f x → Permutation (l ++ f ++ x) s →
  NoDup s ∧ Z.of_nat (length s) = drop_used t ∧ (∀ i, i ∈ s → 0 ≤ i < drop_used t).
Proof.
  intros Hr Hp. split_and!.
  - rewrite <-Hp. apply Hr.
  - rewrite <-Hp. apply Hr.
  - intros i. rewrite <-Hp. apply Hr.
Qed.

Lemma fresh_node h (l : list Z) r : (∀ i, h ≠ L_rec i) → r ∉ l → L_rec r ∉ h :: (L_rec <$> l).
Proof.
  intros Hh Hr Hin. apply elem_of_cons in Hin as [E|Hin]; [by eapply Hh|].
  apply list_elem_of_fmap in Hin as (j & [= ->] & ?). done.
Qed.

(** ** Allocation and return *)

Lemma drop_alloc_spec t l f :
  rep t l f [] →
  ∃ o t', drop_alloc t = Some (o, t') ∧
    match o with
    | Some r => ∃ f', rep t' l f' [r] ∧ drop_pool t' = drop_pool t
                ∧ drop_pool_cap t' = drop_pool_cap t
    | None => t' = t ∧ Z.of_nat (length l) = drop_pool_cap t
    end.
Proof.
  intros Hr. unfold drop_alloc. rewrite (dlist_empty _ _ _ (rep_free _ _ _ _ Hr)).
  destruct f as [|i f]; cbn [fmap list_fmap].
  - rewrite bool_decide_eq_true_2 by done. cbn [negb].
    pose proof (rep_cap _ _ _ _ Hr) as Hcap. pose proof (rep_used _ _ _ _ Hr) as Hu.
    destruct (drop_used t <? drop_pool_cap t) eqn:E; breflect.
    + eexists _, _. split; [done|]. exists []. split; [|done].
      assert (u32 (drop_used t + 1) = drop_used t + 1) as E1.
      { unfold u32. apply Z.mod_small. lia. }
      assert (drop_used t ∉ l) as Hnew.
      { intros Hin. assert (drop_used t ∈ l ++ [] ++ []) as Hin' by (apply elem_of_app; by left).
        pose proof (rep_range _ _ _ _ Hr _ Hin'). lia. }
      pose proof (rep_nodup _ _ _ _ Hr) as Hnd. rewrite !app_nil_r in *.
      destruct Hr. split; cbn; try done.
      * apply NoDup_app. split_and!; [done| |apply NoDup_singleton].
        intros a Ha ->%list_elem_of_singleton. done.
      * rewrite E1, length_app. simpl. lia.
      * intros a. rewrite E1, elem_of_app, list_elem_of_singleton. intros [Ha| ->]; [|lia].
        specialize (rep_range0 a). rewrite app_nil_r in rep_range0.
        specialize (rep_range0 Ha). lia.
      * rewrite E1. lia.
    + eexists _, _. split; [done|]. split; [done|]. rewrite !app_nil_r in Hu. lia.
  - rewrite bool_decide_eq_false_2 by done. cbn [negb]. unfold node_next.
    rewrite (dlist_first _ _ _ (rep_free _ _ _ _ Hr)). cbn.
    destruct (dlist_del (drop_nodes t) L_free [] (L_rec i) (L_rec <$> f)) as (h' & -> & Hd & Hfr).
    { apply (rep_free _ _ _ _ Hr). }
    cbn. eexists _, _. split; [done|]. exists f. split; [|done].
    assert (∀ a, a ∈ L_all :: (L_rec <$> l) → a ∉ L_free :: (L_rec <$> i :: f)) as Hdis.
    { apply nodes_disjoint; [done..|]. by eapply rep_disjoint. }
    destruct (pool_perm t l (i :: f) [] (l ++ f ++ [i]) Hr) as (Hp1 & Hp2 & Hp3).
    { rewrite app_nil_r. by rewrite (Permutation_app_comm f [i]). }
    destruct Hr. split; cbn; try done.
    eapply dlist_frame; [|done]. intros a Ha. apply Hfr. by apply Hdis.
Qed.

Lemma drop_give_back_spec t l f r :
  rep t l f [r] →
  ∃ t', drop_give_back r t = Some (tt, t') ∧ rep t' l (f ++ [r]) []
    ∧ drop_pool t' = drop_pool t ∧ drop_pool_cap t' = drop_pool_cap t.
Proof.
  intros Hr. unfold drop_give_back, on_nodes.
  pose proof (rep_nodup _ _ _ _ Hr) as Hnd.
  assert ((r ∉ f) ∧ r ∉ l) as [Hrf Hrl].
  { apply NoDup_app in Hnd as (_ & Hnd & Hnd'). apply NoDup_app in Hnd' as (_ & Hnd' & _).
    split; intros Hin; [apply (Hnd' r Hin)|apply (Hnd r Hin)]; set_solver. }
  destruct (dlist_add_tail (drop_nodes t) L_free (L_rec <$> f) (L_rec r))
    as (h' & -> & Hd & Hfr).
  { apply Hr. }
  { by apply fresh_node. }
  cbn. eexists. split; [done|]. split; [|done].
  destruct (pool_perm t l f [r] (l ++ (f ++ [r]) ++ []) Hr) as (Hp1 & Hp2 & Hp3).
  { by rewrite app_nil_r. }
  assert (∀ a, a ∈ L_all :: (L_rec <$> l) → a ∉ L_rec r :: L_free :: (L_rec <$> f)) as Hdis.
  { intros a Ha Hin. apply elem_of_cons in Hin as [->|Hin].
    - by apply (fresh_node L_all l r).
    - revert Hin. by apply (nodes_disjoint L_all L_free l f); [..|eapply rep_disjoint|]. }
  destruct Hr. split; cbn; try done.
  - eapply dlist_frame; [|done]. intros a Ha. apply Hfr. by apply Hdis.
  - rewrite fmap_app. done.
Qed.

(** ** Linking a new record *)

Lemma in_pool_true t l f x i : rep t l f x → i ∈ l ++ f ++ x → in_pool t i = true.
Proof.
  intros Hr Hi. pose proof (rec_at_in _ _ _ _ _ Hr Hi) as E. unfold rec_at in E.
  by destruct (in_pool t i).
Qed.

(** Adding [r] to its bucket. *)
Lemma link_buckets t l f r p rc :
  rep t l f [r] → r ∉ l → cidr rc = p →
  let t1 := set_pool t (<[r := rc]> (drop_pool t)) in
  let hm := vg_hlist_add_head (drop_heads t) r (drop_hash t p) in
  ∀ b, 0 ≤ b < drop_nbuckets t →
    ∃ xs, bucket hm b xs ∧
      ∀ i, i ∈ xs ↔ i ∈ l ++ [r] ∧ drop_hash t (cidr (get_rec t1 i)) = b.
Proof.
  intros Hr Hrl Hrc t1 hm b Hb.
  assert (∀ i, get_rec t1 i = if decide (r = i) then rc else get_rec t i) as Hg.
  { intros i. unfold get_rec, t1. simpl. rewrite lookup_insert. by case_decide. }
  destruct (rep_bucket _ _ _ _ Hr _ (drop_hash_range _ _ _ _ p Hr)) as (xp & Hbp & Hip).
  destruct (bucket_add_head (drop_heads t) (drop_hash t p) xp r Hbp) as [Hnew Hout].
  { intros Hin. by apply Hip in Hin as [? _]. }
  fold hm in Hnew, Hout.
  destruct (decide (b = drop_hash t p)) as [->|Hne].
  - exists (r :: xp). split; [done|]. intros i.
    rewrite elem_of_cons, elem_of_app, list_elem_of_singleton, Hg, Hip.
    case_decide as Hd; [subst; naive_solver|naive_solver].
  - destruct (rep_bucket _ _ _ _ Hr _ Hb) as (xs & Hbs & His). exists xs. split.
    + eapply bucket_frame; [done|done| |done]. intros n Hn Hin.
      apply His in Hn as [Hnl Hh]. apply elem_of_cons in Hin as [->|Hin]; [done|].
      apply Hip in Hin as [_ ?]. congruence.
    + intros i. rewrite elem_of_app, list_elem_of_singleton, Hg, His.
      case_decide as Hd; [subst|naive_solver]. split; [naive_solver|]. intros [_ ?]. congruence.
Qed.

Lemma drop_link_spec t l f r p rs now exp :
  rep t l f [r] → cidr_ok p → cidr_canon p → (∀ i, i ∈ l → cidr (get_rec t i) ≠ p) →
  ∃ t', drop_link r p rs now exp t = Some (tt, t') ∧ rep t' (l ++ [r]) f []
    ∧ drop_pool_cap t' = drop_pool_cap t
    ∧ ∀ i, get_rec t' i = if decide (r = i) then DropRec p rs now exp else get_rec t i.
Proof.
  intros Hr Hp Hc Hnew. set (rc := DropRec p rs now exp).
  pose proof (rep_nodup _ _ _ _ Hr) as Hnd.
  assert ((r ∉ f) ∧ r ∉ l) as [Hrf Hrl].
  { apply NoDup_app in Hnd as (_ & Hnd & Hnd'). apply NoDup_app in Hnd' as (_ & Hnd' & _).
    split; intros Hin; [apply (Hnd' r Hin)|apply (Hnd r Hin)]; set_solver. }
  set (t1 := set_pool t (<[r := rc]> (drop_pool t))).
  pose proof (link_buckets t l f r p rc Hr Hrl eq_refl) as Hbk. cbv zeta in Hbk. fold t1 in Hbk.
  destruct (dlist_add_tail (drop_nodes t) L_all (L_rec <$> l) (L_rec r))
    as (h' & Eh & Hd & Hfr); [apply Hr|by apply fresh_node|].
  exists (set_count (set_nodes (set_heads t1
            (vg_hlist_add_head (drop_heads t) r (drop_hash t p))) h') (drop_count t + 1)).
  assert (∀ i, get_rec t1 i = if decide (r = i) then rc else get_rec t i) as Hg.
  { intros i. unfold get_rec, t1. simpl. rewrite lookup_insert. by case_decide. }
  split; [|split; [|done]].
  - unfold drop_link. rewrite (mbind_step _ _ t tt t1).
    2:{ unfold put_rec. by erewrite in_pool_true by (done || set_solver). }
    rewrite (mbind_step _ _ t1 (drop_hash t p) t1) by done.
    rewrite (mbind_step _ _ t1 tt (set_heads t1
      (vg_hlist_add_head (drop_heads t) r (drop_hash t p)))) by done.
    rewrite (mbind_step _ _ _ tt (set_nodes (set_heads t1
      (vg_hlist_add_head (drop_heads t) r (drop_hash t p))) h')); [done|]. unfold on_nodes.
    change (drop_nodes (set_heads t1 _)) with (drop_nodes t). rewrite Eh. done.
  - destruct (pool_perm t l f [r] ((l ++ [r]) ++ f ++ []) Hr) as (Hp1 & Hp2 & Hp3).
    { rewrite app_nil_r, <-app_assoc. by rewrite (Permutation_app_comm f [r]). }
    assert (∀ a, a ∈ L_free :: (L_rec <$> f) → a ∉ L_rec r :: L_all :: (L_rec <$> l)) as Hdis.
    { intros a Ha Hin. apply elem_of_cons in Hin as [->|Hin].
      - by apply (fresh_node L_free f r).
      - revert Ha. by apply (nodes_disjoint L_all L_free l f); [..|eapply rep_disjoint|]. }
    assert (∀ i, i ∈ l → get_rec t1 i = get_rec t i) as Hgl.
    { intros i Hi. rewrite Hg, decide_False; [done|]. by intros ->. }
    assert (get_rec t1 r = rc) as Hgr by (by rewrite Hg, decide_True).
    assert (∀ i, i ∈ l ++ [r] → i ∈ l ∨ i = r) as Hcase.
    { intros i. by rewrite elem_of_app, list_elem_of_singleton. }
    destruct Hr. split; try done.
    + by rewrite fmap_app.
    + eapply dlist_frame; [|done]. intros a Ha. apply Hfr. by apply Hdis.
    + cbn. rewrite length_app. simpl. lia.
    + intros i [Hi| ->]%Hcase; change (get_rec _ ?j) with (get_rec t1 j);
        [rewrite Hgl by done; by apply rep_ok0|by rewrite Hgr].
    + intros i j [Hi| ->]%Hcase [Hj| ->]%Hcase; change (get_rec _ ?j) with (get_rec t1 j);
        rewrite ?Hgr, ?Hgl by done; [by apply rep_uniq0|..|done]; intros E; exfalso.
      * by apply (Hnew i).
      * by apply (Hnew j).
Qed.

(** ** Unlinking a record *)

(** Removing [r] from its bucket. *)
Lemma unlink_buckets t l1 l2 f r :
  rep t (l1 ++ r :: l2) f [] →
  ∃ hm, vg_hlist_del (drop_heads t) r = Some hm ∧
  ∀ b, 0 ≤ b < drop_nbuckets t →
    ∃ xs, bucket hm b xs ∧
      ∀ i, i ∈ xs ↔ i ∈ l1 ++ l2 ∧ drop_hash t (cidr (get_rec t i)) = b.
Proof.
  intros Hr. set (p := cidr (get_rec t r)).
  destruct (rep_bucket _ _ _ _ Hr _ (drop_hash_range _ _ _ _ p Hr)) as (xp & Hbp & Hip).
  assert (r ∈ xp) as Hin by (apply Hip; set_solver).
  apply list_elem_of_split in Hin as (x1 & x2 & ->).
  destruct (bucket_del _ _ _ _ _ Hbp) as (hm & Ed & Hdel & Hout).
  exists hm. split; [done|]. intros b Hb.
  assert (r ∉ l1 ++ l2) as Hrl.
  { pose proof (rep_nodup _ _ _ _ Hr) as Hnd. apply NoDup_app in Hnd as (Hnd & _ & _).
    apply NoDup_app in Hnd as (_ & Hd & Hnd). apply NoDup_cons in Hnd as [Hnd _].
    rewrite elem_of_app. intros [Hin|Hin]; [|done]. apply (Hd r Hin). set_solver. }
  assert (∀ i, i ∈ l1 ++ l2 ↔ i ∈ l1 ++ r :: l2 ∧ i ≠ r) as Hl.
  { intros i. rewrite !elem_of_app, elem_of_cons in *. naive_solver. }
  destruct (decide (b = drop_hash t p)) as [->|Hne].
  - exists (x1 ++ x2). split; [done|]. intros i.
    assert (r ∉ x1 ++ x2) as Hrx.
    { destruct Hbp as [Hnd _]. apply NoDup_app in Hnd as (_ & Hd & Hnd).
      apply NoDup_cons in Hnd as [Hnd _]. rewrite elem_of_app. intros [Hin|Hin]; [|done].
      apply (Hd r Hin). set_solver. }
    rewrite Hl. specialize (Hip i).
    assert (i ∈ x1 ++ x2 ↔ i ∈ x1 ++ r :: x2 ∧ i ≠ r) as ->; [|tauto].
    rewrite elem_of_app in Hrx. rewrite !elem_of_app, elem_of_cons. split; [|tauto].
    intros Hi. split; [tauto|]. intros ->. tauto.
  - destruct (rep_bucket _ _ _ _ Hr _ Hb) as (xs & Hbs & His). exists xs. split.
    + eapply bucket_frame; [done|done| |done]. intros n Hn Hin.
      apply His in Hn as [_ Hh]. apply Hip in Hin as [_ ?]. congruence.
    + intros i. rewrite His, Hl. split; [|tauto]. intros [Hi <-].
      split; [split; [done|]|done]. intros ->. done.
Qed.

Lemma drop_unlink_spec t l1 r l2 f :
  rep t (l1 ++ r :: l2) f [] →
  ∃ t', drop_unlink r t = Some (tt, t') ∧ rep t' (l1 ++ l2) (f ++ [r]) []
    ∧ drop_pool t' = drop_pool t ∧ drop_pool_cap t' = drop_pool_cap t.
Proof.
  intros Hr. destruct (unlink_buckets _ _ _ _ _ Hr) as (hm & Eh & Hbk).
  pose proof (rep_disjoint _ _ _ _ Hr) as Hdis.
  destruct (dlist_del (drop_nodes t) L_all (L_rec <$> l1) (L_rec r) (L_rec <$> l2))
    as (h1 & E1 & Hd1 & Hf1).
  { pose proof (rep_all _ _ _ _ Hr) as Ha. by rewrite fmap_app in Ha. }
  assert (dlist h1 L_free (L_rec <$> f)) as Hfree.
  { eapply dlist_frame; [|apply (rep_free _ _ _ _ Hr)]. intros a Ha. apply Hf1.
    change (L_all :: (L_rec <$> l1) ++ L_rec r :: (L_rec <$> l2))
      with (L_all :: (L_rec <$> l1) ++ (L_rec <$> r :: l2)).
    rewrite <-fmap_app. apply (nodes_disjoint L_free L_all f (l1 ++ r :: l2)); try done.
    intros i Hi Hi'. by apply (Hdis i). }
  assert (r ∉ f) as Hrf by (apply Hdis; set_solver).
  assert (r ∉ l1 ++ l2) as Hrl.
  { destruct Hd1 as [Hnd _]. pose proof (rep_nodup _ _ _ _ Hr) as Hn.
    apply NoDup_app in Hn as (Hn & _ & _). apply NoDup_app in Hn as (_ & Hd & Hn).
    apply NoDup_cons in Hn as [Hn _]. rewrite elem_of_app. intros [Hin|Hin]; [|done].
    apply (Hd r Hin). set_solver. }
  destruct (dlist_add_tail h1 L_free (L_rec <$> f) (L_rec r)) as (h2 & E2 & Hd2 & Hf2);
    [done|by apply fresh_node|].
  exists (set_count (set_nodes (set_heads t hm) h2) (drop_count t - 1)).
  split; [|split; [|done]].
  - unfold drop_unlink.
    rewrite (mbind_step _ _ t tt (set_heads t hm)) by (unfold on_heads; by rewrite Eh).
    rewrite (mbind_step _ _ _ tt (set_nodes (set_heads t hm) h1)) by
      (unfold on_nodes; cbn; by rewrite E1).
    rewrite (mbind_step _ _ _ tt (set_nodes (set_heads t hm) h2)); [done|].
    unfold on_nodes. cbn. by rewrite E2.
  - destruct (pool_perm t (l1 ++ r :: l2) f [] ((l1 ++ l2) ++ (f ++ [r]) ++ []) Hr)
      as (Hp1 & Hp2 & Hp3).
    { rewrite !app_nil_r, <-!app_assoc. apply Permutation_app_head. cbn.
      rewrite (Permutation_app_comm l2 (f ++ [r])), <-app_assoc.
      rewrite (Permutation_app_comm l2 f). apply Permutation_middle. }
    destruct Hr. split; cbn; try done.
    + rewrite fmap_app. eapply dlist_frame; [|done]. rewrite <-fmap_app.
      intros a Ha. apply Hf2. intros Hin. apply elem_of_cons in Hin as [->|Hin].
      { by apply (fresh_node L_all (l1 ++ l2) r). }
      revert Hin. apply (nodes_disjoint L_all L_free (l1 ++ l2) f); try done.
      intros i Hi. apply Hdis. set_solver.
    + by rewrite fmap_app.
    + rewrite rep_count0, !length_app. simpl. lia.
    + intros i Hi. apply rep_ok0. set_solver.
    + intros i j Hi Hj. apply rep_uniq0; set_solver.
Qed.

(** ** Reset and initialisation *)

Lemma empty_rep t :
  dlist (drop_nodes t) L_all [] → dlist (drop_nodes t) L_free [] → drop_used t = 0 →
  0 ≤ drop_pool_cap t < 2 ^ 32 → drop_count t = 0 →
  (∃ k, 0 ≤ k < 32 ∧ drop_nbuckets t = 2 ^ k) → first (drop_heads t) = ∅ → rep t [] [] [].
Proof.
  intros Ha Hf Hu Hcap Hc Hnb Hh. split; try done.
  - constructor.
  - intros i Hi. by apply elem_of_nil in Hi.
  - rewrite Hu. lia.
  - intros b _. exists []. split; [split; [constructor|]|].
    + simpl. rewrite Hh. apply lookup_empty.
    + intros i. split; [by intros ?%elem_of_nil|by intros [?%elem_of_nil _]].
  - by intros i ?%elem_of_nil.
  - by intros i j ?%elem_of_nil.
Qed.

Lemma init_both h :
  dlist (vg_list_init (vg_list_init h L_free) L_all) L_all [] ∧
  dlist (vg_list_init (vg_list_init h L_free) L_all) L_free [].
Proof.
  destruct (dlist_init (vg_list_init h L_free) L_all) as [H1 H2].
  destruct (dlist_init h L_free) as [H3 _]. split; [done|].
  eapply dlist_frame; [|done]. intros a Ha. apply H2. apply list_elem_of_singleton in Ha. by subst.
Qed.

Lemma drops_reset_spec t l f :
  rep t l f [] →
  ∃ t', drops_reset t = Some (tt, t') ∧ rep t' [] [] []
    ∧ drop_pool t' = drop_pool t ∧ drop_pool_cap t' = drop_pool_cap t.
Proof.
  intros Hr. unfold drops_reset. eexists. split; [done|]. split; [|done].
  destruct (init_both (drop_nodes t)) as [H1 H2].
  apply empty_rep; cbn; try done; [|apply (rep_nb _ _ _ _ Hr)].
  pose proof (rep_cap _ _ _ _ Hr). pose proof (rep_used _ _ _ _ Hr). lia.
Qed.

Lemma nbuckets_loop_spec fuel k cap :
  0 ≤ k ≤ 31 → 0 ≤ cap ≤ 2 ^ 31 → 31 - k ≤ Z.of_nat fuel →
  ∃ k', k ≤ k' ≤ 31 ∧ nbuckets_loop fuel (2 ^ k) cap = Some (2 ^ k') ∧ cap ≤ 2 ^ k'.
Proof.
  revert k. induction fuel as [|fuel IH]; intros k Hk Hc Hf; cbn [nbuckets_loop];
    destruct (2 ^ k <? cap) eqn:E; breflect.
  - assert (k = 31) as -> by lia. lia.
  - exists k. split_and!; [lia..|done|done].
  - assert (k < 31).
    { apply Z.nle_gt. intros ?. assert (k = 31) as -> by lia. lia. }
    destruct (IH (k + 1)) as (k' & Hk' & E' & Hle); [lia..|].
    exists k'. split_and!; [lia..| |done]. rewrite <-E'. f_equal. unfold u32.
    rewrite Z.shiftl_mul_pow2, Z.pow_add_r by lia. apply Z.mod_small.
    rewrite <-Z.pow_add_r by lia. split; [lia|]. apply Z.pow_lt_mono_r; lia.
  - exists k. split_and!; [lia..|done|done].
Qed.

Lemma drops_init_spec size :
  0 ≤ size ≤ 2 ^ 30 →
  ∃ t, drops_init size = Some t ∧ rep t [] [] [] ∧
    drop_pool_cap t = 2 * (if size =? 0 then VG_DROP_MAP_MAX else size) ∧
    drop_pool_cap t ≤ drop_nbuckets t.
Proof.
  intros Hs. unfold drops_init, drop_pool_cap_of.
  set (n := if size =? 0 then VG_DROP_MAP_MAX else size).
  assert (0 ≤ n ≤ 2 ^ 30) as Hn by (unfold n; destruct (size =? 0); [done|lia]).
  assert (u32 (2 * n) = 2 * n) as E by (unfold u32; apply Z.mod_small; lia).
  rewrite E. destruct (nbuckets_loop_spec 32 10 (2 * n)) as (k & Hk & Ek & Hle); [lia..|].
  change (2 ^ 10) with 1024 in Ek. rewrite Ek. cbn [mbind option_bind].
  eexists. split; [done|]. split; [|cbn; lia].
  destruct (init_both ∅) as [H1 H2]. apply empty_rep; cbn; try done; [lia|].
  exists k. split; [lia|done].
Qed.

(** ** Walks *)

(** Where a walk that has still to visit [ys] stands. *)
Definition walk_pos (ys : list Z) : loc := default L_all (hd_error (L_rec <$> ys)).

Lemma rep_next t l f x : rep t l f x → node_next t L_all = Some (walk_pos l).
Proof. intros Hr. apply (dlist_first _ _ _ (rep_all _ _ _ _ Hr)). Qed.

Lemma rep_step t xs i ys f x :
  rep t (xs ++ i :: ys) f x →
  node_next t (L_rec i) = Some (walk_pos ys) ∧
  prev (lget (drop_nodes t) (walk_pos ys)) = Some (L_rec i).
Proof.
  intros Hr. pose proof (rep_all _ _ _ _ Hr) as Ha. rewrite fmap_app in Ha. split.
  - by apply (dlist_next _ _ (L_rec <$> xs)).
  - by apply (dlist_next_prev _ _ (L_rec <$> xs)).
Qed.

Lemma all_loop_spec t xs ys f x fuel :
  rep t (xs ++ ys) f x → (length ys ≤ fuel)%nat → all_loop fuel t (walk_pos ys) = Some ys.
Proof.
  revert xs fuel. induction ys as [|i ys IH]; intros xs fuel Hr Hf.
  - by destruct fuel.
  - destruct fuel as [|fuel]; simpl in Hf; [lia|].
    destruct (rep_step _ _ _ _ _ _ Hr) as [Hn _]. cbn. rewrite Hn. cbn.
    rewrite (IH (xs ++ [i])); [done| |lia]. by rewrite <-app_assoc.
Qed.

Lemma drop_all_walk_spec t l f x : rep t l f x → drop_all_walk t = Some l.
Proof.
  intros Hr. unfold drop_all_walk. rewrite (rep_next _ _ _ _ Hr). cbn.
  apply (all_loop_spec t [] l f x); [done|]. by eapply rep_length.
Qed.

(** ** The self-check *)

Lemma check_all_spec t xs ys f fuel :
  rep t (xs ++ ys) f [] → (length ys ≤ fuel)%nat →
  check_all fuel t (walk_pos ys) (Z.of_nat (length xs)) =
  Some (Some (Z.of_nat (length (xs ++ ys)))).
Proof.
  revert xs fuel. induction ys as [|i ys IH]; intros xs fuel Hr Hf.
  - rewrite app_nil_r. by destruct fuel.
  - destruct fuel as [|fuel]; simpl in Hf; [lia|].
    destruct (rep_step _ _ _ _ _ _ Hr) as [Hn Hp].
    change (walk_pos (i :: ys)) with (L_rec i). cbn [check_all list_entry].
    rewrite bool_decide_eq_false_2 by done. cbn [mbind option_bind]. rewrite Hn.
    cbn [mbind option_bind]. rewrite Hp, bool_decide_eq_true_2 by done. cbn [negb].
    assert (i ∈ (xs ++ i :: ys) ++ f ++ []) as Hin by set_solver.
    assert (i ∈ xs ++ i :: ys) as Hin' by set_solver.
    pose proof (rep_range _ _ _ _ Hr i Hin) as Hrg.
    replace (i <? 0) with false by (symmetry; apply Z.ltb_ge; lia).
    replace (drop_used t <=? i) with false by (symmetry; apply Z.leb_gt; lia). cbn [orb].
    rewrite (rec_at_in _ _ _ _ _ Hr Hin). cbn [mbind option_bind].
    destruct (rep_ok _ _ _ _ Hr i Hin') as [Hok Hca].
    destruct (drops_find_spec _ _ _ _ _ Hr Hok Hca) as (o & -> & Ho). cbn [mbind option_bind fst].
    destruct o as [j|]; [|exfalso; by apply (Ho i)]. destruct Ho as [Hj Ej].
    apply (rep_uniq _ _ _ _ Hr) in Ej as ->; [|done..].
    rewrite bool_decide_eq_true_2 by done. cbn [negb].
    pose proof (rep_count _ _ _ _ Hr) as Hc. rewrite length_app in Hc. simpl in Hc.
    replace (drop_count t <? Z.of_nat (length xs) + 1) with false
      by (symmetry; apply Z.ltb_ge; lia).
    specialize (IH (xs ++ [i]) fuel). rewrite <-app_assoc in IH. cbn [app] in IH.
    rewrite <-IH; [|done|lia]. f_equal. rewrite length_app. simpl. lia.
Qed.

Lemma check_chain_spec t l f b pp xs hashed fuel :
  rep t l f [] → hchain (drop_heads t) pp xs → (length xs ≤ fuel)%nat →
  (∀ i, i ∈ xs → i ∈ l ∧ drop_hash t (cidr (get_rec t i)) = b) →
  hashed + Z.of_nat (length xs) ≤ drop_count t →
  check_chain fuel t b pp (rd_slot (drop_heads t) pp) hashed =
  Some (Some (hashed + Z.of_nat (length xs))).
Proof.
  intros Hr. revert pp hashed fuel.
  induction xs as [|i xs IH]; intros pp hashed fuel Hc Hf Hin Hle; cbn [hchain] in Hc.
  - rewrite Hc. destruct fuel; simpl; by rewrite Z.add_0_r.
  - destruct Hc as (-> & Hpp & Hc). destruct fuel as [|fuel]; simpl in Hf; [lia|].
    destruct (Hin i) as [Hi Hh]; [set_solver|]. cbn [check_chain].
    rewrite (rec_at_in _ _ _ _ _ Hr) by set_solver. cbn [mbind option_bind].
    rewrite Hpp, bool_decide_eq_true_2 by done. rewrite Hh, Z.eqb_refl. cbn [negb].
    cbn [length] in Hle. replace (drop_count t <? hashed + 1) with false
      by (symmetry; apply Z.ltb_ge; lia).
    change (hnext (drop_heads t) !! i) with (rd_slot (drop_heads t) (SNode i : slot Z Z)).
    rewrite IH; [do 2 f_equal; simpl; lia|done|lia|set_solver|lia].
Qed.

(** Records that hash below a bound, and into one bucket. *)
Definition below (H : Z → Z) (b : Z) (l : list Z) : list Z := filter (λ i, H i < b) l.

Lemma below_succ H b l :
  (length (below H (b + 1) l) =
   length (below H b l) + length (filter (λ i, H i = b) l))%nat.
Proof.
  unfold below. induction l as [|i l IH]; [done|]. rewrite !filter_cons.
  repeat case_decide; simpl; lia.
Qed.

Lemma below_le H b l : (length (below H b l) ≤ length l)%nat.
Proof. apply length_filter. Qed.

Lemma bucket_length t l f b xs :
  rep t l f [] → NoDup xs →
  (∀ i, i ∈ xs ↔ i ∈ l ∧ drop_hash t (cidr (get_rec t i)) = b) →
  length xs = length (filter (λ i, drop_hash t (cidr (get_rec t i)) = b) l).
Proof.
  intros Hr Hnd Hin. apply Permutation_length, NoDup_Permutation; [done| |].
  - apply NoDup_filter. pose proof (rep_nodup _ _ _ _ Hr) as Hn. by apply NoDup_app in Hn as [? _].
  - intros i. rewrite Hin, list_elem_of_filter. tauto.
Qed.

Lemma check_buckets_spec t l f n b :
  rep t l f [] → 0 ≤ b → b + Z.of_nat n = drop_nbuckets t →
  check_buckets n (walk_fuel t) t b
    (Z.of_nat (length (below (λ i, drop_hash t (cidr (get_rec t i))) b l)))
  = Some (Some (drop_count t)).
Proof.
  intros Hr. revert b. induction n as [|n IH]; intros b Hb Hn; cbn [check_buckets].
  - do 2 f_equal. rewrite (rep_count _ _ _ _ Hr). f_equal. unfold below.
    assert (∀ l', filter (λ i, drop_hash t (cidr (get_rec t i)) < b) l' = l') as ->; [|done].
    induction l' as [|i l' IHl]; [done|]. rewrite filter_cons, IHl, decide_True; [done|].
    pose proof (drop_hash_range _ _ _ _ (cidr (get_rec t i)) Hr). lia.
  - destruct (rep_bucket _ _ _ _ Hr b) as (xs & [Hnd Hc] & Hin); [lia|].
    pose proof (bucket_length _ _ _ _ _ Hr Hnd Hin) as Hlen.
    set (H := λ i, drop_hash t (cidr (get_rec t i))) in *.
    pose proof (below_succ H b l) as Hs. pose proof (below_le H (b + 1) l) as Hle.
    change (first (drop_heads t) !! b) with (rd_slot (drop_heads t) (SHead b : slot Z Z)).
    rewrite (check_chain_spec t l f b (SHead b) xs _ _ Hr Hc).
    + cbn [mbind option_bind]. rewrite <-(IH (b + 1)) by lia. f_equal. unfold H in *. lia.
    + pose proof (rep_length _ _ _ _ Hr). unfold H in *. lia.
    + intros i. apply Hin.
    + rewrite (rep_count _ _ _ _ Hr). unfold H in *. lia.
Qed.

Lemma drops_check_ok t l f : rep t l f [] → vg_ctrl_drops_check t = Some 0.
Proof.
  intros Hr. unfold vg_ctrl_drops_check. rewrite (rep_next _ _ _ _ Hr). cbn [mbind option_bind].
  pose proof (check_all_spec t [] l f (walk_fuel t) Hr) as Hall. cbn [app length] in Hall.
  change (Z.of_nat 0) with 0 in Hall.
  rewrite Hall by (by eapply rep_length). cbn [mbind option_bind].
  pose proof (check_buckets_spec t l f (Z.to_nat (drop_nbuckets t)) 0 Hr) as Hb.
  destruct (rep_nb _ _ _ _ Hr) as (k & Hk & Ek).
  assert (below (λ i, drop_hash t (cidr (get_rec t i))) 0 l = []) as E.
  { unfold below. destruct (filter _ l) as [|i l'] eqn:E; [done|]. exfalso.
    assert (i ∈ filter (λ i, drop_hash t (cidr (get_rec t i)) < 0) l) as Hin
      by (rewrite E; set_solver).
    apply list_elem_of_filter in Hin as [Hlt _].
    pose proof (drop_hash_range _ _ _ _ (cidr (get_rec t i)) Hr). lia. }
  rewrite E in Hb. cbn [length] in Hb. change (Z.of_nat 0) with 0 in Hb. rewrite Hb by lia. cbn [mbind option_bind].
  rewrite (rep_count _ _ _ _ Hr), Z.eqb_refl. done.
Qed.

(** ** Rewriting a listed record *)

Lemma put_rec_spec t l f i r :
  rep t l f [] → i ∈ l → cidr r = cidr (get_rec t i) →
  ∃ t', put_rec i r t = Some (tt, t') ∧ rep t' l f [] ∧ drop_pool_cap t' = drop_pool_cap t
    ∧ ∀ j, get_rec t' j = if decide (i = j) then r else get_rec t j.
Proof.
  intros Hr Hi Hc. unfold put_rec. rewrite (in_pool_true t l f [] i) by (done || set_solver).
  eexists. split; [done|].
  set (t' := set_pool t _).
  assert (∀ j, get_rec t' j = if decide (i = j) then r else get_rec t j) as Hg.
  { intros j. unfold get_rec, t'. simpl. rewrite lookup_insert. by case_decide. }
  assert (∀ j, cidr (get_rec t' j) = cidr (get_rec t j)) as Hcg.
  { intros j. rewrite Hg. case_decide; [by subst|done]. }
  split_and!; [|done|done]. destruct Hr. split; try done.
  - intros b Hb. destruct (rep_bucket0 b Hb) as (xs & Hx & Hin). exists xs. split; [done|].
    intros j. rewrite Hcg. apply Hin.
  - intros j Hj. rewrite Hcg. by apply rep_ok0.
  - intros j k Hj Hk. rewrite !Hcg. by apply rep_uniq0.
Qed.

(** What happens to the list of records. *)
Lemma listed_same t t' l :
  (∀ i, i ∈ l → get_rec t' i = get_rec t i) → listed t' l = listed t l.
Proof. intros H. unfold listed. apply list_fmap_ext. intros k i Hi%list_elem_of_lookup_2. auto. Qed.

Lemma listed_pool t t' l : drop_pool t' = drop_pool t → listed t' l = listed t l.
Proof. intros H. apply listed_same. intros. unfold get_rec. by rewrite H. Qed.

Lemma listed_insert t t' l k i r :
  NoDup l → l !! k = Some i → (∀ j, get_rec t' j = if decide (i = j) then r else get_rec t j) →
  listed t' l = <[k := r]> (listed t l).
Proof.
  intros Hnd Hk Hg. apply list_eq. intros n. unfold listed.
  destruct (decide (n = k)) as [->|Hne].
  - rewrite list_lookup_insert_eq by (rewrite length_fmap; by eapply lookup_lt_Some).
    rewrite list_lookup_fmap, Hk. simpl. by rewrite Hg, decide_True.
  - rewrite list_lookup_insert_ne by done. rewrite !list_lookup_fmap.
    destruct (l !! n) as [j|] eqn:Ej; [|done]. simpl. rewrite Hg, decide_False; [done|].
    intros ->. apply Hne. by eapply NoDup_lookup.
Qed.
