(* ===== verification/TableMain.v ===== *)
(** * The drop index: an abstract list and a simulation

    To its callers the index of policy.c is a bounded list of records, oldest
    first, with one record per prefix.  [spec_run] is that list; [idx_run]
    composes the operations of [DropTable] the way [drop_add],
    [vg_ctrl_undrop] and [vg_ctrl_disarm] do, without the kernel calls in
    between.  The simulation is over arbitrary sequences of operations. *)

From S2P Require Import Prelude Types Ipaddr IpaddrThms Lists Maps MapsThms DropTable DropThms.
Import Dlist Hlist.
Open Scope Z_scope.

Inductive idx_op :=
  | OFind (p : vg_cidr)
  | OAdd (p : vg_cidr) (rs now exp : Z)
  | ODel (p : vg_cidr)
  | OReset.

(** The prefix an operation is about. *)
Definition op_ok (o : idx_op) : Prop :=
  match o with OFind p | OAdd p _ _ _ | ODel p => prefix_ok p | OReset => True end.

Inductive idx_res := RRec (r : option vg_drop_rec) | RAdded | RPresent | RFull | RDone.

(** ** Concrete *)

Definition idx_run (o : idx_op) : M drop_tab idx_res :=
  match o with
  | OFind p => r ← drops_find p; t ← gets id; mret (RRec (get_rec t <$> r))
  | OAdd p rs now exp =>
      r ← drops_find p;
      match r with
      | Some _ => mret RPresent
      | None =>
          a ← drop_alloc;
          match a with
          | None => mret RFull
          | Some r => _ ← drop_link r p rs now exp; mret RAdded
          end
      end
  | ODel p =>
      r ← drops_find p;
      match r with
      | Some r => _ ← drop_unlink r; mret RDone
      | None => mret RDone
      end
  | OReset => _ ← drops_reset; mret RDone
  end.

Fixpoint idx_runs (os : list idx_op) : M drop_tab (list idx_res) :=
  match os with
  | [] => mret []
  | o :: os => r ← idx_run o; rs ← idx_runs os; mret (r :: rs)
  end.

(** ** Abstract *)

Definition spec_find (p : vg_cidr) (L : list vg_drop_rec) : option vg_drop_rec :=
  List.find (λ r, bool_decide (cidr r = p)) L.

Definition spec_run (cap : Z) (o : idx_op) (L : list vg_drop_rec) : idx_res * list vg_drop_rec :=
  match o with
  | OFind p => (RRec (spec_find p L), L)
  | OAdd p rs now exp =>
      match spec_find p L with
      | Some _ => (RPresent, L)
      | None => if Z.of_nat (length L) <? cap then (RAdded, L ++ [DropRec p rs now exp])
                else (RFull, L)
      end
  | ODel p => (RDone, filter (λ r, cidr r ≠ p) L)
  | OReset => (RDone, [])
  end.

Fixpoint spec_runs (cap : Z) (os : list idx_op) (L : list vg_drop_rec)
  : list idx_res * list vg_drop_rec :=
  match os with
  | [] => ([], L)
  | o :: os =>
      let '(r, L1) := spec_run cap o L in
      let '(rs, L2) := spec_runs cap os L1 in (r :: rs, L2)
  end.

(** ** Simulation *)

Definition sim (cap : Z) (t : drop_tab) (L : list vg_drop_rec) : Prop :=
  ∃ l f, rep t l f [] ∧ L = listed t l ∧ drop_pool_cap t = cap.

Lemma spec_find_some t l f i p :
  rep t l f [] → i ∈ l → cidr (get_rec t i) = p → spec_find p (listed t l) = Some (get_rec t i).
Proof.
  intros Hr Hi Hp. unfold spec_find. destruct (List.find _ _) as [r|] eqn:E.
  - apply List.find_some in E as [Hin Hb]. apply bool_decide_eq_true in Hb.
    apply list_elem_of_In, list_elem_of_fmap in Hin as (j & -> & Hj). f_equal.
    f_equal. eapply (rep_uniq _ _ _ _ Hr); [done..|congruence].
  - exfalso. eapply List.find_none in E; [by rewrite bool_decide_eq_true_2 in E|].
    apply list_elem_of_In, list_elem_of_fmap. by exists i.
Qed.

Lemma spec_find_none t l p :
  (∀ i, i ∈ l → cidr (get_rec t i) ≠ p) → spec_find p (listed t l) = None.
Proof.
  intros Hn. unfold spec_find. destruct (List.find _ _) as [r|] eqn:E; [|done].
  apply List.find_some in E as [Hin Hb]. apply bool_decide_eq_true in Hb.
  apply list_elem_of_In, list_elem_of_fmap in Hin as (j & -> & Hj). by destruct (Hn j Hj).
Qed.

Lemma filter_other t (l : list Z) p :
  (∀ i, i ∈ l → cidr (get_rec t i) ≠ p) →
  filter (λ r, cidr r ≠ p) (listed t l) = listed t l.
Proof.
  induction l as [|i l IH]; intros Hn; [done|]. cbn [listed fmap list_fmap].
  rewrite filter_cons, decide_True by (apply Hn; set_solver). f_equal. apply IH. set_solver.
Qed.

Lemma idx_add_sim cap t L p rs now exp :
  sim cap t L → prefix_ok p → 
  ∃ t', idx_run (OAdd p rs now exp) t = Some ((spec_run cap (OAdd p rs now exp) L).1, t')
    ∧ sim cap t' (spec_run cap (OAdd p rs now exp) L).2.
Proof.
  intros (l & f & Hr & -> & Hcap) [Hok Hcan]. cbn [idx_run spec_run].
  destruct (drops_find_spec _ _ _ _ p Hr Hok Hcan) as (o & E & Ho).
  rewrite (mbind_step _ _ _ _ _ E). destruct o as [i|].
  { destruct Ho as [Hi Hp]. rewrite (spec_find_some t l f i p) by done.
    exists t. split; [done|]. by exists l, f. }
  rewrite spec_find_none by done.
  destruct (drop_alloc_spec _ _ _ Hr) as (a & t1 & Ea & Ha). rewrite (mbind_step _ _ _ _ _ Ea).
  assert (length (listed t l) = length l) as Hlen by (unfold listed; by rewrite length_fmap).
  rewrite Hlen. destruct a as [r|].
  2:{ destruct Ha as [-> Ha]. rewrite Ha, Hcap, Z.ltb_irrefl. exists t. split; [done|]. by exists l, f. }
  destruct Ha as (f' & Hr1 & Hpool & Hcap1).
  assert (∀ i, get_rec t1 i = get_rec t i) as Hg by (intros i; unfold get_rec; by rewrite Hpool).
  replace (Z.of_nat (length l) <? cap) with true.
  2:{ symmetry. apply Z.ltb_lt. pose proof (rep_used _ _ _ _ Hr1) as Hu.
      pose proof (rep_cap _ _ _ _ Hr1). rewrite !length_app in Hu. simpl in Hu. lia. }
  destruct (drop_link_spec t1 l f' r p rs now exp Hr1 Hok Hcan) as (t2 & E2 & Hr2 & Hc2 & Hg2).
  { intros i Hi. rewrite Hg. by apply Ho. }
  rewrite (mbind_step _ _ _ _ _ E2). exists t2. split; [done|].
  exists (l ++ [r]), f'. split_and!; [done| |congruence].
  unfold listed. rewrite fmap_app. cbn [snd]. f_equal; [|simpl; by rewrite Hg2, decide_True].
  symmetry. apply listed_same. intros i Hi. rewrite Hg2, decide_False, Hg; [done|].
  intros ->. pose proof (rep_nodup _ _ _ _ Hr1) as Hnd. apply NoDup_app in Hnd as (_ & Hnd & _).
  apply (Hnd i Hi). set_solver.
Qed.

Lemma idx_del_sim cap t L p :
  sim cap t L → prefix_ok p → 
  ∃ t', idx_run (ODel p) t = Some (RDone, t') ∧ sim cap t' (filter (λ r, cidr r ≠ p) L).
Proof.
  intros (l & f & Hr & -> & Hcap) [Hok Hcan]. cbn [idx_run].
  destruct (drops_find_spec _ _ _ _ p Hr Hok Hcan) as (o & E & Ho).
  rewrite (mbind_step _ _ _ _ _ E). destruct o as [i|].
  2:{ rewrite filter_other by done. exists t. split; [done|]. by exists l, f. }
  destruct Ho as [Hi Hp]. pose proof Hi as (l1 & l2 & ->)%list_elem_of_split.
  destruct (drop_unlink_spec _ _ _ _ _ Hr) as (t' & E' & Hr' & Hpool & Hcap').
  rewrite (mbind_step _ _ _ _ _ E'). exists t'. split; [done|].
  exists (l1 ++ l2), (f ++ [i]). split_and!; [done| |congruence].
  rewrite (listed_pool t t') by done. unfold listed. rewrite !fmap_app. cbn [fmap list_fmap].
  assert (∀ j, j ∈ l1 ++ l2 → cidr (get_rec t j) ≠ p) as Hoth.
  { intros j Hj Ej. assert (j = i) as ->.
    { apply (rep_uniq _ _ _ _ Hr); [|done|congruence].
      apply elem_of_app in Hj as [Hj|Hj]; apply elem_of_app; [by left|right; by apply elem_of_cons; right]. }
    pose proof (rep_nodup _ _ _ _ Hr) as Hnd. apply NoDup_app in Hnd as (Hnd & _).
    apply NoDup_app in Hnd as (_ & H1 & [H2 _]%NoDup_cons).
    apply elem_of_app in Hj as [Hj|Hj]; [|done]. apply (H1 i Hj). by apply elem_of_cons; left. }
  rewrite filter_app, filter_cons, decide_False by (by intros []).
  pose proof (filter_other t l1 p) as H1. pose proof (filter_other t l2 p) as H2. unfold listed in *.
  rewrite H1, H2; [done|intros; apply Hoth; set_solver..].
Qed.

Lemma idx_run_sim cap t L o :
  sim cap t L → op_ok o →
  ∃ t', idx_run o t = Some ((spec_run cap o L).1, t') ∧ sim cap t' (spec_run cap o L).2.
Proof.
  intros Hs Ho. destruct o as [p|p rs now exp|p|].
  - destruct Hs as (l & f & Hr & -> & Hcap). destruct Ho as [Hok Hcan]. cbn [idx_run spec_run].
    destruct (drops_find_spec _ _ _ _ p Hr Hok Hcan) as (o & E & Ho).
    rewrite (mbind_step _ _ _ _ _ E). exists t. split; [|by exists l, f].
    cbn [fst]. destruct o as [i|].
    + destruct Ho as [Hi Hp]. by rewrite (spec_find_some t l f i).
    + by rewrite spec_find_none.
  - by apply idx_add_sim.
  - by apply idx_del_sim.
  - destruct Hs as (l & f & Hr & -> & Hcap). cbn [idx_run spec_run fst snd].
    destruct (drops_reset_spec _ _ _ Hr) as (t' & E & Hr' & _ & Hc). rewrite (mbind_step _ _ _ _ _ E).
    exists t'. split; [done|]. exists [], []. split_and!; [done|done|congruence].
Qed.

Lemma idx_runs_sim cap os t L :
  sim cap t L → Forall op_ok os →
  ∃ t', idx_runs os t = Some ((spec_runs cap os L).1, t') ∧ sim cap t' (spec_runs cap os L).2.
Proof.
  intros Hs Hos. revert t L Hs. induction Hos as [|o os Ho Hos IH]; intros t L Hs; cbn [idx_runs spec_runs].
  { by exists t. }
  destruct (idx_run_sim cap t L o Hs Ho) as (t1 & E1 & Hs1). rewrite (mbind_step _ _ _ _ _ E1).
  destruct (spec_run cap o L) as [r L1]. cbn [fst snd] in *.
  destruct (IH t1 L1 Hs1) as (t2 & E2 & Hs2). rewrite (mbind_step _ _ _ _ _ E2).
  destruct (spec_runs cap os L1) as [rs L2]. by exists t2.
Qed.

(** C14: the drop index implements a bounded list with one record per prefix.
    From the tables [vg_ctrl_init] sets up, every sequence of lookups,
    insertions, removals and resets runs without a bad access, answers what
    the list answers, leaves the records of the list in [drop_all] in its
    order, and passes [vg_ctrl_drops_check]. *)
Theorem drop_index_refines size os :
  0 ≤ size ≤ 2 ^ 30 → Forall op_ok os →
  let cap := 2 * (if size =? 0 then VG_DROP_MAP_MAX else size) in
  ∃ t t' l, drops_init size = Some t
    ∧ idx_runs os t = Some ((spec_runs cap os []).1, t')
    ∧ drop_all_walk t' = Some l ∧ get_rec t' <$> l = (spec_runs cap os []).2
    ∧ drop_count t' = Z.of_nat (length l)
    ∧ vg_ctrl_drops_check t' = Some 0.
Proof.
  intros Hs Hos cap. destruct (drops_init_spec size Hs) as (t & Et & Hr & Hc & _).
  destruct (idx_runs_sim cap os t []) as (t' & E & l & f & Hr' & HL & _); [by exists [], []|done|].
  exists t, t', l. split_and!; [done|done|by eapply drop_all_walk_spec|done| |by eapply drops_check_ok].
  apply (rep_count _ _ _ _ Hr').
Qed.

(** The buckets doubled [n] times, below the top bit. *)
Lemma nbuckets_zero fuel cap : 0 < cap → nbuckets_loop fuel 0 cap = None.
Proof.
  intros Hc. induction fuel as [|fuel IH]; cbn [nbuckets_loop];
    (replace (0 <? cap) with true by (symmetry; by apply Z.ltb_lt)); [done|exact IH].
Qed.

Lemma nbuckets_stuck k fuel cap :
  0 ≤ k ≤ 31 → 2 ^ 31 < cap → nbuckets_loop fuel (2 ^ k) cap = None.
Proof.
  intros Hk Hc. remember (Z.to_nat (31 - k)) as n eqn:En. revert k Hk En fuel.
  induction n as [|n IH]; intros k Hk En fuel.
  - assert (k = 31) as -> by lia. destruct fuel as [|fuel]; cbn [nbuckets_loop];
      (replace (2 ^ 31 <? cap) with true by (symmetry; by apply Z.ltb_lt)); [done|].
    change (u32 (Z.shiftl (2 ^ 31) 1)) with 0. apply nbuckets_zero. lia.
  - assert (2 ^ k < cap) as Hlt.
    { assert (2 ^ k ≤ 2 ^ 31) by (apply Z.pow_le_mono_r; lia). lia. }
    destruct fuel as [|fuel]; cbn [nbuckets_loop];
      (replace (2 ^ k <? cap) with true by (symmetry; by apply Z.ltb_lt)); [done|].
    replace (u32 (Z.shiftl (2 ^ k) 1)) with (2 ^ (k + 1)); [apply IH; lia|].
    unfold u32. rewrite Z.shiftl_mul_pow2, <-Z.pow_add_r by lia. symmetry. apply Z.mod_small.
    split; [lia|]. apply Z.pow_lt_mono_r; lia.
Qed.

(** C40: the bucket loop of [vg_ctrl_init] does not end for a
    [drop_map_size] between 2^30 and 2^31, however long it runs: the shift
    wraps to 0, which stays below the capacity. *)
Theorem drop_buckets_diverge size :
  2 ^ 30 < size < 2 ^ 31 → ∀ fuel, nbuckets_loop fuel 1024 (drop_pool_cap_of size) = None.
Proof.
  intros Hs fuel. change 1024 with (2 ^ 10). apply nbuckets_stuck; [lia|].
  unfold drop_pool_cap_of. replace (size =? 0) with false by (symmetry; apply Z.eqb_neq; lia).
  unfold u32. rewrite Z.mod_small; lia.
Qed.
