(* ===== verification/Snap.v ===== *)
(** * policy.c: rate snapshots of remote addresses

    A pool of entries on singly linked chains: one per hash bucket, and the
    free chain.  Pointers are pool indices. *)

From S2P Require Import Prelude Types Ipaddr.
Open Scope Z_scope.

Definition VG_SNAP_BUCKETS : Z := 4096.

(** [struct vg_snap_ent] *)
Record vg_snap_ent := SnapEnt {
  se_family : Z; se_addr : list Z; se_pkts : Z; se_bytes : Z; se_gen : Z;
  se_next : option Z;
}.

Definition zero_ent : vg_snap_ent := SnapEnt 0 (replicate 16 0) 0 0 0 None.

(** The fields of [struct vg_ctrl] named [snap*]. *)
Record snap_tab := SnapTab {
  snap_pool : gmap Z vg_snap_ent;
  snap_free : option Z;
  snaps : gmap Z Z;         (* NULL is absent *)
  snap_cap : Z;
  snap_gen : Z;
}.

Definition sget (t : snap_tab) (i : Z) : vg_snap_ent := default zero_ent (snap_pool t !! i).
Definition sput (t : snap_tab) (i : Z) (e : vg_snap_ent) : snap_tab :=
  SnapTab (<[i := e]> (snap_pool t)) (snap_free t) (snaps t) (snap_cap t) (snap_gen t).
Definition set_sfree (t : snap_tab) (v : option Z) : snap_tab :=
  SnapTab (snap_pool t) v (snaps t) (snap_cap t) (snap_gen t).
Definition set_shead (t : snap_tab) (b : Z) (v : option Z) : snap_tab :=
  SnapTab (snap_pool t) (snap_free t) (partial_alter (λ _, v) b (snaps t)) (snap_cap t)
    (snap_gen t).
Definition set_sgen (t : snap_tab) (v : Z) : snap_tab :=
  SnapTab (snap_pool t) (snap_free t) (snaps t) (snap_cap t) v.

Definition with_gen (e : vg_snap_ent) (g : Z) : vg_snap_ent :=
  SnapEnt (se_family e) (se_addr e) (se_pkts e) (se_bytes e) g (se_next e).
Definition with_next (e : vg_snap_ent) (n : option Z) : vg_snap_ent :=
  SnapEnt (se_family e) (se_addr e) (se_pkts e) (se_bytes e) (se_gen e) n.
Definition with_counts (e : vg_snap_ent) (p b : Z) : vg_snap_ent :=
  SnapEnt (se_family e) (se_addr e) p b (se_gen e) (se_next e).

Definition snap_step (h x : Z) : Z := u32 (Z.lxor h x * 16777619).

Definition snap_hash (fam : Z) (a : list Z) : Z :=
  fold_left snap_step (take (addr_bytes fam) a) (u32 (fam * 16777619)) mod VG_SNAP_BUCKETS.

(** The second loop of [snap_reset_pool]. *)
Fixpoint reset_loop (n : nat) (i : Z) (t : snap_tab) : snap_tab :=
  match n with
  | O => t
  | S n =>
      let e := with_next (with_gen (sget t i) 0)
                 (if i + 1 <? snap_cap t then Some (i + 1) else None) in
      reset_loop n (i + 1) (sput t i e)
  end.

Definition snap_reset_pool (t : snap_tab) : snap_tab :=
  let t := SnapTab (snap_pool t) None ∅ (snap_cap t) (snap_gen t) in
  if snap_cap t =? 0 then t
  else set_sfree (reset_loop (Z.to_nat (snap_cap t)) 0 t) (Some 0).

Definition snap_clear (t : snap_tab) : snap_tab := snap_reset_pool t.

(** What the [link] of [snap_prune] points at. *)
Inductive slink := LBucket (b : Z) | LNext (i : Z).

Definition rd_link (t : snap_tab) (l : slink) : option Z :=
  match l with LBucket b => snaps t !! b | LNext i => se_next (sget t i) end.
Definition wr_link (t : snap_tab) (l : slink) (v : option Z) : snap_tab :=
  match l with
  | LBucket b => set_shead t b v
  | LNext i => sput t i (with_next (sget t i) v)
  end.

(** The [while] of [snap_prune]. *)
Fixpoint prune_loop (fuel : nat) (link : slink) (t : snap_tab) : option snap_tab :=
  match rd_link t link with
  | None => Some t
  | Some e =>
      match fuel with
      | O => None
      | S fuel =>
          if negb (se_gen (sget t e) =? snap_gen t) then
            let t := wr_link t link (se_next (sget t e)) in
            let t := sput t e (with_next (with_gen (sget t e) 0) (snap_free t)) in
            prune_loop fuel link (set_sfree t (Some e))
          else prune_loop fuel (LNext e) t
      end
  end.

(** The [for] of [snap_prune] from bucket [b]. *)
Fixpoint prune_buckets (n : nat) (b : Z) (t : snap_tab) : option snap_tab :=
  match n with
  | O => Some t
  | S n => t ← prune_loop (Z.to_nat (snap_cap t)) (LBucket b) t; prune_buckets n (b + 1) t
  end.

Definition snap_prune (t : snap_tab) : option snap_tab :=
  prune_buckets (Z.to_nat VG_SNAP_BUCKETS) 0 t.

(** The key test of [snap_get]. *)
Definition snap_match (e : vg_snap_ent) (fam : Z) (a : list Z) : bool :=
  (se_family e =? fam) && mem_eq (addr_bytes fam) (se_addr e) a.

Fixpoint snap_find (fuel : nat) (t : snap_tab) (n : option Z) (fam : Z) (a : list Z)
  : option (option Z) :=
  match n with
  | None => Some None
  | Some i =>
      match fuel with
      | O => None
      | S fuel =>
          if snap_match (sget t i) fam a then Some (Some i)
          else snap_find fuel t (se_next (sget t i)) fam a
      end
  end.

(** The entry and whether it was created; [None] when the pool is empty. *)
Definition snap_get (fam : Z) (a : list Z) : M snap_tab (option (Z * bool)) := λ t,
  let h := snap_hash fam a in
  r ← snap_find (Z.to_nat (snap_cap t)) t (snaps t !! h) fam a;
  match r with
  | Some i => Some (Some (i, false), sput t i (with_gen (sget t i) (snap_gen t)))
  | None =>
      match snap_free t with
      | None => Some (None, t)
      | Some i =>
          let e := sget t i in
          let t := set_sfree t (se_next e) in
          let n := addr_bytes fam in
          let e := SnapEnt fam (take n a ++ drop n (se_addr e)) 0 0 (snap_gen t) (snaps t !! h) in
          Some (Some (i, true), set_shead (sput t i e) h (Some i))
      end
  end.

(** [s->in_pkts = cur->in_pkts; s->in_bytes = cur->in_bytes] *)
Definition snap_store (i : Z) (c : host_counters) (t : snap_tab) : snap_tab :=
  sput t i (with_counts (sget t i) (in_pkts c) (in_bytes c)).

(** The snapshot part of [vg_ctrl_init]: the capacity is a [uint32_t]. *)
Definition snap_init (remote_map_size : Z) : snap_tab :=
  snap_reset_pool (SnapTab ∅ None ∅
    (if remote_map_size =? 0 then VG_REMOTE_MAP_MAX * 2 else u32 (remote_map_size * 2)) 0).

(** [vg_ctrl_snap_count]: entries on the chains. *)
Fixpoint chain_count (fuel : nat) (t : snap_tab) (n : option Z) : option Z :=
  match n with
  | None => Some 0
  | Some i => match fuel with
              | O => None
              | S fuel => k ← chain_count fuel t (se_next (sget t i)); Some (k + 1)
              end
  end.

Fixpoint count_buckets (n : nat) (b : Z) (t : snap_tab) : option Z :=
  match n with
  | O => Some 0
  | S n =>
      k ← chain_count (Z.to_nat (snap_cap t)) t (snaps t !! b);
      r ← count_buckets n (b + 1) t; Some (k + r)
  end.

Definition vg_ctrl_snap_count (t : snap_tab) : option Z :=
  count_buckets (Z.to_nat VG_SNAP_BUCKETS) 0 t.
