(* ===== verification/SnapThms.v ===== *)
(** * Rate snapshots: chains, lookup and pruning

    [srep t bk fr] says that bucket [b] of [t] chains the entries [bk b] and
    the free chain is [fr]; the operations are proved against it. *)

From S2P Require Import Prelude Types Ipaddr IpaddrThms Snap.
Open Scope Z_scope.

(** The chain that starts with pointer [o] visits [xs]. *)
Fixpoint schain (nx : Z → option Z) (o : option Z) (xs : list Z) : Prop :=
  match xs with
  | [] => o = None
  | x :: xs' => o = Some x ∧ schain nx (nx x) xs'
  end.

Definition snx (t : snap_tab) (i : Z) : option Z := se_next (sget t i).

(** An entry holds the address [a] of family [fam]. *)
Definition holds (t : snap_tab) (i fam : Z) (a : list Z) : Prop :=
  snap_match (sget t i) fam a = true.

Record srep (t : snap_tab) (bk : Z → list Z) (fr : list Z) : Prop := {
  s_bk : ∀ b, schain (snx t) (snaps t !! b) (bk b);
  s_fr : schain (snx t) (snap_free t) fr;
  s_nd : ∀ b, NoDup (bk b);
  s_ndf : NoDup fr;
  s_dis : ∀ b i, i ∈ bk b → i ∉ fr;
  s_rng : ∀ b i, i ∈ bk b → 0 ≤ i < snap_cap t;
  s_rngf : ∀ i, i ∈ fr → 0 ≤ i < snap_cap t;
  s_hash : ∀ b i, i ∈ bk b → snap_hash (se_family (sget t i)) (se_addr (sget t i)) = b;
  s_uniq : ∀ b i j fam a, i ∈ bk b → j ∈ bk b → holds t i fam a → holds t j fam a → i = j;
}.

Lemma schain_ext nx nx' o xs :
  (∀ i, i ∈ xs → nx' i = nx i) → schain nx o xs → schain nx' o xs.
Proof.
  revert o. induction xs as [|x xs IH]; intros o Hx; simpl; [done|].
  intros [-> Hc]. split; [done|]. rewrite Hx by set_solver. apply IH; [|done]. set_solver.
Qed.

(** Distinct pool indices are at most [snap_cap] many. *)
Lemma range_length (xs : list Z) n :
  NoDup xs → (∀ i, i ∈ xs → 0 ≤ i < n) → (length xs ≤ Z.to_nat n)%nat.
Proof.
  intros Hnd Hr. rewrite <-(length_seq (Z.to_nat n) 0), <-(length_fmap Z.of_nat (seq 0 (Z.to_nat n))).
  apply submseteq_length, NoDup_submseteq; [done|]. intros i Hi. specialize (Hr i Hi).
  apply list_elem_of_fmap. exists (Z.to_nat i). split; [lia|]. apply elem_of_seq. lia.
Qed.

Lemma srep_length t bk fr b : srep t bk fr → (length (bk b) ≤ Z.to_nat (snap_cap t))%nat.
Proof. intros Hs. apply range_length; [apply Hs|]. intros i. apply Hs. Qed.

Lemma sget_sput t i e j : sget (sput t i e) j = if decide (i = j) then e else sget t j.
Proof. unfold sget, sput. simpl. rewrite lookup_insert. by case_decide. Qed.

Lemma sget_shead t b v j : sget (set_shead t b v) j = sget t j.
Proof. done. Qed.

Lemma snaps_set t b v b' :
  snaps (set_shead t b v) !! b' = if decide (b = b') then v else snaps t !! b'.
Proof. unfold set_shead. simpl. rewrite lookup_partial_alter. by case_decide. Qed.

(** The key test compares what the hash reads. *)
Lemma snap_match_spec e fam a :
  snap_match e fam a = true ↔
  se_family e = fam ∧ take (addr_bytes fam) (se_addr e) = take (addr_bytes fam) a.
Proof.
  unfold snap_match, mem_eq. rewrite andb_true_iff, Z.eqb_eq, bool_decide_eq_true. done.
Qed.

Lemma match_hash e fam a :
  snap_match e fam a = true → snap_hash (se_family e) (se_addr e) = snap_hash fam a.
Proof. intros [-> E]%snap_match_spec. unfold snap_hash. by rewrite E. Qed.

Lemma snap_find_spec t o xs fam a fuel :
  schain (snx t) o xs → (length xs ≤ fuel)%nat →
  snap_find fuel t o fam a = Some (List.find (λ i, snap_match (sget t i) fam a) xs).
Proof.
  revert o fuel. induction xs as [|x xs IH]; intros o fuel Hc Hl; simpl in Hc.
  - subst. by destruct fuel.
  - destruct Hc as [-> Hc]. destruct fuel as [|fuel]; simpl in Hl; [lia|]. simpl.
    destruct (snap_match (sget t x) fam a); [done|]. apply IH; [done|lia].
Qed.

(** Writing the counters or the generation of an entry moves nothing. *)
Lemma srep_touch t bk fr i e :
  srep t bk fr → se_next e = se_next (sget t i) → se_family e = se_family (sget t i) →
  se_addr e = se_addr (sget t i) → srep (sput t i e) bk fr.
Proof.
  intros Hs Hn Hf Ha.
  assert (∀ j, se_next (sget (sput t i e) j) = se_next (sget t j)
    ∧ se_family (sget (sput t i e) j) = se_family (sget t j)
    ∧ se_addr (sget (sput t i e) j) = se_addr (sget t j)) as Heq.
  { intros j. rewrite sget_sput. case_decide; [by subst|done]. }
  destruct Hs. split; try done.
  - intros b. eapply schain_ext; [|done]. intros j _. apply Heq.
  - eapply schain_ext; [|done]. intros j _. apply Heq.
  - intros b j Hj. destruct (Heq j) as (_ & -> & ->). by apply s_hash0.
  - intros b j k fam a Hj Hk. unfold holds. rewrite !snap_match_spec.
    destruct (Heq j) as (_ & -> & ->), (Heq k) as (_ & -> & ->).
    rewrite <-!snap_match_spec. by apply (s_uniq0 b).
Qed.

Lemma srep_gen t bk fr g : srep t bk fr → srep (set_sgen t g) bk fr.
Proof. intros []. by split. Qed.

(** ** Lookup *)

(** Bucket [h] with [i] in front. *)
Definition bucket_add (bk : Z → list Z) (h i : Z) : Z → list Z :=
  λ b, if decide (h = b) then i :: bk b else bk b.

Lemma snap_create t bk i fr fam a :
  srep t bk (i :: fr) → (∀ j, j ∈ bk (snap_hash fam a) → ¬ holds t j fam a) →
  (addr_bytes fam ≤ length a)%nat →
  srep (set_shead (sput (set_sfree t (se_next (sget t i))) i
          (SnapEnt fam (take (addr_bytes fam) a ++ drop (addr_bytes fam) (se_addr (sget t i))) 0 0
             (snap_gen t) (snaps t !! snap_hash fam a))) (snap_hash fam a) (Some i))
    (bucket_add bk (snap_hash fam a) i) fr.
Proof.
  intros Hs Hnew Hla. set (h := snap_hash fam a). set (e := SnapEnt _ _ _ _ _ _).
  set (t' := set_shead _ _ _).
  assert (∀ j, sget t' j = if decide (i = j) then e else sget t j) as Hg.
  { intros j. apply (sget_sput (set_sfree t (se_next (sget t i)))). }
  pose proof (s_fr _ _ _ Hs) as [Hf0 Hfr]. pose proof (s_ndf _ _ _ Hs) as [Hif Hnf]%NoDup_cons.
  assert (∀ b, i ∉ bk b) as Hib.
  { intros b Hin. apply (s_dis _ _ _ Hs b i Hin). set_solver. }
  assert (snap_match e fam a = true) as Hme.
  { apply snap_match_spec. split; [done|]. simpl. rewrite take_app_le, take_take by
      (rewrite length_take; lia). f_equal. lia. }
  assert (∀ b, schain (snx t') (snaps t !! b) (bk b)) as Hch.
  { intros b. eapply schain_ext; [|apply Hs]. intros j Hj. unfold snx. rewrite Hg, decide_False; [done|].
    intros ->. by apply (Hib b). }
  assert (∀ b j, j ∈ bucket_add bk h i b → h = b ∧ j = i ∨ j ∈ bk b ∧ j ≠ i) as Hcase.
  { intros b j. unfold bucket_add. case_decide; [rewrite elem_of_cons|]; intros Hj.
    - destruct Hj as [->|Hj]; [by left|right]. split; [done|]. intros ->. by apply (Hib b).
    - right. split; [done|]. intros ->. by apply (Hib b). }
  split; try done.
  - intros b. unfold bucket_add, t'. rewrite snaps_set. fold t'. case_decide; subst; [|apply Hch].
    split; [done|]. unfold snx at 2. rewrite Hg, decide_True by done. apply Hch.
  - eapply schain_ext; [|exact Hfr]. intros j Hj. unfold snx. rewrite Hg, decide_False; [done|].
    by intros ->.
  - intros b. unfold bucket_add. case_decide; [|apply Hs]. apply NoDup_cons. split; [apply Hib|apply Hs].
  - intros b j [[_ ->]|[Hj _]]%Hcase; [done|]. intros Hin.
    apply (s_dis _ _ _ Hs b j Hj). set_solver.
  - intros b j [[_ ->]|[Hj _]]%Hcase; [apply (s_rngf _ _ _ Hs); set_solver|].
    by apply (s_rng _ _ _ Hs b).
  - intros j Hj. apply (s_rngf _ _ _ Hs). set_solver.
  - intros b j [[<- ->]|[Hj Hne]]%Hcase; rewrite Hg.
    + rewrite decide_True by done. by apply match_hash.
    + rewrite decide_False by done. by apply (s_hash _ _ _ Hs).
  - assert (∀ j fam' a', j ∈ bk h → j ≠ i → snap_match (sget t j) fam' a' = true →
      snap_match e fam' a' = true → False) as Hcl.
    { intros j fam' a' Hj _ [H1 H2]%snap_match_spec [H3 H4]%snap_match_spec.
      apply (Hnew j Hj). apply snap_match_spec. apply snap_match_spec in Hme as [H5 H6].
      simpl in H3, H5. subst fam'. split; [done|]. congruence. }
    intros b j k fam' a' Hj Hk. unfold holds. rewrite !Hg.
    apply Hcase in Hj as [[<- ->]|[Hj Hnj]], Hk as [[Hb ->]|[Hk Hnk]]; try done.
    + rewrite decide_True, decide_False by done. intros H1 H2. exfalso. by eapply Hcl.
    + subst b. rewrite decide_False, decide_True by done. intros H1 H2. exfalso. by eapply Hcl.
    + rewrite !decide_False by done. by apply (s_uniq _ _ _ Hs b).
Qed.

Lemma snap_get_spec t bk fr fam a :
  srep t bk fr → (addr_bytes fam ≤ length a)%nat →
  ∃ r t', snap_get fam a t = Some (r, t') ∧ snap_cap t' = snap_cap t ∧ snap_gen t' = snap_gen t ∧
    match r with
    | Some (i, false) =>
        i ∈ bk (snap_hash fam a) ∧ holds t i fam a ∧ srep t' bk fr
        ∧ t' = sput t i (with_gen (sget t i) (snap_gen t))
    | Some (i, true) =>
        (∀ j, j ∈ bk (snap_hash fam a) → ¬ holds t j fam a) ∧
        ∃ fr', fr = i :: fr' ∧ srep t' (bucket_add bk (snap_hash fam a) i) fr' ∧ holds t' i fam a
               ∧ se_gen (sget t' i) = snap_gen t ∧ ∀ j, j ≠ i → sget t' j = sget t j
    | None => (∀ j, j ∈ bk (snap_hash fam a) → ¬ holds t j fam a) ∧ fr = [] ∧ t' = t
    end.
Proof.
  intros Hs Hla. unfold snap_get. set (h := snap_hash fam a).
  rewrite (snap_find_spec t _ (bk h)); [|apply Hs|by eapply srep_length]. cbn [mbind option_bind].
  destruct (List.find _ (bk h)) as [i|] eqn:Ef.
  - apply List.find_some in Ef as [Hi Hm]. apply list_elem_of_In in Hi.
    eexists _, _. split; [done|]. split_and!; try done. by apply srep_touch.
  - assert (∀ j, j ∈ bk h → ¬ holds t j fam a) as Hnew.
    { intros j Hj%list_elem_of_In Hm. unfold holds in Hm.
      pose proof (List.find_none _ _ Ef j Hj) as Hn. cbv beta in Hn. congruence. }
    pose proof (s_fr _ _ _ Hs) as Hfr. destruct fr as [|i fr]; simpl in Hfr.
    + rewrite Hfr. by eexists _, _.
    + destruct Hfr as [-> _]. eexists _, _. split; [done|]. split_and!; try done.
      exists fr. split; [done|]. split; [exact (snap_create t bk i fr fam a Hs Hnew Hla)|].
      unfold holds. rewrite sget_shead, sget_sput, decide_True by done. split_and!.
      * apply snap_match_spec. split; [done|]. simpl.
        rewrite take_app_le, take_take by (rewrite length_take; lia). f_equal. lia.
      * done.
      * intros j Hj. by rewrite sget_shead, sget_sput, decide_False.
Qed.

(** ** Pruning *)

(** The link that points behind the entries [pre] of bucket [b]. *)
Definition link_of (b : Z) (pre : list Z) : slink :=
  match last pre with None => LBucket b | Some p => LNext p end.

Lemma link_of_snoc b pre p : link_of b (pre ++ [p]) = LNext p.
Proof. unfold link_of. by rewrite last_snoc. Qed.

(** The pointer behind [pre]. *)
Lemma schain_mid nx o pre p xs :
  schain nx o (pre ++ p :: xs) → schain nx (nx p) xs.
Proof.
  revert o. induction pre as [|q pre IH]; intros o; simpl; intros [_ H]; [done|]. by eapply IH.
Qed.

Lemma rd_link_of t bk fr b pre xs :
  srep t bk fr → bk b = pre ++ xs → rd_link t (link_of b pre) = hd_error xs.
Proof.
  intros Hs Hb. pose proof (s_bk _ _ _ Hs b) as Hc. rewrite Hb in Hc.
  destruct pre as [|p pre _] using rev_ind.
  - simpl in *. destruct xs; simpl in *; [done|]. by destruct Hc.
  - rewrite link_of_snoc. rewrite <-app_assoc in Hc. apply schain_mid in Hc. simpl.
    change (snx t p = hd_error xs). destruct xs; simpl in *; [done|]. by destruct Hc.
Qed.

Lemma schain_remove nx nx' o pre p e xs :
  schain nx o (pre ++ p :: e :: xs) → NoDup (pre ++ p :: e :: xs) →
  (∀ j, j ≠ p → j ≠ e → nx' j = nx j) → nx' p = nx e → schain nx' o (pre ++ p :: xs).
Proof.
  revert o. induction pre as [|q pre IH]; intros o Hc Hnd Hj Hp.
  - destruct Hc as (-> & Hc1 & Hc2). split; [done|]. rewrite Hp.
    cbn [app] in Hnd. apply NoDup_cons in Hnd as [H1 Hnd]. apply NoDup_cons in Hnd as [H2 _].
    eapply schain_ext; [|done]. intros j Hjx. apply Hj; intros ->; set_solver.
  - destruct Hc as [-> Hc]. cbn [app] in Hnd. apply NoDup_cons in Hnd as [H1 Hnd].
    split; [done|]. fold (pre ++ p :: xs). rewrite Hj; [by apply IH|..]; intros ->; set_solver.
Qed.

(** Bucket [b] replaced. *)
Definition bucket_set (bk : Z → list Z) (b : Z) (xs : list Z) : Z → list Z :=
  λ b', if decide (b = b') then xs else bk b'.

(** Unlinking [e] and pushing it on the free chain. *)
Definition prune_one (t : snap_tab) (link : slink) (e : Z) : snap_tab :=
  let t1 := wr_link t link (se_next (sget t e)) in
  set_sfree (sput t1 e (with_next (with_gen (sget t1 e) 0) (snap_free t1))) (Some e).

(** Everything of an entry but its link. *)
Definition same_data (e e' : vg_snap_ent) : Prop :=
  se_family e' = se_family e ∧ se_addr e' = se_addr e ∧ se_pkts e' = se_pkts e
  ∧ se_bytes e' = se_bytes e ∧ se_gen e' = se_gen e.

Lemma srep_bucket_eq t bk fr b b' i : srep t bk fr → i ∈ bk b → i ∈ bk b' → b = b'.
Proof. intros Hs H1 H2. apply (s_hash _ _ _ Hs) in H1, H2. congruence. Qed.

Lemma prune_one_reads t bk fr b pre e xs :
  srep t bk fr → bk b = pre ++ e :: xs →
  let t' := prune_one t (link_of b pre) e in
  (∀ j, j ≠ e → same_data (sget t j) (sget t' j)) ∧
  (∀ j, j ≠ e → last pre ≠ Some j → snx t' j = snx t j) ∧
  (∀ p, last pre = Some p → snx t' p = snx t e) ∧
  snx t' e = snap_free t ∧
  (∀ b', (last pre = None ∧ b' = b → snaps t' !! b' = snx t e) ∧
         (last pre ≠ None ∨ b' ≠ b → snaps t' !! b' = snaps t !! b')) ∧
  snap_cap t' = snap_cap t ∧ snap_gen t' = snap_gen t.
Proof.
  intros Hs Hb t'. pose proof (s_nd _ _ _ Hs b) as Hnd. rewrite Hb in Hnd.
  assert (last pre ≠ Some e) as Hne.
  { intros Hl. apply last_Some_elem_of in Hl. apply NoDup_app in Hnd as (_ & Hnd & _).
    apply (Hnd e Hl). set_solver. }
  unfold t', prune_one, link_of, snx. destruct (last pre) as [p|] eqn:El; simpl.
  - assert (p ≠ e) by congruence. split_and!; try done.
    + intros j Hj. unfold same_data, sget. simpl. rewrite lookup_insert_ne by done.
      rewrite lookup_insert. by case_decide; subst.
    + intros j Hj Hp. unfold sget. simpl. rewrite !lookup_insert_ne by congruence. done.
    + intros q [= <-]. unfold sget. simpl. rewrite lookup_insert_ne, lookup_insert_eq by done. done.
    + unfold sget. simpl. by rewrite lookup_insert_eq.
    + intros b'. split; [by intros [? _]|done].
  - split_and!; try done.
    + intros j Hj. unfold same_data, sget. simpl. by rewrite lookup_insert_ne.
    + intros j Hj _. unfold sget. simpl. by rewrite lookup_insert_ne.
    + unfold sget. simpl. by rewrite lookup_insert_eq.
    + intros b'. rewrite lookup_partial_alter. case_decide; naive_solver.
Qed.

Lemma holds_same t t' i fam a :
  same_data (sget t i) (sget t' i) → holds t' i fam a ↔ holds t i fam a.
Proof. intros (H1 & H2 & _). unfold holds. by rewrite !snap_match_spec, H1, H2. Qed.

Lemma prune_step t bk fr b pre e xs :
  srep t bk fr → bk b = pre ++ e :: xs →
  srep (prune_one t (link_of b pre) e) (bucket_set bk b (pre ++ xs)) (e :: fr).
Proof.
  intros Hs Hb. destruct (prune_one_reads t bk fr b pre e xs Hs Hb)
    as (Hdat & Hnx & Hlast & Hne & Hhd & Hcap & Hgen).
  set (t' := prune_one _ _ _) in *.
  pose proof (s_nd _ _ _ Hs b) as Hnd. rewrite Hb in Hnd.
  assert (e ∈ bk b) as Heb by (rewrite Hb; set_solver).
  assert (∀ p, last pre = Some p → p ∈ bk b) as Hpb.
  { intros p Hp%last_Some_elem_of. rewrite Hb. set_solver. }
  assert (NoDup (pre ++ xs) ∧ e ∉ pre ++ xs) as [Hnd' He].
  { apply NoDup_app in Hnd as (H1 & H2 & H3). apply NoDup_cons in H3 as [H3 H4]. split.
    - apply NoDup_app. split_and!; [done| |done]. intros j Hj Hj'. apply (H2 j Hj). set_solver.
    - rewrite elem_of_app. intros [Hp|?]; [|done]. apply (H2 e Hp). set_solver. }
  assert (∀ b' j, j ∈ bucket_set bk b (pre ++ xs) b' → j ∈ bk b' ∧ j ≠ e) as Hsub.
  { intros b' j. unfold bucket_set. case_decide as Hd; [subst b'; intros Hj|intros Hj].
    - split; [rewrite Hb; set_solver|]. by intros ->.
    - split; [done|]. intros ->. by apply Hd, (srep_bucket_eq _ _ _ _ _ e Hs). }
  assert (∀ j, j ∈ fr → j ≠ e ∧ last pre ≠ Some j) as Hfr.
  { intros j Hj. split; [intros ->; by apply (s_dis _ _ _ Hs b e)|].
    intros Hp%Hpb. by apply (s_dis _ _ _ Hs b j). }
  split.
  - intros b'. destruct (Hhd b') as [Hhd1 Hhd2]. unfold bucket_set.
    case_decide as Hd; [subst b'|].
    + pose proof (s_bk _ _ _ Hs b) as Hc. rewrite Hb in Hc.
      destruct pre as [|p pre _] using rev_ind.
      * rewrite Hhd1 by done. simpl in *. destruct Hc as [_ Hc].
        eapply schain_ext; [|done]. intros j Hj. apply Hnx; [|done]. intros ->. done.
      * rewrite last_snoc in *. rewrite Hhd2 by (by left). rewrite <-app_assoc in *. cbn [app] in *.
        eapply schain_remove; [done|done| |by apply Hlast].
        intros j Hjp Hje. apply Hnx; congruence.
    + rewrite Hhd2 by (right; congruence). eapply schain_ext; [|apply Hs]. intros j Hj.
      apply Hnx; [intros ->; by apply Hd, (srep_bucket_eq _ _ _ _ _ e Hs)|].
      intros Hp%Hpb. by apply Hd, (srep_bucket_eq _ _ _ _ _ j Hs).
  - split; [done|]. rewrite Hne. eapply schain_ext; [|apply Hs]. intros j Hj.
    destruct (Hfr j Hj). by apply Hnx.
  - intros b'. unfold bucket_set. case_decide; [done|]. apply Hs.
  - apply NoDup_cons. split; [by apply (s_dis _ _ _ Hs b)|apply Hs].
  - intros b' j [Hj Hj']%Hsub. apply not_elem_of_cons. split; [done|]. by apply (s_dis _ _ _ Hs b').
  - intros b' j [Hj _]%Hsub. rewrite Hcap. by apply (s_rng _ _ _ Hs b').
  - intros j. rewrite Hcap, elem_of_cons. intros [->|Hj]; [by apply (s_rng _ _ _ Hs b)|].
    by apply (s_rngf _ _ _ Hs).
  - intros b' j [Hj Hj']%Hsub. destruct (Hdat j Hj') as (-> & -> & _). by apply (s_hash _ _ _ Hs).
  - intros b' j k fam a [Hj Hj']%Hsub [Hk Hk']%Hsub.
    rewrite (holds_same t t' j), (holds_same t t' k) by auto. by apply (s_uniq _ _ _ Hs b').
Qed.

Lemma srep_ext t bk bk' fr : (∀ b, bk' b = bk b) → srep t bk fr → srep t bk' fr.
Proof.
  intros He []. split; intros *; rewrite ?He; eauto.
Qed.

(** The entry was seen by the current walk. *)
Definition fresh (t : snap_tab) (i : Z) : Prop := se_gen (sget t i) = snap_gen t.
#[export] Instance fresh_dec t i : Decision (fresh t i).
Proof. unfold fresh. apply _. Defined.

Lemma same_data_refl e : same_data e e.
Proof. done. Qed.

Lemma same_data_trans e1 e2 e3 : same_data e1 e2 → same_data e2 e3 → same_data e1 e3.
Proof. unfold same_data. intuition congruence. Qed.

Lemma filter_fresh_ext t t' (xs : list Z) :
  (∀ j, j ∈ xs → same_data (sget t j) (sget t' j)) → snap_gen t' = snap_gen t →
  filter (fresh t') xs = filter (fresh t) xs.
Proof.
  intros Hd Hg. induction xs as [|x xs IH]; [done|].
  destruct (Hd x) as (_ & _ & _ & _ & Hx); [set_solver|].
  assert (fresh t' x ↔ fresh t x) as Hiff by (unfold fresh; by rewrite Hx, Hg).
  rewrite !filter_cons, IH by set_solver. repeat case_decide; tauto.
Qed.

Lemma prune_loop_spec b xs pre t bk fr fuel :
  srep t bk fr → bk b = pre ++ xs → (length xs ≤ fuel)%nat →
  ∃ t' fr', prune_loop fuel (link_of b pre) t = Some t'
    ∧ srep t' (bucket_set bk b (pre ++ filter (fresh t) xs)) fr'
    ∧ snap_cap t' = snap_cap t ∧ snap_gen t' = snap_gen t
    ∧ ∀ j, (j ∈ xs → fresh t j) → same_data (sget t j) (sget t' j).
Proof.
  revert pre t bk fr fuel. induction xs as [|e xs IH]; intros pre t bk fr fuel Hs Hb Hf.
  - exists t, fr. split_and!; try done.
    + pose proof (rd_link_of _ _ _ _ _ _ Hs Hb) as E. cbn in E. by destruct fuel; simpl; rewrite E.
    + eapply srep_ext; [|done]. intros b'. unfold bucket_set. case_decide; [by subst|done].
  - destruct fuel as [|fuel]; simpl in Hf; [lia|]. cbn [prune_loop].
    rewrite (rd_link_of _ _ _ _ _ _ Hs Hb). cbn [hd_error]. rewrite filter_cons.
    destruct (decide (fresh t e)) as [Hfe|Hfe].
    + rewrite Hfe, Z.eqb_refl. cbn [negb].
      destruct (IH (pre ++ [e]) t bk fr fuel Hs) as (t' & fr' & E & Hs' & Hc & Hg & Hd);
        [by rewrite <-app_assoc|lia|].
      rewrite link_of_snoc in E. exists t', fr'. rewrite <-app_assoc in Hs'. split_and!; try done.
      intros j Hj. apply Hd. intros. apply Hj. set_solver.
    + apply Z.eqb_neq in Hfe as Ef. rewrite Ef. cbn [negb].
      change (set_sfree _ (Some e)) with (prune_one t (link_of b pre) e).
      pose proof (prune_step t bk fr b pre e xs Hs Hb) as Hs1.
      destruct (prune_one_reads t bk fr b pre e xs Hs Hb) as (Hdat & _ & _ & _ & _ & Hcap & Hgen).
      set (t1 := prune_one t (link_of b pre) e) in *.
      pose proof (s_nd _ _ _ Hs b) as Hnd. rewrite Hb in Hnd.
      apply NoDup_app in Hnd as (_ & _ & Hnd). apply NoDup_cons in Hnd as [Hex _].
      assert (∀ j, j ∈ xs → same_data (sget t j) (sget t1 j)) as Hdx.
      { intros j Hj. apply Hdat. by intros ->. }
      destruct (IH pre t1 (bucket_set bk b (pre ++ xs)) (e :: fr) fuel Hs1)
        as (t' & fr' & E & Hs' & Hc & Hg & Hd); [unfold bucket_set; by rewrite decide_True|lia|].
      exists t', fr'. split_and!; [done| |congruence..|].
      * rewrite (filter_fresh_ext t t1) in Hs' by done. eapply srep_ext; [|done].
        intros b'. unfold bucket_set. by case_decide.
      * intros j Hj. eapply same_data_trans; [apply Hdat|apply Hd].
        { intros ->. apply Hfe, Hj. set_solver. }
        intros Hjx. unfold fresh. destruct (Hdx j Hjx) as (_ & _ & _ & _ & ->). rewrite Hgen.
        apply Hj. set_solver.
Qed.

(** Pruning the buckets from [b] on. *)
Lemma prune_buckets_spec n b t bk fr :
  srep t bk fr →
  ∃ t' fr', prune_buckets n b t = Some t'
    ∧ srep t' (λ b', if decide (b ≤ b' < b + Z.of_nat n) then filter (fresh t) (bk b') else bk b') fr'
    ∧ snap_cap t' = snap_cap t ∧ snap_gen t' = snap_gen t
    ∧ ∀ b' j, j ∈ bk b' → (b ≤ b' < b + Z.of_nat n → fresh t j) →
        same_data (sget t j) (sget t' j).
Proof.
  revert b t bk fr. induction n as [|n IH]; intros b t bk fr Hs.
  - exists t, fr. split_and!; try done. eapply srep_ext; [|done].
    intros b'. case_decide; [lia|done].
  - cbn [prune_buckets].
    destruct (prune_loop_spec b (bk b) [] t bk fr (Z.to_nat (snap_cap t)) Hs)
      as (t1 & fr1 & E & Hs1 & Hc1 & Hg1 & Hd1); [done|by eapply srep_length|].
    change (link_of b []) with (LBucket b) in E. rewrite E. cbn [mbind option_bind].
    destruct (IH (b + 1) t1 _ _ Hs1) as (t' & fr' & E' & Hs' & Hc & Hg & Hd).
    assert (∀ b' j, j ∈ bk b' → b' ≠ b → same_data (sget t j) (sget t1 j)) as Hother.
    { intros b' j Hj Hne. apply Hd1. intros Hj'. exfalso. apply Hne.
      by eapply (srep_bucket_eq _ _ _ _ _ j Hs). }
    exists t', fr'. split_and!; [done| |congruence..|].
    + eapply srep_ext; [|done]. intros b'. unfold bucket_set. cbn [app].
      repeat case_decide; subst; try lia; try done.
      symmetry. apply filter_fresh_ext; [|done]. intros j Hj. eapply Hother; [done|lia].
    + intros b' j Hj Hf. destruct (decide (b' = b)) as [->|Hne].
      * assert (fresh t j) as Hfj by (apply Hf; lia).
        assert (same_data (sget t j) (sget t1 j)) as H1 by (apply Hd1; done).
        eapply same_data_trans; [done|]. apply (Hd b); [|lia].
        unfold bucket_set. rewrite decide_True by done. cbn. by apply list_elem_of_filter.
      * pose proof (Hother b' j Hj Hne) as H1. eapply same_data_trans; [done|].
        apply (Hd b'); [unfold bucket_set; by rewrite decide_False by congruence|].
        intros Hr. unfold fresh. destruct H1 as (_ & _ & _ & _ & ->). rewrite Hg1. apply Hf. lia.
Qed.

Lemma snap_prune_spec t bk fr :
  srep t bk fr →
  ∃ t' fr', snap_prune t = Some t'
    ∧ srep t' (λ b, if decide (0 ≤ b < VG_SNAP_BUCKETS) then filter (fresh t) (bk b) else bk b) fr'
    ∧ snap_cap t' = snap_cap t ∧ snap_gen t' = snap_gen t
    ∧ ∀ b j, j ∈ bk b → (0 ≤ b < VG_SNAP_BUCKETS → fresh t j) → same_data (sget t j) (sget t' j).
Proof.
  intros Hs. apply (prune_buckets_spec (Z.to_nat VG_SNAP_BUCKETS) 0) in Hs. done.
Qed.

(** ** Reset *)

Lemma reset_loop_spec n i t :
  let t' := reset_loop n i t in
  snap_cap t' = snap_cap t ∧ snap_gen t' = snap_gen t ∧ snaps t' = snaps t
  ∧ (∀ j, j < i ∨ i + Z.of_nat n ≤ j → sget t' j = sget t j)
  ∧ ∀ j, i ≤ j < i + Z.of_nat n → snx t' j = if j + 1 <? snap_cap t then Some (j + 1) else None.
Proof.
  revert i t. induction n as [|n IH]; intros i t; cbv zeta; cbn [reset_loop].
  - split_and!; try done. lia.
  - destruct (IH (i + 1) (sput t i (with_next (with_gen (sget t i) 0)
      (if i + 1 <? snap_cap t then Some (i + 1) else None)))) as (H1 & H2 & H3 & H4 & H5).
    split_and!; [done..| |].
    + intros j Hj. rewrite H4 by lia. rewrite sget_sput, decide_False by lia. done.
    + intros j Hj. destruct (decide (j = i)) as [->|].
      * unfold snx. rewrite H4 by lia. by rewrite sget_sput, decide_True.
      * apply H5. lia.
Qed.

(** The indices from [i] on, as the free chain links them. *)
Definition indices (n : nat) (i : Z) : list Z := (λ k, i + Z.of_nat k) <$> seq 0 n.

Lemma indices_S n i : indices (S n) i = i :: indices n (i + 1).
Proof.
  unfold indices. rewrite <-cons_seq, fmap_cons, Z.add_0_r. f_equal.
  rewrite <-fmap_S_seq, <-list_fmap_compose. apply list_fmap_ext. intros ? k _. simpl. lia.
Qed.

Lemma indices_in n i j : j ∈ indices n i ↔ i ≤ j < i + Z.of_nat n.
Proof.
  unfold indices. rewrite list_elem_of_fmap. split.
  - intros (k & -> & Hk%elem_of_seq). lia.
  - intros Hj. exists (Z.to_nat (j - i)). split; [lia|]. apply elem_of_seq. lia.
Qed.

Lemma indices_nodup n i : NoDup (indices n i).
Proof. apply NoDup_fmap_2; [|apply NoDup_seq]. intros x y ?. lia. Qed.

Lemma indices_chain n nx i cap :
  (∀ j, i ≤ j < i + Z.of_nat n → nx j = if j + 1 <? cap then Some (j + 1) else None) →
  i + Z.of_nat n = cap → (0 < n)%nat → schain nx (Some i) (indices n i).
Proof.
  revert i. induction n as [|n IH]; intros i Hnx Hc Hn; [lia|]. rewrite indices_S.
  split; [done|]. rewrite Hnx by lia. destruct (i + 1 <? cap) eqn:E; breflect.
  - apply IH; [|lia|lia]. intros j Hj. apply Hnx. lia.
  - assert (n = 0%nat) as -> by lia. done.
Qed.

Lemma snap_reset_spec t :
  0 ≤ snap_cap t →
  srep (snap_reset_pool t) (λ _, []) (indices (Z.to_nat (snap_cap t)) 0)
  ∧ snap_cap (snap_reset_pool t) = snap_cap t ∧ snap_gen (snap_reset_pool t) = snap_gen t.
Proof.
  intros Hc. unfold snap_reset_pool. cbn [snap_cap].
  destruct (snap_cap t =? 0) eqn:E; breflect.
  - rewrite E. split; [|by rewrite <-E]. change (indices (Z.to_nat 0) 0) with ([] : list Z).
    split; try by (intros; match goal with H : _ ∈ [] |- _ => apply elem_of_nil in H end).
    + intros b. apply lookup_empty.
    + done.
    + intros b. constructor.
    + constructor.
  - destruct (reset_loop_spec (Z.to_nat (snap_cap t)) 0
      (SnapTab (snap_pool t) None ∅ (snap_cap t) (snap_gen t))) as (H1 & H2 & H3 & _ & H5).
    set (t1 := reset_loop _ _ _) in *. cbn [snap_cap snap_gen snaps] in *.
    split; [|done]. split; cbn.
    all: try by (intros; match goal with H : _ ∈ [] |- _ => apply elem_of_nil in H end).
    + intros b. rewrite H3. apply lookup_empty.
    + change (snx (set_sfree t1 (Some 0))) with (snx t1).
      eapply (indices_chain _ _ _ (snap_cap t)); [exact H5|lia..].
    + intros b. constructor.
    + apply indices_nodup.
    + intros i Hi%indices_in. rewrite H1. lia.
Qed.

Lemma snap_init_spec size :
  ∃ fr, srep (snap_init size) (λ _, []) fr ∧ 0 ≤ snap_cap (snap_init size).
Proof.
  unfold snap_init. set (cap := if size =? 0 then _ else _).
  assert (0 ≤ cap) as Hc.
  { unfold cap. destruct (size =? 0); [by vm_compute|]. unfold u32. apply Z.mod_pos_bound. lia. }
  destruct (snap_reset_spec (SnapTab ∅ None ∅ cap 0) Hc) as (Hs & E & _).
  eexists. split; [exact Hs|]. by rewrite E.
Qed.

(** ** What the table remembers of an address *)

Definition snap_ok (t : snap_tab) : Prop := 0 ≤ snap_cap t ∧ ∃ bk fr, srep t bk fr.

(** Packets, bytes and generation of the entry a lookup finds. *)
Definition snap_seen (t : snap_tab) (fam : Z) (a : list Z) : option (Z * Z * Z) :=
  match snap_find (Z.to_nat (snap_cap t)) t (snaps t !! snap_hash fam a) fam a with
  | Some (Some i) => let e := sget t i in Some (se_pkts e, se_bytes e, se_gen e)
  | _ => None
  end.

(** What a lookup compares of an address. *)
Definition snap_key (fam : Z) (a : list Z) : Z * list Z := (fam, take (addr_bytes fam) a).

Lemma holds_key t i fam a :
  holds t i fam a ↔ snap_key fam (se_addr (sget t i)) = snap_key fam a ∧ se_family (sget t i) = fam.
Proof. unfold holds, snap_key. rewrite snap_match_spec. split; [intros [? ?]|intros [[= ?] ?]]; split; congruence. Qed.

Lemma holds_unique_key t i fam a fam' a' :
  holds t i fam a → holds t i fam' a' → snap_key fam' a' = snap_key fam a.
Proof. intros [H1 <-]%holds_key [H2 <-]%holds_key. congruence. Qed.

Lemma seen_some t bk fr fam a i :
  srep t bk fr → i ∈ bk (snap_hash fam a) → holds t i fam a →
  snap_seen t fam a = Some (se_pkts (sget t i), se_bytes (sget t i), se_gen (sget t i)).
Proof.
  intros Hs Hi Hh. unfold snap_seen.
  rewrite (snap_find_spec t _ (bk (snap_hash fam a))); [|apply Hs|by eapply srep_length].
  destruct (List.find _ _) as [j|] eqn:E.
  - apply List.find_some in E as [Hj%list_elem_of_In Hm].
    by rewrite (s_uniq _ _ _ Hs _ j i fam a Hj Hi Hm Hh).
  - apply list_elem_of_In in Hi. eapply List.find_none in E; [|done]. unfold holds in Hh. congruence.
Qed.

Lemma seen_none t bk fr fam a :
  srep t bk fr → (∀ i, i ∈ bk (snap_hash fam a) → ¬ holds t i fam a) → snap_seen t fam a = None.
Proof.
  intros Hs Hn. unfold snap_seen.
  rewrite (snap_find_spec t _ (bk (snap_hash fam a))); [|apply Hs|by eapply srep_length].
  destruct (List.find _ _) as [j|] eqn:E; [|done].
  apply List.find_some in E as [Hj%list_elem_of_In Hm]. by destruct (Hn j Hj).
Qed.

Lemma holds_dec t (l : list Z) fam a :
  (∃ i, i ∈ l ∧ holds t i fam a) ∨ (∀ i, i ∈ l → ¬ holds t i fam a).
Proof.
  destruct (List.find (λ i, snap_match (sget t i) fam a) l) as [i|] eqn:E.
  - apply List.find_some in E as [Hi%list_elem_of_In Hm]. left. by exists i.
  - right. intros i Hi%list_elem_of_In Hh. eapply List.find_none in E; [|done].
    unfold holds in Hh. congruence.
Qed.

(** Two tables agree on an address when their buckets and entries do. *)
Lemma seen_ext t t' bk bk' fr fr' fam a :
  srep t bk fr → srep t' bk' fr' →
  (∀ i, i ∈ bk' (snap_hash fam a) ∧ holds t' i fam a ↔ i ∈ bk (snap_hash fam a) ∧ holds t i fam a) →
  (∀ i, holds t i fam a → i ∈ bk (snap_hash fam a) → same_data (sget t i) (sget t' i)) →
  snap_seen t' fam a = snap_seen t fam a.
Proof.
  intros Hs Hs' Hiff Hd. destruct (holds_dec t (bk (snap_hash fam a)) fam a) as [(i & Hi & Hh)|Hn].
  - destruct (proj2 (Hiff i)) as [Hi' Hh']; [done|].
    rewrite (seen_some t bk fr _ _ i), (seen_some t' bk' fr' _ _ i) by done.
    destruct (Hd i Hh Hi) as (_ & _ & -> & -> & ->). done.
  - rewrite (seen_none t bk fr), (seen_none t' bk' fr'); [done|done| |done|done].
    intros i Hi Hh. destruct (proj1 (Hiff i)) as [? Hx]; [done|]. by apply (Hn i).
Qed.
