(* ===== verification/SnapMain.v ===== *)
(** * Rate snapshots: main theorems

    The table as a finite map from addresses to the counters last stored,
    through [snap_seen]. *)

From S2P Require Import Prelude Types Ipaddr IpaddrThms Snap SnapThms.
Open Scope Z_scope.

(** Storing the counters of an entry changes what is seen of its address. *)
Lemma store_seen t bk fr i fam a cur :
  srep t bk fr → i ∈ bk (snap_hash fam a) → holds t i fam a →
  srep (snap_store i cur t) bk fr
  ∧ snap_seen (snap_store i cur t) fam a = Some (in_pkts cur, in_bytes cur, se_gen (sget t i))
  ∧ ∀ fam' a', snap_key fam' a' ≠ snap_key fam a →
      snap_seen (snap_store i cur t) fam' a' = snap_seen t fam' a'.
Proof.
  intros Hs Hi Hh. assert (srep (snap_store i cur t) bk fr) as Hs' by (by apply srep_touch).
  assert (∀ j, sget (snap_store i cur t) j
    = if decide (i = j) then with_counts (sget t i) (in_pkts cur) (in_bytes cur) else sget t j) as Hg
    by (intros j; apply sget_sput).
  assert (∀ j fam' a', holds (snap_store i cur t) j fam' a' ↔ holds t j fam' a') as Hhh.
  { intros j fam' a'. unfold holds. rewrite Hg, !snap_match_spec. case_decide; [by subst|done]. }
  split_and!; [done| |].
  - rewrite (seen_some _ bk fr _ _ i); [|done|done|by apply Hhh]. by rewrite Hg, decide_True.
  - intros fam' a' Hk. eapply seen_ext; [done|done| |].
    + intros j. by rewrite Hhh.
    + intros j Hj _. rewrite Hg, decide_False; [done|]. intros <-. by apply Hk, (holds_unique_key t i).
Qed.

(** Lookup and store, as [snap_seen] shows them. *)
Lemma snap_update t fam a :
  snap_ok t → (addr_bytes fam ≤ length a)%nat →
  ∃ r t', snap_get fam a t = Some (r, t') ∧
    match r with
    | None => t' = t ∧ snap_seen t fam a = None ∧ snap_free t = None
    | Some (i, new) =>
        (if (new : bool) then snap_seen t fam a = None
         else ∃ g, snap_seen t fam a = Some (se_pkts (sget t' i), se_bytes (sget t' i), g))
        ∧ ∀ cur, snap_ok (snap_store i cur t')
          ∧ snap_seen (snap_store i cur t') fam a = Some (in_pkts cur, in_bytes cur, snap_gen t)
          ∧ ∀ fam' a', snap_key fam' a' ≠ snap_key fam a →
              snap_seen (snap_store i cur t') fam' a' = snap_seen t fam' a'
    end.
Proof.
  intros (Hcap & bk & fr & Hs) Hla.
  destruct (snap_get_spec t bk fr fam a Hs Hla) as (r & t' & E & Ec & Eg & Hr).
  exists r, t'. split; [done|]. destruct r as [[i [|]]|].
  - destruct Hr as (Hn & fr' & -> & Hs' & Hh & Hgen & Hoth).
    assert (i ∈ bucket_add bk (snap_hash fam a) i (snap_hash fam a)) as Hi
      by (unfold bucket_add; rewrite decide_True by done; set_solver).
    assert (∀ b, i ∉ bk b) as Hib.
    { intros b Hb. apply (s_dis _ _ _ Hs b i Hb). set_solver. }
    split; [by eapply seen_none|]. intros cur.
    destruct (store_seen t' _ _ i fam a cur Hs' Hi Hh) as (Hs2 & H1 & H2). rewrite Hgen in H1.
    split_and!; [split; [cbn; by rewrite Ec|by eexists _, _]|done|].
    intros fam' a' Hk. rewrite H2 by done. eapply seen_ext; [done|done| |].
    + intros j. split; intros [Hj Hhj].
      * assert (j ≠ i) by (intros ->; by apply Hk, (holds_unique_key t' i)).
        unfold holds in *. rewrite Hoth in Hhj by done. split; [|done].
        unfold bucket_add in Hj. case_decide; [|done]. apply elem_of_cons in Hj as [?|?]; done.
      * assert (j ≠ i) by (intros ->; by apply (Hib (snap_hash fam' a'))).
        unfold holds in *. rewrite Hoth by done. split; [|done].
        unfold bucket_add. case_decide; [|done]. apply elem_of_cons. by right.
    + intros j Hj Hb. rewrite Hoth; [done|]. intros ->. by apply (Hib (snap_hash fam' a')).
  - destruct Hr as (Hi & Hh & Hs' & ->). split.
    { rewrite (seen_some t bk fr _ _ i) by done. rewrite sget_sput, decide_True by done. by eexists. }
    intros cur. set (t' := sput _ _ _) in *.
    assert (∀ j, sget t' j = if decide (i = j) then with_gen (sget t i) (snap_gen t) else sget t j) as Hg
      by (intros j; apply sget_sput).
    assert (∀ j fam' a', holds t' j fam' a' ↔ holds t j fam' a') as Hhh.
    { intros j fam' a'. unfold holds. rewrite Hg, !snap_match_spec. case_decide; [by subst|done]. }
    destruct (store_seen t' _ _ i fam a cur Hs' Hi) as (Hs2 & H1 & H2); [by apply Hhh|].
    rewrite Hg, decide_True in H1 by done.
    split_and!; [split; [done|by eexists _, _]|done|].
    intros fam' a' Hk. rewrite H2 by done. eapply seen_ext; [done|done| |].
    + intros j. by rewrite Hhh.
    + intros j Hj _. rewrite Hg, decide_False; [done|]. intros <-. by apply Hk, (holds_unique_key t i).
  - destruct Hr as (Hn & -> & ->). split_and!; [done|by eapply seen_none|]. apply (s_fr _ _ _ Hs).
Qed.

(** Looking up the snapshot of a remote address and storing its
    counters is a map update.  The lookup reports a new entry exactly when
    the address was not there; storing through the entry makes the address
    show the new counters, marked as seen by this walk, and no other address
    changes.  The lookup fails only when the pool is used up, and then leaves
    the table alone. *)
Theorem snap_get_updates t fam a :
  snap_ok t → (addr_bytes fam ≤ length a)%nat →
  ∃ r t', snap_get fam a t = Some (r, t') ∧
    match r with
    | None => t' = t ∧ snap_seen t fam a = None ∧ snap_free t = None
    | Some (i, new) =>
        (if (new : bool) then snap_seen t fam a = None
         else ∃ g, snap_seen t fam a = Some (se_pkts (sget t' i), se_bytes (sget t' i), g))
        ∧ ∀ cur, snap_ok (snap_store i cur t')
          ∧ snap_seen (snap_store i cur t') fam a = Some (in_pkts cur, in_bytes cur, snap_gen t)
          ∧ ∀ fam' a', snap_key fam' a' ≠ snap_key fam a →
              snap_seen (snap_store i cur t') fam' a' = snap_seen t fam' a'
    end.
Proof. apply snap_update. Qed.

Lemma snap_hash_range fam a : 0 ≤ snap_hash fam a < VG_SNAP_BUCKETS.
Proof. unfold snap_hash. apply Z.mod_pos_bound. by vm_compute. Qed.

(** [snap_prune] terminates and forgets exactly the addresses the
    current walk did not see. *)
Theorem snap_prune_forgets t :
  snap_ok t →
  ∃ t', snap_prune t = Some t' ∧ snap_ok t' ∧ snap_gen t' = snap_gen t ∧
    ∀ fam a, snap_seen t' fam a =
      match snap_seen t fam a with
      | Some (p, b, g) => if g =? snap_gen t then Some (p, b, g) else None
      | None => None
      end.
Proof.
  intros (Hcap & bk & fr & Hs). destruct (snap_prune_spec t bk fr Hs) as (t' & fr' & E & Hs' & Ec & Eg & Hd).
  exists t'. split_and!; [done|split; [by rewrite Ec|by eexists _, _]|done|]. intros fam a.
  pose proof (snap_hash_range fam a) as Hh.
  assert (∀ j, j ∈ bk (snap_hash fam a) → fresh t j → same_data (sget t j) (sget t' j)) as Hsame
    by (intros j Hj Hf; by apply (Hd (snap_hash fam a))).
  destruct (holds_dec t (bk (snap_hash fam a)) fam a) as [(i & Hi & Hhi)|Hn].
  - rewrite (seen_some t bk fr _ _ i) by done. destruct (_ =? _) eqn:Eq; breflect.
    + assert (fresh t i) as Hf by done. pose proof (Hsame i Hi Hf) as Hsd.
      rewrite (seen_some t' _ fr' _ _ i Hs'); [|rewrite decide_True by done; by apply list_elem_of_filter
        |by apply (holds_same t t')].
      by destruct Hsd as (_ & _ & -> & -> & ->).
    + eapply seen_none; [exact Hs'|]. intros j Hj Hhj. cbv beta in Hj. rewrite decide_True in Hj by done.
      apply list_elem_of_filter in Hj as [Hf Hj].
      apply (holds_same t t') in Hhj; [|by apply Hsame].
      assert (j = i) as -> by (by apply (s_uniq _ _ _ Hs (snap_hash fam a) j i fam a)). done.
  - rewrite (seen_none t bk fr) by done. eapply seen_none; [exact Hs'|]. intros j Hj Hhj.
    cbv beta in Hj. rewrite decide_True in Hj by done. apply list_elem_of_filter in Hj as [Hf Hj].
    apply (Hn j Hj). by apply (holds_same t t'); [apply Hsame|].
Qed.
