(* ===== verification/Double.v ===== *)
(** * C doubles

    IEEE 754 binary64 arithmetic, round to nearest even, as the Standard
    Library specifies it ([SpecFloat], precision 53, exponent bound 1024). *)

From Stdlib Require Import SpecFloat.
From Stdlib Require Import String.
From S2P Require Import Prelude CString.
Open Scope Z_scope.

Abbreviation double := spec_float.

(** [(double) z] of an integer. *)
Definition of_int (z : Z) : double := binary_normalize 53 1024 z 0 false.

Definition fadd (a b : double) : double := SFadd 53 1024 a b.
Definition fmul (a b : double) : double := SFmul 53 1024 a b.
Definition fdiv (a b : double) : double := SFdiv 53 1024 a b.
Definition flt (a b : double) : bool := SFltb a b.
Definition fle (a b : double) : bool := SFleb a b.

Definition d0 : double := S754_zero false.
Definition d8 : double := of_int 8.
Definition d1e6 : double := of_int 1000000.
Definition d1e9 : double := of_int 1000000000.

(** [m / 2^k] rounded to the nearest integer, ties to even. *)
Definition round_even (m k : Z) : Z :=
  let q := m / 2 ^ k in
  let r := m mod 2 ^ k in
  if (2 * r <? 2 ^ k) || ((2 * r =? 2 ^ k) && Z.even q) then q else q + 1.

(** The [%.0f] conversion. *)
Definition fmt_f0 (x : double) : list Z :=
  let sign (s : bool) := if s then [45] else [] in
  match x with
  | S754_zero s => sign s ++ bs "0"
  | S754_infinity s => sign s ++ bs "inf"
  | S754_nan => bs "nan"
  | S754_finite s m e =>
      sign s ++ dec (if 0 <=? e then Zpos m * 2 ^ e else round_even (Zpos m) (- e))
  end.

(** ** Printing *)

(** [round_even] is a nearest integer. *)
Lemma round_even_near m k : 0 ≤ k → 2 * Z.abs (round_even m k * 2 ^ k - m) ≤ 2 ^ k.
Proof.
  intros Hk. assert (0 < 2 ^ k) as Hp by (apply Z.pow_pos_nonneg; lia). unfold round_even.
  pose proof (Z.div_mod m (2 ^ k) ltac:(lia)). pose proof (Z.mod_pos_bound m (2 ^ k) Hp).
  destruct (2 * (m mod 2 ^ k) <? 2 ^ k) eqn:E1; cbn [orb]; breflect; [lia|].
  destruct (2 * (m mod 2 ^ k) =? 2 ^ k) eqn:E2; cbn [andb]; breflect; [|lia].
  destruct (Z.even (m / 2 ^ k)); lia.
Qed.

Lemma digits_lt p : Zpos p < 2 ^ Zpos (digits2_pos p).
Proof.
  induction p as [p IH|p IH|]; cbn [digits2_pos]; [| |done];
    rewrite Pos2Z.inj_succ, Z.pow_succ_r by lia; lia.
Qed.

(** A binary64 number is below 2^1024. *)
Lemma valid_bound s m e :
  valid_binary 53 1024 (S754_finite s m e) = true → e ≤ 971 ∧ Zpos m < 2 ^ 53.
Proof.
  cbn [valid_binary]. unfold bounded, canonical_mantissa, fexp, emin.
  intros H. apply andb_true_iff in H as [H1%Z.eqb_eq H2%Z.leb_le]. split; [lia|].
  pose proof (digits_lt m). eapply Z.lt_le_trans; [done|]. apply Z.pow_le_mono_r; lia.
Qed.

Lemma fmt_f0_length x : valid_binary 53 1024 x = true → (List.length (fmt_f0 x) ≤ 310)%nat.
Proof.
  destruct x as [s|s| |s m e]; intros Hv; try (destruct s; simpl; lia); [simpl; lia|].
  apply valid_bound in Hv as [He Hm]. unfold fmt_f0. rewrite length_app.
  set (n := if 0 <=? e then _ else _). assert (List.length (dec n) ≤ 309)%nat.
  { apply dec_length; [|lia]. subst n. split_if; breflect.
    - split; [lia|]. apply Z.lt_le_trans with (2 ^ 53 * 2 ^ 971); [|by vm_compute].
      apply Z.lt_le_trans with (2 ^ 53 * 2 ^ e); [apply Zmult_lt_compat_r; lia|].
      apply Z.mul_le_mono_nonneg_l; [lia|]. by apply Z.pow_le_mono_r.
    - unfold round_even. assert (0 < 2 ^ (- e)) as Hp by (apply Z.pow_pos_nonneg; lia).
      pose proof (Z.div_pos (Z.pos m) (2 ^ (- e)) ltac:(lia) Hp).
      assert (Z.pos m / 2 ^ (- e) ≤ Z.pos m) by (apply Z.div_le_upper_bound; nia).
      assert (2 ^ 53 + 1 < 10 ^ Z.of_nat 309) by (by vm_compute). split_if; lia. }
  destruct s; simpl; lia.
Qed.
