(* ===== verification/Policy.v ===== *)
(** * policy.c: the controller

    [struct vg_ctrl] and its operations on a kernel world.  The drop index
    and the snapshots are the tables of [DropTable] and [Snap]; log output is
    left out. *)

From S2P Require Import Prelude Types Ipaddr Config Kernel Maps Lists DropTable Snap Double.
Import Dlist Hlist.
Open Scope Z_scope.

Inductive vg_state := VG_IDLE | VG_ACTIVE.

#[export] Instance vg_state_eq_dec : EqDecision vg_state.
Proof. solve_decision. Defined.

(** [struct vg_ctrl]; a pair of a value and its [have_] flag is an option.
    [drops_new] and [drops_again] count the drops of one tick for the log;
    they are [int]s of the source and unbounded numbers here. *)
Record vg_ctrl := Ctrl {
  state : vg_state;
  cfg : vg_config;
  maps : vg_maps;
  cfg_path : list Z;
  iface_override : list Z;
  last_m : option vg_metrics;
  last_tick : option timespec;
  rx_pps : double;
  rx_bps : double;
  quiet_since : Z;
  drops : drop_tab;
  drops_new : list Z;
  drops_again : Z;
  snap : snap_tab;
}.

Section Setters.
Context (c : vg_ctrl).
Definition set_state v := Ctrl v (cfg c) (maps c) (cfg_path c) (iface_override c) (last_m c)
  (last_tick c) (rx_pps c) (rx_bps c) (quiet_since c) (drops c) (drops_new c) (drops_again c) (snap c).
Definition set_cfg v := Ctrl (state c) v (maps c) (cfg_path c) (iface_override c) (last_m c)
  (last_tick c) (rx_pps c) (rx_bps c) (quiet_since c) (drops c) (drops_new c) (drops_again c) (snap c).
Definition set_last_m v := Ctrl (state c) (cfg c) (maps c) (cfg_path c) (iface_override c) v
  (last_tick c) (rx_pps c) (rx_bps c) (quiet_since c) (drops c) (drops_new c) (drops_again c) (snap c).
Definition set_last_tick v := Ctrl (state c) (cfg c) (maps c) (cfg_path c) (iface_override c) (last_m c)
  v (rx_pps c) (rx_bps c) (quiet_since c) (drops c) (drops_new c) (drops_again c) (snap c).
Definition set_rates p b := Ctrl (state c) (cfg c) (maps c) (cfg_path c) (iface_override c) (last_m c)
  (last_tick c) p b (quiet_since c) (drops c) (drops_new c) (drops_again c) (snap c).
Definition set_quiet v := Ctrl (state c) (cfg c) (maps c) (cfg_path c) (iface_override c) (last_m c)
  (last_tick c) (rx_pps c) (rx_bps c) v (drops c) (drops_new c) (drops_again c) (snap c).
Definition set_drops v := Ctrl (state c) (cfg c) (maps c) (cfg_path c) (iface_override c) (last_m c)
  (last_tick c) (rx_pps c) (rx_bps c) (quiet_since c) v (drops_new c) (drops_again c) (snap c).
Definition set_drop_stats n a := Ctrl (state c) (cfg c) (maps c) (cfg_path c) (iface_override c)
  (last_m c) (last_tick c) (rx_pps c) (rx_bps c) (quiet_since c) (drops c) n a (snap c).
Definition set_snap v := Ctrl (state c) (cfg c) (maps c) (cfg_path c) (iface_override c) (last_m c)
  (last_tick c) (rx_pps c) (rx_bps c) (quiet_since c) (drops c) (drops_new c) (drops_again c) v.
End Setters.

(** [vg_ctrl_init]: the result is -1 ([Some None]) when an allocation fails,
    of the drop tables or of the snapshots; the strings are cut to their
    buffers.  [None] is a bucket loop that never ends. *)
Definition vg_ctrl_init (alloc_drops alloc_snaps : bool) (cf : vg_config) (m : vg_maps)
    (path iface_ov : option (list Z)) : option (option vg_ctrl) :=
  t ← drops_init (drop_map_size cf);
  if negb alloc_drops then Some None
  else
    let s := snap_init (remote_map_size cf) in
    if negb alloc_snaps then Some None
    else
      Some (Some (Ctrl VG_IDLE cf m (take (Z.to_nat VG_CFG_PATH_MAX - 1) (default [] path))
                    (take (Z.to_nat VG_MAX_IFACE - 1) (default [] iface_ov)) None None d0 d0 0
                    t (replicate 5 0) 0 s)).

Section Policy.
Context {K : Type} `{!Kernel K}.

Abbreviation P A := (M (vg_ctrl * K) A).

Definition getc {A} (f : vg_ctrl → A) : P A := gets (λ s, f s.1).
Definition modc (f : vg_ctrl → vg_ctrl) : P unit := modify (λ s, (f s.1, s.2)).
Definition onK {A} (m : M K A) : P A := liftK m.
Definition onD {A} (m : M drop_tab A) : P A := λ s,
  match m (drops s.1) with Some (a, t) => Some (a, (set_drops s.1 t, s.2)) | None => None end.
Definition onS {A} (m : M snap_tab A) : P A := λ s,
  match m (snap s.1) with Some (a, t) => Some (a, (set_snap s.1 t, s.2)) | None => None end.

Definition vg_ctrl_arm : P Z :=
  st ← getc state;
  if bool_decide (st = VG_ACTIVE) then mret 0
  else
    _ ← modc (λ c, set_snap c (snap_clear (snap c)));
    _ ← modc (λ c, set_quiet c 0);
    cf ← getc cfg;
    e ← onK (vg_cfg_commit 1 cf);
    if negb (e =? 0) then mret (-1)
    else _ ← modc (λ c, set_state c VG_ACTIVE); mret 0.

Definition vg_ctrl_disarm : P Z :=
  _ ← onK vg_drop_flush;
  _ ← onD drops_reset;
  cf ← getc cfg;
  e ← onK (vg_cfg_commit 0 cf);
  if negb (e =? 0) then mret (-1)
  else
    _ ← modc (λ c, set_state c VG_IDLE);
    _ ← modc (λ c, set_quiet c 0);
    mret 0.

(** The record at a pointer. *)
Definition deref (r : Z) : P vg_drop_rec := c ← getc drops; lift (rec_at c r).

Definition drop_remove (r : Z) : P Z :=
  rc ← deref r;
  e ← onK (vg_drop_del (cidr rc));
  if negb (e =? 0) && negb (e =? ENOENT) then mret (-1)
  else _ ← onD (drop_unlink r); mret 0.

(** [c->drops_new[i]++] *)
Definition bump_new (i : Z) (c : vg_ctrl) : vg_ctrl :=
  set_drop_stats c (alter (λ x, x + 1) (Z.to_nat i) (drops_new c)) (drops_again c).

(** [drop_add] after the lookup, for a prefix that is not listed. *)
Definition drop_add_new (p : vg_cidr) (reason now exp : Z) : P Z :=
  a ← onD drop_alloc;
  match a with
  | None => mret (-1)
  | Some r =>
      e ← onK (vg_drop_add p reason (u32 now));
      if negb (e =? 0) then _ ← onD (drop_give_back r); mret (-1)
      else
        _ ← onD (drop_link r p reason now exp);
        _ ← modc (bump_new (if reason <=? VG_REASON_TIMED then reason else 0));
        mret 0
  end.

(** ... and for the listed record [r]. *)
Definition drop_add_again (r : Z) (p : vg_cidr) (rs now exp : Z) : P Z :=
  rc ← deref r;
  if (rs =? VG_REASON_TIMED) && (reason rc =? VG_REASON_MANUAL) then mret 0
  else
    cf ← getc cfg;
    _ ← (if (rs =? VG_REASON_TIMED) && negb (reason rc =? VG_REASON_TIMED)
         then onD (put_rec r (DropRec (cidr rc) (reason rc) (inserted rc)
                                (inserted rc + ban_time cf)))
         else mret tt);
    rc ← deref r;
    let exp := if (rs =? VG_REASON_TIMED) && (exp <? expires rc) then expires rc else exp in
    e ← onK (vg_drop_add p rs (u32 now));
    if negb (e =? 0) then mret (-1)
    else
      _ ← (if (rs =? VG_REASON_MANUAL) || (rs =? VG_REASON_TIMED)
           then onD (put_rec r (DropRec (cidr rc) rs now exp))
           else mret tt);
      _ ← modc (λ c, set_drop_stats c (drops_new c) (drops_again c + 1));
      mret 0.

Definition drop_add (p : vg_cidr) (reason exp : Z) : P Z :=
  now ← onK (call sys_time);
  cf ← getc cfg;
  if vg_cidr_is_protected cf p then mret (-1)
  else
    st ← getc state;
    rc ← (if negb (bool_decide (st = VG_ACTIVE)) then vg_ctrl_arm else mret 0);
    if rc <? 0 then mret (-1)
    else
      r ← onD (drops_find p);
      match r with
      | None => drop_add_new p reason now exp
      | Some r => drop_add_again r p reason now exp
      end.

Definition vg_ctrl_drop (p : vg_cidr) (reason : Z) : P Z := drop_add p reason 0.

Definition vg_ctrl_drop_ttl (p : vg_cidr) (ttl : Z) : P Z :=
  now ← onK (call sys_time);
  drop_add p VG_REASON_TIMED (now + ttl).

Definition vg_ctrl_undrop (p : vg_cidr) : P Z :=
  r ← onD (drops_find p);
  match r with
  | Some r => rc ← drop_remove r; if rc <? 0 then mret (-1) else mret 0
  | None =>
      e ← onK (vg_drop_del p);
      if negb (e =? 0) && negb (e =? ENOENT) then mret (-1) else mret 0
  end.

(** [vg_list_for_each_safe] over [drop_all]; the results of the body are
    summed. *)
Fixpoint for_each_safe (fuel : nat) (body : Z → P Z) (pos n : loc) (acc : Z) : P Z :=
  if bool_decide (pos = L_all) then mret acc
  else
    match fuel with
    | O => λ _, None
    | S fuel =>
        i ← lift (list_entry pos);
        x ← body i;
        t ← getc drops;
        n' ← lift (node_next t n);
        for_each_safe fuel body n n' (acc + x)
    end.

Definition each_drop (body : Z → P Z) : P Z :=
  t ← getc drops;
  pos ← lift (node_next t L_all);
  n ← lift (node_next t pos);
  for_each_safe (walk_fuel t) body pos n 0.

Definition prune_body (i : Z) : P Z :=
  rc ← deref i;
  cf ← getc cfg;
  if negb (vg_cidr_is_protected cf (cidr rc)) then mret 0
  else x ← drop_remove i; mret (if x =? 0 then 1 else 0).

Definition vg_ctrl_prune_protected : P Z := each_drop prune_body.

(** [maybe_aggregate]: the prefix to count in, the count, the drop. *)
Definition aggregate_net (host : vg_cidr) : option vg_cidr :=
  if family host =? AF_INET then vg_cidr_v4_slash24 host else vg_cidr_v6_slash64 host.

Definition aggregate_count (t : drop_tab) (net : vg_cidr) (l : list Z) : Z :=
  Z.of_nat (length (filter
    (λ i, negb (reason (get_rec t i) =? VG_REASON_TIMED)
          && vg_cidr_contains net (cidr (get_rec t i)) = true) l)).

Definition maybe_aggregate (host : vg_cidr) : P Z :=
  match aggregate_net host with
  | None => mret 0
  | Some net =>
      t ← getc drops;
      l ← lift (drop_all_walk t);
      cf ← getc cfg;
      if aggregate_k cf <=? aggregate_count t net l
      then vg_ctrl_drop net VG_REASON_AGGREGATE
      else mret 0
  end.

(** [cur >= last ? cur - last : 0] *)
Definition delta (cur last : Z) : Z := if last <=? cur then cur - last else 0.

(** The rates of a remote and the comparison with the thresholds. *)
Definition over_threshold (cf : vg_config) (dp db : Z) (dt : double) : bool :=
  let pps := fdiv (of_int dp) dt in
  let bps := fdiv (fmul (of_int db) d8) dt in
  negb (flt pps (of_int (threshold_pps cf))
        && flt bps (fmul (of_int (threshold_mbps cf)) d1e6)).

(** The host prefix of an address. *)
Definition host_cidr (fam : Z) (a : list Z) : vg_cidr :=
  Cidr fam (store16 (take (addr_bytes fam) a)) (if fam =? AF_INET then 32 else 128).

Definition policy_one_remote (dt : double) (fam : Z) (a : list Z) (cur : host_counters) : P unit :=
  s ← onS (snap_get fam a);
  match s with
  | None => mret tt
  | Some (i, true) => modc (λ c, set_snap c (snap_store i cur (snap c)))
  | Some (i, false) =>
      e ← getc (λ c, sget (snap c) i);
      let dp := delta (in_pkts cur) (se_pkts e) in
      let db := delta (in_bytes cur) (se_bytes e) in
      _ ← modc (λ c, set_snap c (snap_store i cur (snap c)));
      if fle dt d0 then mret tt
      else
        cf ← getc cfg;
        if negb (over_threshold cf dp db dt) then mret tt
        else
          let p := host_cidr fam a in
          rc ← vg_ctrl_drop p VG_REASON_POLICY;
          if rc =? 0 then _ ← maybe_aggregate p; mret tt else mret tt
  end.

Definition next_gen (t : snap_tab) : snap_tab :=
  let g := u32 (snap_gen t + 1) in
  if g =? 0 then set_sgen (snap_reset_pool (set_sgen t 0)) 1 else set_sgen t g.

(** [struct vg_walk_ctx]; the controller is the state. *)
Record vg_walk_ctx := WalkCtx { wc_dt : double }.

Definition remote_cb (w : vg_walk_ctx) (family : Z) (addr : list Z) (sum : host_counters) : P unit :=
  policy_one_remote (wc_dt w) family addr sum.

Context `{!RemoteWalk K}.

Definition walk_remotes (dt : double) : P unit :=
  cf ← getc cfg;
  let budget := if remote_map_size cf =? 0 then VG_REMOTE_MAP_MAX else remote_map_size cf in
  _ ← modc (λ c, set_snap c (next_gen (snap c)));
  m ← getc maps;
  complete ← remote_foreach (remote_cb (WalkCtx dt)) m budget;
  if (complete : bool) then onS (λ t, t ← snap_prune t; Some (tt, t)) else mret tt.

(** The record is due at [now]. *)
Definition expired (cf : vg_config) (now : Z) (r : vg_drop_rec) : bool :=
  negb ((reason r =? VG_REASON_MANUAL)
        || (if reason r =? VG_REASON_TIMED then now <? expires r
            else now - inserted r <? ban_time cf)).

Definition expire_body (now : Z) (i : Z) : P Z :=
  rc ← deref i;
  cf ← getc cfg;
  if negb (expired cf now rc) then mret 0
  else x ← drop_remove i; mret (if x <? 0 then 0 else 1).

Definition expire_drops : P Z :=
  now ← onK (call sys_time);
  each_drop (expire_body now).

(** Without its log line: the counters of the tick start again. *)
Definition log_drops : P unit := modc (λ c, set_drop_stats c (replicate 5 0) 0).

Definition tick_dt : P double :=
  now ← onK (call sys_clock);
  l ← getc last_tick;
  _ ← modc (λ c, set_last_tick c (Some now));
  match l with
  | None => mret d0
  | Some l => mret (fadd (of_int (tv_sec now - tv_sec l))
                         (fdiv (of_int (tv_nsec now - tv_nsec l)) d1e9))
  end.

(** [wake_mbps * 1000000.0] *)
Definition wake_bps (cf : vg_config) : double := fmul (of_int (wake_mbps cf)) d1e6.

(** The rates of a tick, from the metrics before and now. *)
Definition tick_rates (l : option vg_metrics) (m : vg_metrics) (dt : double) (c : vg_ctrl) : vg_ctrl :=
  match l with
  | Some l =>
      if flt d0 dt then
        set_rates c (fdiv (of_int (delta (rx_pkts m) (rx_pkts l))) dt)
          (fdiv (fmul (of_int (delta (rx_bytes m) (rx_bytes l))) d8) dt)
      else c
  | None => c
  end.

(** The idle branch of [vg_ctrl_tick], and the active one. *)
Definition tick_idle : P Z :=
  c ← getc id;
  if flt (of_int (wake_pps (cfg c))) (rx_pps c) || flt (wake_bps (cfg c)) (rx_bps c)
  then _ ← vg_ctrl_arm; mret 0
  else mret 0.

Definition tick_quiet : P Z :=
  c ← getc id;
  if flt (rx_pps c) (of_int (wake_pps (cfg c))) && flt (rx_bps c) (wake_bps (cfg c)) then
    _ ← (if quiet_since c =? 0
         then now ← onK (call sys_time); modc (λ c, set_quiet c now) else mret tt);
    c ← getc id;
    if drop_count (drops c) =? 0 then
      now ← onK (call sys_time);
      if clear_seconds (cfg c) <=? now - quiet_since c
      then _ ← vg_ctrl_disarm; mret 0 else mret 0
    else mret 0
  else _ ← modc (λ c, set_quiet c 0); mret 0.

Definition vg_ctrl_tick : P Z :=
  dt ← tick_dt;
  _ ← log_drops;
  mp ← getc maps;
  r ← onK (vg_metrics_read mp);
  match r with
  | None => mret (-1)
  | Some m =>
      l ← getc last_m;
      _ ← modc (tick_rates l m dt);
      _ ← modc (λ c, set_last_m c (Some m));
      if fle dt d0 then mret 0
      else
        st ← getc state;
        if bool_decide (st = VG_IDLE) then tick_idle
        else
          _ ← walk_remotes dt;
          _ ← expire_drops;
          tick_quiet
  end.

End Policy.
