(* ===== verification/PolicyThms.v ===== *)
(** * The controller: invariant and operations

    [inv c w l f]: the controller [c] in the kernel world [w] lists the drops
    [l].  Every listed drop has its map entry, the kernel is armed exactly
    when the controller is active, and an idle controller lists nothing. *)

From S2P Require Import Prelude Types Ipaddr IpaddrThms Config Kernel Maps MapsThms Lists.
From S2P Require Import DropTable DropThms Snap SnapThms Double Policy.
Import Dlist Hlist.
Open Scope Z_scope.

Section PolicyThms.
Context {K : Type} `{!Kernel K} `{!KernelLaws K}.
Implicit Types (w : K) (c : vg_ctrl) (p q : vg_cidr).

(** ** Running the monad *)

Lemma wp_getc {A} (g : vg_ctrl → A) Q c w : Q (g c) (c, w) → wp (getc g) Q (c, w).
Proof. intros. by apply wp_gets. Qed.

Lemma wp_modc g Q c w : Q tt (g c, w) → wp (modc g) Q (c, w).
Proof. intros. by apply wp_modify. Qed.

Lemma wp_onK {A} (m : M K A) Q c w : wp m (λ a w', Q a (c, w')) w → wp (onK m) Q (c, w).
Proof. intros (a & w' & E & H). exists a, (c, w'). unfold onK, liftK. simpl. by rewrite E. Qed.

Lemma wp_onD {A} (m : M drop_tab A) Q c w :
  wp m (λ a t, Q a (set_drops c t, w)) (drops c) → wp (onD m) Q (c, w).
Proof. intros (a & t & E & H). exists a, (set_drops c t, w). unfold onD. simpl. by rewrite E. Qed.

Lemma wp_onS {A} (m : M snap_tab A) Q c w :
  wp m (λ a t, Q a (set_snap c t, w)) (snap c) → wp (onS m) Q (c, w).
Proof. intros (a & t & E & H). exists a, (set_snap c t, w). unfold onS. simpl. by rewrite E. Qed.

(** The past of the kernel under the operations of the controller. *)
Lemma grows_getc {A} (g : vg_ctrl → A) : grows (K := K) snd (getc g).
Proof. apply grows_gets. Qed.

Lemma grows_modc g : grows (K := K) snd (modc g).
Proof. apply grows_still. by intros s a s' [= _ <-]. Qed.

Lemma grows_onK {A} (m : M K A) : grows id m → grows snd (onK m).
Proof. apply grows_liftK. Qed.

Lemma grows_onD {A} (m : M drop_tab A) : grows (K := K) snd (onD m).
Proof.
  apply grows_still. intros s a s'. unfold onD. destruct (m (drops s.1)) as [[]|]; [|done]. by intros [= _ <-].
Qed.

Lemma grows_deref i : grows (K := K) snd (deref i).
Proof. unfold deref. apply grows_bind; [apply grows_getc|]. intros. apply grows_lift. Qed.

Lemma grows_time : grows (K := K) snd (onK (call sys_time)).
Proof. apply grows_onK, grows_call. intros w. apply same_maps_past, time_same. Qed.

Lemma grows_put p rs now : grows (K := K) snd (onK (vg_drop_add p rs now)).
Proof. apply grows_onK, grows_update. Qed.

Lemma grows_del p : grows (K := K) snd (onK (vg_drop_del p)).
Proof. apply grows_onK, grows_delete. Qed.

Lemma grows_cfg a cf : grows (K := K) snd (onK (vg_cfg_commit a cf)).
Proof. apply grows_onK, grows_commit. Qed.

#[local] Hint Resolve grows_getc grows_modc grows_onD grows_deref grows_time grows_put grows_del grows_cfg : grows.

Lemma grows_arm : grows (K := K) snd vg_ctrl_arm.
Proof. unfold vg_ctrl_arm. grows. Qed.

Lemma grows_drop_remove r : grows (K := K) snd (drop_remove r).
Proof. unfold drop_remove. grows. Qed.

Lemma grows_drop_add p rs exp : grows (K := K) snd (drop_add p rs exp).
Proof. pose proof grows_arm. unfold drop_add, drop_add_new, drop_add_again. grows. Qed.

Lemma grows_undrop p : grows (K := K) snd (vg_ctrl_undrop p).
Proof. pose proof grows_drop_remove. unfold vg_ctrl_undrop. grows. Qed.

Lemma set_drops_id c : set_drops c (drops c) = c.
Proof. by destruct c. Qed.

Lemma set_drops_twice c t t' : set_drops (set_drops c t) t' = set_drops c t'.
Proof. done. Qed.

(** ** The kernel's drop maps *)

Definition in_map w p : Prop := is_Some (lpm_view (drop_fd p) w !! lpm_key_of p).

Definition map_added w w' p (v : lpm_val) : Prop :=
  lpm_view (drop_fd p) w' = <[lpm_key_of p := v]> (lpm_view (drop_fd p) w)
  ∧ (∀ m, m ≠ drop_fd p → lpm_view m w' = lpm_view m w) ∧ xdp_cfg w' = xdp_cfg w.

Definition map_deleted w w' p : Prop :=
  lpm_view (drop_fd p) w' = delete (lpm_key_of p) (lpm_view (drop_fd p) w)
  ∧ (∀ m, m ≠ drop_fd p → lpm_view m w' = lpm_view m w) ∧ xdp_cfg w' = xdp_cfg w.

Lemma in_map_added w w' p v q :
  map_added w w' p v → prefix_ok p → prefix_ok q → in_map w' q ↔ in_map w q ∨ q = p.
Proof.
  intros (Hv & Ho & _) Hp Hq. unfold in_map.
  destruct (decide (drop_fd q = drop_fd p)) as [E|E].
  - rewrite E, Hv. destruct (decide (lpm_key_of p = lpm_key_of q)) as [Ek|Ek].
    + rewrite <-Ek, lookup_insert_eq. split; [|by eauto]. intros _. right.
      apply lpm_key_inj; [done..| |done]. by apply drop_fd_family; [apply Hq|apply Hp|].
    + rewrite lookup_insert_ne by done. split; [by left|]. intros [?| ->]; done.
  - rewrite Ho by done. split; [by left|]. intros [?| ->]; done.
Qed.

Lemma in_map_deleted w w' p q :
  map_deleted w w' p → prefix_ok p → prefix_ok q → in_map w' q ↔ in_map w q ∧ q ≠ p.
Proof.
  intros (Hv & Ho & _) Hp Hq. unfold in_map.
  destruct (decide (drop_fd q = drop_fd p)) as [E|E].
  - rewrite E, Hv. destruct (decide (lpm_key_of p = lpm_key_of q)) as [Ek|Ek].
    + assert (q = p) as ->.
      { apply lpm_key_inj; [done..| |done]. by apply drop_fd_family; [apply Hq|apply Hp|]. }
      rewrite lookup_delete_eq. split; [by intros []|]. by intros [_ ?].
    + rewrite lookup_delete_ne by done. split; [|by intros []]. intros; split; [done|congruence].
  - rewrite Ho by done. split; [|by intros []]. intros. split; [done|congruence].
Qed.

Lemma in_map_same w w' q : same_tries w w' → in_map w' q ↔ in_map w q.
Proof. intros [H _]. unfold in_map. by destruct (H (drop_fd q)) as [-> _]. Qed.

(** ** Invariant *)

Definition state_word (s : vg_state) : Z := match s with VG_IDLE => 0 | VG_ACTIVE => 1 end.

Record inv (c : vg_ctrl) (w : K) (l f : list Z) : Prop := {
  inv_rep : rep (drops c) l f [];
  inv_snap : snap_ok (snap c);
  inv_armed : ∃ bc, xdp_cfg w = Some bc ∧ armed bc = state_word (state c);
  inv_idle : state c = VG_IDLE → l = [];
  inv_map : ∀ i, i ∈ l → in_map w (cidr (get_rec (drops c) i));
}.

(** The invariant reads four fields of the controller. *)
Lemma inv_ext c c' w w' l f :
  inv c w l f → drops c' = drops c → state c' = state c → snap_ok (snap c') →
  xdp_cfg w' = xdp_cfg w → (∀ q, in_map w q → in_map w' q) → inv c' w' l f.
Proof.
  intros [] Hd Hs Hsn Hc Hm. split; rewrite ?Hd, ?Hs, ?Hc; try done. intros i Hi. by apply Hm, inv_map0.
Qed.

Lemma inv_tries c w w' l f : inv c w l f → same_tries w w' → inv c w' l f.
Proof.
  intros Hi Hs. eapply inv_ext; [done|done|done|apply Hi|apply Hs|].
  intros q. by apply in_map_same.
Qed.

Lemma inv_same c w w' l f : inv c w l f → same_maps w w' → inv c w' l f.
Proof. intros Hi Hs. eapply inv_tries; [done|by apply same_maps_tries]. Qed.

Lemma inv_prefix c w l f i : inv c w l f → i ∈ l → prefix_ok (cidr (get_rec (drops c) i)).
Proof. intros Hi. apply (rep_ok _ _ _ _ (inv_rep _ _ _ _ Hi)). Qed.

(** ** Arm and disarm *)

(** What the operations on the drop list leave alone. *)
Definition frame c w c' w' : Prop :=
  drops c' = drops c ∧ cfg c' = cfg c ∧ maps c' = maps c ∧ drops_new c' = drops_new c
  ∧ drops_again c' = drops_again c ∧ ∀ m, same_trie m w w'.

Lemma arm_spec c w l f :
  inv c w l f →
  wp vg_ctrl_arm (λ rc s',
    inv s'.1 s'.2 l f ∧ frame c w s'.1 s'.2
    ∧ (rc = 0 ∧ state s'.1 = VG_ACTIVE
       ∨ rc = -1 ∧ state c = VG_IDLE ∧ state s'.1 = VG_IDLE)) (c, w).
Proof.
  intros Hi. unfold vg_ctrl_arm. apply wp_bind, wp_getc. case_bool_decide as Hs.
  { apply wp_ret. simpl. unfold frame. split_and!; try done. by left. }
  assert (state c = VG_IDLE) as Hidle by (by destruct (state c)).
  do 2 (apply wp_bind, wp_modc). apply wp_bind, wp_getc. apply wp_bind, wp_onK.
  unfold vg_cfg_commit. apply wp_call. cbn [cfg set_quiet set_snap].
  pose proof (cfg_update_tries (bpf_cfg_of 1 (cfg c)) w) as Ht.
  destruct (bpf_cfg_update (bpf_cfg_of 1 (cfg c)) w) as [e w'] eqn:E. cbn [fst snd] in *.
  assert (snap_ok (snap_clear (snap c))) as Hsn.
  { destruct (inv_snap _ _ _ _ Hi) as [Hc _]. destruct (snap_reset_spec _ Hc) as (? & E' & _).
    split; [unfold snap_clear; by rewrite E'|]. by eexists _, _. }
  assert (∀ q, in_map w q → in_map w' q) as Hm.
  { intros q. unfold in_map. by destruct (Ht (drop_fd q)) as [-> _]. }
  pose proof (inv_idle _ _ _ _ Hi Hidle) as ->.
  destruct (e =? 0) eqn:Ee; breflect; cbn [negb].
  - subst e. apply wp_bind, wp_modc, wp_ret. cbn. unfold frame.
    split_and!; try done; [|by left].
    destruct Hi. split; cbn; try done; [|by intros i ?%elem_of_nil].
    eexists. split; [by eapply cfg_update_ok|]. done.
  - apply wp_ret. cbn. unfold frame. split_and!; try done; [|by right].
    eapply inv_ext; [exact Hi|done|done|done|by eapply cfg_update_fail|done].
Qed.

Lemma disarm_spec c w l f :
  inv c w l f →
  wp vg_ctrl_disarm (λ rc s',
    inv s'.1 s'.2 [] [] ∧ cfg s'.1 = cfg c ∧ maps s'.1 = maps c
    ∧ (∀ m, m ≠ drop_v4 → m ≠ drop_v6 → same_trie m w s'.2)
    ∧ (∀ m k, m = drop_v4 ∨ m = drop_v6 → is_Some (lpm_view m s'.2 !! k) →
         is_Some (lpm_view m w !! k) ∧ refused m k s'.2)
    ∧ (rc = 0 ∧ state s'.1 = VG_IDLE ∨ rc = -1 ∧ state s'.1 = state c)) (c, w).
Proof.
  intros Hi. unfold vg_ctrl_disarm. apply wp_bind, wp_onK. unfold vg_drop_flush. apply wp_bind.
  eapply wp_mono; [apply flush_lpm_spec|]. intros _ w1 (Hb1 & Hv1 & Hr1).
  eapply wp_mono; [eapply wp_past; [apply grows_flush|apply flush_lpm_spec]|].
  intros _ w2 ((Hb2 & Hv2 & Hr2) & Hp2).
  apply wp_bind, wp_onD. destruct (drops_reset_spec _ _ _ (inv_rep _ _ _ _ Hi))
    as (t' & Et & Hrep & _). exists tt, t'. split; [done|].
  apply wp_bind, wp_getc. apply wp_bind, wp_onK. unfold vg_cfg_commit. apply wp_call.
  cbn [cfg set_drops].
  pose proof (cfg_update_tries (bpf_cfg_of 0 (cfg c)) w2) as Ht.
  pose proof (cfg_update_past (bpf_cfg_of 0 (cfg c)) w2) as Hp3%same_past_past.
  destruct (bpf_cfg_update (bpf_cfg_of 0 (cfg c)) w2) as [e w3] eqn:E. cbn [fst snd] in *.
  destruct Hb1 as [Hb1 Hc1], Hb2 as [Hb2 Hc2].
  assert (∀ m, m ≠ drop_v4 → m ≠ drop_v6 → same_trie m w w3) as Hother.
  { intros m H4 H6. destruct (Hb1 m H4), (Hb2 m H6), (Ht m). split; congruence. }
  assert (lpm_view drop_v4 w3 = lpm_view drop_v4 w1) as E4.
  { destruct (Hb2 drop_v4), (Ht drop_v4); [done|]. congruence. }
  assert (lpm_view drop_v6 w3 = lpm_view drop_v6 w2) as E6 by (destruct (Ht drop_v6); congruence).
  assert (lpm_view drop_v6 w1 = lpm_view drop_v6 w) as E61 by (by destruct (Hb1 drop_v6)).
  assert (∀ m k, m = drop_v4 ∨ m = drop_v6 → is_Some (lpm_view m w3 !! k) →
         is_Some (lpm_view m w !! k) ∧ refused m k w3) as Hleft.
  { intros m k [-> | ->]; rewrite ?E4, ?E6; intros Hk; 
      (split; [|apply (past_refused _ _ _ _ Hp3);
                first [by apply (past_refused _ _ _ _ Hp2), Hr1|by apply Hr2]]).
    - destruct Hk as [v Hk]. eapply lookup_weaken in Hk; [|done]. by eauto.
    - destruct Hk as [v Hk]. eapply lookup_weaken in Hk; [|done]. rewrite E61 in Hk. by eauto. }
  destruct (e =? 0) eqn:Ee; breflect; cbn [negb].
  - subst e. do 2 (apply wp_bind, wp_modc). apply wp_ret. cbn. split_and!; try done; [|by left].
    destruct Hi. split; cbn; try done; [|by intros i ?%elem_of_nil].
    eexists. split; [by eapply cfg_update_ok|]. done.
  - apply wp_ret. cbn. split_and!; try done; [|by right].
    destruct Hi. split; cbn; try done; [|by intros i ?%elem_of_nil].
    erewrite cfg_update_fail, Hc2, Hc1 by done. done.
Qed.

(** ** Map updates *)

Lemma drop_del_spec p w :
  prefix_ok p →
  wp (vg_drop_del p) (λ e w',
    (e = 0 ∨ e = ENOENT) ∧ map_deleted w w' p
    ∨ e ≠ 0 ∧ e ≠ ENOENT ∧ same_tries w w' ∧ refused (drop_fd p) (lpm_key_of p) w') w.
Proof.
  intros Hp. unfold vg_drop_del, lpm_delete. apply wp_call.
  assert (key_ok (drop_fd p) (lpm_key_of p)) as Hk.
  { apply lpm_key_ok; [done|]. apply drop_fd_fits, Hp. }
  destruct (bpf_lpm_delete (drop_fd p) (lpm_key_of p) w) as [e w'] eqn:E. cbn [fst snd].
  destruct (decide (e = 0)) as [->|He].
  - left. split; [by left|]. destruct (delete_ok _ _ _ _ Hk E) as (_ & Hv & _ & Hb & Hc).
    split_and!; [done| |done]. intros m Hm. apply (Hb m Hm).
  - pose proof (delete_fail _ _ _ _ _ E He) as Hs. destruct (decide (e = ENOENT)) as [->|He'].
    + left. split; [by right|]. pose proof (delete_enoent _ _ _ _ Hk E) as Hn.
      destruct Hs as [Hs Hc]. split_and!; [|intros m _; apply Hs|done].
      destruct (Hs (drop_fd p)) as [-> _]. by rewrite delete_id.
    + right. split_and!; try done. apply (delete_past _ _ _ _ _ LpmDelete _ _ E). by right.
Qed.

Lemma drop_put_spec p rs now w :
  prefix_ok p →
  wp (vg_drop_add p rs now) (λ e w',
    e = 0 ∧ map_added w w' p (VDrop (DropEntry rs now)) ∨ e ≠ 0 ∧ same_tries w w') w.
Proof.
  intros Hp. unfold vg_drop_add, lpm_update. apply wp_call.
  assert (key_ok (drop_fd p) (lpm_key_of p)) as Hk.
  { apply lpm_key_ok; [done|]. apply drop_fd_fits, Hp. }
  destruct (bpf_lpm_update (drop_fd p) (lpm_key_of p) _ w) as [e w'] eqn:E. cbn [fst snd].
  destruct (decide (e = 0)) as [->|He].
  - left. destruct (update_ok _ _ _ _ _ Hk E) as (Hv & Hb & Hc). split; [done|].
    split_and!; [done| |done]. intros m Hm. apply (Hb m Hm).
  - right. split; [done|]. by eapply update_fail.
Qed.

Lemma deref_spec c w l f i Q :
  inv c w l f → i ∈ l → Q (get_rec (drops c) i) (c, w) → wp (deref i) Q (c, w).
Proof.
  intros Hi Hin HQ. unfold deref. apply wp_bind, wp_getc.
  eapply wp_lift; [|done]. eapply rec_at_in; [apply Hi|]. set_solver.
Qed.

(** ** Removing a listed drop *)

Lemma inv_nodup c w l f : inv c w l f → NoDup l.
Proof. intros Hi. pose proof (rep_nodup _ _ _ _ (inv_rep _ _ _ _ Hi)) as H. by apply NoDup_app in H as [? _]. Qed.

Lemma drop_remove_spec c w l1 r l2 f :
  inv c w (l1 ++ r :: l2) f →
  let p := cidr (get_rec (drops c) r) in
  wp (drop_remove r) (λ rc s',
    rc = 0 ∧ inv s'.1 s'.2 (l1 ++ l2) (f ++ [r]) ∧ map_deleted w s'.2 p
      ∧ (∃ t', s'.1 = set_drops c t' ∧ drop_pool t' = drop_pool (drops c)
               ∧ drop_pool_cap t' = drop_pool_cap (drops c))
    ∨ rc = -1 ∧ s'.1 = c ∧ same_tries w s'.2 ∧ refused (drop_fd p) (lpm_key_of p) s'.2) (c, w).
Proof.
  intros Hi p. assert (r ∈ l1 ++ r :: l2) as Hr by set_solver.
  pose proof (inv_prefix _ _ _ _ _ Hi Hr) as Hp. fold p in Hp.
  unfold drop_remove. apply wp_bind. eapply deref_spec; [done|done|].
  apply wp_bind, wp_onK. eapply wp_mono; [by apply drop_del_spec|].
  intros e w' [[He Hd]|(He1 & He2 & Hs & Hrf)].
  - replace (negb (e =? 0) && negb (e =? ENOENT)) with false by (by destruct He as [-> | ->]).
    apply wp_bind, wp_onD.
    destruct (drop_unlink_spec _ _ _ _ _ (inv_rep _ _ _ _ Hi)) as (t' & Et & Hrep & Hpool & Hcap).
    exists tt, t'. split; [done|]. apply wp_ret. left. cbn. split_and!; try done; [|by exists t'].
    destruct Hi. split; cbn; try done.
    + by rewrite (proj2 (proj2 Hd)).
    + intros Hs. specialize (inv_idle0 Hs). by destruct l1.
    + assert (∀ i, get_rec t' i = get_rec (drops c) i) as Hg
        by (intros i; unfold get_rec; by rewrite Hpool).
      intros i Hin. rewrite Hg.
      assert (i ∈ l1 ++ r :: l2) as Hin' by set_solver.
      apply (in_map_deleted w w' p); [done|done|apply (rep_ok _ _ _ _ inv_rep0 i Hin')|].
      split; [by apply inv_map0|]. intros E.
      assert (i = r) as -> by (by apply (rep_uniq _ _ _ _ inv_rep0)).
      pose proof (rep_nodup _ _ _ _ inv_rep0) as Hnd. apply NoDup_app in Hnd as [Hnd _].
      apply NoDup_app in Hnd as (_ & Hd1 & Hd2). apply NoDup_cons in Hd2 as [Hd2 _].
      apply elem_of_app in Hin as [Hin|Hin]; [|done]. apply (Hd1 r Hin). set_solver.
  - apply Z.eqb_neq in He1 as ->. apply Z.eqb_neq in He2 as ->. cbn [negb andb].
    apply wp_ret. by right.
Qed.

(** ** Adding a drop *)

(** The listed records, oldest first. *)
Definition recs c (l : list Z) : list vg_drop_rec := listed (drops c) l.

(** A timed drop of a policy or aggregate record first gives the record the
    lift time its ban has. *)
Definition preset (cf : vg_config) (rs : Z) (rc : vg_drop_rec) : vg_drop_rec :=
  if (rs =? VG_REASON_TIMED) && negb (reason rc =? VG_REASON_TIMED)
  then DropRec (cidr rc) (reason rc) (inserted rc) (inserted rc + ban_time cf) else rc.

(** The record after a re-drop: manual and timed drops take it over, a timed
    one only ever later; policy and aggregate drops leave it alone. *)
Definition redrop (cf : vg_config) (rs now exp : Z) (rc : vg_drop_rec) : vg_drop_rec :=
  if rs =? VG_REASON_MANUAL then DropRec (cidr rc) rs now exp
  else if rs =? VG_REASON_TIMED
  then DropRec (cidr rc) rs now (Z.max exp (expires (preset cf rs rc)))
  else rc.

(** The fields of the controller the drop operations leave alone. *)
Definition settled c c' : Prop := cfg c' = cfg c ∧ maps c' = maps c ∧ state c' = state c.

Lemma drop_add_new_spec c w l f p rs now exp :
  inv c w l f → state c = VG_ACTIVE → prefix_ok p →
  (∀ i, i ∈ l → cidr (get_rec (drops c) i) ≠ p) →
  wp (drop_add_new p rs now exp) (λ rc s',
    settled c s'.1 ∧
    (rc = 0 ∧ map_added w s'.2 p (VDrop (DropEntry rs (u32 now)))
       ∧ (∃ r f', inv s'.1 s'.2 (l ++ [r]) f'
                  ∧ recs s'.1 (l ++ [r]) = recs c l ++ [DropRec p rs now exp])
     ∨ rc = -1 ∧ same_tries w s'.2 ∧ (∃ f', inv s'.1 s'.2 l f') ∧ recs s'.1 l = recs c l)) (c, w).
Proof.
  intros Hi Hact Hp Hnew. unfold drop_add_new. apply wp_bind, wp_onD.
  destruct (drop_alloc_spec _ _ _ (inv_rep _ _ _ _ Hi)) as (o & t1 & E1 & Ho).
  exists o, t1. split; [done|]. destruct o as [r|].
  2:{ destruct Ho as [-> _]. apply wp_ret. rewrite set_drops_id. split; [done|]. right.
      split_and!; try done. by exists f. }
  destruct Ho as (f' & Hrep1 & Hpool1 & Hcap1). apply wp_bind, wp_onK.
  eapply wp_mono; [by apply drop_put_spec|]. intros e w' [[-> Ha]|[He Hs]].
  - rewrite Z.eqb_refl. cbn [negb]. apply wp_bind, wp_onD. cbn [drops set_drops].
    assert (∀ i, get_rec t1 i = get_rec (drops c) i) as Hg1
      by (intros i; unfold get_rec; by rewrite Hpool1).
    destruct Hp as [Hok Hcan].
    destruct (drop_link_spec t1 l f' r p rs now exp Hrep1) as (t2 & E2 & Hrep2 & Hcap2 & Hg2);
      [done|done|intros i Hin; rewrite Hg1; by apply Hnew|].
    exists tt, t2. split; [done|]. apply wp_bind, wp_modc, wp_ret. split; [done|]. left.
    assert (r ∉ l) as Hrl.
    { pose proof (rep_nodup _ _ _ _ Hrep1) as Hnd. apply NoDup_app in Hnd as (_ & Hnd & _).
      intros Hin. apply (Hnd r Hin). set_solver. }
    assert (∀ i, i ∈ l → get_rec t2 i = get_rec (drops c) i) as Hg.
    { intros i Hin. rewrite Hg2, decide_False, Hg1; [done|]. by intros ->. }
    split_and!; [done|done|]. exists r, f'. split.
    + destruct Hi. split; cbn; try done.
      * by rewrite (proj2 (proj2 Ha)).
      * intros Hs. congruence.
      * intros i Hin. apply elem_of_app in Hin as [Hin| ->%list_elem_of_singleton].
        { rewrite Hg by done. apply (in_map_added w w' p _ _ Ha); [done|by apply (rep_ok _ _ _ _ inv_rep0)|].
          left. by apply inv_map0. }
        rewrite Hg2, decide_True by done. by apply (in_map_added w w' p _ _ Ha); [done..|right].
    + unfold recs, listed. cbn. rewrite fmap_app. f_equal; [by apply listed_same|].
      simpl. by rewrite Hg2, decide_True.
  - apply Z.eqb_neq in He as ->. cbn [negb]. apply wp_bind, wp_onD. cbn [drops set_drops].
    destruct (drop_give_back_spec _ _ _ _ Hrep1) as (t2 & E2 & Hrep2 & Hpool2 & Hcap2).
    exists tt, t2. split; [done|]. apply wp_ret. split; [done|]. right.
    assert (∀ i, get_rec t2 i = get_rec (drops c) i) as Hg
      by (intros i; unfold get_rec; by rewrite Hpool2, Hpool1).
    split_and!; [done|done| |by apply listed_same]. exists (f' ++ [r]).
    apply (inv_tries _ w); [|done]. destruct Hi. split; cbn; try done.
    intros i Hin. rewrite Hg. by apply inv_map0.
Qed.

(** Rewriting a record, its prefix kept. *)
Lemma put_inv c w l f k i r :
  inv c w l f → l !! k = Some i → cidr r = cidr (get_rec (drops c) i) →
  wp (onD (put_rec i r)) (λ _ s',
    inv s'.1 s'.2 l f ∧ settled c s'.1 ∧ s'.2 = w ∧ recs s'.1 l = <[k := r]> (recs c l)
    ∧ get_rec (drops s'.1) i = r) (c, w).
Proof.
  intros Hi Hk Hc. assert (i ∈ l) as Hin by (by eapply list_elem_of_lookup_2).
  destruct (put_rec_spec _ _ _ _ r (inv_rep _ _ _ _ Hi) Hin Hc) as (t' & Et & Hrep & Hcap & Hg).
  apply wp_onD. exists tt, t'. split; [done|]. cbn.
  assert (∀ j, cidr (get_rec t' j) = cidr (get_rec (drops c) j)) as Hcg.
  { intros j. rewrite Hg. case_decide; [by subst|done]. }
  split_and!; try done.
  - destruct Hi. split; cbn; try done. intros j Hj. rewrite Hcg. by apply inv_map0.
  - apply (listed_insert _ _ _ _ i); [by eapply inv_nodup|done|done].
  - by rewrite Hg, decide_True.
Qed.

Lemma recs_lookup c l k i : l !! k = Some i → recs c l !! k = Some (get_rec (drops c) i).
Proof. intros H. unfold recs, listed. by rewrite list_lookup_fmap, H. Qed.

Lemma insert_recs_id c l k i : l !! k = Some i → <[k := get_rec (drops c) i]> (recs c l) = recs c l.
Proof. intros H. apply list_insert_id. by apply recs_lookup. Qed.

Lemma preset_cidr cf rs rc : cidr (preset cf rs rc) = cidr rc.
Proof. unfold preset. by destruct (_ && _). Qed.

(** The first write of [drop_add_again]. *)
Lemma preset_spec c w l f k i rs :
  inv c w l f → l !! k = Some i →
  let rc := get_rec (drops c) i in
  wp (if (rs =? VG_REASON_TIMED) && negb (reason rc =? VG_REASON_TIMED)
      then onD (put_rec i (DropRec (cidr rc) (reason rc) (inserted rc)
                             (inserted rc + ban_time (cfg c))))
      else mret tt) (λ _ s',
    inv s'.1 s'.2 l f ∧ settled c s'.1 ∧ s'.2 = w
    ∧ recs s'.1 l = <[k := preset (cfg c) rs rc]> (recs c l)
    ∧ get_rec (drops s'.1) i = preset (cfg c) rs rc) (c, w).
Proof.
  intros Hi Hk rc. unfold preset. destruct (_ && _).
  - by apply put_inv.
  - apply wp_ret. split_and!; try done. symmetry. by apply insert_recs_id.
Qed.

(** The three ways a re-drop of the record [rc] at position [k] ends. *)
Definition again_post c w (l f : list Z) (k : nat) p (rs now exp : Z) (rc : vg_drop_rec)
    (z : Z) (s' : vg_ctrl * K) : Prop :=
  inv s'.1 s'.2 l f ∧ settled c s'.1 ∧
  (z = 0 ∧ rs = VG_REASON_TIMED ∧ reason rc = VG_REASON_MANUAL ∧ s' = (c, w)
   ∨ z = 0 ∧ (rs = VG_REASON_TIMED → reason rc ≠ VG_REASON_MANUAL)
     ∧ map_added w s'.2 p (VDrop (DropEntry rs (u32 now)))
     ∧ recs s'.1 l = <[k := redrop (cfg c) rs now exp rc]> (recs c l)
   ∨ z = -1 ∧ (rs = VG_REASON_TIMED → reason rc ≠ VG_REASON_MANUAL) ∧ same_tries w s'.2
     ∧ recs s'.1 l = <[k := preset (cfg c) rs rc]> (recs c l)).

Lemma drop_add_again_spec c w l f k i p rs now exp :
  inv c w l f → l !! k = Some i → prefix_ok p → cidr (get_rec (drops c) i) = p →
  let rc := get_rec (drops c) i in
  wp (drop_add_again i p rs now exp) (again_post c w l f k p rs now exp rc) (c, w).
Proof.
  intros Hi Hk Hp Hcp rc. assert (i ∈ l) as Hin by (by eapply list_elem_of_lookup_2).
  unfold drop_add_again. apply wp_bind. eapply deref_spec; [done|done|]. fold rc.
  destruct ((rs =? VG_REASON_TIMED) && (reason rc =? VG_REASON_MANUAL)) eqn:Etm.
  { breflect. apply wp_ret. split; [done|]. split; [done|]. by left. }
  assert (rs = VG_REASON_TIMED → reason rc ≠ VG_REASON_MANUAL) as Htm.
  { intros -> E. rewrite E in Etm. done. }
  apply wp_bind, wp_getc. apply wp_bind.
  eapply wp_mono; [by apply (preset_spec c w l f k i rs)|]. fold rc.
  intros _ [c1 w1] (Hi1 & Hset1 & Ew & Hr1 & Hg1). cbn [fst snd] in *. subst w1.
  apply wp_bind. eapply deref_spec; [done|done|]. rewrite Hg1.
  apply wp_bind, wp_onK. eapply wp_mono; [by apply drop_put_spec|].
  intros e w' [[-> Ha]|[He Hs]].
  2:{ apply Z.eqb_neq in He as ->. cbn [negb]. apply wp_ret. split; [by eapply inv_tries|].
      split; [done|]. by right; right. }
  rewrite Z.eqb_refl. cbn [negb]. apply wp_bind.
  assert (inv c1 w' l f) as Hi1'.
  { eapply inv_ext; [exact Hi1|done|done|apply Hi1|apply Ha|]. intros q Hq.
    destruct Ha as (Hv & Ho & _). unfold in_map in *. destruct (decide (drop_fd q = drop_fd p)) as [E|E].
    - rewrite E, Hv in *. destruct (decide (lpm_key_of p = lpm_key_of q)) as [Ek|Ek].
      + rewrite Ek, lookup_insert_eq. by eauto.
      + by rewrite lookup_insert_ne.
    - by rewrite Ho. }
  set (exp' := if (rs =? VG_REASON_TIMED) && _ then _ else exp).
  assert (∀ c2 w2, inv c2 w2 l f → settled c c2 → w2 = w' →
    recs c2 l = <[k := redrop (cfg c) rs now exp rc]> (recs c l) →
    wp (_ ← modc (λ c, set_drop_stats c (drops_new c) (drops_again c + 1)); mret 0) (again_post c w l f k p rs now exp rc)
      (c2, w2)) as Hend.
  { intros c2 w2 Hi2 Hs2 -> Hr2. apply wp_bind, wp_modc, wp_ret. split_and!; try done.
    - eapply inv_ext; [exact Hi2|done|done|apply Hi2|done|done].
    - right. left. split_and!; done. }
  destruct ((rs =? VG_REASON_MANUAL) || (rs =? VG_REASON_TIMED)) eqn:Emt.
  - eapply wp_mono; [apply (put_inv c1 w' l f k i); [done|done|by rewrite Hg1]|].
    intros _ [c2 w2] (Hi2 & Hset2 & E2 & Hr2 & _). cbn [fst snd] in *.
    apply Hend; [done| |done|].
    { destruct Hset1 as (? & ? & ?), Hset2 as (? & ? & ?). split_and!; congruence. }
    rewrite Hr2, Hr1, list_insert_insert_eq. f_equal. unfold redrop, exp'.
    rewrite preset_cidr.
    destruct (rs =? VG_REASON_MANUAL) eqn:E1; [breflect; by subst rs|].
    destruct (rs =? VG_REASON_TIMED) eqn:E2'; [|done]. f_equal. cbn [andb].
    destruct (exp <? expires (preset (cfg c) rs rc)) eqn:E3; breflect; lia.
  - apply wp_ret. apply Hend; [done..|]. rewrite Hr1. f_equal. unfold redrop, preset. breflect.
    repeat match goal with H : rs ≠ _ |- _ => apply Z.eqb_neq in H; rewrite H; clear H end. done.
Qed.

(** The entries of the tries, the cfg array aside. *)
Definition views_same w w' : Prop := ∀ m, lpm_view m w' = lpm_view m w.
Definition views_added w w' p (v : lpm_val) : Prop :=
  lpm_view (drop_fd p) w' = <[lpm_key_of p := v]> (lpm_view (drop_fd p) w)
  ∧ ∀ m, m ≠ drop_fd p → lpm_view m w' = lpm_view m w.

Definition not_listed (rs : list vg_drop_rec) p : Prop := ∀ r, r ∈ rs → cidr r ≠ p.

(** What [drop_add] may do: the return value, the list of records before and
    after, the state after, and the tries. *)
Inductive drop_outcome (c : vg_ctrl) (w : K) (p : vg_cidr) (rs now exp : Z)
    (old : list vg_drop_rec) : Z → list vg_drop_rec → vg_state → K → Prop :=
  | out_protected w' :
      vg_cidr_is_protected (cfg c) p = true → views_same w w' →
      drop_outcome c w p rs now exp old (-1) old (state c) w'
  | out_not_armed w' :
      state c = VG_IDLE → views_same w w' →
      drop_outcome c w p rs now exp old (-1) old VG_IDLE w'
  | out_no_room w' :
      not_listed old p → views_same w w' →
      drop_outcome c w p rs now exp old (-1) old VG_ACTIVE w'
  | out_new w' :
      vg_cidr_is_protected (cfg c) p = false → not_listed old p →
      views_added w w' p (VDrop (DropEntry rs (u32 now))) →
      drop_outcome c w p rs now exp old 0 (old ++ [DropRec p rs now exp]) VG_ACTIVE w'
  | out_manual_stays k rc w' :
      old !! k = Some rc → cidr rc = p → rs = VG_REASON_TIMED →
      reason rc = VG_REASON_MANUAL → views_same w w' →
      drop_outcome c w p rs now exp old 0 old VG_ACTIVE w'
  | out_again k rc w' :
      vg_cidr_is_protected (cfg c) p = false →
      old !! k = Some rc → cidr rc = p →
      (rs = VG_REASON_TIMED → reason rc ≠ VG_REASON_MANUAL) →
      views_added w w' p (VDrop (DropEntry rs (u32 now))) →
      drop_outcome c w p rs now exp old 0 (<[k := redrop (cfg c) rs now exp rc]> old) VG_ACTIVE w'
  | out_again_failed k rc w' :
      old !! k = Some rc → cidr rc = p →
      (rs = VG_REASON_TIMED → reason rc ≠ VG_REASON_MANUAL) → views_same w w' →
      drop_outcome c w p rs now exp old (-1) (<[k := preset (cfg c) rs rc]> old) VG_ACTIVE w'.

Lemma views_same_tries w w' : same_tries w w' → views_same w w'.
Proof. intros [H _] m. apply H. Qed.

Lemma views_same_of w w' : same_maps w w' → views_same w w'.
Proof. intros H. by apply views_same_tries, same_maps_tries. Qed.

Lemma views_trans w1 w2 w3 : views_same w1 w2 → views_same w2 w3 → views_same w1 w3.
Proof. intros H1 H2 m. by rewrite H2, H1. Qed.

Lemma views_added_trans w1 w2 w3 p v :
  views_same w1 w2 → map_added w2 w3 p v → views_added w1 w3 p v.
Proof.
  intros H1 (H2 & H3 & _). split; [by rewrite H2, H1|]. intros m Hm. by rewrite H3, H1.
Qed.

Definition now_of w : Z := (sys_time w).1.

Lemma drop_add_spec c w l f p rs exp :
  inv c w l f → prefix_ok p →
  wp (drop_add p rs exp) (λ z s', ∃ l' f',
    inv s'.1 s'.2 l' f' ∧ cfg s'.1 = cfg c ∧ maps s'.1 = maps c
    ∧ drop_outcome c w p rs (now_of w) exp (recs c l) z (recs s'.1 l') (state s'.1) s'.2) (c, w).
Proof.
  intros Hi Hp. unfold drop_add. apply wp_bind, wp_onK, wp_call. fold (now_of w).
  pose proof (time_same w) as Ht. set (w0 := (sys_time w).2) in *.
  pose proof (inv_same _ _ _ _ _ Hi Ht) as Hi0. pose proof (views_same_of _ _ Ht) as Hv0.
  apply wp_bind, wp_getc. destruct (vg_cidr_is_protected (cfg c) p) eqn:Epr.
  { apply wp_ret. exists l, f. split_and!; try done. by constructor. }
  apply wp_bind, wp_getc. apply wp_bind.
  assert (wp (if negb (bool_decide (state c = VG_ACTIVE)) then vg_ctrl_arm else mret 0)
    (λ rc s', inv s'.1 s'.2 l f ∧ frame c w0 s'.1 s'.2
    ∧ (rc = 0 ∧ state s'.1 = VG_ACTIVE
       ∨ rc = -1 ∧ state c = VG_IDLE ∧ state s'.1 = VG_IDLE)) (c, w0)) as Harm.
  { case_bool_decide; cbn [negb]; [|by apply arm_spec].
    apply wp_ret. unfold frame. cbn. split_and!; try done. by left. }
  eapply wp_mono; [exact Harm|]. clear Harm.
  intros z [c1 w1] (Hi1 & (Hd & Hc & Hm & _ & _ & Htr) & Hz). cbn [fst snd] in *.
  assert (views_same w w1) as Hv1.
  { eapply views_trans; [done|]. intros m. apply Htr. }
  assert (recs c1 l = recs c l) as Hrecs by (unfold recs; by rewrite Hd).
  destruct Hz as [[-> Hst]|(-> & Hst & Hst')]; cbn [Z.ltb Z.compare].
  2:{ apply wp_ret. exists l, f. cbn. rewrite Hst', Hrecs. split_and!; try done.
      by apply out_not_armed. }
  apply wp_bind, wp_onD. destruct Hp as [Hok Hcan].
  destruct (drops_find_spec _ _ _ _ p (inv_rep _ _ _ _ Hi1) Hok Hcan) as (o & Eo & Ho).
  exists o, (drops c1). split; [done|]. rewrite set_drops_id. destruct o as [i|].
  - destruct Ho as [Hin Hcp]. apply list_elem_of_lookup_1 in Hin as [k Hk].
    eapply wp_mono; [by apply (drop_add_again_spec c1 w1 l f k i)|].
    intros z [c2 w2] (Hi2 & (Hc2 & Hm2 & Hs2) & Hpost). cbn [fst snd] in *.
    exists l, f. split_and!; [done|congruence|congruence|].
    pose proof (recs_lookup c1 l k i Hk) as Hlk. rewrite Hrecs in *. rewrite Hs2, Hst, Hc in *.
    destruct Hpost as [(-> & -> & Hm3 & [= -> ->])|[(-> & Ht3 & Ha & ->)|(-> & Ht3 & Hs & ->)]].
    + rewrite Hrecs. by eapply out_manual_stays.
    + eapply out_again; try done. by eapply views_added_trans.
    + eapply out_again_failed; try done. eapply views_trans; [done|]. by apply views_same_tries.
  - assert (not_listed (recs c l) p) as Hnl.
    { rewrite <-Hrecs. intros r (i & -> & Hin)%list_elem_of_fmap. by apply Ho. }
    eapply wp_mono; [by apply (drop_add_new_spec c1 w1 l f)|].
    intros z [c2 w2] ((Hc2 & Hm2 & Hs2) & Hpost). cbn [fst snd] in *.
    destruct Hpost as [(-> & Ha & r & f' & Hi2 & Hr2)|(-> & Hs & (f' & Hi2) & Hr2)].
    + exists (l ++ [r]), f'. rewrite Hr2, Hs2, Hst, Hrecs. split_and!; [done|congruence|congruence|].
      apply out_new; try done. by eapply views_added_trans.
    + exists l, f'. rewrite Hr2, Hs2, Hst, Hrecs. split_and!; [done|congruence|congruence|].
      apply out_no_room; [done|]. eapply views_trans; [done|]. by apply views_same_tries.
Qed.
End PolicyThms.
