(* ===== verification/SweepThms.v ===== *)
(** * The controller: lifting drops

    Undrop, and the walks over [drop_all] that may unlink the record they
    stand on: expiry and the pruning of protected prefixes. *)

From S2P Require Import Prelude Types Ipaddr IpaddrThms Config Kernel Maps MapsThms Lists.
From S2P Require Import DropTable DropThms Snap SnapThms Double Policy PolicyThms.
Import Dlist Hlist.
Open Scope Z_scope.

Section Sweep.
Context {K : Type} `{!Kernel K} `{!KernelLaws K}.
Implicit Types (w : K) (c : vg_ctrl) (p q : vg_cidr).

Lemma settled_refl c : settled c c.
Proof. done. Qed.

Lemma settled_trans c1 c2 c3 : settled c1 c2 → settled c2 c3 → settled c1 c3.
Proof. intros (? & ? & ?) (? & ? & ?). split_and!; congruence. Qed.

(** ** Undrop *)

Definition without p (l : list vg_drop_rec) : list vg_drop_rec := filter (λ r, cidr r ≠ p) l.

Lemma without_none p l : not_listed l p → without p l = l.
Proof.
  induction l as [|r l IH]; intros Hn; [done|]. unfold without. rewrite filter_cons, decide_True.
  - f_equal. apply IH. intros r' Hr. apply Hn. set_solver.
  - apply Hn. set_solver.
Qed.

Lemma undrop_spec c w l f p :
  inv c w l f → prefix_ok p →
  wp (vg_ctrl_undrop p) (λ z s', ∃ l' f',
    inv s'.1 s'.2 l' f' ∧ settled c s'.1 ∧
    (z = 0 ∧ map_deleted w s'.2 p ∧ recs s'.1 l' = without p (recs c l)
     ∨ z = -1 ∧ s'.1 = c ∧ l' = l ∧ same_tries w s'.2
       ∧ refused (drop_fd p) (lpm_key_of p) s'.2)) (c, w).
Proof.
  intros Hi Hp. unfold vg_ctrl_undrop. apply wp_bind, wp_onD.
  destruct (drops_find_spec _ _ _ _ p (inv_rep _ _ _ _ Hi)) as (o & Eo & Ho); [apply Hp..|].
  exists o, (drops c). split; [done|]. rewrite set_drops_id. destruct o as [r|].
  - destruct Ho as [Hin Hcp]. apply list_elem_of_split in Hin as (l1 & l2 & ->).
    apply wp_bind. eapply wp_mono; [by apply drop_remove_spec|]. rewrite Hcp.
    intros z [c' w'] [(-> & Hi' & Hd & t' & Et & Hpool & _)|(-> & Hc & Hs & Hrf)]; cbn [fst snd] in *.
    + apply wp_ret. exists (l1 ++ l2), (f ++ [r]). subst c'. split_and!; try done. left.
      split_and!; try done.
      assert (not_listed (recs c (l1 ++ l2)) p) as Hnl.
      { intros rc (i & -> & Hin)%list_elem_of_fmap E.
        pose proof (inv_nodup _ _ _ _ Hi) as Hnd. rewrite NoDup_app, NoDup_cons in Hnd.
        assert (i = r) as ->.
        { apply (rep_uniq _ _ _ _ (inv_rep _ _ _ _ Hi)); [set_solver..|congruence]. }
        destruct Hnd as (_ & Hd1 & Hd2 & _). apply elem_of_app in Hin as [Hin|Hin]; [|done].
        apply (Hd1 r Hin). set_solver. }
      transitivity (recs c (l1 ++ l2)); [by apply listed_pool|].
      rewrite <-(without_none p _ Hnl). unfold without, recs, listed.
      rewrite !fmap_app, !filter_app, fmap_cons, filter_cons, decide_False; [done|]. by intros [].
    + apply wp_ret. subst c'. exists (l1 ++ r :: l2), f. split_and!; [by eapply inv_tries|done|].
      by right.
  - apply wp_bind, wp_onK. eapply wp_mono; [by apply drop_del_spec|].
    assert (not_listed (recs c l) p) as Hnl.
    { intros rc (i & -> & Hin)%list_elem_of_fmap. by apply Ho. }
    intros e w' [[He Hd]|(He1 & He2 & Hs & Hrf)].
    + replace (negb (e =? 0) && negb (e =? ENOENT)) with false by (by destruct He as [-> | ->]).
      apply wp_ret. exists l, f. split_and!; [|done|left; split_and!; [done..|by rewrite without_none]].
      destruct Hi as [Hr Hsn Har Hid Hmp]. split; cbn; try done; [by rewrite (proj2 (proj2 Hd))|].
      intros i Hin. apply (in_map_deleted w w' p); [done|done|by apply (rep_ok _ _ _ _ Hr)|].
      split; [by apply Hmp|by apply Ho].
    + apply Z.eqb_neq in He1 as ->. apply Z.eqb_neq in He2 as ->. cbn [negb andb].
      apply wp_ret. exists l, f. split_and!; [by eapply inv_tries|done|by right].
Qed.

(** ** Walks that unlink *)

(** Entries were only deleted, and only from the drop tries; some deletes may
    have been refused. *)
Definition only_deleted w w' : Prop :=
  xdp_cfg w' = xdp_cfg w ∧ (∀ m, lpm_view m w' ⊆ lpm_view m w)
  ∧ (∀ m, m ≠ drop_v4 → m ≠ drop_v6 → lpm_view m w' = lpm_view m w) ∧ past w w'.

Lemma only_deleted_trans w1 w2 w3 :
  only_deleted w1 w2 → only_deleted w2 w3 → only_deleted w1 w3.
Proof.
  intros (H1 & H2 & H3 & H7) (H4 & H5 & H6 & H8). split_and!; [congruence| | |by eapply past_trans].
  - intros m. etrans; [apply H5|apply H2].
  - intros m Ha Hb. by rewrite H6, H3.
Qed.

Lemma only_deleted_tries w w' : same_tries w w' → past w w' → only_deleted w w'.
Proof.
  intros [H1 H2] Hp. split_and!; [done| | |done]; intros m; [|intros _ _]; by destruct (H1 m) as [-> _].
Qed.

Lemma only_deleted_same w w' : same_maps w w' → only_deleted w w'.
Proof. intros H. by apply only_deleted_tries; [apply same_maps_tries|apply same_maps_past]. Qed.

Lemma only_deleted_refl w : only_deleted w w.
Proof. apply only_deleted_same, same_maps_refl. Qed.

Lemma only_deleted_del w w' p : map_deleted w w' p → past w w' → only_deleted w w'.
Proof.
  intros (H1 & H2 & H3) Hp. split_and!; [done| | |done].
  - intros m. destruct (decide (m = drop_fd p)) as [->|Hm]; [rewrite H1; apply delete_subseteq|].
    by rewrite H2.
  - intros m Ha Hb. apply H2. unfold drop_fd. by destruct (family p =? AF_INET).
Qed.

Lemma not_in_map_mono w w' p : only_deleted w w' → ¬ in_map w p → ¬ in_map w' p.
Proof.
  intros (_ & H & _) Hn [v Hv]. apply Hn. exists v. by eapply lookup_weaken.
Qed.

(** A delete of the record's map entry was refused. *)
Definition entry_refused (r : vg_drop_rec) w : Prop := refused (drop_fd (cidr r)) (lpm_key_of (cidr r)) w.

(** A body that lifts the record it is given when [sel] says so. *)
Definition lifts (cf : vg_config) (sel : vg_drop_rec → bool) (body : Z → M (vg_ctrl * K) Z) : Prop :=
  ∀ c w l1 i l2 f, inv c w (l1 ++ i :: l2) f → cfg c = cf →
  let r := get_rec (drops c) i in
  wp (body i) (λ x s',
    settled c s'.1 ∧ only_deleted w s'.2 ∧ drop_pool (drops s'.1) = drop_pool (drops c)
    ∧ walk_fuel (drops s'.1) = walk_fuel (drops c) ∧
    (x = 0 ∧ inv s'.1 s'.2 (l1 ++ i :: l2) f ∧ (sel r = true → entry_refused r s'.2)
     ∨ x = 1 ∧ inv s'.1 s'.2 (l1 ++ l2) (f ++ [i]) ∧ sel r = true ∧ ¬ in_map s'.2 (cidr r))) (c, w).

Lemma remove_lifts c w l1 i l2 f (good : Z → Z) :
  inv c w (l1 ++ i :: l2) f → good 0 = 1 → good (-1) = 0 →
  let r := get_rec (drops c) i in
  wp (x ← drop_remove i; mret (good x)) (λ x s',
    settled c s'.1 ∧ only_deleted w s'.2 ∧ drop_pool (drops s'.1) = drop_pool (drops c)
    ∧ walk_fuel (drops s'.1) = walk_fuel (drops c) ∧
    (x = 0 ∧ inv s'.1 s'.2 (l1 ++ i :: l2) f ∧ entry_refused r s'.2
     ∨ x = 1 ∧ inv s'.1 s'.2 (l1 ++ l2) (f ++ [i]) ∧ ¬ in_map s'.2 (cidr r))) (c, w).
Proof.
  intros Hi G0 G1 r. apply wp_bind.
  eapply wp_mono; [eapply wp_past; [apply grows_drop_remove|by apply drop_remove_spec]|].
  intros z [c' w'] [[(-> & Hi' & Hd & t' & Et & Hpool & Hcap)|(-> & Hc & Hs & Hrf)] Hpa]; cbn [fst snd] in *;
    subst c'; apply wp_ret; cbn [fst snd].
  - split_and!; [done|by eapply only_deleted_del|done|unfold walk_fuel; simpl; by rewrite Hcap|].
    right. split_and!; [done|done|]. unfold in_map. fold r in Hd. destruct Hd as (-> & _).
    rewrite lookup_delete_eq. by intros [].
  - split_and!; [done|by apply only_deleted_tries|done|done|]. left.
    split_and!; [done|by eapply inv_tries|done].
Qed.

Lemma expire_lifts cf now : lifts cf (expired cf now) (expire_body now).
Proof.
  intros c w l1 i l2 f Hi Hcf r. unfold expire_body. apply wp_bind.
  eapply deref_spec; [done|set_solver|]. fold r. apply wp_bind, wp_getc. rewrite Hcf.
  destruct (expired cf now r) eqn:E; cbn [negb].
  - eapply wp_mono; [by eapply (remove_lifts c w l1 i l2 f (λ x, if x <? 0 then 0 else 1))|].
    intros x s' (H1 & H2 & H3 & H4 & [(-> & H5 & H6)|(-> & H5 & H6)]);
      (split_and!; [done..|]); [left|right]; done.
  - apply wp_ret. split; [done|]. split; [apply only_deleted_refl|]. split_and!; try done. by left.
Qed.

Lemma prune_lifts cf : lifts cf (λ r, vg_cidr_is_protected cf (cidr r)) prune_body.
Proof.
  intros c w l1 i l2 f Hi Hcf r. unfold prune_body. apply wp_bind.
  eapply deref_spec; [done|set_solver|]. fold r. apply wp_bind, wp_getc. rewrite Hcf.
  destruct (vg_cidr_is_protected cf (cidr r)) eqn:E; cbn [negb].
  - eapply wp_mono; [by eapply (remove_lifts c w l1 i l2 f (λ x, if x =? 0 then 1 else 0))|].
    intros x s' (H1 & H2 & H3 & H4 & [(-> & H5 & H6)|(-> & H5 & H6)]);
      (split_and!; [done..|]); [left|right]; done.
  - apply wp_ret. split; [done|]. split; [apply only_deleted_refl|]. split_and!; try done. by left.
Qed.

(** The result of a walk over the listed records [ys] behind [done]: [ys']
    stay, the rest was selected and is gone from the map. *)
Definition walked (sel : vg_drop_rec → bool) c w (pre ys : list Z) (n : Z)
    (s' : vg_ctrl * K) : Prop :=
  ∃ ys' f', inv s'.1 s'.2 (pre ++ ys') f' ∧ settled c s'.1 ∧ only_deleted w s'.2
    ∧ drop_pool (drops s'.1) = drop_pool (drops c) ∧ sublist ys' ys
    ∧ n = Z.of_nat (length ys) - Z.of_nat (length ys')
    ∧ (∀ i, i ∈ ys → i ∉ ys' → sel (get_rec (drops c) i) = true
                             ∧ ¬ in_map s'.2 (cidr (get_rec (drops c) i)))
    ∧ (∀ i, i ∈ ys' → sel (get_rec (drops c) i) = true → entry_refused (get_rec (drops c) i) s'.2).

Lemma walked_nil sel c w pre f acc : inv c w (pre ++ []) f → walked sel c w pre [] (acc - acc) (c, w).
Proof.
  intros Hi. exists [], f. rewrite Z.sub_diag. split; [done|]. split; [done|].
  split; [apply only_deleted_refl|]. split_and!; try done; by intros i ?%elem_of_nil.
Qed.

(** One turn of the walk, then the rest. *)
Lemma walked_step sel c w pre i ys c1 w1 pre1 x n s' :
  settled c c1 → only_deleted w w1 → drop_pool (drops c1) = drop_pool (drops c) → i ∉ ys →
  (x = 0 ∧ pre1 = pre ++ [i]
     ∧ (sel (get_rec (drops c) i) = true → entry_refused (get_rec (drops c) i) w1)
   ∨ x = 1 ∧ pre1 = pre ∧ sel (get_rec (drops c) i) = true
     ∧ ¬ in_map w1 (cidr (get_rec (drops c) i))) →
  walked sel c1 w1 pre1 ys n s' → walked sel c w pre (i :: ys) (x + n) s'.
Proof.
  intros Hset Hod Hpool Hiy Hx (ys' & f' & Hi' & Hset' & Hod' & Hpool' & Hsub & Hn & Hgone & Hkept).
  assert (∀ j, get_rec (drops c1) j = get_rec (drops c) j) as Hg
    by (intros j; unfold get_rec; by rewrite Hpool).
  assert (∀ j, j ∈ ys' → j ∈ ys) as Hin by (intros j Hj; by eapply (sublist_subseteq ys' ys)).
  destruct Hx as [(-> & -> & Hk)|(-> & -> & Hsel & Hnm)].
  - exists (i :: ys'), f'. rewrite <-app_assoc in Hi'. split_and!; try done.
    + by eapply settled_trans.
    + by eapply only_deleted_trans.
    + congruence.
    + by apply sublist_skip.
    + simpl. lia.
    + intros j Hj Hj'. rewrite <-Hg. apply Hgone; set_solver.
    + intros j [->|Hj]%elem_of_cons; [intros ?; by apply Hod', Hk|]. rewrite <-Hg. by apply Hkept.
  - exists ys', f'. split_and!; try done.
    + by eapply settled_trans.
    + by eapply only_deleted_trans.
    + congruence.
    + by apply sublist_cons.
    + simpl. lia.
    + intros j [->|Hj]%elem_of_cons Hj'.
      * split; [done|]. by eapply not_in_map_mono.
      * rewrite <-Hg. by apply Hgone.
    + intros j Hj. rewrite <-Hg. by apply Hkept.
Qed.

Lemma for_each_spec cf sel body fuel pre ys f c w n acc :
  lifts cf sel body → inv c w (pre ++ ys) f → cfg c = cf → (length ys ≤ fuel)%nat →
  n = walk_pos (tail ys) ∨ ys = [] →
  wp (for_each_safe fuel body (walk_pos ys) n acc) (λ m s', walked sel c w pre ys (m - acc) s')
    (c, w).
Proof.
  intros Hb. revert pre ys f c w n acc.
  induction fuel as [|fuel IH]; intros pre ys f c w n acc Hi Hcf Hf Hn.
  { destruct ys as [|i ys]; simpl in Hf; [|lia]. by eapply wp_ret, walked_nil. }
  destruct ys as [|i ys]; [by eapply wp_ret, walked_nil|].
  destruct Hn as [->|]; [|done]. simpl in Hf. cbn [tail].
  change (walk_pos (i :: ys)) with (L_rec i). cbn [for_each_safe].
  rewrite bool_decide_eq_false_2 by done. apply wp_bind. eapply wp_lift; [done|].
  apply wp_bind. eapply wp_mono; [by apply (Hb c w pre i ys f)|].
  intros x [c1 w1] (Hset & Hod & Hpool & Hfuel & Hx). cbn [fst snd] in *.
  assert (cfg c1 = cf) as Hcf1 by (by rewrite (proj1 Hset)).
  assert (i ∉ ys) as Hiy.
  { pose proof (inv_nodup _ _ _ _ Hi) as Hnd. apply NoDup_app in Hnd as (_ & _ & Hnd).
    by apply NoDup_cons in Hnd as [? _]. }
  assert (∃ pre1 f1, inv c1 w1 (pre1 ++ ys) f1 ∧
    (x = 0 ∧ pre1 = pre ++ [i]
       ∧ (sel (get_rec (drops c) i) = true → entry_refused (get_rec (drops c) i) w1)
     ∨ x = 1 ∧ pre1 = pre ∧ sel (get_rec (drops c) i) = true
       ∧ ¬ in_map w1 (cidr (get_rec (drops c) i)))) as (pre1 & f1 & Hi1 & Hx1).
  { destruct Hx as [(-> & Hi1 & Hk)|(-> & Hi1 & Hs & Hk)].
    - exists (pre ++ [i]), f. rewrite <-app_assoc. split; [done|]. by left.
    - exists pre, (f ++ [i]). split; [done|]. by right. }
  apply wp_bind, wp_getc. apply wp_bind.
  assert (∃ n', node_next (drops c1) (walk_pos ys) = Some n' ∧ (n' = walk_pos (tail ys) ∨ ys = []))
    as (n' & En & Hn').
  { destruct ys as [|j ys]; [eexists; split; [by eapply rep_next, Hi1|by right]|].
    destruct (rep_step _ _ _ _ _ _ (inv_rep _ _ _ _ Hi1)) as [En _]. eexists. split; [done|by left]. }
  eapply wp_lift; [done|].
  eapply wp_mono; [apply (IH pre1 ys f1 c1 w1 n' (acc + x) Hi1 Hcf1 ltac:(lia) Hn')|].
  intros m s' Hw. replace (m - acc) with (x + (m - (acc + x))) by lia.
  by eapply walked_step.
Qed.

Lemma each_drop_spec sel body c w l f :
  lifts (cfg c) sel body → inv c w l f →
  wp (each_drop body) (λ n s', walked sel c w [] l n s') (c, w).
Proof.
  intros Hb Hi. unfold each_drop. apply wp_bind, wp_getc. apply wp_bind.
  eapply wp_lift; [by eapply rep_next, Hi|]. apply wp_bind.
  assert (∃ n', node_next (drops c) (walk_pos l) = Some n' ∧ (n' = walk_pos (tail l) ∨ l = []))
    as (n' & En & Hn').
  { destruct l as [|j l]; [eexists; split; [by eapply rep_next, Hi|by right]|].
    destruct (rep_step _ [] _ _ _ _ (inv_rep _ _ _ _ Hi)) as [En _]. eexists. split; [done|by left]. }
  eapply wp_lift; [done|].
  eapply wp_mono; [eapply (for_each_spec _ sel body _ [] l f c w n' 0); try done|].
  - eapply rep_length, Hi.
  - intros m s'. cbv beta. by rewrite Z.sub_0_r.
Qed.

Lemma expire_spec c w l f :
  inv c w l f →
  wp expire_drops (λ n s', walked (expired (cfg c) (now_of w)) c w [] l n s') (c, w).
Proof.
  intros Hi. unfold expire_drops. apply wp_bind, wp_onK, wp_call. fold (now_of w).
  pose proof (time_same w) as Ht. eapply wp_mono.
  { eapply each_drop_spec; [apply expire_lifts|]. by eapply inv_same. }
  intros n s' (ys' & f' & H1 & H2 & H3 & H4). exists ys', f'. split; [done|]. split; [done|].
  split; [|done]. eapply only_deleted_trans; [by apply only_deleted_same|done].
Qed.

Lemma prune_protected_spec c w l f :
  inv c w l f →
  wp vg_ctrl_prune_protected
    (λ n s', walked (λ r, vg_cidr_is_protected (cfg c) (cidr r)) c w [] l n s') (c, w).
Proof. intros Hi. by eapply each_drop_spec; [apply prune_lifts|]. Qed.
End Sweep.
