(* ===== verification/TickThms.v ===== *)
(** * The controller: the full invariant and the tick

    [Inv c w] adds to [inv] that no listed drop is protected and that every
    entry of the drop maps is listed, up to entries the kernel refused to
    delete.  Every operation keeps it; the tick always ends. *)

From S2P Require Import Prelude Types Ipaddr IpaddrThms Config Kernel Maps MapsThms Lists.
From S2P Require Import DropTable DropThms Snap SnapThms Double Policy PolicyThms SweepThms.
Import Dlist Hlist.
Open Scope Z_scope.

Section Tick.
Context {K : Type} `{!Kernel K} `{!KernelLaws K}.
Implicit Types (w : K) (c : vg_ctrl) (p q : vg_cidr).

(** The listed prefixes. *)
Definition cidrs c (l : list Z) : list vg_cidr := cidr <$> recs c l.

(** A delete of the drop entry of a prefix was refused. *)
Definition refused_key q w : Prop := refused (drop_fd q) (lpm_key_of q) w.

Definition clean (cf : vg_config) w (ps : list vg_cidr) : Prop :=
  ∀ q, q ∈ ps → vg_cidr_is_protected cf q = true → refused_key q w.

Definition tracked w (ps : list vg_cidr) : Prop :=
  ∀ q, prefix_ok q → in_map w q → q ∈ ps ∨ refused_key q w.

Definition Inv c w : Prop :=
  ∃ l f, inv c w l f ∧ clean (cfg c) w (cidrs c l) ∧ tracked w (cidrs c l).

Lemma clean_past cf w w' ps : past w w' → clean cf w ps → clean cf w' ps.
Proof. intros Hp Hc q Hq Hpr. by apply Hp, Hc. Qed.

(** An operation that keeps the invariant and the configuration. *)
Definition keeps {A} (m : M (vg_ctrl * K) A) : Prop :=
  ∀ c w, Inv c w → wp m (λ _ s', Inv s'.1 s'.2 ∧ cfg s'.1 = cfg c ∧ maps s'.1 = maps c) (c, w).

Lemma in_map_views w w' q : views_same w w' → in_map w' q ↔ in_map w q.
Proof. intros H. unfold in_map. by rewrite H. Qed.

Lemma tracked_sub w w' ps :
  (∀ q, in_map w' q → in_map w q) → past w w' → tracked w ps → tracked w' ps.
Proof. intros H Hp Ht q Hq Hm. destruct (Ht q Hq (H q Hm)); [by left|right; by apply Hp]. Qed.

Lemma tracked_views w w' ps : views_same w w' → past w w' → tracked w ps → tracked w' ps.
Proof. intros H. apply tracked_sub. intros q. by rewrite (in_map_views _ _ _ H). Qed.

Lemma in_map_vadded w w' p v q :
  views_added w w' p v → prefix_ok p → prefix_ok q → in_map w' q → in_map w q ∨ q = p.
Proof.
  intros [H1 H2] Hp Hq Hm.
  destruct (decide (q = p)) as [|Hne]; [by right|left]. unfold in_map in *.
  destruct (decide (drop_fd q = drop_fd p)) as [E|E]; [|by rewrite H2 in Hm].
  rewrite E, H1, lookup_insert_ne in Hm; [by rewrite E|]. intros Ek. apply Hne.
  apply lpm_key_inj; [done..| |done]. by apply drop_fd_family; [apply Hq|apply Hp|].
Qed.

Lemma cidrs_insert (old : list vg_drop_rec) k rc r :
  old !! k = Some rc → cidr r = cidr rc → cidr <$> <[k := r]> old = cidr <$> old.
Proof.
  intros Hk Hc. rewrite list_fmap_insert. apply list_insert_id. by rewrite list_lookup_fmap, Hk, Hc.
Qed.

Lemma redrop_cidr cf rs now exp rc : cidr (redrop cf rs now exp rc) = cidr rc.
Proof. unfold redrop. by repeat case_match. Qed.

(** ** Drop *)

Lemma outcome_clean c w p rs now exp old z new st w' :
  drop_outcome c w p rs now exp old z new st w' →
  clean (cfg c) w' (cidr <$> old) → clean (cfg c) w' (cidr <$> new).
Proof.
  intros [| | |w2 Hpr _ _| |k rc w2 _ Hk _ _ _|k rc w2 Hk _ _ _] Hc; try done.
  - intros q. rewrite fmap_app, elem_of_app. intros [Hq|Hq]; [by apply Hc|].
    apply list_elem_of_singleton in Hq as ->. cbn. congruence.
  - by rewrite (cidrs_insert _ _ _ _ Hk) by apply redrop_cidr.
  - by rewrite (cidrs_insert _ _ _ _ Hk) by apply preset_cidr.
Qed.

Lemma outcome_tracked c w p rs now exp old z new st w' :
  drop_outcome c w p rs now exp old z new st w' → prefix_ok p → past w w' →
  tracked w (cidr <$> old) → tracked w' (cidr <$> new).
Proof.
  intros Ho Hp Hpa Ht.
  destruct Ho as [w2 _ Hv|w2 _ Hv|w2 _ Hv|w2 _ _ Ha|k rc w2 _ _ _ _ Hv|k rc w2 _ Hk Hcp _ Ha
                 |k rc w2 Hk _ _ Hv]; try by eapply tracked_views.
  - intros q Hq Hm. rewrite fmap_app, elem_of_app.
    destruct (in_map_vadded _ _ _ _ _ Ha Hp Hq Hm) as [Hm'| ->].
    + destruct (Ht q Hq Hm'); [by left; left|right; by apply Hpa].
    + left. right. set_solver.
  - rewrite (cidrs_insert _ _ _ _ Hk) by apply redrop_cidr. intros q Hq Hm.
    destruct (in_map_vadded _ _ _ _ _ Ha Hp Hq Hm) as [Hm'| ->].
    { destruct (Ht q Hq Hm'); [by left|right; by apply Hpa]. }
    left. apply list_elem_of_fmap. exists rc. split; [done|]. by eapply list_elem_of_lookup_2.
  - rewrite (cidrs_insert _ _ _ _ Hk) by apply preset_cidr. by eapply tracked_views.
Qed.

Lemma drop_add_keeps p rs exp : prefix_ok p → keeps (drop_add p rs exp).
Proof.
  intros Hp c w (l & f & Hi & Hc & Ht).
  eapply wp_mono; [eapply wp_past; [apply grows_drop_add|by apply (drop_add_spec c w l f)]|].
  intros z s' ((l' & f' & Hi' & Hcf & Hm & Ho) & Hpa). split_and!; [|done|done].
  exists l', f'. split; [done|]. unfold cidrs. rewrite Hcf. split.
  - eapply outcome_clean; [done|by eapply clean_past].
  - by eapply outcome_tracked.
Qed.

Lemma drop_keeps p rs : prefix_ok p → keeps (vg_ctrl_drop p rs).
Proof. intros. by apply drop_add_keeps. Qed.

(** A call of the clock changes nothing. *)
Lemma Inv_same c w w' : Inv c w → same_maps w w' → Inv c w'.
Proof.
  intros (l & f & Hi & Hc & Ht) Hs. pose proof (same_maps_past _ _ Hs) as Hpa.
  exists l, f. split_and!; [by eapply inv_same|by eapply clean_past|].
  by eapply tracked_views; [apply views_same_of| |].
Qed.

Lemma drop_ttl_keeps p ttl : prefix_ok p → keeps (vg_ctrl_drop_ttl p ttl).
Proof.
  intros Hp c w HI. unfold vg_ctrl_drop_ttl. apply wp_bind, wp_onK, wp_call.
  apply drop_add_keeps; [done|]. eapply Inv_same; [done|apply time_same].
Qed.

(** ** Undrop, arm, disarm, expiry *)

Lemma undrop_keeps p : prefix_ok p → keeps (vg_ctrl_undrop p).
Proof.
  intros Hp c w (l & f & Hi & Hc & Ht).
  eapply wp_mono; [eapply wp_past; [apply grows_undrop|by apply (undrop_spec c w l f)]|].
  intros z [c' w'] ((l' & f' & Hi' & (Hcf & Hm & _) & Hz) & Hpa). cbn [fst snd] in *.
  apply (clean_past _ _ _ _ Hpa) in Hc.
  split_and!; [|done|done]. exists l', f'. split; [done|]. rewrite Hcf.
  destruct Hz as [(-> & Hd & Hr)|(-> & -> & -> & Hs & _)].
  - unfold cidrs. rewrite Hr. split.
    + intros q (r & -> & Hin)%list_elem_of_fmap. apply list_elem_of_filter in Hin as [_ Hin].
      apply Hc. apply list_elem_of_fmap. by exists r.
    + intros q Hq Hmq. apply (in_map_deleted w w' p q Hd Hp Hq) in Hmq as [Hmq Hne].
      destruct (Ht q Hq Hmq) as [Hin|]; [left|right; by apply Hpa].
      apply list_elem_of_fmap in Hin as (r & -> & Hin). apply list_elem_of_fmap. exists r.
      split; [done|]. by apply list_elem_of_filter.
  - split; [done|]. by eapply tracked_views; [apply views_same_tries| |].
Qed.

Lemma arm_keeps : keeps vg_ctrl_arm.
Proof.
  intros c w (l & f & Hi & Hc & Ht). eapply wp_mono; [eapply wp_past; [apply grows_arm|by apply arm_spec]|].
  intros z [c' w'] ((Hi' & (Hd & Hcf & Hm & _ & _ & Htr) & _) & Hpa). cbn [fst snd] in *.
  split_and!; [|done|done]. exists l, f. unfold cidrs, recs. rewrite Hd, Hcf.
  split_and!; [done|by eapply clean_past|]. eapply tracked_views; [|done|done]. intros m. apply Htr.
Qed.

Lemma disarm_keeps : keeps vg_ctrl_disarm.
Proof.
  intros c w (l & f & Hi & Hc & Ht). eapply wp_mono; [by apply (disarm_spec c w l f)|].
  intros z [c' w'] (Hi' & Hcf & Hm & _ & Hleft & _). cbn [fst snd] in *.
  split_and!; [|done|done]. exists [], []. split; [done|]. split; [by intros q ?%elem_of_nil|].
  intros q Hq Hmq. right. apply (Hleft (drop_fd q)); [|done].
  unfold drop_fd. destruct (family q =? AF_INET); auto.
Qed.

Lemma recs_pool c c' l : drop_pool (drops c') = drop_pool (drops c) → recs c' l = recs c l.
Proof. apply listed_pool. Qed.

Lemma in_map_mono w w' q : only_deleted w w' → in_map w' q → in_map w q.
Proof. intros (_ & H & _) [v Hv]. exists v. by eapply lookup_weaken. Qed.

(** After a walk the list holds no selected record but refused ones. *)
Lemma walked_tracked sel c w l n s' :
  walked sel c w [] l n s' → tracked w (cidrs c l) →
  ∃ l' f', inv s'.1 s'.2 l' f' ∧ settled c s'.1 ∧ tracked s'.2 (cidrs s'.1 l')
    ∧ sublist (recs s'.1 l') (recs c l)
    ∧ ∀ r, r ∈ recs s'.1 l' → sel r = true → entry_refused r s'.2.
Proof.
  intros (l' & f' & Hi & Hset & Hod & Hpool & Hsub & _ & Hgone & Hkept) Ht. cbn [app] in Hi.
  exists l', f'. unfold cidrs. rewrite (recs_pool c s'.1 l' Hpool). split_and!; [done..| | |].
  - intros q Hq Hm. destruct (Ht q Hq (in_map_mono _ _ _ Hod Hm)) as [Hin|]; [|right; by apply Hod].
    apply list_elem_of_fmap in Hin as (r & -> & (i & -> & Hin)%list_elem_of_fmap).
    destruct (decide (i ∈ l')) as [Hi'|Hi'].
    + left. apply list_elem_of_fmap. eexists. split; [done|]. apply list_elem_of_fmap. by exists i.
    + by destruct (Hgone i Hin Hi') as [_ ?].
  - by apply fmap_sublist.
  - intros r (i & -> & Hin)%list_elem_of_fmap. by apply Hkept.
Qed.

Lemma expire_keeps : keeps expire_drops.
Proof.
  intros c w (l & f & Hi & Hc & Ht). eapply wp_mono; [by apply (expire_spec c w l f)|].
  intros n s' Hw. pose proof Hw as (_ & _ & _ & _ & Hod & _).
  apply walked_tracked in Hw as (l' & f' & Hi' & (Hcf & Hm & _) & Ht' & Hsub & _); [|done].
  split_and!; [|done|done]. exists l', f'. split_and!; [done| |done]. rewrite Hcf.
  apply (clean_past _ _ s'.2) in Hc; [|apply Hod]. intros q Hq. apply Hc. unfold cidrs in *.
  apply (elem_of_sublist _ _ _ Hq). by apply fmap_sublist.
Qed.

(** ** The walk over the remotes *)

Lemma keeps_bind {A B} (m : M (vg_ctrl * K) A) (g : A → M (vg_ctrl * K) B) :
  keeps m → (∀ a, keeps (g a)) → keeps (m ≫= g).
Proof.
  intros Hm Hg c w HI. apply wp_bind. eapply wp_mono; [by apply Hm|].
  intros a [c1 w1] (H1 & Hc1 & Hm1). cbn [fst snd] in *. eapply wp_mono; [by apply Hg|].
  intros b s' (H2 & Hc2 & Hm2). split_and!; [done|congruence..].
Qed.

Lemma keeps_ret {A} (a : A) : keeps (mret a).
Proof. intros c w HI. by apply wp_ret. Qed.

Lemma keeps_getc {A} (g : vg_ctrl → A) : keeps (getc g).
Proof. intros c w HI. by apply wp_getc. Qed.

(** The invariant reads the drop table, the state, the configuration and,
    for its shape only, the snapshots. *)
Lemma Inv_ext c c' w :
  Inv c w → drops c' = drops c → state c' = state c → cfg c' = cfg c → snap_ok (snap c') → Inv c' w.
Proof.
  intros (l & f & Hi & Hc & Ht) Hd Hs Hcf Hsn. exists l, f. unfold cidrs, recs. rewrite Hd, Hcf.
  split_and!; [|done|done]. by eapply inv_ext.
Qed.

Lemma Inv_snap c w : Inv c w → snap_ok (snap c).
Proof. intros (l & f & Hi & _). apply Hi. Qed.

Lemma keeps_modc g :
  (∀ c, drops (g c) = drops c ∧ state (g c) = state c ∧ cfg (g c) = cfg c ∧ maps (g c) = maps c
        ∧ (snap_ok (snap c) → snap_ok (snap (g c)))) → keeps (modc g).
Proof.
  intros Hg c w HI. destruct (Hg c) as (H1 & H2 & H3 & H4 & H5). apply wp_modc.
  split_and!; [|done|done]. eapply Inv_ext; [done..|]. by apply H5, (Inv_snap c w).
Qed.

Lemma keeps_onK {A} (m : M K A) : (∀ w, wp m (λ _ w', same_maps w w') w) → keeps (onK m).
Proof.
  intros Hm c w HI. apply wp_onK. eapply wp_mono; [apply Hm|]. intros a w' Hs.
  split_and!; [by eapply Inv_same|done..].
Qed.

Lemma keeps_time : keeps (onK (call sys_time)).
Proof. apply keeps_onK. intros w. apply wp_call, time_same. Qed.

Lemma snap_ok_get fam a t :
  snap_ok t → (addr_bytes fam ≤ length a)%nat → wp (snap_get fam a) (λ _ t', snap_ok t') t.
Proof.
  intros [Hc (bk & fr & Hs)] Hl. destruct (snap_get_spec t bk fr fam a Hs Hl)
    as (r & t' & E & Hcap & _ & Hr). exists r, t'. split; [done|]. split; [by rewrite Hcap|].
  destruct r as [[i []]|].
  - destruct Hr as (_ & fr' & _ & Hs' & _). by eexists _, _.
  - destruct Hr as (_ & _ & Hs' & _). by eexists _, _.
  - destruct Hr as (_ & _ & ->). by eexists _, _.
Qed.

Lemma snap_ok_store i cur t : snap_ok t → snap_ok (snap_store i cur t).
Proof. intros [Hc (bk & fr & Hs)]. split; [done|]. exists bk, fr. by apply srep_touch. Qed.

Lemma keeps_store i cur : keeps (modc (λ c, set_snap c (snap_store i cur (snap c)))).
Proof. apply keeps_modc. intros c. split_and!; try done. apply snap_ok_store. Qed.

Lemma host_cidr_ok fam a :
  fam = AF_INET ∨ fam = AF_INET6 → addr_ok fam a → prefix_ok (host_cidr fam a).
Proof.
  intros Hf Ha. unfold host_cidr. destruct Ha as [Hl Hb].
  assert (take (addr_bytes fam) a = a) as -> by (apply take_ge; lia).
  assert (addr_ok fam a) as Ha by done.
  split; [split|]; simpl.
  - done.
  - by eapply store16_length.
  - by apply store16_bytes.
  - destruct Hf as [-> | ->]; cbn; lia.
  - intros i Hi. simpl in Hi. eapply store16_bits; [done|].
    destruct Hf as [-> | ->]; simpl in *; lia.
Qed.

(** The aggregation prefix of a host. *)
Lemma aggregate_net_spec host :
  prefix_ok host → prefixlen host = max_plen (family host) →
  ∃ net, aggregate_net host = Some net ∧ prefix_ok net ∧ family net = family host
    ∧ prefixlen net = (if family host =? AF_INET then 24 else 64)
    ∧ vg_cidr_contains net host = true.
Proof.
  intros [Hok Hcan] Hpl. unfold aggregate_net, vg_cidr_v4_slash24, vg_cidr_v6_slash64.
  destruct (ok_family _ Hok) as [Hf|Hf]; rewrite Hf in *; cbn [Z.eqb]; simpl; eexists; (split; [done|]).
  - destruct (slash_spec AF_INET 24 host (vg_cidr_mask (Cidr (family host) (addr host) 24)))
      as (? & ? & ? & ? & ?); try done; [by left|rewrite Hpl; done|]. rewrite Hf in *. by split_and!.
  - destruct (slash_spec AF_INET6 64 host (vg_cidr_mask (Cidr (family host) (addr host) 64)))
      as (? & ? & ? & ? & ?); try done; [by right|rewrite Hpl; done|]. rewrite Hf in *. by split_and!.
Qed.

Lemma aggregate_net_ok host net :
  prefix_ok host → prefixlen host = max_plen (family host) →
  aggregate_net host = Some net → prefix_ok net.
Proof.
  intros Hp Hpl E. destruct (aggregate_net_spec host Hp Hpl) as (n & E' & Hn & _). congruence.
Qed.

Lemma aggregate_keeps host :
  prefix_ok host → prefixlen host = max_plen (family host) → keeps (maybe_aggregate host).
Proof.
  intros Hp Hpl. unfold maybe_aggregate. destruct (aggregate_net host) as [net|] eqn:E;
    [|apply keeps_ret].
  intros c w HI. apply wp_bind, wp_getc. apply wp_bind.
  pose proof HI as (l & f & Hi & _). eapply wp_lift; [by eapply drop_all_walk_spec, Hi|].
  apply wp_bind, wp_getc. split_if; [|by apply keeps_ret].
  apply drop_keeps; [|done]. by eapply aggregate_net_ok.
Qed.

Lemma host_cidr_plen fam a :
  fam = AF_INET ∨ fam = AF_INET6 → prefixlen (host_cidr fam a) = max_plen (family (host_cidr fam a)).
Proof. by intros [-> | ->]. Qed.

Lemma one_remote_keeps dt fam a cur :
  fam = AF_INET ∨ fam = AF_INET6 → addr_ok fam a → keeps (policy_one_remote dt fam a cur).
Proof.
  intros Hf Ha. unfold policy_one_remote. apply keeps_bind.
  { intros c w HI. apply wp_onS. eapply wp_mono.
    { apply snap_ok_get; [by eapply Inv_snap|]. destruct Ha. lia. }
    intros r t' Ht. cbn [fst snd]. split_and!; [|done|done]. by eapply Inv_ext. }
  intros [[i []]|]; [apply keeps_store| |apply keeps_ret].
  apply keeps_bind; [apply keeps_getc|]. intros e. apply keeps_bind; [apply keeps_store|].
  intros _. split_if; [apply keeps_ret|]. apply keeps_bind; [apply keeps_getc|]. intros cf.
  split_if; [apply keeps_ret|]. apply keeps_bind; [by apply drop_keeps, host_cidr_ok|].
  intros rc. split_if; [|apply keeps_ret]. apply keeps_bind; [|intros; apply keeps_ret].
  apply aggregate_keeps; [by apply host_cidr_ok|by apply host_cidr_plen].
Qed.

Lemma sum_same m (read : K → option (list Z) * K) sz w :
  (∀ w, same_maps w (read w).2) → wp (vg_sum_percpu m read sz) (λ _ w', same_maps w w') w.
Proof.
  intros Hr. unfold vg_sum_percpu. split_if; [by apply wp_ret|]. apply wp_bind, wp_call.
  destruct (read w).1; apply wp_ret, Hr.
Qed.

Lemma foreach_loop_keeps fn n m h fam cur :
  (∀ k ctr, length k = hash_key_len h → bytes_ok k → keeps (fn fam k ctr)) →
  keeps (foreach_loop fn n m h fam cur).
Proof.
  intros Hfn. revert cur. induction n as [|n IH]; intros cur; cbn [foreach_loop]; [apply keeps_ret|].
  intros c w HI. apply wp_bind, wp_onK, wp_call.
  pose proof (hash_next_same h cur w) as Hs. pose proof (hash_key_ok h cur w) as Hk.
  destruct (bpf_hash_next_key h cur w) as [[k|] w'] eqn:E; cbn [fst snd] in *.
  - destruct (Hk k eq_refl) as [Hl Hb]. eapply Inv_same in HI; [|done].
    apply (keeps_bind (liftK (vg_sum_percpu m (bpf_hash_read h k) sizeof_host_counters))); [| |done].
    + apply keeps_onK. intros w1. apply sum_same. intros w2. apply hash_read_same.
    + intros r. apply keeps_bind; [|intros; apply IH]. destruct r; [by apply Hfn|apply keeps_ret].
  - apply keeps_ret. by eapply Inv_same.
Qed.

Lemma foreach_family_keeps fn m h fam budget :
  (∀ k ctr, length k = hash_key_len h → bytes_ok k → keeps (fn fam k ctr)) →
  keeps (foreach_family fn m h fam budget).
Proof.
  intros Hfn. unfold foreach_family. apply keeps_bind; [by apply foreach_loop_keeps|].
  intros [cur full]. split_if; [apply keeps_ret|]. apply keeps_bind; [|intros; apply keeps_ret].
  apply keeps_onK. intros w. apply wp_call, hash_next_same.
Qed.

Lemma walk_remotes_keeps dt : keeps (walk_remotes dt).
Proof.
  unfold walk_remotes. apply keeps_bind; [apply keeps_getc|]. intros cf.
  apply keeps_bind.
  { apply keeps_modc. intros c. split_and!; try done. intros [Hc (bk & fr & Hs)]. cbn.
    unfold next_gen. split_if; [|split; [done|]].
    - destruct (snap_reset_spec (set_sgen (snap c) 0) Hc) as (Hs' & Hcap & _).
      split; [cbn; by rewrite Hcap|]. eexists _, _. by apply srep_gen.
    - exists bk, fr. by apply srep_gen. }
  intros _. apply keeps_bind; [apply keeps_getc|]. intros m.
  apply keeps_bind.
  { unfold remote_foreach, maps_remote_walk, vg_remote_foreach. apply keeps_bind.
    { apply foreach_family_keeps. intros k ctr Hl Hb.
      apply one_remote_keeps; [by left|]. by split. }
    intros c4. apply keeps_bind; [|intros; apply keeps_ret].
    apply foreach_family_keeps. intros k ctr Hl Hb. apply one_remote_keeps; [by right|]. by split. }
  intros full. destruct full; [|apply keeps_ret]. intros c w HI. apply wp_onS.
  destruct (Inv_snap c w HI) as [Hc (bk & fr & Hs)].
  destruct (snap_prune_spec _ _ _ Hs) as (t' & fr' & E & Hs' & Hcap & _ & _).
  exists tt, t'. rewrite E. split; [done|]. cbn [fst snd]. split_and!; [|done|done].
  eapply Inv_ext; [done..|]. split; [cbn; by rewrite Hcap|]. by eexists _, _.
Qed.

(** ** The tick *)

Lemma quiet_keeps v : keeps (modc (λ c, set_quiet c v)).
Proof. by apply keeps_modc. Qed.

Lemma tick_quiet_keeps : keeps tick_quiet.
Proof.
  unfold tick_quiet. apply keeps_bind; [apply keeps_getc|]. intros c0.
  split_if; [|apply keeps_bind; [apply quiet_keeps|intros; apply keeps_ret]].
  apply keeps_bind.
  { split_if; [|apply keeps_ret]. apply keeps_bind; [apply keeps_time|]. intros. apply quiet_keeps. }
  intros _. apply keeps_bind; [apply keeps_getc|]. intros c1. split_if; [|apply keeps_ret].
  apply keeps_bind; [apply keeps_time|]. intros now. split_if; [|apply keeps_ret].
  apply keeps_bind; [apply disarm_keeps|]. intros; apply keeps_ret.
Qed.

Lemma tick_keeps : keeps vg_ctrl_tick.
Proof.
  unfold vg_ctrl_tick. apply keeps_bind.
  { unfold tick_dt. apply keeps_bind.
    { apply keeps_onK. intros w. apply wp_call, clock_same. }
    intros now. apply keeps_bind; [apply keeps_getc|]. intros l.
    apply keeps_bind; [by apply keeps_modc|]. intros _. destruct l; apply keeps_ret. }
  intros dt. apply keeps_bind; [by apply keeps_modc|]. intros _.
  apply keeps_bind; [apply keeps_getc|]. intros mp. apply keeps_bind.
  { apply keeps_onK. intros w. unfold vg_metrics_read. apply wp_bind.
    eapply wp_mono; [apply sum_same, metrics_same|]. intros r w' Hs. by apply wp_ret. }
  intros [m|]; [|apply keeps_ret]. apply keeps_bind; [apply keeps_getc|]. intros l.
  apply keeps_bind.
  { apply keeps_modc. intros c. unfold tick_rates. repeat split_if; done. }
  intros _. apply keeps_bind; [by apply keeps_modc|]. intros _.
  split_if; [apply keeps_ret|]. apply keeps_bind; [apply keeps_getc|]. intros st.
  split_if.
  - unfold tick_idle. apply keeps_bind; [apply keeps_getc|]. intros c0. split_if; [|apply keeps_ret].
    apply keeps_bind; [apply arm_keeps|]. intros; apply keeps_ret.
  - apply keeps_bind; [apply walk_remotes_keeps|]. intros _.
    apply keeps_bind; [apply expire_keeps|]. intros _. apply tick_quiet_keeps.
Qed.
End Tick.
