(* ===== verification/PolicyMain.v ===== *)
(** * The controller: main theorems

    What each operation of policy.c does to the list of drops and to the
    kernel's maps, on every branch. *)

From S2P Require Import Prelude Types Ipaddr IpaddrThms Config Kernel Maps MapsThms ConfigThms.
From S2P Require Import Lists DropTable DropThms Snap SnapThms Double Policy PolicyThms.
From S2P Require Import SweepThms TickThms.
Import Dlist Hlist.
Open Scope Z_scope.

Section Main.
Context {K : Type} `{!Kernel K} `{!KernelLaws K}.
Implicit Types (w : K) (c : vg_ctrl) (p : vg_cidr).

(** The list of a controller that satisfies the invariant. *)
Lemma Inv_list c w : Inv c w → ∃ l f, inv c w l f ∧ drop_all_walk (drops c) = Some l.
Proof. intros (l & f & Hi & _). exists l, f. split; [done|]. eapply drop_all_walk_spec, Hi. Qed.

Lemma Inv_walk c w l : Inv c w → drop_all_walk (drops c) = Some l → ∃ f, inv c w l f.
Proof. intros (l' & f & Hi & El)%Inv_list. rewrite El. intros [= <-]. by exists f. Qed.

Lemma inv_walk c w l f : inv c w l f → drop_all_walk (drops c) = Some l.
Proof. intros Hi. eapply drop_all_walk_spec, Hi. Qed.

(** C13: [drop_add] always returns, and does one of seven things: refuse a
    protected prefix; fail to arm; find no room or have the map refuse a new
    entry; list a new drop with its entry; leave a manual drop alone when a
    timed one comes; re-drop by the rules of [redrop]; or fail to update the
    entry of a listed drop.  The map changes in exactly the two cases that
    set the entry. *)
Theorem drop_add_outcome c w l p rs exp :
  Inv c w → drop_all_walk (drops c) = Some l → prefix_ok p →
  ∃ z c' w' l', drop_add p rs exp (c, w) = Some (z, (c', w'))
    ∧ drop_all_walk (drops c') = Some l' ∧ cfg c' = cfg c
    ∧ drop_outcome c w p rs (now_of w) exp (recs c l) z (recs c' l') (state c') w'.
Proof.
  intros HI Hl Hp. destruct (Inv_walk _ _ _ HI Hl) as [f Hi].
  destruct (drop_add_spec c w l f p rs exp Hi Hp) as (z & [c' w'] & E & l' & f' & Hi' & Hc & _ & Ho).
  exists z, c', w', l'. split_and!; try done. by eapply inv_walk.
Qed.

(** A timed drop never shortens a ban: when [vg_ctrl_drop_ttl] of a
    listed prefix succeeds, its record is manual as before, or timed with a
    lift time no earlier than the one asked for and than the one it had (for
    a policy or aggregate record: the end of its ban time). *)
Theorem timed_drop_extends c w l p ttl r s' :
  Inv c w → drop_all_walk (drops c) = Some l → prefix_ok p → r ∈ recs c l → cidr r = p →
  vg_ctrl_drop_ttl p ttl (c, w) = Some (0, s') →
  ∃ l' r', drop_all_walk (drops s'.1) = Some l' ∧ r' ∈ recs s'.1 l' ∧ cidr r' = p
    ∧ (reason r = VG_REASON_MANUAL ∧ r' = r
       ∨ reason r' = VG_REASON_TIMED ∧ now_of w + ttl ≤ expires r'
         ∧ (if reason r =? VG_REASON_TIMED then expires r else inserted r + ban_time (cfg c))
           ≤ expires r').
Proof.
  intros HI Hl Hp Hr Hcp E. destruct (Inv_walk _ _ _ HI Hl) as [f Hi].
  unfold vg_ctrl_drop_ttl in E. apply mbind_inv in E as (now & [c1 w1] & E1 & E2).
  assert (now = now_of w ∧ c1 = c ∧ w1 = (sys_time w).2) as (-> & -> & ->).
  { unfold now_of. unfold onK, liftK, call in E1. cbn in E1. destruct (sys_time w). by simplify_eq. }
  pose proof (inv_same _ _ _ _ _ Hi (time_same w)) as Hi1.
  destruct (drop_add_spec c _ l f p VG_REASON_TIMED (now_of w + ttl) Hi1 Hp)
    as (z & s2 & E3 & l' & f' & Hi' & Hc & _ & Ho).
  rewrite E2 in E3. injection E3 as <- <-. exists l'.
  assert (∀ k rc, recs c l !! k = Some rc → cidr rc = p → rc = r) as Huniq.
  { intros k rc Hk Hrc. apply list_elem_of_lookup_2 in Hk.
    apply list_elem_of_fmap in Hk as (i & -> & Hin), Hr as (j & -> & Hjn).
    f_equal. apply (rep_uniq _ _ _ _ (inv_rep _ _ _ _ Hi)); [done..|congruence]. }
  pose proof (inv_walk _ _ _ _ Hi') as Hw'.
  remember 0 as z eqn:Ez in Ho. remember (recs s'.1 l') as new eqn:En.
  destruct Ho as [w' _ _|w' _ _|w' _ _|w' _ Hnl _|k rc w' Hk Hrc _ Hman _|k rc w' _ Hk Hrc Hnm _
                 |k rc w' _ _ _ _]; try done.
  - by destruct (Hnl r Hr).
  - apply Huniq in Hk as ->; [|done]. exists r. split_and!; try done. by left.
  - pose proof Hk as Hk'. apply Huniq in Hk' as ->; [|done].
    exists (redrop (cfg c) VG_REASON_TIMED (now_of (sys_time w).2) (now_of w + ttl) r).
    split_and!; [done| |by rewrite redrop_cidr|].
    { apply list_elem_of_lookup_2 with k. apply list_lookup_insert_eq. by eapply lookup_lt_Some. }
    right. unfold redrop, preset. rewrite Z.eqb_refl.
    change (VG_REASON_TIMED =? VG_REASON_MANUAL) with false. cbn [reason expires].
    split_and!; [done|lia|]. destruct (reason r =? VG_REASON_TIMED); cbn [negb andb expires]; lia.
Qed.

(** C18: [vg_ctrl_undrop] succeeds with the prefix neither listed nor in the
    map and every other drop as it was, or fails, because the kernel refused
    a delete of that entry, and changes nothing. *)
Theorem undrop_lifts c w l p :
  Inv c w → drop_all_walk (drops c) = Some l → prefix_ok p →
  ∃ z c' w' l', vg_ctrl_undrop p (c, w) = Some (z, (c', w'))
    ∧ drop_all_walk (drops c') = Some l' ∧
    (z = 0 ∧ recs c' l' = without p (recs c l) ∧ map_deleted w w' p
     ∨ z = -1 ∧ c' = c ∧ same_tries w w' ∧ refused_key p w').
Proof.
  intros HI Hl Hp. destruct (Inv_walk _ _ _ HI Hl) as [f Hi].
  destruct (undrop_spec c w l f p Hi Hp) as (z & [c' w'] & E & l' & f' & Hi' & _ & Hz).
  exists z, c', w', l'. split_and!; [done|by eapply inv_walk|].
  destruct Hz as [(? & ? & ?)|(? & ? & _ & ? & ?)]; [by left|by right].
Qed.

(** What a walk lifted is gone from the map. *)
Lemma lifted_gone (φ : Z → Prop) c w l l' :
  (∀ i, i ∈ l → i ∉ l' → φ i ∧ ¬ in_map w (cidr (get_rec (drops c) i))) →
  ∀ r, r ∈ recs c l → r ∉ recs c l' → ¬ in_map w (cidr r).
Proof.
  intros Hgone r (i & -> & Hin)%list_elem_of_fmap Hni. apply Hgone; [done|].
  intros Hi. apply Hni, list_elem_of_fmap. by exists i.
Qed.

(** When a record is due to be lifted. *)
Definition due (cf : vg_config) (now : Z) (r : vg_drop_rec) : Prop :=
  reason r ≠ VG_REASON_MANUAL
  ∧ (reason r = VG_REASON_TIMED → expires r ≤ now)
  ∧ (reason r ≠ VG_REASON_TIMED → inserted r + ban_time cf ≤ now).

Lemma expired_due cf now r : expired cf now r = true ↔ due cf now r.
Proof.
  unfold expired, due. rewrite negb_true_iff, orb_false_iff, Z.eqb_neq.
  destruct (reason r =? VG_REASON_TIMED) eqn:E; breflect; rewrite Z.ltb_ge; intuition lia.
Qed.

(** C17: expiry lifts exactly what is due: manual drops never, timed ones
    from their lift time on, the others [ban_time] seconds after they were
    set.  Records keep their order; a record that is lifted is gone from the
    map; a due record stays only when the kernel has refused to delete its
    entry; the result is the number lifted. *)
Theorem expire_exact c w l :
  Inv c w → drop_all_walk (drops c) = Some l →
  ∃ n c' w' l', expire_drops (c, w) = Some (n, (c', w'))
    ∧ drop_all_walk (drops c') = Some l' ∧ sublist (recs c' l') (recs c l)
    ∧ n = Z.of_nat (length (recs c l)) - Z.of_nat (length (recs c' l'))
    ∧ (∀ r, r ∈ recs c l → ¬ due (cfg c) (now_of w) r → r ∈ recs c' l')
    ∧ (∀ r, r ∈ recs c l → r ∉ recs c' l' → ¬ in_map w' (cidr r))
    ∧ (∀ r, r ∈ recs c' l' → due (cfg c) (now_of w) r → entry_refused r w').
Proof.
  intros HI Hl. destruct (Inv_walk _ _ _ HI Hl) as [f Hi].
  destruct (expire_spec c w l f Hi)
    as (n & [c' w'] & E & l' & f' & Hi' & _ & _ & Hpool & Hsub & Hn & Hgone & Hkept).
  cbn [fst snd app] in *. exists n, c', w', l'. rewrite (recs_pool c c' l' Hpool).
  split_and!; [done|by eapply inv_walk|by apply fmap_sublist| | | |].
  - unfold recs, listed. by rewrite !length_fmap.
  - intros r (i & -> & Hin)%list_elem_of_fmap Hne. apply list_elem_of_fmap. exists i. split; [done|].
    destruct (decide (i ∈ l')) as [|Hni]; [done|]. destruct (Hgone i Hin Hni) as [Hd _].
    by apply expired_due in Hd.
  - exact (lifted_gone _ c w' l l' Hgone).
  - intros r (i & -> & Hin)%list_elem_of_fmap Hd%expired_due. by apply Hkept.
Qed.

(** Some address of [p] lies in a local or an allowed network. *)
Definition touches (cf : vg_config) (p : vg_cidr) : Prop :=
  ∃ q, q ∈ local_cidr cf ++ allow_cidr cf ∧ family p = family q
    ∧ ∃ a, addr_ok (family p) a ∧ in_cidr p a ∧ in_cidr q a.

(** C25: after a change of the configuration [vg_ctrl_prune_protected] lifts
    drops, manual ones included, that overlap a local or allowed network,
    and no others; a drop it lifts is gone from the map, and an overlapping
    drop stays listed only when the kernel has refused to delete its entry:
    where no delete was refused, the drops left are exactly those that
    overlap no protected network. *)
Theorem prune_protected_exact c w l :
  Inv c w → drop_all_walk (drops c) = Some l → ∀ cf, cfg_ok cf →
  ∃ n c' w' l', vg_ctrl_prune_protected (set_cfg c cf, w) = Some (n, (c', w'))
    ∧ drop_all_walk (drops c') = Some l' ∧ sublist (recs c' l') (recs c l)
    ∧ n = Z.of_nat (length (recs c l)) - Z.of_nat (length (recs c' l'))
    ∧ (∀ r, r ∈ recs c l → ¬ touches cf (cidr r) → r ∈ recs c' l')
    ∧ (∀ r, r ∈ recs c l → r ∉ recs c' l' → ¬ in_map w' (cidr r))
    ∧ (∀ r, r ∈ recs c' l' → touches cf (cidr r) → entry_refused r w')
    ∧ ((∀ p, ¬ refused_key p w') → ∀ r, r ∈ recs c' l' ↔ r ∈ recs c l ∧ ¬ touches cf (cidr r)).
Proof.
  intros HI Hl cf Hcf. destruct (Inv_walk _ _ _ HI Hl) as [f Hi].
  assert (inv (set_cfg c cf) w l f) as Hi0 by (eapply inv_ext; try done; apply Hi).
  destruct (prune_protected_spec _ w l f Hi0)
    as (n & [c' w'] & E & l' & f' & Hi' & _ & _ & Hpool & Hsub & Hn & Hgone & Hkept).
  cbn [fst snd app] in *. exists n, c', w', l'. rewrite (recs_pool c c' l' Hpool).
  assert (∀ r, r ∈ recs c l → ¬ touches cf (cidr r) → r ∈ recs c l') as Hstay.
  { intros r (i & -> & Hin)%list_elem_of_fmap Hne. apply list_elem_of_fmap. exists i. split; [done|].
    destruct (decide (i ∈ l')) as [|Hni]; [done|]. destruct (Hgone i Hin Hni) as [Hp _].
    apply (protected_spec cf) in Hp; [done|done|]. apply (inv_prefix _ _ _ _ _ Hi Hin). }
  assert (∀ r, r ∈ recs c l' → touches cf (cidr r) → entry_refused r w') as Hleft.
  { intros r (i & -> & Hin)%list_elem_of_fmap Ht. apply Hkept; [done|]. cbv beta.
    apply (protected_spec cf); [done| |done]. apply (inv_prefix _ _ _ _ _ Hi).
    eapply elem_of_sublist; [|exact Hsub]. done. }
  assert (sublist (recs c l') (recs c l)) as Hrs by (by apply fmap_sublist).
  split_and!; [done|by eapply inv_walk|done| |done|exact (lifted_gone _ (set_cfg c cf) w' l l' Hgone)|done|].
  - unfold recs, listed. by rewrite !length_fmap.
  - intros Hnr r. split; [intros Hr; split; [by eapply elem_of_sublist|]|intros []; auto].
    intros Ht. by apply (Hnr (cidr r)), Hleft.
Qed.

(** C26: disarming forgets every drop.  It succeeds with the controller idle
    and the kernel disarmed, or fails with the state as it was; the drop maps
    are empty afterwards up to entries the kernel has refused to delete, and the
    other tries are untouched. *)
Theorem disarm_clears c w :
  Inv c w →
  ∃ z c' w', vg_ctrl_disarm (c, w) = Some (z, (c', w'))
    ∧ drop_all_walk (drops c') = Some [] ∧ drop_count (drops c') = 0
    ∧ (∀ m k, m = drop_v4 ∨ m = drop_v6 → is_Some (lpm_view m w' !! k) → refused m k w')
    ∧ (∀ m, m ≠ drop_v4 → m ≠ drop_v6 → lpm_view m w' = lpm_view m w)
    ∧ (∃ bc, xdp_cfg w' = Some bc ∧ armed bc = state_word (state c'))
    ∧ (z = 0 ∧ state c' = VG_IDLE ∨ z = -1 ∧ state c' = state c).
Proof.
  intros (l & f & Hi & _ & _).
  destruct (disarm_spec c w l f Hi) as (z & [c' w'] & E & Hi' & _ & _ & Hoth & Hleft & Hz).
  cbn [fst snd] in *. exists z, c', w'. split_and!; [done|by eapply inv_walk| | | | |done].
  - apply (rep_count _ _ _ _ (inv_rep _ _ _ _ Hi')).
  - intros m k Hm Hk. by apply (Hleft m k Hm).
  - intros m H4 H6. by destruct (Hoth m H4 H6).
  - apply Hi'.
Qed.

(** The tick returns from every state that satisfies the invariant, and
    the invariant and the configuration hold after it. *)
Theorem tick_total c w :
  Inv c w → ∃ z c' w', vg_ctrl_tick (c, w) = Some (z, (c', w')) ∧ Inv c' w' ∧ cfg c' = cfg c.
Proof.
  intros HI. destruct (tick_keeps c w HI) as (z & [c' w'] & E & HI' & Hc & _).
  by exists z, c', w'.
Qed.

(** The end of an active tick disarms exactly when traffic is below both
    wake thresholds, no drop is listed and it has been quiet for
    [clear_seconds] since [quiet_since] (set now when it was 0); above a
    threshold the quiet period starts over. *)
Theorem tick_quiet_disarms c w :
  let quiet := flt (rx_pps c) (of_int (wake_pps (cfg c))) && flt (rx_bps c) (wake_bps (cfg c)) in
  let w1 := if quiet_since c =? 0 then (sys_time w).2 else w in
  let since := if quiet_since c =? 0 then now_of w else quiet_since c in
  let c1 := set_quiet c since in
  tick_quiet (c, w) =
    (if negb quiet then Some (0, (set_quiet c 0, w))
     else if negb (drop_count (drops c) =? 0) then Some (0, (c1, w1))
     else if now_of w1 - since <? clear_seconds (cfg c) then Some (0, (c1, (sys_time w1).2))
     else match vg_ctrl_disarm (c1, (sys_time w1).2) with
          | Some (_, s') => Some (0, s')
          | None => None
          end).
Proof.
  cbv zeta. unfold tick_quiet, getc, gets, mbind, M_bind, mret, M_ret, modc, modify, onK,
    liftK, call, now_of. cbn [fst snd id].
  destruct (_ && _); cbn [negb]; [|done].
  destruct (quiet_since c =? 0) eqn:E; cbn [fst snd].
  - destruct (sys_time w) as [t w1] eqn:Et; cbn [fst snd drops set_quiet cfg quiet_since].
    destruct (drop_count _ =? 0); cbn [negb fst snd]; [|done]. destruct (sys_time w1) as [t2 w2].
    cbn [fst snd cfg set_quiet quiet_since].
    rewrite Z.leb_antisym. destruct (t2 - t <? _); cbn [negb]; [done|]. by destruct (vg_ctrl_disarm _) as [[]|].
  - replace (set_quiet c (quiet_since c)) with c by (by destruct c).
    destruct (drop_count _ =? 0); cbn [negb fst snd]; [|done]. destruct (sys_time w) as [t w1].
    cbn [fst snd cfg quiet_since]. rewrite Z.leb_antisym.
    destruct (_ <? _); cbn [negb]; [done|]. by destruct (vg_ctrl_disarm _) as [[]|].
Qed.
End Main.
