(* ===== verification/PolicyRate.v ===== *)
(** * The rate policy: main theorems

    What the walk over remote counters does with one address, and when drops
    are aggregated. *)

From S2P Require Import Prelude Types Ipaddr IpaddrThms Config Kernel Maps MapsThms ConfigThms.
From S2P Require Import Lists DropTable DropThms Snap SnapThms SnapMain Double Policy PolicyThms.
From S2P Require Import SweepThms TickThms.
Import Dlist Hlist.
Open Scope Z_scope.

Section Rate.
Context {K : Type} `{!Kernel K} `{!KernelLaws K}.
Implicit Types (w : K) (c : vg_ctrl) (p : vg_cidr).

(** Dropping a remote and what follows. *)
Definition punish (host : vg_cidr) (s : vg_ctrl * K) : option (unit * (vg_ctrl * K)) :=
  match vg_ctrl_drop host VG_REASON_POLICY s with
  | Some (z, s1) =>
      if z =? 0 then
        match maybe_aggregate host s1 with Some (_, s2) => Some (tt, s2) | None => None end
      else Some (tt, s1)
  | None => None
  end.

Lemma delta_max cur last : delta cur last = Z.max 0 (cur - last).
Proof. unfold delta. destruct (last <=? cur) eqn:E; breflect; lia. Qed.

(** One remote address: the snapshots afterwards, and the drop when the
    growth of the counters is over a threshold. *)
Lemma remote_one dt fam a cur c w :
  snap_ok (snap c) → (addr_bytes fam ≤ length a)%nat →
  ∃ t, snap_ok t
    ∧ (snap_seen t fam a = Some (in_pkts cur, in_bytes cur, snap_gen (snap c))
       ∨ snap_seen (snap c) fam a = None ∧ t = snap c ∧ snap_free t = None)
    ∧ (∀ fam' a', snap_key fam' a' ≠ snap_key fam a →
         snap_seen t fam' a' = snap_seen (snap c) fam' a')
    ∧ policy_one_remote dt fam a cur (c, w) =
      match snap_seen (snap c) fam a with
      | None => Some (tt, (set_snap c t, w))
      | Some (p, b, _) =>
          if negb (fle dt d0)
             && over_threshold (cfg c) (delta (in_pkts cur) p) (delta (in_bytes cur) b) dt
          then punish (host_cidr fam a) (set_snap c t, w)
          else Some (tt, (set_snap c t, w))
      end.
Proof.
  intros Hok Hla. destruct (snap_update _ _ _ Hok Hla) as (r & t' & E & Hr).
  unfold policy_one_remote.
  assert (onS (snap_get fam a) (c, w) = Some (r, (set_snap c t', w))) as E1
    by (unfold onS; cbn [fst snd]; by rewrite E).
  rewrite (mbind_step _ _ _ _ _ E1). destruct r as [[i [|]]|].
  - destruct Hr as [-> Hr]. destruct (Hr cur) as (H0 & H1 & H2).
    exists (snap_store i cur t'). split_and!; [done|by left|done|done].
  - destruct Hr as [[g ->] Hr]. destruct (Hr cur) as (H0 & H1 & H2).
    exists (snap_store i cur t'). split_and!; [done|by left|done|].
    unfold mbind, M_bind, getc, gets, modc, modify. cbn [fst snd cfg snap set_snap].
    destruct (fle dt d0); cbn [negb andb]; [done|].
    destruct (over_threshold _ _ _ _); cbn [negb]; [|done].
    unfold punish. set (c1 := set_snap _ _). change (set_snap c (snap_store i cur t')) with c1.
    destruct (vg_ctrl_drop _ _ (c1, w)) as [[z s1]|]; [|done]. destruct (z =? 0); [|done].
    by destruct (maybe_aggregate _ s1) as [[]|].
  - destruct Hr as (-> & -> & Hf). exists (snap c). split_and!; [done|by right|done|done].
Qed.

(** C27: the policy for one remote address.  An address seen for the first
    time only gets a baseline; otherwise its rate is the growth of its
    counters (0 when they went backwards) over the time since the last tick,
    and the host prefix is dropped, with aggregation after a successful drop,
    exactly when time has passed and a threshold is reached.  The counters
    are stored in every case, unless the address is new and the pool is used
    up; apart from that and the drop nothing changes. *)
Theorem remote_policy dt fam a cur c w :
  Inv c w → (addr_bytes fam ≤ length a)%nat →
  ∃ t, (snap_seen t fam a = Some (in_pkts cur, in_bytes cur, snap_gen (snap c))
        ∨ snap_seen (snap c) fam a = None ∧ t = snap c ∧ snap_free t = None)
    ∧ (∀ fam' a', snap_key fam' a' ≠ snap_key fam a →
         snap_seen t fam' a' = snap_seen (snap c) fam' a')
    ∧ policy_one_remote dt fam a cur (c, w) =
      match snap_seen (snap c) fam a with
      | None => Some (tt, (set_snap c t, w))
      | Some (p, b, _) =>
          let pps := fdiv (of_int (Z.max 0 (in_pkts cur - p))) dt in
          let bps := fdiv (fmul (of_int (Z.max 0 (in_bytes cur - b))) (of_int 8)) dt in
          if fle dt d0
             || flt pps (of_int (threshold_pps (cfg c)))
                && flt bps (fmul (of_int (threshold_mbps (cfg c))) (of_int 1000000))
          then Some (tt, (set_snap c t, w))
          else punish (host_cidr fam a) (set_snap c t, w)
      end.
Proof.
  intros HI Hla. destruct (remote_one dt fam a cur c w (Inv_snap c w HI) Hla)
    as (t & _ & H1 & H2 & H3).
  exists t. split_and!; [done..|]. rewrite H3. destruct (snap_seen (snap c) fam a) as [[[p b] g]|]; [|done].
  cbv zeta. rewrite <-!delta_max. unfold over_threshold. fold d8 d1e6.
  by destruct (fle dt d0), (flt _ _ && flt _ _).
Qed.

(** After a drop of a host its /24 (IPv4) or /64 (IPv6) is dropped too
    exactly when at least [aggregate_k] listed records without a time of
    their own lie in it; otherwise nothing changes. *)
Theorem aggregate_decides host c w l :
  drop_all_walk (drops c) = Some l → prefix_ok host →
  prefixlen host = max_plen (family host) →
  ∃ net, prefix_ok net ∧ family net = family host
    ∧ prefixlen net = (if family host =? AF_INET then 24 else 64)
    ∧ vg_cidr_contains net host = true
    ∧ maybe_aggregate host (c, w) =
      if aggregate_k (cfg c) <=? Z.of_nat (length (filter (λ r,
           reason r ≠ VG_REASON_TIMED ∧ vg_cidr_contains net (cidr r) = true) (recs c l)))
      then vg_ctrl_drop net VG_REASON_AGGREGATE (c, w)
      else Some (0, (c, w)).
Proof.
  intros Hl Hp Hpl. destruct (aggregate_net_spec host Hp Hpl) as (net & En & H1 & H2 & H3 & H4).
  exists net. split_and!; [done..|]. unfold maybe_aggregate. rewrite En.
  unfold mbind, M_bind, getc, gets, lift. cbn [fst snd]. rewrite Hl.
  assert (aggregate_count (drops c) net l = Z.of_nat (length (filter (λ r,
    reason r ≠ VG_REASON_TIMED ∧ vg_cidr_contains net (cidr r) = true) (recs c l)))) as ->.
  { unfold aggregate_count, recs, listed. f_equal. clear. induction l as [|i l IH]; [done|].
    cbn [fmap list_fmap]. rewrite !filter_cons.
    assert ((negb (reason (get_rec (drops c) i) =? VG_REASON_TIMED)
             && vg_cidr_contains net (cidr (get_rec (drops c) i)) = true)
      ↔ (reason (get_rec (drops c) i) ≠ VG_REASON_TIMED
         ∧ vg_cidr_contains net (cidr (get_rec (drops c) i)) = true)) as Hiff.
    { by rewrite andb_true_iff, negb_true_iff, Z.eqb_neq. }
    destruct (decide _) as [D1|D1], (decide _) as [D2|D2]; cbn [length];
      [by rewrite IH|by destruct D2; apply Hiff|by destruct D1; apply Hiff|done]. }
  by destruct (_ <=? _).
Qed.
End Rate.
