(* ===== verification/Xdp.v ===== *)
(** * voidgate.bpf.c: the XDP program

    Every packet load is checked: [ld8] outside the packet is [None], the
    access the in-kernel verifier must exclude.  A pointer into the packet is
    its offset from [data]; [data_end] is the packet length.  The map pointer
    [m] of the source is the boolean "[m] is not NULL". *)

From S2P Require Import Prelude Types Ipaddr Kernel.
Open Scope Z_scope.

(** The two verdicts of the program. *)
Inductive verdict := XDP_PASS | XDP_DROP.

#[export] Instance verdict_eq_dec : EqDecision verdict.
Proof. solve_decision. Defined.

Section Xdp.
Context {K : Type} `{!Kernel K}.

Implicit Types (pkt : list Z) (o : Z).

Definition data_end pkt : Z := Z.of_nat (length pkt).

(** Loads of one byte, of a big-endian 16-bit field, of [n] bytes. *)
Definition ld8 pkt o : M K Z := lift (if 0 <=? o then pkt !! Z.to_nat o else None).
Definition ld16 pkt o : M K Z := hi ← ld8 pkt o; lo ← ld8 pkt (o + 1); mret (hi * 256 + lo).
Fixpoint ldn pkt o (n : nat) : M K (list Z) :=
  match n with
  | O => mret []
  | S n => b ← ld8 pkt o; l ← ldn pkt (o + 1) n; mret (b :: l)
  end.

(** In-place updates of the per-CPU metrics: [if (m != NULL) m->f++]. *)
Definition upd (m : bool) (f : vg_metrics → vg_metrics) : M K unit :=
  modify (λ w, if m then match xdp_metrics w with
                         | Some x => xdp_metrics_store (f x) w
                         | None => w
                         end else w).

Definition inc_rx (len : Z) (x : vg_metrics) : vg_metrics :=
  Metrics (u64 (rx_pkts x + 1)) (u64 (rx_bytes x + len)) (passed x) (dropped x)
          (non_ip x) (map_full x) (parse_err x).
Definition inc_passed (x : vg_metrics) : vg_metrics :=
  Metrics (rx_pkts x) (rx_bytes x) (u64 (passed x + 1)) (dropped x)
          (non_ip x) (map_full x) (parse_err x).
Definition inc_dropped (x : vg_metrics) : vg_metrics :=
  Metrics (rx_pkts x) (rx_bytes x) (passed x) (u64 (dropped x + 1))
          (non_ip x) (map_full x) (parse_err x).
Definition inc_non_ip (x : vg_metrics) : vg_metrics :=
  Metrics (rx_pkts x) (rx_bytes x) (passed x) (dropped x)
          (u64 (non_ip x + 1)) (map_full x) (parse_err x).
Definition inc_map_full (x : vg_metrics) : vg_metrics :=
  Metrics (rx_pkts x) (rx_bytes x) (passed x) (dropped x)
          (non_ip x) (u64 (map_full x + 1)) (parse_err x).
Definition inc_parse_err (x : vg_metrics) : vg_metrics :=
  Metrics (rx_pkts x) (rx_bytes x) (passed x) (dropped x)
          (non_ip x) (map_full x) (u64 (parse_err x + 1)).

Definition get_metrics : M K bool := gets (λ w, bool_decide (is_Some (xdp_metrics w))).
Definition get_cfg : M K (option vg_cfg) := gets xdp_cfg.

(** The unrolled loop of [port_allowed] from index [i]. *)
Fixpoint port_loop (n : nat) (i : nat) (c : vg_cfg) (port : Z) : bool :=
  match n with
  | O => false
  | S n =>
      if allow_port_count c <=? Z.of_nat i then false
      else if default 0 (allow_ports c !! i) =? port then true
      else port_loop n (S i) c port
  end.

Definition port_allowed (c : option vg_cfg) (port : Z) : bool :=
  match c with
  | None => false
  | Some c => port_loop VG_MAX_ALLOW_PORTS 0 c port
  end.

Definition v4_in_lpm (m : lpm_map) (ip : list Z) : M K bool := gets (xdp_lpm_hit m ip).
Definition v6_in_lpm (m : lpm_map) (a : list Z) : M K bool := gets (xdp_lpm_hit m a).

Definition v6_is_linklocal (a : list Z) : bool :=
  (default 0 (a !! 0%nat) =? 0xfe) && (Z.land (default 0 (a !! 1%nat)) 0xc0 =? 0x80).
Definition v6_is_mcast_link (a : list Z) : bool :=
  (default 0 (a !! 0%nat) =? 0xff) && (default 0 (a !! 1%nat) =? 0x02).

(** [VG_HASH_GET]: whether the pointer it yields is not NULL. *)
Definition VG_HASH_GET (h : hash_map) (key : list Z) (m : bool) : M K bool :=
  c ← gets (xdp_hash_lookup h key);
  match c with
  | Some _ => mret true
  | None =>
      _ ← modify (xdp_hash_update_noexist h key (HostCounters 0 0));
      c ← gets (xdp_hash_lookup h key);
      match c with
      | Some _ => mret true
      | None => _ ← upd m inc_map_full; mret false
      end
  end.

Definition bump (bytes : Z) (c : host_counters) : host_counters :=
  HostCounters (u64 (in_pkts c + 1)) (u64 (in_bytes c + bytes)).

(** [acc_in] on the entry [VG_HASH_GET] found. *)
Definition acc_in (h : hash_map) (key : list Z) (c : bool) (bytes : Z) : M K unit :=
  modify (λ w, if c then match xdp_hash_lookup h key w with
                         | Some x => xdp_hash_store h key (bump bytes x) w
                         | None => w
                         end else w).

Definition v4_dhcp_allowed (daddr : list Z) (sport dport : Z) : M K bool :=
  if negb (((dport =? 68) && (sport =? 67))
           || ((dport =? 67) && ((sport =? 68) || (sport =? 67))))
  then mret false
  else if bool_decide (daddr = [255; 255; 255; 255]) then mret true
  else v4_in_lpm local_v4 daddr.

Definition v6_dhcp_allowed (daddr : list Z) (sport dport : Z) : M K bool :=
  if negb (((dport =? 546) && (sport =? 547))
           || ((dport =? 547) && ((sport =? 546) || (sport =? 547))))
  then mret false
  else v6_in_lpm local_v6 daddr.

Definition v4_tcp_allowed (c : option vg_cfg) (saddr daddr : list Z) (sport dport : Z)
  : M K bool :=
  d ← (if port_allowed c dport then v4_in_lpm local_v4 daddr else mret false);
  if (d : bool) then mret true
  else (if port_allowed c sport then v4_in_lpm local_v4 saddr else mret false).

Definition v6_tcp_allowed (c : option vg_cfg) (saddr daddr : list Z) (sport dport : Z)
  : M K bool :=
  d ← (if port_allowed c dport then v6_in_lpm local_v6 daddr else mret false);
  if (d : bool) then mret true
  else (if port_allowed c sport then v6_in_lpm local_v6 saddr else mret false).

(** [parse_l4]: the return value and the three outputs; [want_icmp6] is
    "[icmp6_type] is not NULL". *)
Definition parse_l4 pkt (l4 proto : Z) (want_icmp6 : bool) : M K (Z * Z * Z * Z) :=
  if proto =? VG_IPPROTO_TCP then
    if data_end pkt <? l4 + tcphdr_size then mret (-1, 0, 0, 0)
    else s ← ld16 pkt (l4 + l4_source_off); d ← ld16 pkt (l4 + l4_dest_off);
         mret (0, s, d, 0)
  else if proto =? VG_IPPROTO_UDP then
    if data_end pkt <? l4 + udphdr_size then mret (-1, 0, 0, 0)
    else s ← ld16 pkt (l4 + l4_source_off); d ← ld16 pkt (l4 + l4_dest_off);
         mret (0, s, d, 0)
  else if (proto =? VG_IPPROTO_ICMPV6) && want_icmp6 then
    if data_end pkt <? l4 + icmpv6hdr_size then mret (-1, 0, 0, 0)
    else t ← ld8 pkt (l4 + icmp6_type_off); mret (0, 0, 0, t)
  else mret (0, 0, 0, 0).

(** The unrolled loop of [v6_walk_ext], [n] iterations left; [l4] and [proto]
    are the locals, the result is the return value with [*l4p] and [*protop]
    ([l40] and [proto0] are the values those hold on entry). *)
Fixpoint v6_walk_loop (n : nat) pkt (l40 proto0 l4 proto : Z) : M K (Z * Z * Z) :=
  match n with
  | O => mret (1, l4, proto)
  | S n =>
      if proto =? VG_IPPROTO_FRAGMENT then
        if data_end pkt <? l4 + frag_size then mret (-1, l40, proto0)
        else
          nh ← ld8 pkt (l4 + frag_nexthdr_off);
          fo ← ld16 pkt (l4 + frag_off_off);
          if negb (Z.land fo 0xfff8 =? 0) then mret (0, l4 + frag_size, nh)
          else v6_walk_loop n pkt l40 proto0 (l4 + frag_size) nh
      else if negb (proto =? VG_IPPROTO_HOPOPTS) && negb (proto =? VG_IPPROTO_ROUTING)
              && negb (proto =? VG_IPPROTO_DSTOPTS) && negb (proto =? VG_IPPROTO_AH)
      then mret (1, l4, proto)
      else if data_end pkt <? l4 + 2 then mret (-1, l40, proto0)
      else
        e1 ← ld8 pkt (l4 + 1);
        let len := if proto =? VG_IPPROTO_AH then (e1 + 2) * 4 else (e1 + 1) * 8 in
        if data_end pkt <? l4 + len then mret (-1, l40, proto0)
        else
          e0 ← ld8 pkt l4;
          v6_walk_loop n pkt l40 proto0 (l4 + len) e0
  end.

Definition v6_walk_ext pkt (l4 proto : Z) : M K (Z * Z * Z) :=
  v6_walk_loop VG_MAX_IPV6_EXT pkt l4 proto l4 proto.

Definition pass (m : bool) : M K verdict := _ ← upd m inc_passed; mret XDP_PASS.
Definition parse_fail (m : bool) : M K verdict := _ ← upd m inc_parse_err; mret XDP_PASS.

(** The code after the labels [v4_count] and [v6_count]. *)
Definition v4_count (m : bool) (saddr daddr : list Z) (pkt_len : Z) : M K verdict :=
  l ← v4_in_lpm local_v4 daddr;
  _ ← (if (l : bool) then
         c ← VG_HASH_GET host_v4 daddr m; _ ← acc_in host_v4 daddr c pkt_len;
         c ← VG_HASH_GET remote_v4 saddr m; acc_in remote_v4 saddr c pkt_len
       else mret tt);
  pass m.

Definition v6_count (m : bool) (saddr daddr : list Z) (pkt_len : Z) : M K verdict :=
  l ← v6_in_lpm local_v6 daddr;
  _ ← (if (l : bool) then
         c ← VG_HASH_GET host_v6 daddr m; _ ← acc_in host_v6 daddr c pkt_len;
         c ← VG_HASH_GET remote_v6 saddr m; acc_in remote_v6 saddr c pkt_len
       else mret tt);
  pass m.

(** [a() || b()] on map lookups. *)
Definition orM (a b : M K bool) : M K bool := x ← a; if (x : bool) then mret true else b.

(** The IPv4 branch of [voidgate_xdp]; [nh] points at the IP header. *)
Definition xdp_v4 pkt (m : bool) (c : option vg_cfg) (nh pkt_len : Z) : M K verdict :=
  if data_end pkt <? nh + iphdr_size then parse_fail m
  else
    saddr ← ldn pkt (nh + ip_saddr_off) 4;
    daddr ← ldn pkt (nh + ip_daddr_off) 4;
    proto ← ld8 pkt (nh + ip_protocol_off);
    vi ← ld8 pkt (nh + ip_ver_ihl_off);
    let ihl := Z.land vi 0x0f in
    let l4 := nh + Z.shiftl ihl 2 in
    fo ← ld16 pkt (nh + ip_frag_off_off);
    let first_frag := Z.land fo 0x1fff =? 0 in
    ports ←
      (if (ihl <? 5) || (data_end pkt <? l4) then
         _ ← upd m inc_parse_err; mret (0, 0)
       else if first_frag then
         r ← parse_l4 pkt l4 proto false;
         let '(rc, sport, dport, _) := r in
         _ ← (if rc <? 0 then upd m inc_parse_err else mret tt);
         mret (sport, dport)
       else mret (0, 0));
    let '(sport, dport) := ports in
    al ← orM (v4_in_lpm allow_v4 saddr) (v4_in_lpm allow_v4 daddr);
    if (al : bool) then v4_count m saddr daddr pkt_len
    else
      tcp ← (if proto =? VG_IPPROTO_TCP then v4_tcp_allowed c saddr daddr sport dport
             else mret false);
      if (tcp : bool) then v4_count m saddr daddr pkt_len
      else
        dhcp ← (if proto =? VG_IPPROTO_UDP then v4_dhcp_allowed daddr sport dport
                else mret false);
        if (dhcp : bool) then v4_count m saddr daddr pkt_len
        else
          dr ← orM (v4_in_lpm drop_v4 saddr) (v4_in_lpm drop_v4 daddr);
          if (dr : bool) then _ ← upd m inc_dropped; mret XDP_DROP
          else v4_count m saddr daddr pkt_len.

(** The IPv6 branch of [voidgate_xdp]. *)
Definition xdp_v6 pkt (m : bool) (c : option vg_cfg) (nh pkt_len : Z) : M K verdict :=
  if data_end pkt <? nh + ipv6hdr_size then parse_fail m
  else
    proto0 ← ld8 pkt (nh + ip6_nexthdr_off);
    saddr ← ldn pkt (nh + ip6_saddr_off) 16;
    daddr ← ldn pkt (nh + ip6_daddr_off) 16;
    ext ← v6_walk_ext pkt (nh + ipv6hdr_size) proto0;
    let '(ext_rc, l4, proto) := ext in
    l4v ←
      (if ext_rc <? 0 then _ ← upd m inc_parse_err; mret (0, 0, 0)
       else if 0 <? ext_rc then
         r ← parse_l4 pkt l4 proto true;
         let '(rc, sport, dport, icmp6_type) := r in
         _ ← (if rc <? 0 then upd m inc_parse_err else mret tt);
         mret (sport, dport, icmp6_type)
       else mret (0, 0, 0));
    let '(sport, dport, icmp6_type) := l4v in
    if v6_is_linklocal saddr || v6_is_linklocal daddr
       || v6_is_mcast_link saddr || v6_is_mcast_link daddr
    then v6_count m saddr daddr pkt_len
    else
      hl ← ld8 pkt (nh + ip6_hop_limit_off);
      if (hl =? VG_NDISC_HOP_LIMIT) && (VG_NDISC_RS <=? icmp6_type)
         && (icmp6_type <=? VG_NDISC_REDIRECT)
      then v6_count m saddr daddr pkt_len
      else
        al ← orM (v6_in_lpm allow_v6 saddr) (v6_in_lpm allow_v6 daddr);
        if (al : bool) then v6_count m saddr daddr pkt_len
        else
          tcp ← (if proto =? VG_IPPROTO_TCP then v6_tcp_allowed c saddr daddr sport dport
                 else mret false);
          if (tcp : bool) then v6_count m saddr daddr pkt_len
          else
            dhcp ← (if proto =? VG_IPPROTO_UDP then v6_dhcp_allowed daddr sport dport
                    else mret false);
            if (dhcp : bool) then v6_count m saddr daddr pkt_len
            else
              dr ← orM (v6_in_lpm drop_v6 saddr) (v6_in_lpm drop_v6 daddr);
              if (dr : bool) then _ ← upd m inc_dropped; mret XDP_DROP
              else v6_count m saddr daddr pkt_len.

(** The VLAN loop: [None] inside is the [parse_fail] exit. *)
Fixpoint vlan_loop (n : nat) pkt (eth_proto nh : Z) : M K (option (Z * Z)) :=
  match n with
  | O => mret (Some (eth_proto, nh))
  | S n =>
      if negb (eth_proto =? VG_ETH_P_8021Q) && negb (eth_proto =? VG_ETH_P_8021AD)
      then mret (Some (eth_proto, nh))
      else if data_end pkt <? nh + vlan_size then mret None
      else p ← ld16 pkt (nh + vlan_proto_off); vlan_loop n pkt p (nh + vlan_size)
  end.

Definition voidgate_xdp pkt : M K verdict :=
  m ← get_metrics;
  let pkt_len := data_end pkt in
  _ ← upd m (inc_rx pkt_len);
  c ← get_cfg;
  if (match c with None => true | Some c => armed c =? 0 end) then pass m
  else if data_end pkt <? eth_size then parse_fail m
  else
    eth_proto ← ld16 pkt eth_proto_off;
    v ← vlan_loop VG_MAX_VLANS pkt eth_proto eth_size;
    match v with
    | None => parse_fail m
    | Some (eth_proto, nh) =>
        if eth_proto =? VG_ETH_P_IP then xdp_v4 pkt m c nh pkt_len
        else if eth_proto =? VG_ETH_P_IPV6 then xdp_v6 pkt m c nh pkt_len
        else _ ← upd m inc_non_ip; pass m
    end.

End Xdp.
