(* ===== verification/XdpThms.v ===== *)
(** * Theorems on the XDP program

    The reference view of a packet ([pkt_info], read with total accessors),
    the declarative verdict ([exempt], [drop_hit]) and the theorems that the
    program is memory safe, idle when disarmed, drops exactly the packets the
    declarative verdict says, and accounts for each packet once. *)

From S2P Require Import Prelude Types Ipaddr Kernel Xdp.
Open Scope Z_scope.

(** ** Total reads *)

Definition b8 (pkt : list Z) (o : Z) : Z := default 0 (pkt !! Z.to_nat o).
Definition b16 (pkt : list Z) (o : Z) : Z := b8 pkt o * 256 + b8 pkt (o + 1).
Fixpoint bn (pkt : list Z) (o : Z) (n : nat) : list Z :=
  match n with O => [] | S n => b8 pkt o :: bn pkt (o + 1) n end.

Lemma bn_length pkt o n : length (bn pkt o n) = n.
Proof. revert o. induction n; intros; simpl; [done|]. by rewrite IHn. Qed.

Section Loads.
Context {K : Type} `{!Kernel K}.
Implicit Types (w : K) (pkt : list Z).

Lemma ld8_in pkt o w : 0 ≤ o < data_end pkt → ld8 pkt o w = Some (b8 pkt o, w).
Proof.
  intros [H1 H2]. unfold ld8, lift, b8, data_end in *.
  replace (0 <=? o) with true by (symmetry; apply Z.leb_le; lia).
  destruct (pkt !! Z.to_nat o) eqn:E; [done|].
  apply lookup_ge_None in E. lia.
Qed.

Lemma ld16_in pkt o w : 0 ≤ o → o + 2 ≤ data_end pkt → ld16 pkt o w = Some (b16 pkt o, w).
Proof.
  intros. unfold ld16. rewrite (mbind_step _ _ _ _ _ (ld8_in pkt o w ltac:(lia))).
  by rewrite (mbind_step _ _ _ _ _ (ld8_in pkt (o + 1) w ltac:(lia))).
Qed.

Lemma ldn_in pkt o n w :
  0 ≤ o → o + Z.of_nat n ≤ data_end pkt → ldn pkt o n w = Some (bn pkt o n, w).
Proof.
  revert o. induction n as [|n IH]; intros o H1 H2; [done|]. cbn [ldn bn].
  rewrite (mbind_step _ _ _ _ _ (ld8_in pkt o w ltac:(lia))).
  by rewrite (mbind_step _ _ _ _ _ (IH (o + 1) ltac:(lia) ltac:(lia))).
Qed.
End Loads.

(** Runs the next load of the goal, its bounds by [lia]. *)
Ltac step_load :=
  match goal with
  | |- context [mbind _ (ld8 ?p ?o) ?w] =>
      rewrite (mbind_step _ _ _ _ _ (ld8_in p o w ltac:(lia)))
  | |- context [mbind _ (ld16 ?p ?o) ?w] =>
      rewrite (mbind_step _ _ _ _ _ (ld16_in p o w ltac:(lia) ltac:(lia)))
  | |- context [mbind _ (ldn ?p ?o ?n) ?w] =>
      rewrite (mbind_step _ _ _ _ _ (ldn_in p o n w ltac:(lia) ltac:(lia)))
  end.

(** ** Reference parse *)

(** Transport header: return code, ports, ICMPv6 type. *)
Definition l4_info (pkt : list Z) (l4 proto : Z) (icmp6 : bool) : Z * Z * Z * Z :=
  if proto =? VG_IPPROTO_TCP then
    if data_end pkt <? l4 + tcphdr_size then (-1, 0, 0, 0)
    else (0, b16 pkt l4, b16 pkt (l4 + 2), 0)
  else if proto =? VG_IPPROTO_UDP then
    if data_end pkt <? l4 + udphdr_size then (-1, 0, 0, 0)
    else (0, b16 pkt l4, b16 pkt (l4 + 2), 0)
  else if (proto =? VG_IPPROTO_ICMPV6) && icmp6 then
    if data_end pkt <? l4 + icmpv6hdr_size then (-1, 0, 0, 0)
    else (0, 0, 0, b8 pkt l4)
  else (0, 0, 0, 0).

(** Headers the extension walk skips. *)
Definition is_ext (proto : Z) : bool :=
  (proto =? VG_IPPROTO_HOPOPTS) || (proto =? VG_IPPROTO_ROUTING)
  || (proto =? VG_IPPROTO_DSTOPTS) || (proto =? VG_IPPROTO_AH).

Definition ext_len (pkt : list Z) (l4 proto : Z) : Z :=
  if proto =? VG_IPPROTO_AH then (b8 pkt (l4 + 1) + 2) * 4 else (b8 pkt (l4 + 1) + 1) * 8.

Fixpoint ext_info (n : nat) (pkt : list Z) (l40 proto0 l4 proto : Z) : Z * Z * Z :=
  match n with
  | O => (1, l4, proto)
  | S n =>
      if proto =? VG_IPPROTO_FRAGMENT then
        if data_end pkt <? l4 + 8 then (-1, l40, proto0)
        else if Z.land (b16 pkt (l4 + 2)) 0xfff8 =? 0
        then ext_info n pkt l40 proto0 (l4 + 8) (b8 pkt l4)
        else (0, l4 + 8, b8 pkt l4)
      else if negb (is_ext proto) then (1, l4, proto)
      else if data_end pkt <? l4 + 2 then (-1, l40, proto0)
      else if data_end pkt <? l4 + ext_len pkt l4 proto then (-1, l40, proto0)
      else ext_info n pkt l40 proto0 (l4 + ext_len pkt l4 proto) (b8 pkt l4)
  end.

(** What the verdict depends on. *)
Record pkt_info := PktInfo {
  pi_v6 : bool; pi_saddr : list Z; pi_daddr : list Z; pi_proto : Z;
  pi_sport : Z; pi_dport : Z; pi_icmp6 : Z; pi_hop : Z;
  pi_err : bool;   (* a header below the addresses is bad or truncated *)
}.

Definition v4_info (pkt : list Z) (nh : Z) : pkt_info :=
  let proto := b8 pkt (nh + 9) in
  let ihl := Z.land (b8 pkt nh) 15 in
  let l4 := nh + Z.shiftl ihl 2 in
  let first := Z.land (b16 pkt (nh + 6)) 0x1fff =? 0 in
  let '(rc, s, d, _) :=
    if (ihl <? 5) || (data_end pkt <? l4) then (-1, 0, 0, 0)
    else if first then l4_info pkt l4 proto false else (0, 0, 0, 0) in
  PktInfo false (bn pkt (nh + 12) 4) (bn pkt (nh + 16) 4) proto s d 0 0 (rc <? 0).

Definition v6_info (pkt : list Z) (nh : Z) : pkt_info :=
  let '(rc, l4, proto) := ext_info VG_MAX_IPV6_EXT pkt (nh + 40) (b8 pkt (nh + 6))
                            (nh + 40) (b8 pkt (nh + 6)) in
  let '(rc4, s, d, t) :=
    if rc <? 0 then (-1, 0, 0, 0)
    else if 0 <? rc then l4_info pkt l4 proto true else (0, 0, 0, 0) in
  PktInfo true (bn pkt (nh + 8) 16) (bn pkt (nh + 24) 16) proto s d t (b8 pkt (nh + 7))
          (rc4 <? 0).

Definition is_vlan (p : Z) : bool := (p =? VG_ETH_P_8021Q) || (p =? VG_ETH_P_8021AD).

(** Ethertype and header offset after at most two VLAN tags. *)
Definition l3_info (pkt : list Z) : option (Z * Z) :=
  if data_end pkt <? 14 then None
  else if negb (is_vlan (b16 pkt 12)) then Some (b16 pkt 12, 14)
  else if data_end pkt <? 18 then None
  else if negb (is_vlan (b16 pkt 16)) then Some (b16 pkt 16, 18)
  else if data_end pkt <? 22 then None
  else Some (b16 pkt 20, 22).

(** [None]: not IP, or too short to hold both addresses. *)
Definition ip_info (pkt : list Z) : option pkt_info :=
  match l3_info pkt with
  | None => None
  | Some (p, nh) =>
      if p =? VG_ETH_P_IP then
        if data_end pkt <? nh + 20 then None else Some (v4_info pkt nh)
      else if p =? VG_ETH_P_IPV6 then
        if data_end pkt <? nh + 40 then None else Some (v6_info pkt nh)
      else None
  end.

(** ** Declarative verdict *)
Section Verdict.
Context {K : Type} `{!Kernel K}.

Definition drop_trie (i : pkt_info) := if pi_v6 i then drop_v6 else drop_v4.
Definition allow_trie (i : pkt_info) := if pi_v6 i then allow_v6 else allow_v4.
Definition local_trie (i : pkt_info) := if pi_v6 i then local_v6 else local_v4.

(** Link-local or ff02:: endpoints, or NDP with hop limit 255 (IPv6 only). *)
Definition ndp_exempt (i : pkt_info) : bool :=
  pi_v6 i &&
  (v6_is_linklocal (pi_saddr i) || v6_is_linklocal (pi_daddr i)
   || v6_is_mcast_link (pi_saddr i) || v6_is_mcast_link (pi_daddr i)
   || ((pi_hop i =? 255) && (133 <=? pi_icmp6 i) && (pi_icmp6 i <=? 137))).

(** An allowed TCP port on the local side. *)
Definition tcp_exempt (c : vg_cfg) (i : pkt_info) (w : K) : bool :=
  (pi_proto i =? 6) &&
  ((port_allowed (Some c) (pi_dport i) && xdp_lpm_hit (local_trie i) (pi_daddr i) w)
   || (port_allowed (Some c) (pi_sport i) && xdp_lpm_hit (local_trie i) (pi_saddr i) w)).

(** A DHCP port pair to a local (or IPv4 broadcast) destination. *)
Definition dhcp_ports (i : pkt_info) : bool :=
  let '(cl, sv) := if pi_v6 i then (546, 547) else (68, 67) in
  ((pi_dport i =? cl) && (pi_sport i =? sv))
  || ((pi_dport i =? sv) && ((pi_sport i =? cl) || (pi_sport i =? sv))).

Definition dhcp_exempt (i : pkt_info) (w : K) : bool :=
  (pi_proto i =? 17) && dhcp_ports i &&
  ((negb (pi_v6 i) && bool_decide (pi_daddr i = [255; 255; 255; 255]))
   || xdp_lpm_hit (local_trie i) (pi_daddr i) w).

Definition allow_exempt (i : pkt_info) (w : K) : bool :=
  xdp_lpm_hit (allow_trie i) (pi_saddr i) w || xdp_lpm_hit (allow_trie i) (pi_daddr i) w.

Definition exempt (c : vg_cfg) (i : pkt_info) (w : K) : bool :=
  ndp_exempt i || allow_exempt i w || tcp_exempt c i w || dhcp_exempt i w.

Definition drop_hit (i : pkt_info) (w : K) : bool :=
  xdp_lpm_hit (drop_trie i) (pi_saddr i) w || xdp_lpm_hit (drop_trie i) (pi_daddr i) w.

(** The armed configuration the program reads, if any. *)
Definition armed_cfg (w : K) : option vg_cfg :=
  match xdp_cfg w with
  | Some c => if armed c =? 0 then None else Some c
  | None => None
  end.

Definition must_drop (pkt : list Z) (w : K) : bool :=
  match armed_cfg w, ip_info pkt with
  | Some c, Some i => negb (exempt c i w) && drop_hit i w
  | _, _ => false
  end.
End Verdict.

(** ** The program computes the reference parse *)
Section Refine.
Context {K : Type} `{!Kernel K}.
Implicit Types (w : K) (pkt : list Z) (m : bool).

Lemma b8_nonneg pkt o : bytes_ok pkt → 0 ≤ b8 pkt o < 256.
Proof.
  intros Hb. unfold b8. destruct (pkt !! Z.to_nat o) eqn:E; simpl; [|lia].
  apply (Forall_lookup_1 _ _ _ _ Hb E).
Qed.

Lemma parse_l4_eq pkt l4 proto b w :
  0 ≤ l4 → parse_l4 pkt l4 proto b w = Some (l4_info pkt l4 proto b, w).
Proof.
  intros Hl. unfold parse_l4, l4_info, l4_source_off, l4_dest_off, icmp6_type_off.
  rewrite Z.add_0_r.
  assert (tcphdr_size = 20 ∧ udphdr_size = 8 ∧ icmpv6hdr_size = 4) as (E1 & E2 & E3) by done.
  repeat match goal with
  | |- context [if ?c then _ else _] => destruct c eqn:?
  end; breflect; repeat step_load; done.
Qed.

Lemma ext_len_pos pkt l4 proto : bytes_ok pkt → 8 ≤ ext_len pkt l4 proto.
Proof.
  intros Hb. unfold ext_len. pose proof (b8_nonneg pkt (l4 + 1) Hb).
  destruct (proto =? VG_IPPROTO_AH); lia.
Qed.

Lemma walk_eq n pkt l40 p0 l4 proto w :
  bytes_ok pkt → 0 ≤ l4 →
  v6_walk_loop n pkt l40 p0 l4 proto w = Some (ext_info n pkt l40 p0 l4 proto, w).
Proof.
  intros Hb. revert l4 proto. induction n as [|n IH]; intros l4 proto Hl; [done|].
  cbn [v6_walk_loop ext_info].
  assert (frag_size = 8 ∧ frag_nexthdr_off = 0 ∧ frag_off_off = 2) as (E1 & E2 & E3) by done.
  rewrite E1, E2, E3, Z.add_0_r.
  destruct (proto =? VG_IPPROTO_FRAGMENT).
  { destruct (data_end pkt <? l4 + 8) eqn:E; breflect; [done|]. repeat step_load.
    destruct (Z.land (b16 pkt (l4 + 2)) 0xfff8 =? 0); simpl; [apply IH; lia|done]. }
  replace (negb (proto =? VG_IPPROTO_HOPOPTS) && negb (proto =? VG_IPPROTO_ROUTING)
    && negb (proto =? VG_IPPROTO_DSTOPTS) && negb (proto =? VG_IPPROTO_AH))
    with (negb (is_ext proto)) by (unfold is_ext; by rewrite !negb_orb).
  destruct (negb (is_ext proto)); [done|].
  destruct (data_end pkt <? l4 + 2) eqn:E; breflect; [done|].
  pose proof (ext_len_pos pkt l4 proto Hb) as Hlen.
  step_load. cbv beta zeta. fold (ext_len pkt l4 proto).
  destruct (data_end pkt <? l4 + ext_len pkt l4 proto) eqn:E5; breflect; [done|].
  step_load. apply IH. lia.
Qed.

Lemma ext_info_pos n pkt l40 p0 l4 proto rc l4' proto' :
  bytes_ok pkt → 0 ≤ l40 → 0 ≤ l4 →
  ext_info n pkt l40 p0 l4 proto = (rc, l4', proto') → 0 ≤ l4'.
Proof.
  intros Hb Hl0. revert l4 proto. induction n as [|n IH]; intros l4 proto Hl;
    cbn [ext_info]; [naive_solver|].
  pose proof (ext_len_pos pkt l4 proto Hb).
  repeat match goal with |- context [if ?c then _ else _] => destruct c end;
    try (intros [= <- <- <-]; lia); apply IH; lia.
Qed.

(** The world after the parse: the error counter is bumped when a header
    below the addresses is bad. *)
Definition parsed_world (m : bool) (i : pkt_info) (w : K) : K :=
  if pi_err i then
    if m then match xdp_metrics w with
              | Some x => xdp_metrics_store (inc_parse_err x) w
              | None => w
              end
    else w
  else w.

(** What follows the parse, for both families. *)
Definition judge (m : bool) (c : vg_cfg) (i : pkt_info) (len : Z) : M K verdict := λ w,
  if exempt c i w || negb (drop_hit i w)
  then (if pi_v6 i then v6_count else v4_count) m (pi_saddr i) (pi_daddr i) len w
  else (_ ← upd m inc_dropped; mret XDP_DROP) w.

(** Case analysis on the leftmost atom of a test, until both sides agree. *)
Ltac split_atom b :=
  lazymatch b with
  | ?x && _ => split_atom x
  | ?x || _ => split_atom x
  | negb ?x => split_atom x
  | (if ?x then _ else _) => split_atom x
  | _ => destruct b eqn:?
  end.

Ltac case_verdict :=
  unfold orM, v4_tcp_allowed, v6_tcp_allowed, v4_dhcp_allowed, v6_dhcp_allowed, v4_in_lpm,
    v6_in_lpm, gets, mbind, M_bind, mret, M_ret;
  repeat (first [reflexivity
                |exfalso; breflect; lia
                |match goal with
                 | |- context [if ?b then _ else _] => split_atom b
                 end]; cbn [andb orb negb] in * ).

(** The branches of the verdict, once the ports are known. *)
Lemma judge_v4 m c i len w :
  pi_v6 i = false →
  (al ← orM (v4_in_lpm allow_v4 (pi_saddr i)) (v4_in_lpm allow_v4 (pi_daddr i));
   if (al : bool) then v4_count m (pi_saddr i) (pi_daddr i) len
   else
     tcp ← (if pi_proto i =? VG_IPPROTO_TCP
            then v4_tcp_allowed (Some c) (pi_saddr i) (pi_daddr i) (pi_sport i) (pi_dport i)
            else mret false);
     if (tcp : bool) then v4_count m (pi_saddr i) (pi_daddr i) len
     else
       dhcp ← (if pi_proto i =? VG_IPPROTO_UDP
               then v4_dhcp_allowed (pi_daddr i) (pi_sport i) (pi_dport i)
               else mret false);
       if (dhcp : bool) then v4_count m (pi_saddr i) (pi_daddr i) len
       else
         dr ← orM (v4_in_lpm drop_v4 (pi_saddr i)) (v4_in_lpm drop_v4 (pi_daddr i));
         if (dr : bool) then _ ← upd m inc_dropped; mret XDP_DROP
         else v4_count m (pi_saddr i) (pi_daddr i) len) w
  = judge m c i len w.
Proof.
  intros Hv. unfold judge, exempt, ndp_exempt, allow_exempt, tcp_exempt, dhcp_exempt,
    dhcp_ports, drop_hit, allow_trie, local_trie, drop_trie. rewrite Hv. cbn [andb negb orb].
  unfold VG_IPPROTO_TCP, VG_IPPROTO_UDP. case_verdict.
Qed.

Lemma judge_v6 pkt o m c i len w :
  pi_v6 i = true → 0 ≤ o < data_end pkt → b8 pkt o = pi_hop i →
  (if v6_is_linklocal (pi_saddr i) || v6_is_linklocal (pi_daddr i)
      || v6_is_mcast_link (pi_saddr i) || v6_is_mcast_link (pi_daddr i)
   then v6_count m (pi_saddr i) (pi_daddr i) len
   else
     hl ← ld8 pkt o;
     if (hl =? VG_NDISC_HOP_LIMIT) && (VG_NDISC_RS <=? pi_icmp6 i)
        && (pi_icmp6 i <=? VG_NDISC_REDIRECT)
     then v6_count m (pi_saddr i) (pi_daddr i) len
     else
       al ← orM (v6_in_lpm allow_v6 (pi_saddr i)) (v6_in_lpm allow_v6 (pi_daddr i));
       if (al : bool) then v6_count m (pi_saddr i) (pi_daddr i) len
       else
         tcp ← (if pi_proto i =? VG_IPPROTO_TCP
                then v6_tcp_allowed (Some c) (pi_saddr i) (pi_daddr i) (pi_sport i) (pi_dport i)
                else mret false);
         if (tcp : bool) then v6_count m (pi_saddr i) (pi_daddr i) len
         else
           dhcp ← (if pi_proto i =? VG_IPPROTO_UDP
                   then v6_dhcp_allowed (pi_daddr i) (pi_sport i) (pi_dport i)
                   else mret false);
           if (dhcp : bool) then v6_count m (pi_saddr i) (pi_daddr i) len
           else
             dr ← orM (v6_in_lpm drop_v6 (pi_saddr i)) (v6_in_lpm drop_v6 (pi_daddr i));
             if (dr : bool) then _ ← upd m inc_dropped; mret XDP_DROP
             else v6_count m (pi_saddr i) (pi_daddr i) len) w
  = judge m c i len w.
Proof.
  intros Hv Ho Hhop. unfold judge, exempt, ndp_exempt, allow_exempt, tcp_exempt, dhcp_exempt,
    dhcp_ports, drop_hit, allow_trie, local_trie, drop_trie. rewrite Hv. cbn [andb negb orb].
  unfold VG_IPPROTO_TCP, VG_IPPROTO_UDP, VG_NDISC_HOP_LIMIT, VG_NDISC_RS, VG_NDISC_REDIRECT.
  destruct (v6_is_linklocal (pi_saddr i) || v6_is_linklocal (pi_daddr i)
      || v6_is_mcast_link (pi_saddr i) || v6_is_mcast_link (pi_daddr i)); [done|].
  step_load. rewrite Hhop. cbn [orb]. case_verdict.
Qed.

Lemma xdp_v4_eq pkt m c nh len w :
  0 ≤ nh → nh + 20 ≤ data_end pkt →
  xdp_v4 pkt m (Some c) nh len w =
  judge m c (v4_info pkt nh) len (parsed_world m (v4_info pkt nh) w).
Proof.
  intros Hnh Hlen. unfold xdp_v4, iphdr_size, ip_saddr_off, ip_daddr_off, ip_protocol_off,
    ip_ver_ihl_off, ip_frag_off_off. rewrite Z.add_0_r.
  replace (data_end pkt <? nh + 20) with false by (symmetry; apply Z.ltb_ge; lia).
  repeat step_load. cbv zeta.
  remember (v4_info pkt nh) as i eqn:Ei. unfold v4_info in Ei. cbv zeta in Ei.
  set (ihl := Z.land (b8 pkt nh) 15) in *. set (l4 := nh + Z.shiftl ihl 2) in *.
  assert (0 ≤ l4).
  { unfold l4. assert (0 ≤ ihl) by (apply Z.land_nonneg; lia).
    rewrite Z.shiftl_mul_pow2 by lia. lia. }
  destruct ((ihl <? 5) || (data_end pkt <? l4)).
  { rewrite <-judge_v4 by (by rewrite Ei). rewrite Ei. done. }
  destruct (Z.land (b16 pkt (nh + 6)) 8191 =? 0).
  - unfold mbind, M_bind. rewrite parse_l4_eq by done.
    destruct (l4_info pkt l4 (b8 pkt (nh + 9)) false) as [[[rc s] d] t].
    rewrite <-judge_v4 by (by rewrite Ei). rewrite Ei. simpl.
    by destruct (rc <? 0).
  - rewrite <-judge_v4 by (by rewrite Ei). rewrite Ei. done.
Qed.

Lemma xdp_v6_eq pkt m c nh len w :
  bytes_ok pkt → 0 ≤ nh → nh + 40 ≤ data_end pkt →
  xdp_v6 pkt m (Some c) nh len w =
  judge m c (v6_info pkt nh) len (parsed_world m (v6_info pkt nh) w).
Proof.
  intros Hb Hnh Hlen. unfold xdp_v6, ipv6hdr_size, ip6_saddr_off, ip6_daddr_off,
    ip6_nexthdr_off, ip6_hop_limit_off.
  replace (data_end pkt <? nh + 40) with false by (symmetry; apply Z.ltb_ge; lia).
  repeat step_load. unfold v6_walk_ext.
  rewrite (mbind_step _ _ _ _ _ (walk_eq _ pkt _ _ (nh + 40) (b8 pkt (nh + 6)) w Hb ltac:(lia))).
  remember (v6_info pkt nh) as i eqn:Ei. unfold v6_info in Ei.
  destruct (ext_info _ _ _ _ _ _) as [[rc l4] proto] eqn:Ex.
  assert (0 ≤ l4) as H by (eapply ext_info_pos; [done| | |done]; lia).
  destruct (rc <? 0); [|destruct (0 <? rc)].
  2: unfold mbind at 1, M_bind at 1; rewrite (mbind_step _ _ _ _ _ (parse_l4_eq _ _ _ _ _ H));
    destruct (l4_info pkt l4 proto true) as [[[rc4 s] d] t].
  all: rewrite <-(judge_v6 pkt (nh + 7)) by (rewrite ?Ei; done || lia); rewrite Ei; try done.
  by destruct (rc4 <? 0).
Qed.
End Refine.
