(* ===== verification/XdpMain.v ===== *)
(** * The XDP program: main theorems

    Memory safety, the verdict as the declarative [must_drop], the disarmed
    fast path, and the accounting of packets in the metrics and in the
    per-address counters. *)

From S2P Require Import Prelude Types Ipaddr Kernel Xdp XdpThms.
Open Scope Z_scope.

Section Main.
Context {K : Type} `{!Kernel K}.
Implicit Types (w : K) (pkt : list Z) (m : bool).

(** ** The whole program against the reference parse *)

Definition has_metrics w : bool := bool_decide (is_Some (xdp_metrics w)).

(** The world [upd] leaves. *)
Definition metrics_upd m (f : vg_metrics → vg_metrics) w : K :=
  if m then match xdp_metrics w with
            | Some x => xdp_metrics_store (f x) w
            | None => w
            end
  else w.

Definition rx_world pkt w : K := metrics_upd (has_metrics w) (inc_rx (data_end pkt)) w.

(** Room for the fixed IP header at [nh]. *)
Definition xdp_ref pkt w : option (verdict * K) :=
  let m := has_metrics w in
  let w1 := rx_world pkt w in
  match armed_cfg w1 with
  | None => pass m w1
  | Some c =>
      match ip_info pkt with
      | Some i => judge m c i (data_end pkt) (parsed_world m i w1)
      | None =>
          match l3_info pkt with
          | Some (p, _) =>
              if (p =? VG_ETH_P_IP) || (p =? VG_ETH_P_IPV6) then parse_fail m w1
              else (_ ← upd m inc_non_ip; pass m) w1
          | None => parse_fail m w1
          end
      end
  end.

Lemma vlan_eq pkt w :
  14 ≤ data_end pkt →
  vlan_loop VG_MAX_VLANS pkt (b16 pkt 12) 14 w = Some (l3_info pkt, w).
Proof.
  intros H. unfold l3_info.
  replace (data_end pkt <? 14) with false by (symmetry; apply Z.ltb_ge; lia).
  cbn [vlan_loop VG_MAX_VLANS]. unfold vlan_size, vlan_proto_off.
  assert (∀ p, negb (p =? VG_ETH_P_8021Q) && negb (p =? VG_ETH_P_8021AD) = negb (is_vlan p))
    as Hv by (intros; unfold is_vlan; by rewrite negb_orb).
  rewrite !Hv. destruct (negb (is_vlan (b16 pkt 12))); [done|].
  cbn. change (14 + 4) with 18. change (14 + 2) with 16. change (18 + 4) with 22.
  change (18 + 2) with 20.
  destruct (data_end pkt <? 18) eqn:E; breflect; [done|]. step_load.
  rewrite Hv. destruct (negb (is_vlan (b16 pkt 16))); [done|].
  destruct (data_end pkt <? 22) eqn:E2; breflect; [done|]. by step_load.
Qed.

Lemma l3_info_bound pkt p nh : l3_info pkt = Some (p, nh) → 14 ≤ nh ≤ data_end pkt.
Proof.
  unfold l3_info. repeat split_if; intros [= <- <-]; breflect; lia.
Qed.

Lemma voidgate_xdp_eq pkt w : bytes_ok pkt → voidgate_xdp pkt w = xdp_ref pkt w.
Proof.
  intros Hb. unfold voidgate_xdp, xdp_ref. cbv zeta.
  rewrite (mbind_step _ _ w (has_metrics w) w) by done.
  rewrite (mbind_step _ _ w tt (rx_world pkt w)) by done.
  rewrite (mbind_step _ _ _ (xdp_cfg (rx_world pkt w)) (rx_world pkt w)) by done.
  unfold armed_cfg. destruct (xdp_cfg (rx_world pkt w)) as [c|]; [|done].
  destruct (armed c =? 0); [done|]. unfold eth_size, eth_proto_off, ip_info.
  destruct (data_end pkt <? 14) eqn:E; breflect.
  { unfold l3_info. by replace (data_end pkt <? 14) with true by (symmetry; apply Z.ltb_lt; lia). }
  step_load. rewrite (mbind_step _ _ _ _ _ (vlan_eq pkt _ ltac:(lia))).
  destruct (l3_info pkt) as [[p nh]|] eqn:E3; [|done].
  apply l3_info_bound in E3.
  destruct (p =? VG_ETH_P_IP).
  - destruct (data_end pkt <? nh + 20) eqn:E4; breflect; cbn [orb].
    + unfold xdp_v4, iphdr_size.
      by replace (data_end pkt <? nh + 20) with true by (symmetry; apply Z.ltb_lt; lia).
    + apply xdp_v4_eq; lia.
  - destruct (p =? VG_ETH_P_IPV6); [|done].
    destruct (data_end pkt <? nh + 40) eqn:E4; breflect; cbn [orb].
    + unfold xdp_v6, ipv6hdr_size.
      by replace (data_end pkt <? nh + 40) with true by (symmetry; apply Z.ltb_lt; lia).
    + apply xdp_v6_eq; done || lia.
Qed.

(** ** The counting tail *)

(** [v4_count] and [v6_count] are one function of the maps they use. *)
Definition count (lt : lpm_map) (h r : hash_map) m (s d : list Z) (len : Z) : M K verdict :=
  l ← gets (xdp_lpm_hit lt d);
  _ ← (if (l : bool) then
         c ← VG_HASH_GET h d m; _ ← acc_in h d c len;
         c ← VG_HASH_GET r s m; acc_in r s c len
       else mret tt);
  pass m.

Definition host_map (i : pkt_info) := if pi_v6 i then host_v6 else host_v4.
Definition remote_map (i : pkt_info) := if pi_v6 i then remote_v6 else remote_v4.

Lemma judge_count m c i len w :
  judge m c i len w =
  if exempt c i w || negb (drop_hit i w)
  then count (local_trie i) (host_map i) (remote_map i) m (pi_saddr i) (pi_daddr i) len w
  else Some (XDP_DROP, metrics_upd m inc_dropped w).
Proof.
  unfold judge, local_trie, host_map, remote_map.
  destruct (exempt c i w || negb (drop_hit i w)); [|done]. by destruct (pi_v6 i).
Qed.

(** [VG_HASH_GET] followed by [acc_in], as a world transformer. *)
Definition hget_world (h : hash_map) (k : list Z) w : K :=
  match xdp_hash_lookup h k w with
  | Some _ => w
  | None => xdp_hash_update_noexist h k (HostCounters 0 0) w
  end.

Definition account_world (h : hash_map) (k : list Z) m (len : Z) w : K :=
  let w1 := hget_world h k w in
  match xdp_hash_lookup h k w1 with
  | Some x => xdp_hash_store h k (bump len x) w1
  | None => metrics_upd m inc_map_full w1
  end.

Lemma account_eq h k m len w :
  (c ← VG_HASH_GET h k m; acc_in h k c len) w = Some (tt, account_world h k m len w).
Proof.
  unfold VG_HASH_GET, acc_in, account_world, hget_world, gets, modify, upd, mbind, M_bind,
    mret, M_ret.
  destruct (xdp_hash_lookup h k w) as [x|] eqn:E.
  { by rewrite E. }
  destruct (xdp_hash_lookup h k (xdp_hash_update_noexist h k _ w)) eqn:E2; cbn;
    rewrite ?E2; done.
Qed.

Definition count_world (lt : lpm_map) (h r : hash_map) m (s d : list Z) (len : Z) w : K :=
  metrics_upd m inc_passed
    (if xdp_lpm_hit lt d w then account_world r s m len (account_world h d m len w) else w).

Lemma count_eq lt h r m s d len w :
  count lt h r m s d len w = Some (XDP_PASS, count_world lt h r m s d len w).
Proof.
  unfold count, count_world. rewrite (mbind_step _ _ w (xdp_lpm_hit lt d w) w) by done.
  destruct (xdp_lpm_hit lt d w); [|done].
  rewrite (mbind_step _ _ w tt (account_world r s m len (account_world h d m len w)));
    [done|].
  rewrite <-account_eq. pose proof (account_eq h d m len w) as E.
  unfold mbind, M_bind in *. destruct (VG_HASH_GET h d m w) as [[c w1]|]; [|done].
  by rewrite E.
Qed.

(** ** Claims *)

(** On every packet and in every kernel state the program finishes with a
    verdict: no load leaves the packet, whatever its headers say. *)
Theorem xdp_memory_safe pkt w :
  bytes_ok pkt → ∃ v w', voidgate_xdp pkt w = Some (v, w').
Proof.
  intros Hb. rewrite voidgate_xdp_eq by done. unfold xdp_ref.
  repeat split_if; try (eexists _, _; reflexivity).
  rewrite judge_count, count_eq. split_if; by eexists _, _.
Qed.

(** ** Under the laws of map pointers *)
Context `{!XdpLaws K}.

Lemma mupd_hit m f w t a : xdp_lpm_hit t a (metrics_upd m f w) = xdp_lpm_hit t a w.
Proof. unfold metrics_upd. repeat split_if; by rewrite ?mstore_hit. Qed.

Lemma mupd_cfg m f w : xdp_cfg (metrics_upd m f w) = xdp_cfg w.
Proof. unfold metrics_upd. repeat split_if; by rewrite ?mstore_cfg. Qed.

Lemma mupd_hash m f w h a :
  xdp_hash_lookup h a (metrics_upd m f w) = xdp_hash_lookup h a w.
Proof. unfold metrics_upd. repeat split_if; by rewrite ?mstore_hash. Qed.

Lemma mupd_metrics m f w x :
  m = true → xdp_metrics w = Some x → xdp_metrics (metrics_upd m f w) = Some (f x).
Proof. intros -> E. unfold metrics_upd. rewrite E. apply mstore_get. by rewrite E. Qed.

Lemma mupd_no_metrics m f w :
  xdp_metrics w = None → metrics_upd m f w = w.
Proof. intros E. unfold metrics_upd. rewrite E. by destruct m. Qed.

Lemma has_metrics_Some w x : xdp_metrics w = Some x → has_metrics w = true.
Proof. intros E. apply bool_decide_eq_true. by rewrite E. Qed.

Lemma rx_metrics pkt w x :
  xdp_metrics w = Some x → xdp_metrics (rx_world pkt w) = Some (inc_rx (data_end pkt) x).
Proof. intros E. apply mupd_metrics; [by eapply has_metrics_Some|done]. Qed.

Lemma rx_armed pkt w : armed_cfg (rx_world pkt w) = armed_cfg w.
Proof. unfold armed_cfg, rx_world. by rewrite mupd_cfg. Qed.

Lemma parsed_mupd m i w : parsed_world m i w = if pi_err i then metrics_upd m inc_parse_err w else w.
Proof. done. Qed.

(** Exemptions and hits only read the tries. *)
Lemma exempt_ext c i w w' :
  (∀ t a, xdp_lpm_hit t a w' = xdp_lpm_hit t a w) → exempt c i w' = exempt c i w.
Proof.
  intros H. unfold exempt, allow_exempt, tcp_exempt, dhcp_exempt. by rewrite !H.
Qed.

Lemma drop_hit_ext i w w' :
  (∀ t a, xdp_lpm_hit t a w' = xdp_lpm_hit t a w) → drop_hit i w' = drop_hit i w.
Proof. intros H. unfold drop_hit. by rewrite !H. Qed.

(** The world the verdict is taken in. *)
Definition judged_world pkt i w : K := parsed_world (has_metrics w) i (rx_world pkt w).

Lemma judged_hit pkt i w t a : xdp_lpm_hit t a (judged_world pkt i w) = xdp_lpm_hit t a w.
Proof.
  unfold judged_world, rx_world. rewrite parsed_mupd. destruct (pi_err i); by rewrite !mupd_hit.
Qed.

Lemma judged_hash pkt i w h a :
  xdp_hash_lookup h a (judged_world pkt i w) = xdp_hash_lookup h a w.
Proof.
  unfold judged_world, rx_world. rewrite parsed_mupd. destruct (pi_err i); by rewrite !mupd_hash.
Qed.

(** One equation for each way through the program. *)
Definition xdp_result pkt w : verdict * K :=
  let m := has_metrics w in
  let w1 := rx_world pkt w in
  match armed_cfg w, ip_info pkt, l3_info pkt with
  | None, _, _ => (XDP_PASS, metrics_upd m inc_passed w1)
  | Some c, Some i, _ =>
      let w2 := judged_world pkt i w in
      if must_drop pkt w then (XDP_DROP, metrics_upd m inc_dropped w2)
      else (XDP_PASS, count_world (local_trie i) (host_map i) (remote_map i) m
                        (pi_saddr i) (pi_daddr i) (data_end pkt) w2)
  | Some _, None, Some (p, _) =>
      (XDP_PASS, if (p =? VG_ETH_P_IP) || (p =? VG_ETH_P_IPV6)
                 then metrics_upd m inc_parse_err w1
                 else metrics_upd m inc_passed (metrics_upd m inc_non_ip w1))
  | Some _, None, None => (XDP_PASS, metrics_upd m inc_parse_err w1)
  end.

Lemma xdp_result_eq pkt w : bytes_ok pkt → voidgate_xdp pkt w = Some (xdp_result pkt w).
Proof.
  intros Hb. rewrite voidgate_xdp_eq by done. unfold xdp_ref, xdp_result, must_drop.
  rewrite rx_armed. destruct (armed_cfg w) as [c|]; [|done].
  destruct (ip_info pkt) as [i|].
  - fold (judged_world pkt i w). rewrite judge_count, count_eq.
    rewrite (exempt_ext c i w), (drop_hit_ext i w) by apply judged_hit.
    by destruct (exempt c i w), (drop_hit i w).
  - destruct (l3_info pkt) as [[p nh]|]; [|done].
    by destruct ((p =? VG_ETH_P_IP) || (p =? VG_ETH_P_IPV6)).
Qed.

(** C1: the verdict is the declarative one: a packet is dropped exactly when
    the gate is armed, both addresses can be read, no exemption applies (NDP
    and link-local, allow list, allowed TCP port on the local side, DHCP) and
    one of its addresses is covered by a drop entry. *)
Theorem xdp_verdict pkt w :
  bytes_ok pkt →
  ∃ w', voidgate_xdp pkt w = Some (if must_drop pkt w then XDP_DROP else XDP_PASS, w').
Proof.
  intros Hb. rewrite xdp_result_eq by done. unfold xdp_result, must_drop.
  repeat split_if; simplify_eq; by eexists.
Qed.

(** Disarmed, the program passes every packet, looks at nothing but its
    length, and touches only the [rx] and [passed] counters. *)
Theorem xdp_disarmed pkt w :
  armed_cfg w = None →
  ∃ w', voidgate_xdp pkt w = Some (XDP_PASS, w')
    ∧ xdp_metrics w' = (λ x, inc_passed (inc_rx (data_end pkt) x)) <$> xdp_metrics w
    ∧ ∀ h a, xdp_hash_lookup h a w' = xdp_hash_lookup h a w.
Proof.
  intros Ha. exists (metrics_upd (has_metrics w) inc_passed (rx_world pkt w)). split_and!.
  - unfold voidgate_xdp. rewrite (mbind_step _ _ w (has_metrics w) w) by done. cbv zeta.
    rewrite (mbind_step _ _ w tt (rx_world pkt w)) by done.
    rewrite (mbind_step _ _ _ (xdp_cfg (rx_world pkt w)) (rx_world pkt w)) by done.
    pose proof (rx_armed pkt w) as E. rewrite Ha in E. unfold armed_cfg in E.
    destruct (xdp_cfg (rx_world pkt w)) as [c|]; [destruct (armed c =? 0); [|done]|]; done.
  - destruct (xdp_metrics w) as [x|] eqn:E; cbn [fmap option_fmap option_map].
    + apply mupd_metrics; [by eapply has_metrics_Some|by apply rx_metrics].
    + unfold rx_world. by rewrite (mupd_no_metrics _ _ w E), mupd_no_metrics.
  - intros h a. unfold rx_world. by rewrite !mupd_hash.
Qed.

(** *** Accounting *)

(** [tick b x]: the 64-bit counter [x] after a packet that counts when [b]. *)
Definition tick (b : bool) (x : Z) : Z := if b then u64 (x + 1) else x.

(** The packet ends before the addresses of its IP header, or inside a VLAN
    tag or the Ethernet header. *)
Definition truncated pkt : bool :=
  match ip_info pkt, l3_info pkt with
  | Some _, _ => false
  | None, Some (p, _) => (p =? VG_ETH_P_IP) || (p =? VG_ETH_P_IPV6)
  | None, None => true
  end.

Definition not_ip pkt : bool :=
  match l3_info pkt with
  | Some (p, _) => negb (p =? VG_ETH_P_IP) && negb (p =? VG_ETH_P_IPV6)
  | None => false
  end.

Definition bad_header pkt : bool :=
  truncated pkt || match ip_info pkt with Some i => pi_err i | None => false end.

Definition is_armed w : bool := bool_decide (is_Some (armed_cfg w)).

(** A metrics update by [f] keeps everything but the metrics. *)
Lemma hget_metrics h k w : xdp_metrics (hget_world h k w) = xdp_metrics w.
Proof. unfold hget_world. split_if; by rewrite ?hupdate_metrics. Qed.

Lemma account_metrics h k m len w x :
  m = true → xdp_metrics w = Some x →
  ∃ n, (n ≤ 1)%nat ∧
    xdp_metrics (account_world h k m len w) = Some (Nat.iter n inc_map_full x).
Proof.
  intros Hm E. unfold account_world. destruct (xdp_hash_lookup h k (hget_world h k w)).
  - exists 0%nat. rewrite hstore_metrics, hget_metrics. eauto with lia.
  - exists 1%nat. split; [lia|]. apply mupd_metrics; [done|]. by rewrite hget_metrics.
Qed.

Lemma count_metrics lt h r m s d len w x :
  m = true → xdp_metrics w = Some x →
  ∃ n, (n ≤ 2)%nat ∧
    xdp_metrics (count_world lt h r m s d len w) = Some (inc_passed (Nat.iter n inc_map_full x)).
Proof.
  intros Hm E. unfold count_world. destruct (xdp_lpm_hit lt d w).
  - destruct (account_metrics h d m len w x Hm E) as (n1 & ? & E1).
    destruct (account_metrics r s m len _ _ Hm E1) as (n2 & ? & E2).
    exists (n2 + n1)%nat. split; [lia|]. apply mupd_metrics; [done|].
    by rewrite E2, Nat.iter_add.
  - exists 0%nat. split; [lia|]. by apply mupd_metrics.
Qed.

Lemma judged_metrics pkt i w x :
  xdp_metrics w = Some x →
  xdp_metrics (judged_world pkt i w) =
  Some ((if pi_err i then inc_parse_err else id) (inc_rx (data_end pkt) x)).
Proof.
  intros E. unfold judged_world. rewrite parsed_mupd. destruct (pi_err i).
  - apply mupd_metrics; [by eapply has_metrics_Some|by apply rx_metrics].
  - by apply rx_metrics.
Qed.

Lemma not_ip_no_info pkt i : ip_info pkt = Some i → not_ip pkt = false.
Proof.
  unfold ip_info, not_ip. destruct (l3_info pkt) as [[p nh]|]; [|done].
  by destruct (p =? VG_ETH_P_IP), (p =? VG_ETH_P_IPV6).
Qed.

(** [n] full counter maps are [n] increments of [map_full] alone. *)
Lemma iter_map_full n x :
  Nat.iter n inc_map_full x =
  Metrics (rx_pkts x) (rx_bytes x) (passed x) (dropped x) (non_ip x)
    (Nat.iter n (tick true) (map_full x)) (parse_err x).
Proof. induction n as [|n IH]; simpl; [by destruct x|]. by rewrite IH. Qed.

(** C16: every packet is accounted for once: it adds one to [rx_pkts] and its
    length to [rx_bytes]; a dropped packet adds one to [dropped]; any other
    one to [passed], unless it is truncated before its addresses (armed), and
    then only [parse_err] counts it; [non_ip] and [parse_err] count the armed
    packets they name, and at most two full counter maps are reported. *)
Theorem xdp_metrics_accounting pkt w x :
  bytes_ok pkt → xdp_metrics w = Some x →
  ∃ v w' n, voidgate_xdp pkt w = Some (v, w') ∧ (n ≤ 2)%nat ∧
    xdp_metrics w' = Some (Metrics
      (tick true (rx_pkts x))
      (u64 (rx_bytes x + data_end pkt))
      (tick (bool_decide (v = XDP_PASS) && negb (is_armed w && truncated pkt)) (passed x))
      (tick (bool_decide (v = XDP_DROP)) (dropped x))
      (tick (is_armed w && not_ip pkt) (non_ip x))
      (Nat.iter n (tick true) (map_full x))
      (tick (is_armed w && bad_header pkt) (parse_err x))).
Proof.
  intros Hb Hx. rewrite xdp_result_eq by done. unfold xdp_result, is_armed.
  pose proof (has_metrics_Some w x Hx) as Hm. pose proof (rx_metrics pkt w x Hx) as Hr.
  destruct (armed_cfg w) as [c|] eqn:Ea; cbn [bool_decide andb].
  2:{ do 3 eexists. split; [done|]. split; [apply (Nat.le_0_l 2)|].
      by erewrite mupd_metrics by done. }
  destruct (ip_info pkt) as [i|] eqn:Ei.
  - rewrite (not_ip_no_info _ _ Ei). unfold bad_header, truncated. rewrite Ei.
    pose proof (judged_metrics pkt i w x Hx) as Hj.
    destruct (must_drop pkt w) eqn:Ed.
    + do 3 eexists. split; [done|]. split; [apply (Nat.le_0_l 2)|].
      erewrite mupd_metrics by done. by destruct (pi_err i).
    + destruct (count_metrics (local_trie i) (host_map i) (remote_map i) _ (pi_saddr i)
        (pi_daddr i) (data_end pkt) _ _ Hm Hj) as (n & Hn & E).
      do 3 eexists. split; [done|]. split; [exact Hn|]. rewrite E, iter_map_full.
      by destruct (pi_err i).
  - unfold bad_header, truncated, not_ip. rewrite Ei.
    destruct (l3_info pkt) as [[p nh]|] eqn:E3.
    + rewrite <-negb_orb.
      destruct ((p =? VG_ETH_P_IP) || (p =? VG_ETH_P_IPV6)); cbn;
        (do 3 eexists; split; [done|]; split; [apply (Nat.le_0_l 2)|]).
      * by erewrite mupd_metrics by done.
      * erewrite mupd_metrics; [|done|by apply mupd_metrics]. done.
    + do 3 eexists. split; [done|]. split; [apply (Nat.le_0_l 2)|].
      by erewrite mupd_metrics by done.
Qed.

(** *** Per-address counters *)

(** The packet that is counted per address: armed, passed, with a local
    destination. *)
Definition counted pkt w : option pkt_info :=
  match armed_cfg w, ip_info pkt with
  | Some _, Some i =>
      if negb (must_drop pkt w) && xdp_lpm_hit (local_trie i) (pi_daddr i) w
      then Some i else None
  | _, _ => None
  end.

(** The counters of [a] grew by one packet of [len] bytes, from zero when
    there were none; or there were none and the map took no new entry. *)
Definition counted_at (h : hash_map) (a : list Z) (len : Z) w w' : Prop :=
  xdp_hash_lookup h a w' =
    Some (bump len (default (HostCounters 0 0) (xdp_hash_lookup h a w)))
  ∨ xdp_hash_lookup h a w = None ∧ xdp_hash_lookup h a w' = None.

Lemma account_at h a m len w : counted_at h a len w (account_world h a m len w).
Proof.
  unfold counted_at, account_world, hget_world.
  destruct (xdp_hash_lookup h a w) as [x|] eqn:E.
  { rewrite E. left. apply hstore_get. by rewrite E. }
  destruct (hupdate_new h a (HostCounters 0 0) w E) as [E1|E1]; rewrite E1.
  - left. apply hstore_get. by rewrite E1.
  - right. by rewrite mupd_hash.
Qed.

Lemma account_other h a m len w h' a' :
  h' ≠ h → xdp_hash_lookup h' a' (account_world h a m len w) = xdp_hash_lookup h' a' w.
Proof.
  intros Hn. unfold account_world, hget_world.
  destruct (xdp_hash_lookup h a w) as [x|] eqn:E.
  { rewrite E. apply hstore_other. congruence. }
  destruct (xdp_hash_lookup h a (xdp_hash_update_noexist h a _ w)).
  - rewrite hstore_other by congruence. by apply hupdate_other_map.
  - rewrite mupd_hash. by apply hupdate_other_map.
Qed.

Lemma account_hit h a m len w t b :
  xdp_lpm_hit t b (account_world h a m len w) = xdp_lpm_hit t b w.
Proof.
  unfold account_world, hget_world. repeat split_if;
    by rewrite ?mupd_hit, ?hstore_hit, ?hupdate_hit.
Qed.

Lemma count_counters lt h r m s d len w :
  h ≠ r → xdp_lpm_hit lt d w = true →
  let w' := count_world lt h r m s d len w in
  counted_at h d len w w' ∧ counted_at r s len w w' ∧
  ∀ h' a, h' ≠ h → h' ≠ r → xdp_hash_lookup h' a w' = xdp_hash_lookup h' a w.
Proof.
  intros Hhr Hl. unfold count_world. rewrite Hl. cbv zeta. split_and!.
  - unfold counted_at. rewrite mupd_hash, (account_other r) by done. apply account_at.
  - unfold counted_at. rewrite mupd_hash.
    pose proof (account_at r s m len (account_world h d m len w)) as Ha.
    unfold counted_at in Ha. by rewrite (account_other h d m len w r s) in Ha.
  - intros. by rewrite mupd_hash, !account_other.
Qed.

(** C31: the per-address counters: a packet that is dropped, passed while
    disarmed, not IP, truncated or not for a local destination leaves all
    four counter maps as they are; any other adds itself to the counters of
    its destination (host) and of its source (remote), of its own family
    only. *)
Theorem xdp_counters pkt w v w' :
  bytes_ok pkt → voidgate_xdp pkt w = Some (v, w') →
  match counted pkt w with
  | None => ∀ h a, xdp_hash_lookup h a w' = xdp_hash_lookup h a w
  | Some i =>
      v = XDP_PASS
      ∧ counted_at (host_map i) (pi_daddr i) (data_end pkt) w w'
      ∧ counted_at (remote_map i) (pi_saddr i) (data_end pkt) w w'
      ∧ ∀ h a, h ≠ host_map i → h ≠ remote_map i →
          xdp_hash_lookup h a w' = xdp_hash_lookup h a w
  end.
Proof.
  intros Hb. rewrite xdp_result_eq by done. unfold xdp_result, counted.
  destruct (armed_cfg w) as [c|]; [destruct (ip_info pkt) as [i|]|].
  - destruct (must_drop pkt w); cbn [negb andb]; intros [= <- <-].
    { intros h a. by rewrite mupd_hash, judged_hash. }
    destruct (xdp_lpm_hit (local_trie i) (pi_daddr i) w) eqn:Hl.
    + destruct (count_counters (local_trie i) (host_map i) (remote_map i) (has_metrics w)
        (pi_saddr i) (pi_daddr i) (data_end pkt) (judged_world pkt i w)) as (H1 & H2 & H3).
      { unfold host_map, remote_map. by destruct (pi_v6 i). }
      { by rewrite judged_hit. }
      unfold counted_at in *. rewrite !judged_hash in *. split_and!; [done..|].
      intros. rewrite H3 by done. apply judged_hash.
    + intros h a. unfold count_world. rewrite judged_hit, Hl. by rewrite mupd_hash, judged_hash.
  - destruct (l3_info pkt) as [[p nh]|]; intros [= <- <-] h a; repeat split_if; unfold rx_world;
      by rewrite ?mupd_hash.
  - intros [= <- <-] h a. unfold rx_world. by rewrite !mupd_hash.
Qed.

(** An allowed TCP port protects the local side only.  A packet to an
    allowed port of a local address passes whatever the drop maps hold; one
    whose allowed port is only its source port, from an address that is not
    local, is judged as if no port were allowed. *)
Theorem xdp_tcp_port_local_side pkt w c i :
  bytes_ok pkt → armed_cfg w = Some c → ip_info pkt = Some i → pi_proto i = 6 →
  (port_allowed (Some c) (pi_dport i) = true →
   xdp_lpm_hit (local_trie i) (pi_daddr i) w = true →
   ∃ w', voidgate_xdp pkt w = Some (XDP_PASS, w'))
  ∧ (port_allowed (Some c) (pi_dport i) = false →
     xdp_lpm_hit (local_trie i) (pi_saddr i) w = false →
     ndp_exempt i = false → allow_exempt i w = false → drop_hit i w = true →
     ∃ w', voidgate_xdp pkt w = Some (XDP_DROP, w')).
Proof.
  intros Hb Ha Hi Hp.
  assert (∃ w', voidgate_xdp pkt w = Some (if must_drop pkt w then XDP_DROP else XDP_PASS, w'))
    as [w' E].
  { rewrite xdp_result_eq by done. unfold xdp_result, must_drop. rewrite Ha, Hi.
    repeat split_if; by eexists. }
  rewrite E. unfold must_drop, exempt, tcp_exempt, dhcp_exempt. rewrite Ha, Hi, Hp.
  split.
  - intros -> ->. exists w'. cbn. by rewrite !orb_true_r.
  - intros -> -> -> -> ->. exists w'. cbn. by rewrite andb_false_r.
Qed.
End Main.
