(* ===== verification/XdpWitness.v ===== *)
(** * The XDP theorems on concrete packets

    A small armed kernel (203.0.113.0/24 dropped, 10.0.0.0/8 local, port 22
    allowed) and three packets on which the theorems of [XdpMain] are
    instantiated. *)

From S2P Require Import Prelude Types Ipaddr Kernel KernelRef Xdp XdpThms XdpMain.
Open Scope Z_scope.

(** An Ethernet/IPv4/TCP packet with the given addresses and ports. *)
Definition tcp4 (s d : list Z) (sport dport : Z) : list Z :=
  repeat 0 12 ++ [8; 0] ++ [0x45; 0; 0; 40; 0; 0; 0; 0; 64; 6; 0; 0] ++ s ++ d
  ++ [sport / 256; sport mod 256; dport / 256; dport mod 256] ++ repeat 0 16.

Definition gate_world : kref :=
  KRef (λ m, match m with
             | drop_v4 => [((24, [203; 0; 113; 0]), VDrop (DropEntry VG_REASON_POLICY 0))]
             | local_v4 => [((8, [10; 0; 0; 0]), VByte 1)]
             | _ => []
             end)
       (λ _, ∅) 16 (Some (BpfCfg 1 [22; 0; 0; 0; 0; 0; 0; 0] 1))
       (Some (Metrics 0 0 0 0 0 0 0)) [] [] [] [].

Definition idle_world : kref := ref_boot 16.

Definition attack : list Z := tcp4 [203; 0; 113; 9] [10; 0; 0; 1] 22 80.
Definition ssh : list Z := tcp4 [203; 0; 113; 9] [10; 0; 0; 1] 4000 22.
Definition web : list Z := tcp4 [198; 51; 100; 7] [10; 0; 0; 1] 4000 80.

(** Instance of [xdp_memory_safe]: a packet cut inside its TCP header. *)
Lemma xdp_memory_safe_witness :
  ∃ v w', voidgate_xdp (take 40 attack) gate_world = Some (v, w').
Proof. apply xdp_memory_safe. vm_compute. repeat constructor; congruence. Defined.

(** Instance of [xdp_verdict]: the attack packet is dropped. *)
Lemma xdp_verdict_witness :
  ∃ w', voidgate_xdp attack gate_world = Some (XDP_DROP, w').
Proof.
  change XDP_DROP with (if true then XDP_DROP else XDP_PASS).
  replace true with (must_drop attack gate_world) by reflexivity.
  apply xdp_verdict. vm_compute. repeat constructor; congruence.
Defined.

(** Instance of [xdp_disarmed]. *)
Lemma xdp_disarmed_witness :
  ∃ w', voidgate_xdp attack idle_world = Some (XDP_PASS, w')
    ∧ xdp_metrics w' = (λ x, inc_passed (inc_rx (data_end attack) x)) <$> xdp_metrics idle_world
    ∧ ∀ h a, xdp_hash_lookup h a w' = xdp_hash_lookup h a idle_world.
Proof. apply xdp_disarmed. reflexivity. Defined.

(** Instance of [xdp_metrics_accounting]: the dropped packet of 54 bytes. *)
Lemma xdp_metrics_accounting_witness :
  ∃ v w' n, voidgate_xdp attack gate_world = Some (v, w') ∧ (n ≤ 2)%nat ∧
    xdp_metrics w' = Some (Metrics
      (tick true 0) (u64 (0 + data_end attack))
      (tick (bool_decide (v = XDP_PASS) && negb (is_armed gate_world && truncated attack)) 0)
      (tick (bool_decide (v = XDP_DROP)) 0)
      (tick (is_armed gate_world && not_ip attack) 0)
      (Nat.iter n (tick true) 0)
      (tick (is_armed gate_world && bad_header attack) 0)).
Proof.
  apply (xdp_metrics_accounting attack gate_world (Metrics 0 0 0 0 0 0 0)); [|reflexivity].
  vm_compute. repeat constructor; congruence.
Defined.

(** Instance of [xdp_counters]: a passed packet for a local host is counted. *)
Lemma xdp_counters_witness :
  ∃ i w', counted web gate_world = Some i ∧ voidgate_xdp web gate_world = Some (XDP_PASS, w')
    ∧ counted_at (host_map i) (pi_daddr i) (data_end web) gate_world w'.
Proof.
  destruct (voidgate_xdp web gate_world) as [[v w']|] eqn:E; [|vm_compute in E; discriminate].
  destruct (counted web gate_world) as [i|] eqn:Ec; [|vm_compute in Ec; discriminate].
  exists i, w'. pose proof (xdp_counters web gate_world v w') as H. rewrite Ec in H.
  destruct H as (-> & H & _); [vm_compute; repeat constructor; congruence|done|]. done.
Defined.

(** Instance of [xdp_tcp_port_local_side]: source port 22 does not help the
    attacker, destination port 22 keeps SSH open. *)
Lemma xdp_tcp_port_local_side_witness :
  (∃ w', voidgate_xdp ssh gate_world = Some (XDP_PASS, w'))
  ∧ (∃ w', voidgate_xdp attack gate_world = Some (XDP_DROP, w')).
Proof.
  split.
  - eapply (proj1 (xdp_tcp_port_local_side ssh gate_world _ _ ltac:(vm_compute; repeat constructor; congruence) eq_refl eq_refl eq_refl)); reflexivity.
  - eapply (proj2 (xdp_tcp_port_local_side attack gate_world _ _ ltac:(vm_compute; repeat constructor; congruence) eq_refl eq_refl eq_refl)); reflexivity.
Defined.
