(* ===== verification/MapsMain.v ===== *)
(** * Configuration and counters through the maps: main theorems

    What the daemon writes is what the XDP program reads: the allowed ports,
    the local and allowed networks; and the per-CPU counters are summed. *)

From S2P Require Import Prelude Types Ipaddr IpaddrThms Config ConfigThms Kernel Maps MapsThms.
From S2P Require Import Xdp.
Open Scope Z_scope.

(** ** Ports *)

Lemma port_loop_spec n i c port :
  port_loop n i c port = true ↔
  ∃ j, (i ≤ j < i + n)%nat ∧ Z.of_nat j < allow_port_count c
       ∧ default 0 (allow_ports c !! j) = port.
Proof.
  revert i. induction n as [|n IH]; intros i; cbn [port_loop].
  - split; [done|]. intros (j & ? & _). lia.
  - destruct (allow_port_count c <=? Z.of_nat i) eqn:E1; breflect.
    { split; [done|]. intros (j & Hj & Hc & _). lia. }
    destruct (default 0 (allow_ports c !! i) =? port) eqn:E2; breflect.
    { split; [|done]. intros _. exists i. repeat split; try done; lia. }
    rewrite IH. split; intros (j & Hj & Hc & Hp); exists j; (split; [|done]); [lia|].
    assert (j ≠ i) by congruence. lia.
Qed.

Lemma bpf_cfg_ports word cf port :
  cfg_ok cf → port_allowed (Some (bpf_cfg_of word cf)) port = true ↔ port ∈ cfg_allow_ports cf.
Proof.
  intros Hc. destruct (ok_ports _ Hc) as [Hl _]. unfold VG_MAX_ALLOW_PORTS in Hl.
  unfold port_allowed, bpf_cfg_of. rewrite port_loop_spec.
  assert (u16 (Z.of_nat (length (cfg_allow_ports cf))) = Z.of_nat (length (cfg_allow_ports cf))) as Eu
    by (unfold u16; apply Z.mod_small; lia).
  rewrite Eu.
  replace (Z.of_nat VG_MAX_ALLOW_PORTS <? Z.of_nat (length (cfg_allow_ports cf))) with false
    by (symmetry; apply Z.ltb_ge; unfold VG_MAX_ALLOW_PORTS; lia).
  rewrite Nat2Z.id, take_ge by lia. cbn [allow_ports allow_port_count]. split.
  - intros (j & _ & Hj & Hp). assert (j < length (cfg_allow_ports cf))%nat as Hlt by lia.
    rewrite lookup_app_l in Hp by done.
    destruct (lookup_lt_is_Some_2 _ _ Hlt) as [x Hx]. rewrite Hx in Hp. cbn in Hp. subst.
    by eapply list_elem_of_lookup_2.
  - intros [j Hj]%list_elem_of_lookup_1. pose proof (lookup_lt_Some _ _ _ Hj).
    exists j. rewrite lookup_app_l, Hj by done. unfold VG_MAX_ALLOW_PORTS. repeat split; try done; lia.
Qed.

(** ** Sums *)

(** Word [i] over [n] CPUs from [cpu] on. *)
Fixpoint cpu_sum (n cpu : nat) (buf : list Z) (words i : nat) : Z :=
  match n with
  | O => 0
  | S n => default 0 (buf !! (cpu * words + i)%nat) + cpu_sum n (S cpu) buf words i
  end.

Lemma u64_add a b : u64 (u64 a + b) = u64 (a + b).
Proof. unfold u64. by rewrite Zplus_mod_idemp_l. Qed.

Lemma sum_loop_spec n cpu buf words (g : nat → Z) :
  sum_loop n cpu buf words ((λ i, u64 (g i)) <$> seq 0 words)
  = (λ i, u64 (g i + cpu_sum n cpu buf words i)) <$> seq 0 words.
Proof.
  revert cpu g. induction n as [|n IH]; intros cpu g; cbn [sum_loop cpu_sum].
  { apply list_fmap_ext. intros k i _. by rewrite Z.add_0_r. }
  unfold add_words, cpu_words.
  assert (zip_with (λ d s, u64 (d + s)) ((λ i, u64 (g i)) <$> seq 0 words)
    ((λ i, default 0 (buf !! (cpu * words + i)%nat)) <$> seq 0 words)
    = (λ i, u64 (g i + default 0 (buf !! (cpu * words + i)%nat))) <$> seq 0 words) as ->.
  { clear. generalize (seq 0 words) as l. induction l as [|x l IHl]; [done|].
    cbn [fmap list_fmap zip_with]. rewrite u64_add. f_equal. exact IHl. }
  rewrite IH. apply list_fmap_ext. intros k i _. f_equal. lia.
Qed.

Lemma replicate_seq n k : replicate n 0 = (λ _ : nat, u64 0) <$> seq k n.
Proof. revert k. induction n as [|n IH]; intros k; [done|]. cbn. f_equal. apply IH. Qed.

(** Reading a per-CPU value sums its words over the CPUs, modulo 2^64,
    for both value types: the scratch buffer [vg_maps_open] sizes is always
    large enough. *)
Theorem sum_percpu_sums {K} `{!Kernel K} (cpus : Z) (read : K → option (list Z) * K) sz w buf w' :
  sz = sizeof_host_counters ∨ sz = sizeof_vg_metrics → read w = (Some buf, w') →
  vg_sum_percpu (maps_open_sizes cpus) read sz w =
    Some (Some ((λ i, u64 (cpu_sum (Z.to_nat (Z.max cpus 1)) 0 buf (Z.to_nat (sz / 8)) i))
                  <$> seq 0 (Z.to_nat (sz / 8))), w').
Proof.
  intros Hsz Hr. unfold vg_sum_percpu, maps_open_sizes. cbn [ncpus sum_scratch_size].
  assert ((if cpus <=? 0 then 1 else cpus) = Z.max cpus 1) as -> by (split_if; breflect; lia).
  replace (Z.max cpus 1 <=? 0) with false by (symmetry; apply Z.leb_gt; lia).
  replace (sum_scratch_need (Z.max cpus 1) <? Z.max cpus 1 * sz) with false.
  2:{ symmetry. apply Z.ltb_ge. unfold sum_scratch_need.
      change (if sizeof_vg_metrics <? sizeof_host_counters then _ else _) with 56.
      destruct Hsz as [-> | ->]; unfold sizeof_host_counters, sizeof_vg_metrics; lia. }
  unfold mbind, M_bind, call. rewrite Hr. unfold mret, M_ret. do 3 f_equal.
  set (words := Z.to_nat (sz / 8)).
  pose proof (sum_loop_spec (Z.to_nat (Z.max cpus 1)) 0 buf words (λ _, 0)) as Hs. cbv beta in Hs.
  etrans; [etrans; [|exact Hs]|by apply list_fmap_ext].
  f_equal. apply replicate_seq.
Qed.

(** ** Networks *)

Section Populate.
Context {K : Type} `{!Kernel K} `{!KernelLaws K}.
Implicit Types w : K.

(** Committing writes the armed word and exactly the configured ports:
    after a successful update the XDP program allows a port if and only if
    the configuration lists it; a failed one leaves the old entry.  The tries
    are untouched. *)
Theorem commit_ports word cf w :
  cfg_ok cf →
  ∃ e w', vg_cfg_commit word cf w = Some (e, w') ∧ (∀ m, same_trie m w w')
    ∧ (e = 0 → ∃ bc, xdp_cfg w' = Some bc ∧ armed bc = word
         ∧ ∀ port, port_allowed (Some bc) port = true ↔ port ∈ cfg_allow_ports cf)
    ∧ (e ≠ 0 → xdp_cfg w' = xdp_cfg w).
Proof.
  intros Hc. unfold vg_cfg_commit, call. destruct (bpf_cfg_update _ w) as [e w'] eqn:E.
  exists e, w'. split_and!; [done| | |].
  - intros m. pose proof (cfg_update_tries (bpf_cfg_of word cf) w m) as Ht. by rewrite E in Ht.
  - intros ->. eexists. split; [by eapply cfg_update_ok|]. split; [done|]. intros. by apply bpf_cfg_ports.
  - by eapply cfg_update_fail.
Qed.

Section Pair.
Context (fd4 fd6 : lpm_map) (H4 : lpm_bits fd4 = 32) (H6 : lpm_bits fd6 = 128).

(** The trie of a prefix, and its entry. *)
Definition net_fd (q : vg_cidr) : lpm_map := if family q =? AF_INET then fd4 else fd6.
Definition stored w (q : vg_cidr) : Prop := is_Some (lpm_view (net_fd q) w !! lpm_key_of q).

Lemma net_fd_fits q : cidr_ok q → fits (net_fd q) q.
Proof. intros Hq. unfold fits, net_fd. by destruct (ok_family _ Hq) as [-> | ->]. Qed.

Lemma net_fd_family p q : cidr_ok p → cidr_ok q → net_fd p = net_fd q → family p = family q.
Proof.
  intros Hp Hq E. pose proof (net_fd_fits p Hp) as H1. pose proof (net_fd_fits q Hq) as H2.
  unfold fits in *. rewrite E, H2 in H1.
  destruct (ok_family _ Hp) as [E1|E1], (ok_family _ Hq) as [E2|E2]; rewrite E1, E2 in *; done.
Qed.

(** The other tries and the cfg array of two worlds are the same. *)
Definition same_others w w' : Prop :=
  (∀ m, m ≠ fd4 → m ≠ fd6 → same_trie m w w') ∧ xdp_cfg w' = xdp_cfg w.

Lemma same_others_trans w1 w2 w3 : same_others w1 w2 → same_others w2 w3 → same_others w1 w3.
Proof.
  intros [A1 B1] [A2 B2]. split; [|congruence]. intros m Hm4 Hm6.
  destruct (A1 m Hm4 Hm6), (A2 m Hm4 Hm6). split; congruence.
Qed.

Lemma same_others_but m w w' : m = fd4 ∨ m = fd6 → same_but m w w' → same_others w w'.
Proof. intros Hm [Hb Hx]. split; [|done]. intros m' N4 N6. apply Hb. by destruct Hm as [-> | ->]. Qed.

Lemma net_fd_or q : net_fd q = fd4 ∨ net_fd q = fd6.
Proof. unfold net_fd. destruct (_ =? _); auto. Qed.

(** One update. *)
Lemma put_net p w :
  prefix_ok p →
  wp (lpm_update (net_fd p) p (VByte 1)) (λ _ w', same_others w w'
    ∧ ∀ q, prefix_ok q → (stored w q → stored w' q) ∧ (stored w' q → stored w q ∨ q = p)
      ∧ (q = p → stored w' q ∨ unstored (net_fd q) (lpm_key_of q) w')) w.
Proof.
  intros Hp. unfold lpm_update. apply wp_call. destruct (bpf_lpm_update _ _ _ w) as [e w'] eqn:E.
  cbn [fst snd]. destruct (decide (e = 0)) as [->|He].
  - destruct (update_ok _ _ _ _ _ (lpm_key_ok _ p Hp (net_fd_fits _ (proj1 Hp))) E) as [Hv Hb].
    split; [by eapply same_others_but; [apply net_fd_or|]|]. intros q Hq. unfold stored.
    destruct (decide (net_fd q = net_fd p)) as [Ef|Ef].
    + rewrite Ef, Hv. destruct (decide (lpm_key_of p = lpm_key_of q)) as [Ek|Ek].
      * assert (p = q) as <- by (apply lpm_key_inj; [done|done|symmetry; apply net_fd_family; [apply Hq|apply Hp|done]|done]).
        rewrite lookup_insert_eq. split_and!; eauto.
      * rewrite lookup_insert_ne by done. split_and!; [done|by left|]. intros ->. by destruct Ek.
    + destruct (proj1 Hb _ Ef) as [-> _]. split_and!; [done|by left|]. intros ->. by destruct Ef.
  - pose proof (update_fail _ _ _ _ _ _ E He) as [Hs Hx]. split; [split; [intros; apply Hs|done]|].
    intros q Hq. unfold stored. destruct (Hs (net_fd q)) as [-> _]. split_and!; [done|by left|].
    intros ->. right. apply (update_past _ _ _ _ _ _ LpmUpdate _ _ E). by right.
Qed.

Lemma populate_loop_spec l w :
  Forall prefix_ok l →
  wp (populate_loop fd4 fd6 l) (λ _ w', same_others w w'
    ∧ ∀ q, prefix_ok q → (stored w q → stored w' q) ∧ (stored w' q → stored w q ∨ q ∈ l)
      ∧ (q ∈ l → stored w' q ∨ unstored (net_fd q) (lpm_key_of q) w')) w.
Proof.
  intros Hl. revert w. induction Hl as [|p l Hp Hl IH]; intros w; cbn [populate_loop].
  { apply wp_ret. split; [done|]. intros q _. split_and!; [done|by left|by intros ?%elem_of_nil]. }
  apply wp_bind. fold (net_fd p). eapply wp_mono; [by apply put_net|]. intros ? w1 [Hs1 H1].
  eapply wp_mono; [eapply wp_past; [apply grows_populate_loop|apply IH]|]. intros ? w2 [[Hs2 H2] Hpa].
  split; [by eapply same_others_trans|]. intros q Hq.
  destruct (H1 q Hq) as (A1 & B1 & C1), (H2 q Hq) as (A2 & B2 & C2). split_and!.
  - auto.
  - intros [Hx|Hx]%B2; [apply B1 in Hx as [?| ->]; [by left|]|]; right; apply elem_of_cons; auto.
  - intros [Hx|Hx]%elem_of_cons; [apply C1 in Hx as [?|?]; [auto|right; by apply Hpa]|auto].
Qed.

Lemma flush_pair_spec w :
  wp (_ ← flush_lpm fd4; flush_lpm fd6) (λ _ w', same_others w w'
    ∧ ∀ q, prefix_ok q → stored w' q → refused (net_fd q) (lpm_key_of q) w') w.
Proof.
  assert (fd4 ≠ fd6) as Hne by (intros E; rewrite E, H6 in H4; done).
  apply wp_bind. eapply wp_mono; [apply flush_lpm_spec|]. intros ? w1 (Hb1 & _ & Hr1).
  eapply wp_mono; [eapply wp_past; [apply grows_flush|apply flush_lpm_spec]|].
  intros ? w2 ((Hb2 & _ & Hr2) & Hpa). split.
  - eapply same_others_trans; (eapply same_others_but; [|done]); auto.
  - intros q Hq Hs. unfold stored in Hs. destruct (net_fd_or q) as [E|E]; rewrite E in *.
    + destruct (proj1 Hb2 fd4 Hne) as [Ev _]. rewrite Ev in Hs. by apply (past_refused _ _ _ _ Hpa), Hr1.
    + by apply Hr2.
Qed.

(** Afterwards the tries hold the networks [l], up to calls that failed. *)
Definition populated (l : list vg_cidr) w w' : Prop :=
  same_others w w'
  ∧ ∀ q, prefix_ok q →
      (stored w' q → q ∈ l ∨ refused (net_fd q) (lpm_key_of q) w')
      ∧ (q ∈ l → stored w' q ∨ unstored (net_fd q) (lpm_key_of q) w').

Lemma populate_pair_spec l w :
  Forall prefix_ok l →
  wp (_ ← flush_lpm fd4; _ ← flush_lpm fd6; populate_loop fd4 fd6 l) (λ _, populated l w) w.
Proof.
  intros Hl. destruct (flush_pair_spec w) as (u & w1 & E & Hs1 & H1).
  apply mbind_inv in E as (u1 & w0 & E0 & E1). exists tt.
  destruct (populate_loop_spec l w1 Hl) as ([] & w2 & E2 & Hs2 & H2). exists w2.
  pose proof (grows_populate_loop fd4 fd6 l w1 tt w2 E2) as Hpa. split.
  - rewrite (mbind_step _ _ _ _ _ E0), (mbind_step _ _ _ _ _ E1). done.
  - split; [by eapply same_others_trans|]. intros q Hq. destruct (H2 q Hq) as (_ & B & C).
    split; [|done]. intros [Hx|Hx]%B; [right; by apply (past_refused _ _ _ _ Hpa), H1|by left].
Qed.
End Pair.

(** Populating makes the local and the allowed tries hold exactly the
    configured networks: a stored prefix is configured, unless the kernel
    refused to delete it, a configured prefix is stored, unless the kernel
    refused the update, and nothing else in the maps changes. *)
Theorem populate_exact cf w :
  cfg_ok cf →
  (∃ w', vg_populate_local cf w = Some (tt, w') ∧ populated local_v4 local_v6 (local_cidr cf) w w')
  ∧ (∃ w', vg_populate_allow cf w = Some (tt, w') ∧ populated allow_v4 allow_v6 (allow_cidr cf) w w').
Proof.
  intros Hc. destruct (ok_local _ Hc) as [_ Hl], (ok_allow _ Hc) as [_ Ha]. split.
  - destruct (populate_pair_spec local_v4 local_v6 eq_refl eq_refl _ w Hl) as ([] & w' & E & H). by exists w'.
  - destruct (populate_pair_spec allow_v4 allow_v6 eq_refl eq_refl _ w Ha) as ([] & w' & E & H). by exists w'.
Qed.
End Populate.
