(* ===== verification/Detect.v ===== *)
(** * Detection: the walk that meets a flooding remote

    What the kernel has to hold still during a tick ([Calm]), what an
    operation of the controller costs of it ([costs]), and the walk over the
    remote counters as an invariant: a remote over a threshold is listed by
    the time the walk has passed it. *)

From S2P Require Import Prelude Types Ipaddr IpaddrThms Config Kernel Maps MapsThms Lists.
From S2P Require Import DropTable DropThms Snap SnapThms SnapMain Double Policy PolicyThms.
From S2P Require Import SweepThms TickThms PolicyRate MapsMain.
Import Dlist Hlist.
Open Scope Z_scope.

(** The keys of the counter hashes in the order of a walk, the words a read
    of one may yield, and the time: from [sc_from] to before [sc_till]. *)
Record scene := Scene {
  sc_keys : hash_map → list (list Z);
  sc_reads : hash_map → list Z → list Z → Prop;
  sc_from : Z;
  sc_till : Z;
}.

(** The key a walk yields after [o]. *)
Fixpoint succ_of (k : list Z) (l : list (list Z)) : option (list Z) :=
  match l with
  | [] => None
  | x :: l' => if decide (x = k) then hd_error l' else succ_of k l'
  end.
Definition walk_next (o : option (list Z)) (l : list (list Z)) : option (list Z) :=
  match o with None => hd_error l | Some k => succ_of k l end.

(** [calm sc n w]: during the tick that begins in [w] no key enters or leaves
    a counter hash, reads yield what [sc] says, the metrics can be read, and
    the tries have room for [n] more updates.  Counters may change between
    two reads; time may pass. *)
Class Calm (K : Type) `{!Kernel K} := {
  calm : scene → nat → K → Prop;
  calm_nodup sc n w h : calm sc n w → NoDup (sc_keys sc h);
  calm_less sc n n' w : calm sc n w → (n' ≤ n)%nat → calm sc n' w;
  calm_time sc n w : calm sc n w →
    sc_from sc ≤ (sys_time w).1 < sc_till sc ∧ calm sc n (sys_time w).2;
  calm_clock sc n w : calm sc n w → calm sc n (sys_clock w).2;
  calm_metrics sc n w : calm sc n w →
    is_Some (bpf_metrics_read w).1 ∧ calm sc n (bpf_metrics_read w).2;
  calm_next sc n w h o : calm sc n w → (∀ k, o = Some k → k ∈ sc_keys sc h) →
    (bpf_hash_next_key h o w).1 = walk_next o (sc_keys sc h)
    ∧ calm sc n (bpf_hash_next_key h o w).2;
  calm_read sc n w h k : calm sc n w → k ∈ sc_keys sc h →
    (∃ buf, (bpf_hash_read h k w).1 = Some buf ∧ sc_reads sc h k buf)
    ∧ calm sc n (bpf_hash_read h k w).2;
  calm_update sc n w m k v : calm sc (S n) w → key_ok m k →
    (bpf_lpm_update m k v w).1 = 0 ∧ calm sc n (bpf_lpm_update m k v w).2;
}.
Arguments Calm K {_}.

Lemma succ_of_app pre k rest : k ∉ pre → succ_of k (pre ++ k :: rest) = hd_error rest.
Proof.
  induction pre as [|x pre IH]; intros Hk; cbn [succ_of app]; [by rewrite decide_True|].
  rewrite decide_False by set_solver. apply IH. set_solver.
Qed.

Lemma walk_next_app pre rest : NoDup (pre ++ rest) → walk_next (last pre) (pre ++ rest) = hd_error rest.
Proof.
  destruct pre as [|k pre _] using rev_ind; [done|]. rewrite last_snoc, <-app_assoc. cbn [walk_next app].
  intros (_ & Hd & _)%NoDup_app. apply succ_of_app. intros Hk. apply (Hd k Hk). set_solver.
Qed.

(** ** What an operation costs *)

Create HintDb costs discriminated.

Section Costs.
Context {K : Type} `{!Kernel K} `{!KernelLaws K} `{!Calm K} (sc : scene).
Implicit Types (w : K) (c : vg_ctrl) (p : vg_cidr).

(** An operation of an active controller that makes at most [k] updates and
    leaves the snapshots and the size of the pool alone. *)
Definition costs {A} (k : nat) (m : M (vg_ctrl * K) A) : Prop :=
  ∀ n c w a c' w', m (c, w) = Some (a, (c', w')) → state c = VG_ACTIVE → calm sc (k + n) w →
    calm sc n w' ∧ state c' = VG_ACTIVE ∧ snap c' = snap c
    ∧ drop_pool_cap (drops c') = drop_pool_cap (drops c).

Lemma costs_ret {A} (a : A) : costs 0 (mret a).
Proof. intros n c w b c' w' [= <- <- <-] Hs Hc. done. Qed.

Lemma costs_bind {A B} j k (m : M (vg_ctrl * K) A) (g : A → M (vg_ctrl * K) B) :
  costs j m → (∀ a, costs k (g a)) → costs (j + k) (m ≫= g).
Proof.
  intros Hm Hg n c w b c' w' E Hs Hc. apply mbind_inv in E as (a & [c1 w1] & E1 & E2).
  destruct (Hm (k + n)%nat _ _ _ _ _ E1 Hs) as (Hc1 & Hs1 & Hn1 & Hp1).
  { eapply calm_less; [done|lia]. }
  destruct (Hg a n _ _ _ _ _ E2 Hs1 Hc1) as (? & ? & ? & ?). split_and!; congruence.
Qed.

Lemma costs_more {A} j k (m : M (vg_ctrl * K) A) : costs j m → (j ≤ k)%nat → costs k m.
Proof. intros Hm Hk n c w a c' w' E Hs Hc. eapply Hm; [done..|]. eapply calm_less; [done|lia]. Qed.

Lemma costs_getc {A} (g : vg_ctrl → A) : costs 0 (getc g).
Proof. intros n c w b c' w' [= <- <- <-] Hs Hc. done. Qed.

Lemma costs_state {A} k (g : vg_state → M (vg_ctrl * K) A) :
  costs k (g VG_ACTIVE) → costs k (getc state ≫= g).
Proof.
  intros Hg n c w b c' w' E Hs Hc. apply mbind_inv in E as (st & s1 & [= <- <-] & E).
  rewrite Hs in E. by eapply Hg.
Qed.

Lemma costs_lift {A} (o : option A) : costs 0 (lift o).
Proof. intros n c w b c' w'. unfold lift. destruct o; [|done]. by intros [= <- <- <-]. Qed.

Lemma costs_modc g :
  (∀ c, state (g c) = state c ∧ snap (g c) = snap c ∧ drops (g c) = drops c) → costs 0 (modc g).
Proof.
  intros Hg n c w b c' w' [= <- <- <-] Hs Hc. destruct (Hg c) as (E1 & -> & ->). by rewrite E1.
Qed.

Lemma costs_time : costs 0 (onK (call sys_time)).
Proof.
  intros n c w b c' w'. unfold onK, liftK, call. cbn [fst snd].
  destruct (sys_time w) as [x w1] eqn:E. intros [= <- <- <-] Hs Hc. split; [|done].
  apply (calm_time sc n w) in Hc as [_ Hc]. by rewrite E in Hc.
Qed.

Lemma costs_put p rs now : prefix_ok p → costs 1 (onK (vg_drop_add p rs now)).
Proof.
  intros Hp n c w b c' w'. unfold onK, liftK, vg_drop_add, lpm_update, call. cbn [fst snd].
  set (v := VDrop _). destruct (bpf_lpm_update _ _ v w) as [x w1] eqn:E.
  intros [= <- <- <-] Hs Hc. split; [|done].
  assert (key_ok (drop_fd p) (lpm_key_of p)) as Hk by (apply lpm_key_ok; [done|]; apply drop_fd_fits, Hp).
  apply (calm_update sc n w _ _ v) in Hk as [_ Hk]; [|done]. by rewrite E in Hk.
Qed.

(** The table operations keep the capacity. *)
Definition cap_kept {A} (m : M drop_tab A) : Prop :=
  ∀ t a t', m t = Some (a, t') → drop_pool_cap t' = drop_pool_cap t.

Lemma costs_onD {A} (m : M drop_tab A) : cap_kept m → costs 0 (onD m).
Proof.
  intros Hm n c w a c' w'. unfold onD. cbn [fst snd]. destruct (m (drops c)) as [[b t]|] eqn:E; [|done].
  intros [= <- <- <-] Hs Hc. cbn. split_and!; [done..|]. by eapply Hm.
Qed.

Lemma cap_bind {A B} (m : M drop_tab A) (g : A → M drop_tab B) :
  cap_kept m → (∀ a, cap_kept (g a)) → cap_kept (m ≫= g).
Proof.
  intros Hm Hg t b t' E. apply mbind_inv in E as (a & t1 & E1 & E2).
  rewrite (Hg _ _ _ _ E2). by eapply Hm.
Qed.

Lemma cap_gets {A} (g : drop_tab → A) : cap_kept (gets g).
Proof. by intros t a t' [= <- <-]. Qed.

Lemma cap_modify g : (∀ t, drop_pool_cap (g t) = drop_pool_cap t) → cap_kept (modify g).
Proof. intros Hg t a t' [= <- <-]. apply Hg. Qed.

Lemma cap_nodes g : cap_kept (on_nodes g).
Proof. intros t a t'. unfold on_nodes. destruct (g (drop_nodes t)); simpl; by intros [= <- <-]. Qed.

Lemma cap_heads g : cap_kept (on_heads g).
Proof. intros t a t'. unfold on_heads. destruct (g (drop_heads t)); simpl; by intros [= <- <-]. Qed.

Lemma cap_put i r : cap_kept (put_rec i r).
Proof. intros t a t'. unfold put_rec. destruct (in_pool t i); by intros [= <- <-]. Qed.

Lemma cap_find p : cap_kept (drops_find p).
Proof. intros t a t'. unfold drops_find. destruct (find_loop _ _ _ _); simpl; by intros [= <- <-]. Qed.

Lemma cap_alloc : cap_kept drop_alloc.
Proof.
  intros t a t'. unfold drop_alloc. destruct (negb _).
  - destruct (node_next t L_free) as [l|]; simpl; [|done]. destruct (vg_list_del _ l); simpl; [|done].
    destruct (list_entry l); simpl; by intros [= <- <-].
  - destruct (_ <? _); by intros [= <- <-].
Qed.

Lemma cap_link r p rs now exp : cap_kept (drop_link r p rs now exp).
Proof.
  unfold drop_link. apply cap_bind; [apply cap_put|]. intros _. apply cap_bind; [apply cap_gets|].
  intros b. apply cap_bind; [apply cap_heads|]. intros _. apply cap_bind; [apply cap_nodes|].
  intros _. by apply cap_modify.
Qed.

Lemma cap_give_back r : cap_kept (drop_give_back r).
Proof. apply cap_nodes. Qed.

Local Hint Resolve cap_put cap_find cap_alloc cap_link cap_give_back : costs.

(** One step of the structural rules. *)
Local Ltac cost :=
  match goal with
  | |- costs _ (mret _ ≫= _) => apply (costs_bind 0); [apply costs_ret|intros ?]
  | |- costs _ (getc state ≫= _) => apply costs_state
  | |- costs _ (getc _ ≫= _) => apply (costs_bind 0); [apply costs_getc|intros ?]
  | |- costs _ (lift _ ≫= _) => apply (costs_bind 0); [apply costs_lift|intros ?]
  | |- costs _ (deref _ ≫= _) =>
      apply (costs_bind 0); [apply (costs_bind 0 0); [apply costs_getc|intros ?; apply costs_lift]|intros ?]
  | |- costs _ (onD _ ≫= _) => apply (costs_bind 0); [apply costs_onD; solve [auto with costs]|intros ?]
  | |- costs _ (modc _ ≫= _) => apply (costs_bind 0); [by apply costs_modc|intros ?]
  | |- costs _ (onK (call sys_time) ≫= _) => apply (costs_bind 0); [apply costs_time|intros ?]
  | |- costs _ (onK (vg_drop_add _ _ _) ≫= _) => apply (costs_bind 1 0); [by apply costs_put|intros ?]
  | |- costs 0 (mret _) => apply costs_ret
  | |- costs _ (mret _) => eapply costs_more; [apply costs_ret|lia]
  end.

Local Ltac cases := match goal with |- costs _ (match ?o with _ => _ end) => destruct o end.

Lemma costs_again r p rs now exp : prefix_ok p → costs 1 (drop_add_again r p rs now exp).
Proof.
  intros Hp. unfold drop_add_again. cost. destruct (_ && _); [cost|]. cost.
  apply (costs_bind 0).
  { destruct (_ && _); [apply costs_onD, cap_put|cost]. }
  intros _. do 2 cost. destruct (negb _); [cost|]. apply (costs_bind 0 0).
  { destruct (_ || _); [apply costs_onD, cap_put|cost]. }
  intros _. do 2 cost.
Qed.

Lemma costs_new p rs now exp : prefix_ok p → costs 1 (drop_add_new p rs now exp).
Proof.
  intros Hp. unfold drop_add_new. cost. cases; [|cost]. cost.
  destruct (negb _); repeat cost.
Qed.

Lemma costs_add p rs exp : prefix_ok p → costs 1 (drop_add p rs exp).
Proof.
  intros Hp. unfold drop_add. do 2 cost. destruct (vg_cidr_is_protected _ _); [cost|]. cost.
  rewrite bool_decide_eq_true_2 by done. cbn [negb]. cost. destruct (_ <? _); [cost|]. cost.
  cases; [by apply costs_again|by apply costs_new].
Qed.
End Costs.

(** ** Drops on the way *)

Section Steps.
Context {K : Type} `{!Kernel K} `{!KernelLaws K} `{!Calm K} (sc : scene).
Implicit Types (w : K) (c : vg_ctrl) (p : vg_cidr).

(** An active controller that lists [l], with room for [n] more drops. *)
Record walking (n : nat) c w (l : list Z) : Prop := {
  wk_inv : ∃ f, inv c w l f;
  wk_active : state c = VG_ACTIVE;
  wk_calm : calm sc n w;
  wk_room : Z.of_nat (length l + n) ≤ drop_pool_cap (drops c);
}.

Definition kept c c' : Prop := cfg c' = cfg c ∧ maps c' = maps c ∧ snap c' = snap c.

Lemma kept_trans c1 c2 c3 : kept c1 c2 → kept c2 c3 → kept c1 c3.
Proof. intros (? & ? & ?) (? & ? & ?). split_and!; congruence. Qed.

Lemma walking_less n n' c w l : walking n c w l → (n' ≤ n)%nat → walking n' c w l.
Proof. intros [] Hn. split; [done..|by eapply calm_less|lia]. Qed.

(** A call that touches neither the tries nor what [sc] says. *)
Lemma walking_idle n c w w' l : walking n c w l → same_maps w w' → calm sc n w' → walking n c w' l.
Proof. intros [[f Hi]] Hs Hc. split; [|done..]. exists f. by eapply inv_same. Qed.

(** A new snapshot table. *)
Lemma walking_snap n c w l t : walking n c w l → snap_ok t → walking n (set_snap c t) w l.
Proof. intros [[f Hi]] Ht. split; [|done..]. exists f. by eapply inv_ext. Qed.

Lemma drop_new_done n c w l f p rs now exp :
  inv c w l f → calm sc (S n) w → prefix_ok p → Z.of_nat (length l) < drop_pool_cap (drops c) →
  (∀ i, i ∈ l → cidr (get_rec (drops c) i) ≠ p) →
  wp (drop_add_new p rs now exp) (λ z _, z = 0) (c, w).
Proof.
  intros Hi Hc Hp Hroom Hnew. unfold drop_add_new. apply wp_bind, wp_onD.
  destruct (drop_alloc_spec _ _ _ (inv_rep _ _ _ _ Hi)) as (o & t1 & E1 & Ho).
  exists o, t1. split; [done|]. destruct o as [r|]; [|destruct Ho; lia].
  destruct Ho as (f' & Hrep1 & Hpool1 & _). apply wp_bind, wp_onK, wp_call.
  destruct (calm_update sc n w (drop_fd p) (lpm_key_of p) (VDrop (DropEntry rs (u32 now))) Hc) as [E _].
  { apply lpm_key_ok; [done|]. apply drop_fd_fits, Hp. }
  rewrite E. cbn [Z.eqb negb]. apply wp_bind, wp_onD. destruct Hp as [Hok Hcan].
  destruct (drop_link_spec t1 l f' r p rs now exp Hrep1) as (t2 & E2 & _); [done|done| |].
  { intros i Hin. unfold get_rec. rewrite Hpool1. by apply Hnew. }
  exists tt, t2. split; [done|]. by apply wp_bind, wp_modc, wp_ret.
Qed.

(** Nothing but a protected prefix is refused while there is room. *)
Lemma drop_done n c w l p rs exp :
  walking (S n) c w l → prefix_ok p → not_listed (recs c l) p →
  vg_cidr_is_protected (cfg c) p = false → wp (drop_add p rs exp) (λ z _, z = 0) (c, w).
Proof.
  intros [[f Hi] Hact Hc Hroom] Hp Hnl Hun. unfold drop_add. apply wp_bind, wp_onK, wp_call.
  apply wp_bind, wp_getc. rewrite Hun. apply wp_bind, wp_getc. apply wp_bind. rewrite Hact.
  rewrite bool_decide_eq_true_2 by done. apply wp_ret. cbn [Z.ltb Z.compare]. apply wp_bind, wp_onD.
  destruct (drops_find_spec _ _ _ _ p (inv_rep _ _ _ _ Hi)) as (o & Eo & Ho); [apply Hp..|].
  exists o, (drops c). split; [done|]. rewrite set_drops_id. destruct o as [i|].
  - destruct Ho as [Hin Hcp]. destruct (Hnl (get_rec (drops c) i)); [|done].
    apply list_elem_of_fmap. by exists i.
  - eapply drop_new_done; [by eapply inv_same, time_same|by apply (calm_time sc)|done|lia|].
    intros i Hin. by apply Ho.
Qed.

(** A policy or aggregate drop changes no record. *)
Lemma policy_outcome c w p rs now old z new st w' :
  drop_outcome c w p rs now 0 old z new st w' → rs ≠ VG_REASON_MANUAL → rs ≠ VG_REASON_TIMED →
  (new = old ∧ (z = 0 → ¬ not_listed old p)) ∨ new = old ++ [DropRec p rs now 0].
Proof.
  intros Ho Hm Ht.
  assert (∀ rc, redrop (cfg c) rs now 0 rc = rc ∧ preset (cfg c) rs rc = rc) as Hsame.
  { intros rc. unfold redrop, preset. apply Z.eqb_neq in Hm as ->, Ht as ->. done. }
  assert (∀ k rc, old !! k = Some rc → cidr rc = p → ¬ not_listed old p) as Hlisted.
  { intros k rc Hk Hc Hn. apply (Hn rc); [|done]. by eapply list_elem_of_lookup_2. }
  destruct Ho as [| | | |k rc w2 Hk Hc _ _ _|k rc w2 _ Hk Hc _ _|k rc w2 Hk Hc _ _]; try (by left).
  - by right.
  - left. split; [done|]. intros _. by eapply Hlisted.
  - left. destruct (Hsame rc) as [-> _]. split; [by apply list_insert_id|]. intros _. by eapply Hlisted.
  - left. destruct (Hsame rc) as [_ ->]. split; [by apply list_insert_id|]. done.
Qed.

Lemma drop_step n c w l p rs :
  walking (S n) c w l → prefix_ok p → rs ≠ VG_REASON_MANUAL → rs ≠ VG_REASON_TIMED →
  let r := DropRec p rs (now_of w) 0 in
  wp (vg_ctrl_drop p rs) (λ z s', ∃ l', walking n s'.1 s'.2 l' ∧ kept c s'.1
    ∧ (recs s'.1 l' = recs c l ∨ recs s'.1 l' = recs c l ++ [r])
    ∧ (not_listed (recs c l) p → vg_cidr_is_protected (cfg c) p = false →
       z = 0 ∧ recs s'.1 l' = recs c l ++ [r])) (c, w).
Proof.
  intros Hw Hp Hm Ht r. pose proof Hw as [[f Hi] Hact Hc Hroom].
  destruct (drop_add_spec c w l f p rs 0 Hi Hp) as (z & [c' w'] & E & l' & f' & Hi' & Hcf & Hmp & Ho).
  destruct (costs_add sc p rs 0 Hp n c w z c' w' E Hact Hc) as (Hc' & Hact' & Hsn & Hcap).
  cbn [fst snd] in *. exists z, (c', w'). split; [done|]. exists l'. cbn [fst snd].
  apply policy_outcome in Ho; [|done..].
  assert (length (recs c' l') ≤ S (length (recs c l)))%nat as Hlen.
  { destruct Ho as [[-> _]| ->]; [lia|]. rewrite length_app. simpl. lia. }
  unfold recs, listed in Hlen. rewrite !length_fmap in Hlen.
  split_and!; [split; [by eexists|done|done|lia]|done| |].
  - destruct Ho as [[? _]|?]; auto.
  - intros Hnl Hun. pose proof (drop_done n c w l p rs 0 Hw Hp Hnl Hun) as Hz.
    eapply wp_det in Hz; [|exact E]. split; [done|]. destruct Ho as [[_ Hx]|?]; [|done].
    exfalso. by apply Hx.
Qed.
End Steps.

(** ** One remote *)

Section Remote.
Context {K : Type} `{!Kernel K} `{!KernelLaws K} `{!Calm K} (sc : scene).
Implicit Types (w : K) (c : vg_ctrl) (p host : vg_cidr).

Abbreviation walking := (walking sc).

(** The prefix of one address. *)
Definition is_host p : Prop := prefixlen p = max_plen (family p).

Lemma aggregate_step n c w l host :
  walking (S n) c w l → prefix_ok host → is_host host →
  wp (maybe_aggregate host) (λ _ s', ∃ l' extra, walking n s'.1 s'.2 l' ∧ kept c s'.1
    ∧ recs s'.1 l' = recs c l ++ extra ∧ ∀ r, r ∈ extra → ¬ is_host (cidr r)) (c, w).
Proof.
  intros Hw Hp Hh. destruct (aggregate_net_spec host Hp Hh) as (net & En & Hnet & Hf & Hl & _).
  assert (¬ is_host net) as Hnh.
  { unfold is_host. rewrite Hf, Hl. destruct (ok_family _ (proj1 Hp)) as [-> | ->]; by vm_compute. }
  assert (∃ f, inv c w l f) as [f Hi] by apply Hw.
  unfold maybe_aggregate. rewrite En. apply wp_bind, wp_getc. apply wp_bind.
  eapply wp_lift; [by eapply drop_all_walk_spec, Hi|]. apply wp_bind, wp_getc.
  destruct (_ <=? _).
  - eapply wp_mono; [by apply (drop_step sc n c w l net VG_REASON_AGGREGATE Hw)|].
    intros z s' (l' & Hw' & Hk & Hr & _). exists l'. destruct Hr as [Hr|Hr]; rewrite Hr.
    + exists []. rewrite app_nil_r. split_and!; try done. by intros r ?%elem_of_nil.
    + eexists. split_and!; try done. by intros r ->%list_elem_of_singleton.
  - apply wp_ret. exists l, []. rewrite app_nil_r. split_and!; try done.
    + eapply walking_less; [done|lia].
    + by intros r ?%elem_of_nil.
Qed.

(** A drop by policy and the aggregation after it: nothing listed changes,
    and the host is listed now when it was not and is not protected. *)
Lemma punish_step n c w l host :
  walking (2 + n) c w l → prefix_ok host → is_host host →
  ∃ s' l' extra, punish host (c, w) = Some (tt, s') ∧ walking n s'.1 s'.2 l' ∧ kept c s'.1
    ∧ recs s'.1 l' = recs c l ++ extra ∧ (∀ r, r ∈ extra → cidr r = host ∨ ¬ is_host (cidr r))
    ∧ (not_listed (recs c l) host → vg_cidr_is_protected (cfg c) host = false →
       DropRec host VG_REASON_POLICY (now_of w) 0 ∈ extra).
Proof.
  intros Hw Hp Hh. set (r0 := DropRec host VG_REASON_POLICY (now_of w) 0).
  destruct (drop_step sc (S n) c w l host VG_REASON_POLICY Hw Hp)
    as (z & [c1 w1] & E1 & l1 & Hw1 & Hk1 & Hr1 & Hd1); [done..|].
  cbn [fst snd] in *. fold r0 in Hr1, Hd1. unfold punish. rewrite E1.
  assert (∃ e1, recs c1 l1 = recs c l ++ e1 ∧ (∀ r, r ∈ e1 → r = r0)
    ∧ (not_listed (recs c l) host → vg_cidr_is_protected (cfg c) host = false → z = 0 ∧ r0 ∈ e1))
    as (e1 & He1 & Hin1 & Hd).
  { destruct Hr1 as [Hr1|Hr1]; [exists []|exists [r0]]; split_and!.
    - by rewrite app_nil_r.
    - by intros r ?%elem_of_nil.
    - intros Hn Hu. destruct (Hd1 Hn Hu) as [_ Hx]. rewrite Hr1 in Hx.
      apply (f_equal length) in Hx. rewrite length_app in Hx. simpl in Hx. lia.
    - done.
    - by intros r ->%list_elem_of_singleton.
    - intros Hn Hu. destruct (Hd1 Hn Hu) as [Hz _]. split; [done|]. set_solver. }
  destruct (z =? 0) eqn:Ez; breflect.
  - destruct (aggregate_step n c1 w1 l1 host Hw1 Hp Hh)
      as (z2 & s2 & E2 & l2 & e2 & Hw2 & Hk2 & He2 & Hin2).
    rewrite E2. exists s2, l2, (e1 ++ e2).
    split_and!; [done|done|by eapply kept_trans|by rewrite He2, He1, app_assoc| |].
    + intros r [Hr|Hr]%elem_of_app; [left; by rewrite (Hin1 r Hr)|right; by apply Hin2].
    + intros Hn Hu. apply elem_of_app. left. by apply Hd.
  - exists (c1, w1), l1, e1. split_and!; [done|by eapply walking_less, Nat.le_succ_diag_r|done|done| |].
    + intros r Hr. left. by rewrite (Hin1 r Hr).
    + intros Hn Hu. by destruct (Hd Hn Hu).
Qed.

Lemma host_cidr_inj fam a fam' a' :
  addr_ok fam a → addr_ok fam' a' → host_cidr fam a = host_cidr fam' a' → (fam, a) = (fam', a').
Proof.
  unfold host_cidr. intros Ha Ha' [= <- E _]. f_equal. pose proof Ha as [Hl _]. pose proof Ha' as [Hl' _].
  rewrite <-Hl in E at 1. rewrite <-Hl' in E. rewrite !take_ge in E by done.
  rewrite <-(take_store16 fam a), <-(take_store16 fam a'), E by done. done.
Qed.

Lemma snap_key_inj fam a fam' a' :
  addr_ok fam a → addr_ok fam' a' → snap_key fam a = snap_key fam' a' → (fam, a) = (fam', a').
Proof.
  unfold snap_key. intros [Hl _] [Hl' _] [= <- E]. by rewrite !take_ge in E by lia; subst.
Qed.

(** The remote to be caught, and the counters its snapshot holds. *)
Context (fam0 : Z) (a0 : list Z) (p0 b0 : Z).

Definition caught c (l : list Z) : Prop :=
  ∃ r, r ∈ recs c l ∧ cidr r = host_cidr fam0 a0 ∧ reason r = VG_REASON_POLICY
    ∧ sc_from sc ≤ inserted r < sc_till sc.

Definition pending c (l : list Z) : Prop :=
  not_listed (recs c l) (host_cidr fam0 a0) ∧ vg_cidr_is_protected (cfg c) (host_cidr fam0 a0) = false
  ∧ ∃ g, snap_seen (snap c) fam0 a0 = Some (p0, b0, g).

(** The counters of the remote grew by a rate over a threshold. *)
Definition grew (cf : vg_config) (dt : double) (cur : host_counters) : Prop :=
  over_threshold cf (delta (in_pkts cur) p0) (delta (in_bytes cur) b0) dt = true.

(** After a remote: a caught one stays caught, the one that floods is caught
    now, and any other leaves a pending one pending. *)
Definition remote_post (n : nat) (dt : double) (fam : Z) (a : list Z) (cur : host_counters)
    c (l : list Z) (s' : vg_ctrl * K) : Prop :=
  ∃ l', walking n s'.1 s'.2 l' ∧ cfg s'.1 = cfg c ∧ maps s'.1 = maps c
    ∧ (caught c l → caught s'.1 l')
    ∧ (pending c l → ((fam, a) = (fam0, a0) → fle dt d0 = false → grew (cfg c) dt cur → caught s'.1 l')
                     ∧ ((fam, a) ≠ (fam0, a0) → pending s'.1 l')).

Lemma remote_step n dt fam a cur c w l :
  walking (2 + n) c w l → fam = AF_INET ∨ fam = AF_INET6 → addr_ok fam a →
  fam0 = AF_INET ∨ fam0 = AF_INET6 → addr_ok fam0 a0 →
  wp (policy_one_remote dt fam a cur) (λ _ s', remote_post n dt fam a cur c l s') (c, w).
Proof.
  intros Hw Hf Ha Hf0 Ha0. assert (∃ f, inv c w l f) as [f Hi] by apply Hw.
  destruct (remote_one dt fam a cur c w) as (t & Ht & _ & Hoth & E); [apply Hi|destruct Ha; lia|].
  assert (walking (2 + n) (set_snap c t) w l) as Hw1 by (by apply walking_snap).
  assert ((fam, a) ≠ (fam0, a0) → snap_seen t fam0 a0 = snap_seen (snap c) fam0 a0) as Hseen.
  { intros Hne. apply Hoth. intros Ek. apply Hne. symmetry. by apply snap_key_inj. }
  assert (wp (policy_one_remote dt fam a cur) (λ _ s', s' = (set_snap c t, w)) (c, w) →
    (pending c l → (fam, a) = (fam0, a0) → fle dt d0 = false → ¬ grew (cfg c) dt cur) →
    wp (policy_one_remote dt fam a cur) (λ _ s', remote_post n dt fam a cur c l s') (c, w)) as Hplain.
  { intros H Hno. eapply wp_mono; [exact H|]. intros _ s' ->. exists l.
    split_and!; [eapply walking_less; [done|lia]|done|done|done|]. intros Hpd. split.
    - intros E1 E2 Hg. by destruct (Hno Hpd E1 E2).
    - intros Hne. destruct Hpd as (Hn & Hu & g & Hg). split_and!; [done|done|]. exists g. cbn.
      by rewrite Hseen. }
  destruct (snap_seen (snap c) fam a) as [[[p b] g]|] eqn:Es.
  2:{ apply Hplain; [by eexists _, _|]. intros (_ & _ & g & Hg) [= -> ->]. congruence. }
  destruct (negb (fle dt d0) && over_threshold _ _ _ _) eqn:Eo.
  2:{ apply Hplain; [by eexists _, _|]. intros (_ & _ & g' & Hg') [= -> ->] Hd Hgr. simplify_eq.
      rewrite Hd in Eo. unfold grew in Hgr. by rewrite Hgr in Eo. }
  destruct (punish_step n (set_snap c t) w l (host_cidr fam a) Hw1)
    as (s' & l' & extra & Ep & Hw' & (Hcf & Hmp & Hsn) & Hr & Hex & Hnew);
    [by apply host_cidr_ok|by apply host_cidr_plen|].
  exists tt, s'. rewrite E, Ep. split; [done|]. exists l'. cbn [cfg maps snap set_snap] in *.
  change (recs (set_snap c t) l) with (recs c l) in *.
  split_and!; [done|done|done| |].
  - intros (r & Hin & Hrest). exists r. rewrite Hr. split; [|done]. set_solver.
  - intros (Hn & Hu & g' & Hg'). split.
    + intros [= -> ->] _ _. eexists. rewrite Hr. split_and!.
      * apply elem_of_app. right. by apply Hnew.
      * done.
      * done.
      * apply (calm_time sc _ _ (wk_calm _ _ _ _ _ Hw)).
      * apply (calm_time sc _ _ (wk_calm _ _ _ _ _ Hw)).
    + intros Hne. split_and!; [|by rewrite Hcf|].
      * rewrite Hr. intros r [Hin|Hin]%elem_of_app; [by apply Hn|].
        destruct (Hex r Hin) as [-> |Hnh].
        -- intros Eh. by apply Hne, host_cidr_inj.
        -- intros Eh. apply Hnh. rewrite Eh. by apply host_cidr_plen.
      * exists g'. rewrite Hsn. cbn. by rewrite Hseen.
Qed.
End Remote.

(** ** The walk *)

(** The counters of one address, from the words of every CPU. *)
Definition read_counters (cpus : Z) (buf : list Z) : host_counters :=
  let total i := u64 (cpu_sum (Z.to_nat (Z.max cpus 1)) 0 buf 2 i) in
  HostCounters (total 0%nat) (total 1%nat).

Section Visits.
Context {K : Type} `{!Kernel K} `{!KernelLaws K} `{!Calm K} (sc : scene).
Context {T : Type} (fn : Z → list Z → host_counters → M (T * K) unit) (cpus : Z).
Implicit Types (w : K) (t : T) (h : hash_map).

(** An assertion on the keys visited so far that a read of the kernel does
    not disturb and that one call of [fn] carries on by a key. *)
Record visiting (h : hash_map) (fam : Z) (I : list (list Z) → T → K → Prop) : Prop := {
  vis_calm vis t w : I vis t w → ∃ n, calm sc n w;
  vis_idle vis t w w' :
    I vis t w → same_maps w w' → (∀ n, calm sc n w → calm sc n w') → I vis t w';
  vis_step vis k rest buf t w : sc_keys sc h = vis ++ k :: rest → length k = hash_key_len h →
    bytes_ok k → sc_reads sc h k buf → I vis t w →
    wp (fn fam k (read_counters cpus buf)) (λ _ s', I (vis ++ [k]) s'.1 s'.2) (t, w);
}.

Lemma wp_liftK {A} (m : M K A) (Q : A → T * K → Prop) t w :
  wp m (λ a w', Q a (t, w')) w → wp (liftK m) Q (t, w).
Proof. intros (a & w' & E & H). exists a, (t, w'). unfold liftK. simpl. by rewrite E. Qed.

Lemma next_visits h fam I vis rest t w (Q : option (list Z) → T * K → Prop) :
  visiting h fam I → sc_keys sc h = vis ++ rest → I vis t w →
  (∀ w', I vis t w' → (∀ k rest', rest = k :: rest' → length k = hash_key_len h ∧ bytes_ok k) →
    Q (hd_error rest) (t, w')) →
  wp (liftK (call (bpf_hash_next_key h (last vis)))) Q (t, w).
Proof.
  intros HI Hk Hw HQ. apply wp_liftK, wp_call. destruct (vis_calm _ _ _ HI _ _ _ Hw) as [n Hc].
  assert (∀ k, last vis = Some k → k ∈ sc_keys sc h) as Hin.
  { intros k Hl. rewrite Hk. apply elem_of_app. left. by apply last_Some_elem_of. }
  destruct (calm_next sc n w h (last vis) Hc Hin) as [En _].
  pose proof (calm_nodup sc n w h Hc) as Hnd. rewrite Hk in En, Hnd.
  rewrite walk_next_app in En by done.
  rewrite En. apply HQ.
  - eapply (vis_idle _ _ _ HI); [done|apply hash_next_same|]. intros m Hm. by apply calm_next.
  - intros k rest' ->. by eapply hash_key_ok.
Qed.

Lemma read_visits h fam I vis k rest t w (Q : option (list Z) → T * K → Prop) :
  visiting h fam I → sc_keys sc h = vis ++ k :: rest → I vis t w →
  (∀ w' buf, I vis t w' → sc_reads sc h k buf →
    Q (Some [in_pkts (read_counters cpus buf); in_bytes (read_counters cpus buf)]) (t, w')) →
  wp (liftK (vg_sum_percpu (maps_open_sizes cpus) (bpf_hash_read h k) sizeof_host_counters)) Q (t, w).
Proof.
  intros HI Hk Hw HQ. apply wp_liftK. destruct (vis_calm _ _ _ HI _ _ _ Hw) as [n Hc].
  assert (k ∈ sc_keys sc h) as Hin by (rewrite Hk; set_solver).
  destruct (calm_read sc n w h k Hc Hin) as [(buf & Eb & Hb) _].
  destruct (bpf_hash_read h k w) as [o w1] eqn:Er. cbn [fst] in Eb. subst o.
  rewrite <-(f_equal snd Er : _ = w1) in Er.
  eexists _, _. split; [apply (sum_percpu_sums cpus _ _ w buf); [by left|exact Er]|].
  apply HQ; [|done]. rewrite Er. cbn [snd].
  eapply (vis_idle _ _ _ HI); [done|apply hash_read_same|]. intros m Hm. by apply calm_read.
Qed.

(** The loop visits the keys it has turns for, in order, each once. *)
Lemma foreach_loop_visits h fam I turns vis rest t w :
  visiting h fam I → sc_keys sc h = vis ++ rest → I vis t w →
  wp (foreach_loop fn turns (maps_open_sizes cpus) h fam (last vis))
    (λ r s', I (vis ++ take turns rest) s'.1 s'.2
       ∧ r = (last (vis ++ take turns rest), bool_decide (turns ≤ length rest)%nat)) (t, w).
Proof.
  intros HI. revert vis rest t w. induction turns as [|turns IH]; intros vis rest t w Hk Hw.
  { cbn [foreach_loop]. apply wp_ret. rewrite take_0, app_nil_r. split; [done|].
    by rewrite bool_decide_eq_true_2 by lia. }
  cbn [foreach_loop]. apply wp_bind. eapply next_visits; [done..|]. intros w1 Hw1 Hok.
  destruct rest as [|k rest]; cbn [hd_error].
  { apply wp_ret. rewrite take_nil, app_nil_r. split; [done|].
    rewrite bool_decide_eq_false_2; [done|]. simpl. lia. }
  destruct (Hok k rest eq_refl) as [Hl Hb]. apply wp_bind. eapply read_visits; [done..|].
  intros w2 buf Hw2 Hbuf. apply wp_bind. cbn [lookup list_lookup default].
  eapply wp_mono; [by eapply (vis_step _ _ _ HI)|]. intros _ [t3 w3] Hw3. cbn [fst snd] in Hw3.
  replace (Some k) with (last (vis ++ [k])) by apply last_snoc.
  rewrite cons_middle, app_assoc in Hk. eapply wp_mono; [by apply (IH (vis ++ [k]) rest)|].
  intros r s' [H1 ->]. cbn [take]. rewrite <-app_assoc in H1 |- *. split; [done|]. f_equal.
  apply bool_decide_ext. simpl. lia.
Qed.

Lemma foreach_family_visits h fam I budget t w :
  visiting h fam I → I [] t w →
  wp (foreach_family fn (maps_open_sizes cpus) h fam budget)
    (λ b s', I (take (Z.to_nat budget) (sc_keys sc h)) s'.1 s'.2
       ∧ b = bool_decide (length (sc_keys sc h) ≤ Z.to_nat budget)%nat) (t, w).
Proof.
  intros HI Hw. unfold foreach_family. apply wp_bind. set (turns := Z.to_nat budget).
  eapply wp_mono; [by apply (foreach_loop_visits h fam I turns [] (sc_keys sc h))|].
  intros [cur full] [t1 w1] [H1 [= -> ->]]. cbn [fst snd app] in *. case_bool_decide as Hlen; cbn [negb].
  - apply wp_bind. eapply next_visits; [done|symmetry; apply take_drop|done|].
    intros w2 Hw2 _. apply wp_ret. split; [done|].
    pose proof (length_drop (sc_keys sc h) turns) as Hd. destruct (drop turns (sc_keys sc h)) as [|k l];
      simpl in Hd; symmetry; [apply bool_decide_eq_true_2|apply bool_decide_eq_false_2]; lia.
  - apply wp_ret. split; [done|]. symmetry. apply bool_decide_eq_true_2. lia.
Qed.
End Visits.

(** ** The walk of a tick *)

Definition remote_of (fam : Z) : hash_map := if fam =? AF_INET then remote_v4 else remote_v6.

(** The budget of the walk: the entries visited of each family. *)
Definition walk_budget (cf : vg_config) : Z :=
  if remote_map_size cf =? 0 then VG_REMOTE_MAP_MAX else remote_map_size cf.

Section Walk.
Context {K : Type} `{!Kernel K} `{!KernelLaws K} `{!Calm K} (sc : scene).
Context (fam0 : Z) (a0 : list Z) (p0 b0 : Z) (cpus : Z) (dt : double) (cf : vg_config).
Context (Hf0 : fam0 = AF_INET ∨ fam0 = AF_INET6) (Ha0 : addr_ok fam0 a0) (Hdt : fle dt d0 = false).
Context (Hgrew : ∀ buf, sc_reads sc (remote_of fam0) a0 buf →
  grew p0 b0 cf dt (read_counters cpus buf)).
Implicit Types (w : K) (c : vg_ctrl).

Abbreviation walking := (walking sc).
Abbreviation caught := (caught sc fam0 a0).
Abbreviation pending := (pending fam0 a0 p0 b0).

(** The walk has passed [vis] of the keys of [fam], room for [n] is left at
    the end; the remote is caught, or still to come if [q]. *)
Definition on_way (q : Prop) (fam : Z) (n : nat) (vis : list (list Z)) c w : Prop :=
  ∃ l, walking (2 * (length (sc_keys sc (remote_of fam)) - length vis) + n) c w l
    ∧ cfg c = cf ∧ maps c = maps_open_sizes cpus
    ∧ (caught c l ∨ q ∧ pending c l ∧ (fam = fam0 → a0 ∉ vis)).

Lemma remote_visiting q fam n :
  fam = AF_INET ∨ fam = AF_INET6 →
  visiting sc (remote_cb (WalkCtx dt)) cpus (remote_of fam) fam (on_way q fam n).
Proof.
  intros Hf. split.
  - intros vis c w (l & Hw & _). eexists. apply Hw.
  - intros vis c w w' (l & Hw & Hrest) Hs Hc. exists l. split; [|done].
    eapply walking_idle; [done..|]. apply Hc, Hw.
  - intros vis k rest buf c w Hk Hl Hb Hr (l & Hw & Hcf & Hm & Hst).
    assert (addr_ok fam k) as Ha by (split; [destruct Hf as [-> | ->]; done|done]).
    set (n' := (2 * length rest + n)%nat).
    assert (walking (2 + n') c w l) as Hw'.
    { eapply walking_less; [exact Hw|]. rewrite Hk, length_app. simpl. unfold n'. lia. }
    eapply wp_mono; [by apply (remote_step sc fam0 a0 p0 b0 n' dt fam k _ c w l Hw')|].
    intros _ s' (l' & Hwl & Hcf' & Hm' & Hkeep & Hgo). exists l'. split_and!.
    { eapply walking_less; [exact Hwl|]. rewrite Hk, !length_app. simpl. unfold n'. lia. }
    { congruence. } { congruence. }
    destruct Hst as [Hst|(Hq & Hpd & Hvis)]; [left; by apply Hkeep|].
    destruct (Hgo Hpd) as [Hhit Hmiss]. destruct (decide ((fam, k) = (fam0, a0))) as [E|E].
    + left. apply Hhit; [done|done|]. injection E as -> ->. rewrite Hcf. by apply Hgrew.
    + right. split_and!; [done|by apply Hmiss|]. intros -> [Hin|Hin]%elem_of_app; [by apply Hvis|].
      apply list_elem_of_singleton in Hin as ->. by apply E.
Qed.

Lemma family_step q fam n budget c w :
  fam = AF_INET ∨ fam = AF_INET6 → on_way q fam n [] c w →
  wp (foreach_family (remote_cb (WalkCtx dt)) (maps_open_sizes cpus) (remote_of fam) fam budget)
    (λ _ s', ∃ l, walking n s'.1 s'.2 l ∧ cfg s'.1 = cf ∧ maps s'.1 = maps_open_sizes cpus
       ∧ (caught s'.1 l ∨ q ∧ pending s'.1 l
            ∧ (fam = fam0 → a0 ∉ take (Z.to_nat budget) (sc_keys sc (remote_of fam))))) (c, w).
Proof.
  intros Hf Hw. eapply wp_mono; [by eapply foreach_family_visits; [apply remote_visiting|]|].
  intros b s' [(l & Hwl & Hrest) _]. exists l. split; [|done]. eapply walking_less; [done|lia].
Qed.

Lemma foreach_catches n budget c w l :
  let keys f := sc_keys sc (remote_of f) in
  walking (2 * (length (keys AF_INET) + length (keys AF_INET6)) + n) c w l →
  cfg c = cf → maps c = maps_open_sizes cpus → pending c l → budget ≠ 0 →
  a0 ∈ take (Z.to_nat budget) (keys fam0) →
  wp (vg_remote_foreach (remote_cb (WalkCtx dt)) (maps_open_sizes cpus) budget)
    (λ _ s', ∃ l', walking n s'.1 s'.2 l' ∧ cfg s'.1 = cf ∧ caught s'.1 l') (c, w).
Proof.
  cbv zeta. intros Hw Hcf Hm Hp Hb%Z.eqb_neq Hin. unfold vg_remote_foreach. rewrite Hb.
  apply wp_bind. set (n6 := (2 * length (sc_keys sc (remote_of AF_INET6)) + n)%nat). eapply wp_mono.
  { apply (family_step True AF_INET n6); [by left|]. exists l. split_and!; [|done|done|].
    - eapply walking_less; [exact Hw|]. unfold n6. cbn [length]. lia.
    - right. split_and!; [done|done|]. by intros _ ?%elem_of_nil. }
  intros b4 [c1 w1] (l1 & Hw1 & Hcf1 & Hm1 & H1). cbn [fst snd] in *. apply wp_bind. eapply wp_mono.
  { apply (family_step (fam0 = AF_INET6) AF_INET6 n); [by right|]. exists l1. split_and!; [|done|done|].
    - eapply walking_less; [exact Hw1|]. unfold n6. cbn [length]. lia.
    - destruct H1 as [H1|(_ & H1 & Hn)]; [by left|]. destruct Hf0 as [E|E].
      + destruct (Hn (eq_sym E)). by rewrite E in Hin.
      + right. split_and!; [done|done|]. by intros _ ?%elem_of_nil. }
  intros b6 [c2 w2] (l2 & Hw2 & Hcf2 & Hm2 & H2). apply wp_ret. exists l2. split_and!; [done|done|].
  destruct H2 as [H2|(E & Hp2 & H2)]; [done|]. destruct (H2 (eq_sym E)). by rewrite E in Hin.
Qed.

Lemma budget_pos : walk_budget cf ≠ 0.
Proof. unfold walk_budget. destruct (remote_map_size cf =? 0) eqn:E; breflect; [by vm_compute|done]. Qed.

(** A generation that does not wrap keeps the snapshots. *)
Lemma next_gen_keeps t fam a :
  u32 (snap_gen t + 1) ≠ 0 → snap_ok t →
  snap_ok (next_gen t) ∧ snap_seen (next_gen t) fam a = snap_seen t fam a.
Proof.
  intros Hg%Z.eqb_neq (Hc & bk & fr & Hs). unfold next_gen. rewrite Hg.
  assert (srep (set_sgen t (u32 (snap_gen t + 1))) bk fr) as Hs' by (by apply srep_gen).
  split; [split; [done|by exists bk, fr]|]. eapply seen_ext; [done|done|done|done].
Qed.

Lemma walk_catches n c w l :
  let keys f := sc_keys sc (remote_of f) in
  walking (2 * (length (keys AF_INET) + length (keys AF_INET6)) + n) c w l →
  cfg c = cf → maps c = maps_open_sizes cpus → pending c l → u32 (snap_gen (snap c) + 1) ≠ 0 →
  a0 ∈ take (Z.to_nat (walk_budget cf)) (keys fam0) →
  wp (walk_remotes dt)
    (λ _ s', ∃ l', walking n s'.1 s'.2 l' ∧ cfg s'.1 = cf ∧ caught s'.1 l') (c, w).
Proof.
  cbv zeta. intros Hw Hcf Hm (Hn & Hu & g & Hg) Hgen Hin. unfold walk_remotes.
  apply wp_bind, wp_getc. rewrite Hcf. fold (walk_budget cf). apply wp_bind, wp_modc.
  apply wp_bind, wp_getc. cbn [maps set_snap]. rewrite Hm.
  assert (∃ f, inv c w l f) as [f Hi] by apply Hw.
  destruct (next_gen_keeps (snap c) fam0 a0 Hgen) as [Hok Hseen]; [apply Hi|].
  apply wp_bind. unfold remote_foreach, maps_remote_walk. eapply wp_mono.
  { apply (foreach_catches n _ (set_snap c (next_gen (snap c))) w l);
      [by apply walking_snap|done|done| |apply budget_pos|done].
    split_and!; [done|done|]. exists g. cbn. by rewrite Hseen. }
  intros full [c1 w1] (l1 & Hw1 & Hcf1 & Hc1). cbn [fst snd] in *. destruct full.
  - apply wp_onS. assert (∃ f, inv c1 w1 l1 f) as [f1 Hi1] by apply Hw1.
    destruct (snap_prune_forgets (snap c1) (inv_snap _ _ _ _ Hi1)) as (t' & E & Ht & _).
    exists tt, t'. rewrite E. split; [done|]. exists l1. split_and!; [by apply walking_snap|done|done].
  - apply wp_ret. by exists l1.
Qed.
End Walk.
