(* ===== verification/Ctl.v ===== *)
(** * ctl_server.c: the control socket

    Reading one request, the command table, the handlers and sending the
    reply.  What [read] and [send] return are lists of events; a reply is its
    text.  The configuration file and the address list come from the
    environment. *)

From Stdlib Require Import String.
From S2P Require Import Prelude Types CString Ipaddr Config Kernel Maps Lists DropTable Snap.
From S2P Require Import Double Policy.
Open Scope Z_scope.

Definition VG_MAX_DROP_TTL : Z := 31536000.

(** The loop of [parse_ttl]; [None] is [return -1]. *)
Fixpoint ttl_loop (s : list Z) (v : Z) : option Z :=
  match s with
  | [] => Some v
  | c :: s =>
      if (c <? 48) || (57 <? c) || (VG_MAX_DROP_TTL <? v) then None
      else ttl_loop s (u32 (v * 10 + u32 (c - 48)))
  end.

Definition parse_ttl (s : list Z) : option Z :=
  if negb (bool_decide (take 4 s = bs "ttl=")) then None
  else
    v ← ttl_loop (drop 4 s) 0;
    if (v <? 1) || (VG_MAX_DROP_TTL <? v) then None else Some v.

(** What the handlers leave in the reply buffer: a C string. *)
Abbreviation reply := (list Z).

(** The literals of the source end in a newline. *)
Definition msg (s : string) : reply := bs s ++ [10].

(** The world outside the kernel maps: the configuration file at a path and
    [getifaddrs]. *)
Class Env (K : Type) := {
  read_config : list Z → K → option (list (list Z) * bool) * K;
  getifaddrs : K → option (list ifaddr) * K;
}.

Section Ctl.
Context {K : Type} `{!Kernel K} `{!Env K} {I : Inet}.

Abbreviation P A := (M (vg_ctrl * K) A).

Definition reply_size : Z := 8192.

(** [ctrl->state == VG_ACTIVE ? "active" : "idle"] *)
Definition state_name (s : vg_state) : list Z :=
  if bool_decide (s = VG_ACTIVE) then bs "active" else bs "idle".

Definition ctl_status : P reply :=
  c ← getc id;
  mret (snprintf reply_size
    (bs "state=" ++ state_name (state c)
     ++ bs " armed=" ++ dec_signed (if bool_decide (state c = VG_ACTIVE) then 1 else 0)
     ++ bs " rx_pps=" ++ fmt_f0 (rx_pps c) ++ bs " rx_bps=" ++ fmt_f0 (rx_bps c)
     ++ bs " prefixes=" ++ dec_signed (drop_count (drops c))
     ++ bs " iface=" ++ interface (cfg c) ++ [10])).

Definition ctl_stats : P reply :=
  c ← getc id;
  m ← onK (vg_metrics_read (maps c));
  match m with
  | None => mret (msg "error reading metrics")
  | Some m =>
      mret (snprintf reply_size
        (bs "rx_pkts=" ++ dec (rx_pkts m) ++ bs " rx_bytes=" ++ dec (rx_bytes m)
         ++ bs " passed=" ++ dec (passed m) ++ bs " dropped=" ++ dec (dropped m)
         ++ bs " non_ip=" ++ dec (non_ip m) ++ bs " map_full=" ++ dec (map_full m)
         ++ bs " parse_err=" ++ dec (parse_err m) ++ [10]
         ++ bs "rx_pps=" ++ fmt_f0 (rx_pps c) ++ bs " rx_bps=" ++ fmt_f0 (rx_bps c)
         ++ bs " state=" ++ state_name (state c)
         ++ bs " prefixes=" ++ dec_signed (drop_count (drops c)) ++ [10]))
  end.

(** One line of [ctl_drops]. *)
Definition drop_line (r : vg_drop_rec) (now : Z) : list Z :=
  vg_cidr_to_str (cidr r) 80 ++ bs " reason=" ++ dec (reason r) ++ bs " age="
  ++ dec_signed (now - inserted r) ++ [10].

(** The loop of [ctl_drops] from node [l]; [text] is what the calls of
    [snprintf] would print so far, its length is [used]. *)
Fixpoint drops_loop (fuel : nat) (l : loc) (text : list Z) : P (list Z) :=
  if bool_decide (l = L_all) || (reply_size <=? Z.of_nat (List.length text) + 80)
  then mret text
  else
    match fuel with
    | O => λ _, None
    | S fuel =>
        t ← getc drops;
        i ← lift (list_entry l);
        r ← lift (rec_at t i);
        now ← onK (call sys_time);
        nx ← lift (node_next t l);
        drops_loop fuel nx (text ++ drop_line r now)
    end.

Definition ctl_drops : P reply :=
  t ← getc drops;
  if drop_count t =? 0 then mret (msg "(none)")
  else
    l ← lift (node_next t L_all);
    text ← drops_loop (walk_fuel t) l [];
    mret (snprintf reply_size text).

Definition ctl_arm : P reply :=
  rc ← vg_ctrl_arm;
  mret (if rc <? 0 then msg "error: arm failed" else msg "ok").

Definition ctl_disarm : P reply :=
  rc ← vg_ctrl_disarm;
  mret (if rc <? 0 then msg "error: disarm failed" else msg "ok").

Definition ctl_drop (args : list Z) : P reply :=
  let sp := strchr 32 args in
  let word := match sp with Some (a, _) => a | None => args end in
  match vg_parse_cidr_len word with
  | None => mret (msg "error: bad cidr")
  | Some p =>
      let ttl := match sp with Some (_, rest) => parse_ttl rest | None => Some 0 end in
      match ttl with
      | None => mret (msg "error: bad ttl")
      | Some ttl =>
          rc ← (if negb (ttl =? 0) then vg_ctrl_drop_ttl p ttl
                else vg_ctrl_drop p VG_REASON_MANUAL);
          mret (if rc <? 0 then msg "error: refused or map update failed" else msg "ok")
      end
  end.

Definition ctl_undrop (args : list Z) : P reply :=
  match vg_parse_cidr args with
  | None => mret (msg "error: bad cidr")
  | Some p =>
      rc ← vg_ctrl_undrop p;
      mret (if rc <? 0 then msg "error: map update failed" else msg "ok")
  end.

(** The new configuration: what a reload cannot change is carried over. *)
Definition reload_merge (old n : vg_config) (iface_ov : list Z) : vg_config :=
  let n := set_strs n (interface old) (xdp_mode old) (log_file old) (pid_file old)
             (ctl_socket_group old) in
  let n := set_nums n (wake_pps n) (wake_mbps n) (idle_poll_ms n) (clear_seconds n)
             (threshold_pps n) (threshold_mbps n) (ban_time n) (aggregate_k n) (metrics_port n)
             (remote_map_size old) (drop_map_size old) in
  if bool_decide (iface_ov = []) then n
  else set_strs n (take (Z.to_nat VG_MAX_IFACE - 1) iface_ov) (xdp_mode n) (log_file n)
         (pid_file n) (ctl_socket_group n).

Definition vg_ctrl_reload : P Z :=
  c ← getc id;
  if bool_decide (cfg_path c = []) then mret (-1)
  else
    file ← onK (call (read_config (cfg_path c)));
    match vg_config_load file with
    | None => mret (-1)
    | Some n =>
        let n := reload_merge (cfg c) n (iface_override c) in
        ifa ← (if auto_local n then onK (call getifaddrs) else mret None);
        match vg_config_auto_local n ifa with
        | None => mret (-1)
        | Some n =>
            _ ← modc (λ c, set_cfg c n);
            _ ← vg_ctrl_prune_protected;
            st ← getc state;
            e ← onK (vg_cfg_commit (if bool_decide (st = VG_ACTIVE) then 1 else 0) n);
            if negb (e =? 0) then mret (-1)
            else
              _ ← onK (vg_populate_allow n);
              _ ← onK (vg_populate_local n);
              mret 0
        end
    end.

Definition ctl_reload : P reply :=
  rc ← vg_ctrl_reload;
  mret (if rc <? 0 then msg "error: reload failed" else msg "ok").

(** [vg_ctl_commands]: name, whether it is a prefix, handler. *)
Definition vg_ctl_commands : list (list Z * bool * (list Z → P reply)) := [
  (bs "status", false, λ _, ctl_status);
  (bs "stats", false, λ _, ctl_stats);
  (bs "drops", false, λ _, ctl_drops);
  (bs "arm", false, λ _, ctl_arm);
  (bs "disarm", false, λ _, ctl_disarm);
  (bs "drop ", true, ctl_drop);
  (bs "undrop ", true, ctl_undrop);
  (bs "reload", false, λ _, ctl_reload)
].

Fixpoint dispatch_loop (cmds : list (list Z * bool * (list Z → P reply))) (req : list Z)
  : P reply :=
  match cmds with
  | [] => mret (msg "error: unknown command")
  | (name, prefix, handler) :: cmds =>
      if (if (prefix : bool) then bool_decide (take (List.length name) req = name)
          else bool_decide (req = name))
      then handler (drop (List.length name) req)
      else dispatch_loop cmds req
  end.

Definition dispatch (req : list Z) : P reply := dispatch_loop vg_ctl_commands req.

(** What a [read] returns; the end of the list is the end of the stream. *)
Inductive rd_event := REintr | RErr | RData (chunk : list Z).

(** How reading a request ends: no reply, a fixed reply, or a command. *)
Inductive request := NoReply | BadCommand | TooLong | Command (req : list Z).

Definition req_size : Z := 256.

(** The [for (;;)] of [vg_ctl_server_handle]; [req] is [req[0 .. used)]. *)
Fixpoint recv (evs : list rd_event) (req : list Z) : request :=
  match evs with
  | [] => if bool_decide (req = []) then NoReply else Command req
  | REintr :: evs => recv evs req
  | RErr :: _ => NoReply
  | RData chunk :: evs =>
      let '(part, nl) := match strchr 10 chunk with
                         | Some (a, _) => (a, true)
                         | None => (chunk, false)
                         end in
      if has_byte 0 part then BadCommand
      else
        let req := req ++ part in
        if nl then Command req
        else if Z.of_nat (List.length req) =? req_size - 1 then TooLong
        else recv evs req
  end.

(** What a [send] returns; the end of the list is a failed [send]. *)
Inductive wr_event := WEintr | WErr | WSent (n : Z).

(** The [while] after [send_reply:], from [reply + used]: the bytes sent. *)
Fixpoint send_loop (sends : list wr_event) (rest : list Z) : list Z :=
  match rest, sends with
  | [], _ | _, [] | _, WErr :: _ => []
  | _, WEintr :: sends => send_loop sends rest
  | _, WSent n :: sends =>
      if n <=? 0 then []
      else take (Z.to_nat n) rest ++ send_loop sends (drop (Z.to_nat n) rest)
  end.

(** The bytes sent back. *)
Definition vg_ctl_server_handle (evs : list rd_event) (sends : list wr_event) : P (list Z) :=
  match recv evs [] with
  | NoReply => mret []
  | BadCommand => mret (send_loop sends (msg "error: bad command"))
  | TooLong => mret (send_loop sends (msg "error: command too long"))
  | Command req => r ← dispatch req; mret (send_loop sends r)
  end.

End Ctl.
