(* ===== verification/CtlThms.v ===== *)
(** * The control socket: parsing, reading and the invariant

    What [parse_ttl] accepts, that a request does not depend on how the
    stream is cut into reads, and that every command keeps the invariant of
    the controller. *)

From Stdlib Require Import String.
From S2P Require Import Prelude Types CString Ipaddr IpaddrThms Config Kernel Maps MapsThms.
From S2P Require Import ConfigThms Lists DropTable DropThms Snap SnapThms Double Policy.
From S2P Require Import PolicyThms SweepThms TickThms Ctl.
Import Dlist Hlist.
Open Scope Z_scope.

(** ** ttl=<seconds> *)

Definition digits (s : list Z) : Prop := Forall (λ c, is_digit c = true) s.

Lemma digit_range c : is_digit c = true ↔ 48 ≤ c ≤ 57.
Proof. unfold is_digit. rewrite andb_true_iff, !Z.leb_le. lia. Qed.

Lemma ttl_step v c :
  0 ≤ v ≤ VG_MAX_DROP_TTL → 48 ≤ c ≤ 57 → u32 (v * 10 + u32 (c - 48)) = dec_step v c.
Proof.
  unfold VG_MAX_DROP_TTL, u32, dec_step. intros Hv Hc.
  rewrite (Z.mod_small (c - 48)) by lia. apply Z.mod_small. lia.
Qed.

Lemma fold_dec_ge s v : digits s → 0 ≤ v → v ≤ fold_left dec_step s v.
Proof.
  intros Hs. revert v. induction Hs as [|c s Hc Hs IH]; intros v Hv; simpl; [lia|].
  apply digit_range in Hc.
  pose proof (IH (dec_step v c) ltac:(unfold dec_step; lia)). unfold dec_step in *. lia.
Qed.

Lemma ttl_loop_sound s v r :
  0 ≤ v ≤ 10 * VG_MAX_DROP_TTL + 9 → ttl_loop s v = Some r →
  digits s ∧ r = fold_left dec_step s v.
Proof.
  revert v. induction s as [|c s IH]; intros v Hv; simpl; [intros [= <-]; split; [constructor|done]|].
  destruct ((c <? 48) || (57 <? c) || (VG_MAX_DROP_TTL <? v)) eqn:E; [done|].
  apply orb_false_iff in E as [E E3]. breflect.
  rewrite ttl_step by lia. intros Hr. apply IH in Hr as [Hd ->]; [|unfold dec_step; lia].
  split; [|done]. constructor; [by apply digit_range|done].
Qed.

Lemma ttl_loop_complete s v :
  digits s → 0 ≤ v → fold_left dec_step s v ≤ VG_MAX_DROP_TTL →
  ttl_loop s v = Some (fold_left dec_step s v).
Proof.
  intros Hs. revert v. induction Hs as [|c s Hc Hs IH]; intros v Hv Hle; simpl in *; [done|].
  apply digit_range in Hc. assert (0 ≤ dec_step v c) by (unfold dec_step; lia).
  pose proof (fold_dec_ge s (dec_step v c) Hs ltac:(done)) as Hge.
  assert (v ≤ VG_MAX_DROP_TTL) by (unfold dec_step in Hge at 1; lia).
  replace ((c <? 48) || (57 <? c) || (VG_MAX_DROP_TTL <? v)) with false.
  - rewrite ttl_step by lia. by apply IH.
  - symmetry. rewrite !orb_false_iff, !Z.ltb_ge. lia.
Qed.

Lemma parse_ttl_spec s v :
  parse_ttl s = Some v ↔
  ∃ ds, s = bs "ttl=" ++ ds ∧ digits ds ∧ fold_left dec_step ds 0 = v ∧ 1 ≤ v ≤ VG_MAX_DROP_TTL.
Proof.
  unfold parse_ttl. case_bool_decide as Ht; cbn [negb].
  - split.
    + intros (r & Hr & H)%bind_Some. apply ttl_loop_sound in Hr as [Hd ->]; [|by vm_compute].
      destruct (_ || _) eqn:E; [done|]. breflect. injection H as <-.
      exists (drop 4 s). split_and!; try done. by rewrite <-Ht, take_drop.
    + intros (ds & -> & Hd & <- & Hv). change (drop 4 (bs "ttl=" ++ ds)) with ds.
      rewrite ttl_loop_complete by (done || lia). simpl.
      replace (fold_left dec_step ds 0 <? 1) with false by (symmetry; apply Z.ltb_ge; lia).
      by replace (VG_MAX_DROP_TTL <? fold_left dec_step ds 0) with false
        by (symmetry; apply Z.ltb_ge; lia).
  - split; [done|]. intros (ds & -> & _). by destruct Ht.
Qed.

(** ** Reading a request *)

(** The bytes of the stream, however they are cut. *)
Fixpoint stream (evs : list rd_event) : list Z :=
  match evs with
  | [] => []
  | RData chunk :: evs => chunk ++ stream evs
  | _ :: evs => stream evs
  end.

(** [read] without errors: data comes in non-empty pieces no longer than the
    room left in [req]. *)
Fixpoint reads_ok (evs : list rd_event) (used : nat) : Prop :=
  match evs with
  | [] => True
  | REintr :: evs => reads_ok evs used
  | RErr :: _ => False
  | RData chunk :: evs =>
      chunk ≠ [] ∧ (used + List.length chunk ≤ 255)%nat
      ∧ ((used + List.length chunk = 255)%nat ∨ 10 ∈ chunk
         ∨ reads_ok evs (used + List.length chunk))
  end.

(** The request in a stream: its first line, if that ends within 255 bytes. *)
Definition request_of (s : list Z) : request :=
  match s with
  | [] => NoReply
  | _ =>
      match strchr 10 (take 255 s) with
      | Some (line, _) => if has_byte 0 line then BadCommand else Command line
      | None =>
          if has_byte 0 (take 255 s) then BadCommand
          else if (255 <=? List.length s)%nat then TooLong else Command s
      end
  end.

Lemma strchr_skip c a s :
  c ∉ a → strchr c (a ++ s) = match strchr c s with Some (x, y) => Some (a ++ x, y) | None => None end.
Proof.
  induction a as [|x a IH]; intros Hn; simpl; [by destruct (strchr c s) as [[]|]|].
  apply not_elem_of_cons in Hn as [Hne Hn]. apply not_eq_sym, Z.eqb_neq in Hne. rewrite Hne, IH by done.
  by destruct (strchr c s) as [[]|].
Qed.

Lemma has_byte_app c a b : has_byte c (a ++ b) = has_byte c a || has_byte c b.
Proof. unfold has_byte. apply existsb_app. Qed.

Lemma recv_spec evs req :
  10 ∉ req → 0 ∉ req → (List.length req < 255)%nat → reads_ok evs (List.length req) →
  recv evs req = request_of (req ++ stream evs).
Proof.
  revert req. induction evs as [|[| |chunk] evs IH]; intros req H10 H0 Hl Hok;
    cbn [recv stream reads_ok] in *.
  - rewrite app_nil_r. case_bool_decide as Hr; [by subst|]. unfold request_of.
    assert (∃ x r, req = x :: r) as (x & r & E) by (destruct req; [done|by eexists _, _]).
    rewrite take_ge by lia. rewrite (proj2 (strchr_None 10 req)) by done.
    rewrite (proj2 (has_byte_false 0 req)) by done.
    destruct (255 <=? List.length req)%nat eqn:El; [apply Nat.leb_le in El; lia|]. by rewrite E.
  - by apply IH.
  - done.
  - destruct Hok as (Hne & Hle & Hok). set (s := req ++ chunk ++ stream evs).
    assert (∃ y ys, s = y :: ys) as (y & ys & Es).
    { unfold s. destruct req; [destruct chunk; [done|by eexists _, _]|by eexists _, _]. }
    assert (take 255 s = (req ++ chunk) ++ take (255 - List.length (req ++ chunk)) (stream evs)) as Et.
    { unfold s. rewrite app_assoc, take_app, take_ge; [done|]. rewrite length_app. lia. }
    unfold request_of. rewrite Es. rewrite <-Es, Et, <-app_assoc, strchr_skip by done.
    destruct (strchr 10 chunk) as [[part rest]|] eqn:Ec.
    + apply strchr_split in Ec as [-> Hp]. rewrite <-app_assoc. cbn [app].
      rewrite strchr_app by done. rewrite has_byte_app, (proj2 (has_byte_false 0 req)) by done.
      by destruct (has_byte 0 part).
    + apply strchr_None in Ec. rewrite strchr_skip by done.
      destruct (has_byte 0 chunk) eqn:Eb.
      { destruct (strchr 10 _) as [[l1 l2]|]; by rewrite !has_byte_app, Eb, ?orb_true_r. }
      apply has_byte_false in Eb.
      assert (0 ∉ req ++ chunk) as H0' by (rewrite elem_of_app; tauto).
      assert (10 ∉ req ++ chunk) as H10' by (rewrite elem_of_app; tauto).
      unfold req_size. destruct (Z.of_nat (List.length (req ++ chunk)) =? 256 - 1) eqn:El; breflect.
      * rewrite length_app in El |- *.
        replace (255 - (List.length req + List.length chunk))%nat with 0%nat by lia. cbn [take strchr].
        rewrite app_nil_r, (proj2 (has_byte_false 0 _)) by done.
        rewrite (proj2 (Nat.leb_le 255 (List.length s))); [done|].
        unfold s. rewrite !length_app. lia.
      * rewrite IH; [|done|done|rewrite length_app in *; lia|].
        2:{ rewrite length_app in *. destruct Hok as [Hx|[Hx|Hx]]; [lia|done|done]. }
        unfold request_of. rewrite <-app_assoc. fold s. rewrite Es. rewrite <-Es, Et.
        rewrite <-!app_assoc, !strchr_skip by done. done.
Qed.

(** ** Commands keep the invariant *)

(** Reading the file and the addresses does not touch the maps; addresses
    come in the length of their family. *)
Class EnvLaws (K : Type) `{!Kernel K} `{!Env K} : Prop := {
  read_config_same path w : same_maps w (read_config path w).2;
  getifaddrs_same w : same_maps w (getifaddrs w).2;
  getifaddrs_ok w l : (getifaddrs w).1 = Some l → Forall ifaddr_ok l;
}.

Section CtlInv.
Context {K : Type} `{!Kernel K} `{!KernelLaws K} `{!Env K} `{!EnvLaws K} {I : Inet} `{!InetLaws I}.
Context (Hdefaults : defaults_parse).
Implicit Types (w : K) (c : vg_ctrl).

(** The invariant with a configuration in range, which a reload replaces. *)
Definition Good c w : Prop := Inv c w ∧ cfg_ok (cfg c).

Definition stable {A} (m : M (vg_ctrl * K) A) : Prop :=
  ∀ c w, Good c w → wp m (λ _ s', Good s'.1 s'.2) (c, w).

Lemma keeps_stable {A} (m : M (vg_ctrl * K) A) : keeps m → stable m.
Proof.
  intros Hm c w [HI Hc]. eapply wp_mono; [by apply Hm|]. intros a s' (? & E & _).
  split; [done|]. by rewrite E.
Qed.

Lemma stable_bind {A B} (m : M (vg_ctrl * K) A) (g : A → M (vg_ctrl * K) B) :
  stable m → (∀ a, stable (g a)) → stable (m ≫= g).
Proof.
  intros Hm Hg c w HI. apply wp_bind. eapply wp_mono; [by apply Hm|].
  intros a [c1 w1] H1. by apply Hg.
Qed.

Lemma stable_ret {A} (a : A) : stable (mret a).
Proof. apply keeps_stable, keeps_ret. Qed.

Lemma stable_getc {A} (g : vg_ctrl → A) : stable (getc g).
Proof. apply keeps_stable, keeps_getc. Qed.

Lemma stable_reply {A} (m : M (vg_ctrl * K) A) (g : A → reply) :
  stable m → stable (a ← m; mret (g a)).
Proof. intros. apply stable_bind; [done|]. intros. apply stable_ret. Qed.

Lemma drops_loop_stable fuel xs ys f l0 text c w :
  inv c w (xs ++ ys) f → (List.length ys ≤ fuel)%nat → l0 = walk_pos ys → Good c w →
  wp (drops_loop fuel l0 text) (λ _ s', Good s'.1 s'.2) (c, w).
Proof.
  revert xs ys l0 text w. induction fuel as [|fuel IH]; intros xs ys l0 text w Hi Hf -> HI;
    (destruct ys as [|i ys]; [by apply wp_ret|]); simpl in Hf; [lia|].
  change (walk_pos (i :: ys)) with (L_rec i). cbn [drops_loop].
  split_if; [by apply wp_ret|]. apply wp_bind, wp_getc. apply wp_bind. eapply wp_lift; [done|].
  apply wp_bind. eapply wp_lift; [eapply rec_at_in; [apply Hi|set_solver]|].
  apply wp_bind, wp_onK, wp_call. apply wp_bind.
  destruct (rep_step _ _ _ _ _ _ (inv_rep _ _ _ _ Hi)) as [En _]. eapply wp_lift; [done|].
  apply (IH (xs ++ [i]) ys); [|lia|done|].
  2:{ destruct HI. split; [by eapply Inv_same, time_same|done]. }
  rewrite <-app_assoc. eapply inv_same; [done|apply time_same].
Qed.

Lemma ctl_drops_stable : stable ctl_drops.
Proof.
  intros c w HI. unfold ctl_drops. apply wp_bind, wp_getc. split_if; [by apply wp_ret|].
  pose proof HI as [(l & f & Hi & _) _]. apply wp_bind. eapply wp_lift; [by eapply rep_next, Hi|].
  apply wp_bind. eapply wp_mono; [eapply (drops_loop_stable _ [] l); try done|].
  - eapply rep_length, Hi.
  - intros text s' HI'. by apply wp_ret.
Qed.

Lemma parse_prefix_ok s p : vg_parse_cidr_len s = Some p → prefix_ok p.
Proof. apply parse_ok. Qed.

Lemma ctl_drop_stable args : stable (ctl_drop args).
Proof.
  unfold ctl_drop. destruct (vg_parse_cidr_len _) as [p|] eqn:Ep; [|apply stable_ret].
  apply parse_prefix_ok in Ep.
  destruct (match strchr 32 args with Some (_, rest) => parse_ttl rest | None => Some 0 end)
    as [ttl|]; [|apply stable_ret].
  apply stable_reply. split_if; apply keeps_stable; [by apply drop_ttl_keeps|by apply drop_keeps].
Qed.

Lemma ctl_undrop_stable args : stable (ctl_undrop args).
Proof.
  unfold ctl_undrop. destruct (vg_parse_cidr args) as [p|] eqn:Ep; [|apply stable_ret].
  apply stable_reply, keeps_stable, undrop_keeps. by eapply parse_prefix_ok.
Qed.

(** ** Reload *)

(** The drop tries and the cfg array are left alone, and the past is kept. *)
Definition same_drops w w' : Prop :=
  same_trie drop_v4 w w' ∧ same_trie drop_v6 w w' ∧ xdp_cfg w' = xdp_cfg w ∧ past w w'.

Lemma same_drops_trans w1 w2 w3 : same_drops w1 w2 → same_drops w2 w3 → same_drops w1 w3.
Proof.
  intros ([] & [] & ? & ?) ([] & [] & ? & ?).
  split; [split; congruence|]. split; [split; congruence|]. split; [congruence|by eapply past_trans].
Qed.

Lemma same_drops_refl w : same_drops w w.
Proof. split; [done|]. split; [done|]. split; [done|apply past_refl]. Qed.

Lemma same_drops_but m w w' :
  m ≠ drop_v4 → m ≠ drop_v6 → same_but m w w' → past w w' → same_drops w w'.
Proof. intros H4 H6 [Hb Hc] Hp. split; [by apply Hb|]. split; [by apply Hb|by split]. Qed.

Lemma populate_same fd4 fd6 l w :
  fd4 ≠ drop_v4 → fd4 ≠ drop_v6 → fd6 ≠ drop_v4 → fd6 ≠ drop_v6 →
  wp (populate_loop fd4 fd6 l) (λ _ w', same_drops w w') w.
Proof.
  intros H1 H2 H3 H4. revert w. induction l as [|p l IH]; intros w; cbn [populate_loop].
  { apply wp_ret, same_drops_refl. }
  apply wp_bind, wp_call. eapply wp_mono; [apply IH|]. intros ? w' Hs.
  eapply same_drops_trans; [|exact Hs].
  assert (∀ b : bool, (if b then fd4 else fd6) ≠ drop_v4 ∧ (if b then fd4 else fd6) ≠ drop_v6)
    as Hfd by (by intros []).
  eapply same_drops_but; [apply (Hfd (family p =? AF_INET))..|apply update_but|apply update_grows].
Qed.

Lemma flush_same m w :
  m ≠ drop_v4 → m ≠ drop_v6 → wp (flush_lpm m) (λ _ w', same_drops w w') w.
Proof.
  intros H4 H6. eapply wp_mono; [eapply wp_past; [apply grows_flush|apply flush_lpm_spec]|].
  intros _ w' [[Hb _] Hp]. by eapply same_drops_but.
Qed.

Lemma populate_nets_same fd4 fd6 l w :
  fd4 ≠ drop_v4 → fd4 ≠ drop_v6 → fd6 ≠ drop_v4 → fd6 ≠ drop_v6 →
  wp (_ ← flush_lpm fd4; _ ← flush_lpm fd6; populate_loop fd4 fd6 l) (λ _ w', same_drops w w') w.
Proof.
  intros. apply wp_bind. eapply wp_mono; [by apply flush_same|]. intros ? w1 H1'.
  apply wp_bind. eapply wp_mono; [by apply flush_same|]. intros ? w2 H2'.
  eapply wp_mono; [by apply populate_same|]. intros ? w3 H3'.
  eapply same_drops_trans; [exact H1'|]. by eapply same_drops_trans; [exact H2'|].
Qed.

Lemma Inv_drops c w w' : Inv c w → same_drops w w' → Inv c w'.
Proof.
  intros (l & f & Hi & Hc & Ht) ([H4 _] & [H6 _] & Hx & Hp).
  assert (∀ q, in_map w' q ↔ in_map w q) as Hm.
  { intros q. unfold in_map, drop_fd. destruct (family q =? AF_INET); by rewrite ?H4, ?H6. }
  exists l, f. split_and!; [|by eapply clean_past|].
  - eapply inv_ext; [done|done|done|apply Hi|done|]. intros q. apply Hm.
  - eapply tracked_sub; [|done|done]. intros q. apply Hm.
Qed.

Lemma stable_onK_drops {A} (m : M K A) : (∀ w, wp m (λ _ w', same_drops w w') w) → stable (onK m).
Proof.
  intros Hm c w [HI Hc]. apply wp_onK. eapply wp_mono; [apply Hm|]. intros a w' Hs.
  split; [by eapply Inv_drops|done].
Qed.

Lemma stable_call {A} (g : K → A * K) : (∀ w, same_maps w (g w).2) → stable (onK (call g)).
Proof. intros Hg. apply keeps_stable, keeps_onK. intros w. by apply wp_call. Qed.

(** Installing a configuration and pruning what it protects. *)
Lemma install_stable n :
  cfg_ok n → stable (_ ← modc (λ c, set_cfg c n); vg_ctrl_prune_protected).
Proof.
  intros Hn c w [(l & f & Hi & _ & Ht) _]. apply wp_bind, wp_modc.
  assert (inv (set_cfg c n) w l f) as Hi' by (eapply inv_ext; try done; apply Hi).
  eapply wp_mono; [by apply (prune_protected_spec (set_cfg c n) w l f)|].
  intros k s' Hw. apply walked_tracked in Hw as (l' & f' & Hi2 & (Hcf & _) & Ht2 & _ & Hsel); [|done].
  unfold Good. rewrite Hcf. cbn [cfg set_cfg]. split; [|done].
  exists l', f'. split_and!; [done| |done]. rewrite Hcf. cbn [cfg set_cfg].
  intros q (r & -> & Hr)%list_elem_of_fmap Hp. by apply (Hsel r).
Qed.

(** A commit with the word of the current state. *)
Lemma commit_Inv c w cf :
  Inv c w → wp (onK (vg_cfg_commit (if bool_decide (state c = VG_ACTIVE) then 1 else 0) cf))
    (λ _ s', Inv s'.1 s'.2 ∧ s'.1 = c) (c, w).
Proof.
  intros (l & f & Hi & Hc & Ht). apply wp_onK, wp_call. set (bc := bpf_cfg_of _ cf).
  pose proof (cfg_update_tries bc w) as Htr. pose proof (cfg_update_past bc w) as Hp%same_past_past.
  destruct (bpf_cfg_update bc w) as [e w'] eqn:E. cbn [fst snd] in *. split; [|done].
  assert (∀ q, in_map w' q ↔ in_map w q) as Hm.
  { intros q. unfold in_map. by destruct (Htr (drop_fd q)) as [-> _]. }
  exists l, f. split_and!; [|by eapply clean_past|].
  - destruct Hi as [Hr Hsn Har Hid Hmp]. split; try done; [|intros i Hin; by apply Hm, Hmp].
    destruct (decide (e = 0)) as [->|He].
    + exists bc. split; [by eapply cfg_update_ok|]. unfold bc. simpl. by destruct (state c).
    + by rewrite (cfg_update_fail _ _ _ _ E He).
  - eapply tracked_sub; [|done|done]. intros q. apply Hm.
Qed.

(** What a reload carries over keeps the configuration in range. *)
Lemma merge_ok old n ov : cfg_ok old → cfg_ok n → cfg_ok (reload_merge old n ov).
Proof.
  intros [] []. decompose_Forall_hyps. unfold reload_merge.
  assert (Z.of_nat (List.length (take (Z.to_nat VG_MAX_IFACE - 1) ov)) < VG_MAX_IFACE).
  { rewrite length_take. unfold VG_MAX_IFACE. lia. }
  case_bool_decide; (split; cbn; try done);
    repeat (apply Forall_cons; split); try apply Forall_nil_2; done.
Qed.

Lemma reload_stable : stable vg_ctrl_reload.
Proof.
  intros c w HG. unfold vg_ctrl_reload. apply wp_bind, wp_getc. cbn [id].
  split_if; [by apply wp_ret|]. apply wp_bind, wp_onK, wp_call.
  destruct HG as [HI Hc]. eapply Inv_same in HI; [|apply (read_config_same (cfg_path c))].
  destruct (vg_config_load _) as [n|] eqn:El; [|apply wp_ret; by split].
  apply config_load_range in El as [Hn _]; [|done].
  pose proof (merge_ok _ _ (iface_override c) Hc Hn) as Hm. set (n1 := reload_merge _ _ _) in *.
  set (w1 := (read_config (cfg_path c) w).2) in *. apply wp_bind.
  eapply (wp_mono _ (λ ifa s', Good s'.1 s'.2 ∧ ∀ l, ifa = Some l → Forall ifaddr_ok l)).
  { split_if; [|apply wp_ret; by split]. apply wp_onK, wp_call. cbn. split.
    - split; [|done]. eapply Inv_same; [done|apply getifaddrs_same].
    - intros l. apply getifaddrs_ok. }
  intros ifa [c2 w2] [HG2 Hifa]. cbn [fst snd] in *.
  destruct (vg_config_auto_local n1 ifa) as [n2|] eqn:Ea; [|by apply wp_ret].
  apply auto_local_ok in Ea; [|done|done].
  pose proof (install_stable n2 Ea c2 w2 HG2) as Hin.
  destruct Hin as (k & [c3 w3] & E & [HI3 Hc3]). unfold mbind, M_bind in E. cbn in E.
  apply wp_bind, wp_modc. apply wp_bind. exists k, (c3, w3). split; [done|].
  apply wp_bind, wp_getc. apply wp_bind. eapply wp_mono; [by apply commit_Inv|].
  intros e [c4 w4] [HI4 E4]. cbn [fst snd] in *. subst c4. split_if; [apply wp_ret; by split|].
  apply stable_bind; [|intros _; apply stable_bind; [|intros _; apply stable_ret]|by split];
    apply stable_onK_drops; intros w5; by apply populate_nets_same.
Qed.

Lemma dispatch_stable req : stable (dispatch req).
Proof.
  unfold dispatch. cbn [dispatch_loop vg_ctl_commands].
  repeat (split_if; [|]);
    first [apply stable_ret|apply ctl_drops_stable|apply ctl_drop_stable|apply ctl_undrop_stable|idtac].
  - apply stable_reply, stable_getc.
  - apply stable_bind; [apply stable_getc|]. intros c0. apply stable_bind.
    { apply keeps_stable, keeps_onK. intros w. unfold vg_metrics_read. apply wp_bind.
      eapply wp_mono; [apply sum_same, metrics_same|]. intros r w' Hs. by apply wp_ret. }
    intros [m|]; apply stable_ret.
  - apply stable_reply, keeps_stable, arm_keeps.
  - apply stable_reply, keeps_stable, disarm_keeps.
  - apply stable_reply, reload_stable.
Qed.

Lemma handle_stable evs sends : stable (vg_ctl_server_handle evs sends).
Proof.
  unfold vg_ctl_server_handle. destruct (recv evs []); try apply stable_ret.
  apply stable_bind; [apply dispatch_stable|]. intros. apply stable_ret.
Qed.
End CtlInv.
