(* ===== verification/CtlMain.v ===== *)
(** * The control socket: main theorems *)

From Stdlib Require Import String.
From S2P Require Import Prelude Types CString Ipaddr IpaddrThms Config Kernel Maps MapsThms.
From S2P Require Import ConfigThms Lists DropTable DropThms Snap SnapThms Double Policy.
From S2P Require Import PolicyThms SweepThms TickThms Xdp MapsMain Ctl CtlThms.
Import Dlist Hlist.
Open Scope Z_scope.

(** [parse_ttl] accepts exactly the word [ttl=] followed by decimal
    digits whose value is 1 to one year, and returns that value: the 32-bit
    accumulator never wraps. *)
Theorem parse_ttl_accepts s v :
  parse_ttl s = Some v ↔
  ∃ ds, s = bs "ttl=" ++ ds ∧ digits ds ∧ fold_left dec_step ds 0 = v ∧ 1 ≤ v ≤ VG_MAX_DROP_TTL.
Proof. apply parse_ttl_spec. Qed.

(** C28: a request does not depend on how the stream is cut into reads: it
    is the first line when that ends within 255 bytes, a bad command when a
    NUL byte comes first, too long when 255 bytes hold no line end. *)
Theorem request_from_stream evs :
  reads_ok evs 0 → recv evs [] = request_of (stream evs).
Proof. intros H. apply recv_spec; [by intros ?%elem_of_nil..|simpl; lia|done]. Qed.

Section Main.
Context {K : Type} `{!Kernel K} `{!KernelLaws K} `{!Env K} `{!EnvLaws K} {I : Inet} `{!InetLaws I}.
Implicit Types (w : K) (c : vg_ctrl) (p : vg_cidr).

(** A kernel call leaves the controller alone. *)
Lemma onK_ctrl {A} (m : M K A) c w a s' : onK m (c, w) = Some (a, s') → s'.1 = c.
Proof. unfold onK, liftK. cbn [fst snd]. destruct (m w) as [[]|]; by intros [= _ <-]. Qed.

Lemma getc_inv {A} (g : vg_ctrl → A) c w a (s' : vg_ctrl * K) :
  getc g (c, w) = Some (a, s') → a = g c ∧ s' = (c, w).
Proof. by intros [= <- <-]. Qed.

Lemma modc_inv g c w u (s' : vg_ctrl * K) : modc g (c, w) = Some (u, s') → s' = (g c, w).
Proof. by intros [= _ <-]. Qed.

(** ** drop *)

(** The prefixes listed after [drop_add]. *)
Lemma outcome_cidrs c w p rs now exp old z new st w' :
  drop_outcome c w p rs now exp old z new st w' →
  z = 0 ∧ (∀ q, q ∈ cidr <$> new ↔ q ∈ cidr <$> old ∨ q = p)
  ∨ z = -1 ∧ cidr <$> new = cidr <$> old.
Proof.
  assert (∀ k rc, old !! k = Some rc → cidr rc = p → p ∈ cidr <$> old) as Hin.
  { intros k rc Hk <-. apply list_elem_of_fmap. exists rc. split; [done|].
    by eapply list_elem_of_lookup_2. }
  intros Ho. destruct Ho as [w' _ _|w' _ _|w' _ _|w' _ _ _|k rc w' Hk Hc _ _ _|k rc w' _ Hk Hc _ _
    |k rc w' Hk Hc _ _]; try (right; by split).
  - left. split; [done|]. intros q. rewrite fmap_app, elem_of_app. cbn.
    by rewrite list_elem_of_singleton.
  - left. split; [done|]. intros q. split; [by left|]. intros [?| ->]; [done|]. by eapply Hin.
  - left. split; [done|]. intros q.
    rewrite (cidrs_insert old k rc) by (done || apply redrop_cidr).
    split; [by left|]. intros [?| ->]; [done|]. by eapply Hin.
  - right. split; [done|]. apply (cidrs_insert old k rc); [done|apply preset_cidr].
Qed.

Lemma drop_add_cidrs p rs exp c w l :
  prefix_ok p → Inv c w → drop_all_walk (drops c) = Some l →
  ∃ z c' w' l', drop_add p rs exp (c, w) = Some (z, (c', w')) ∧ Inv c' w'
    ∧ drop_all_walk (drops c') = Some l' ∧ cfg c' = cfg c
    ∧ (z = 0 ∧ (∀ q, q ∈ cidrs c' l' ↔ q ∈ cidrs c l ∨ q = p) ∨ z = -1 ∧ cidrs c' l' = cidrs c l).
Proof.
  intros Hp HI Hl. pose proof HI as (l0 & f & Hi & _).
  pose proof (drop_all_walk_spec _ _ _ _ (inv_rep _ _ _ _ Hi)) as El. simplify_eq.
  destruct (drop_add_spec c w l f p rs exp Hi Hp) as (z & [c' w'] & E & l' & f' & Hi' & Hc & _ & Ho).
  pose proof (drop_add_keeps p rs exp Hp c w HI) as Hk.
  eapply wp_det in Hk as [HI' _]; [|exact E]. cbn [fst snd] in *.
  exists z, c', w', l'. split_and!; [done|done|eapply drop_all_walk_spec, Hi'|done|].
  by eapply outcome_cidrs.
Qed.

(** The first word of the arguments. *)
Definition cidr_word (args : list Z) : list Z :=
  match strchr 32 args with Some (a, _) => a | None => args end.

Lemma drop_cmd_run args : dispatch (K := K) (bs "drop " ++ args) = ctl_drop args.
Proof. reflexivity. Qed.

(** A reply that reports a failure. *)
Definition is_error (r : list Z) : Prop := take 5 r = bs "error".

Lemma drop_reply_spec args c w l :
  Inv c w → drop_all_walk (drops c) = Some l →
  ∃ r c' w' l', dispatch (bs "drop " ++ args) (c, w) = Some (r, (c', w')) ∧ Inv c' w'
    ∧ drop_all_walk (drops c') = Some l' ∧ (0 ∉ r)
    ∧ (r = msg "ok" ∧ (∃ p, vg_parse_cidr_len (cidr_word args) = Some p ∧ in_map w' p
            ∧ ∀ q, q ∈ cidrs c' l' ↔ q ∈ cidrs c l ∨ q = p)
       ∨ is_error r ∧ cidrs c' l' = cidrs c l).
Proof.
  intros HI Hl. rewrite drop_cmd_run. unfold ctl_drop. fold (cidr_word args).
  destruct (vg_parse_cidr_len (cidr_word args)) as [p|] eqn:Ep.
  2:{ exists (msg "error: bad cidr"), c, w, l. split_and!; [done..|by apply has_byte_false|]. by right. }
  destruct (match strchr 32 args with Some (_, rest) => parse_ttl rest | None => Some 0 end) as [ttl|].
  2:{ exists (msg "error: bad ttl"), c, w, l. split_and!; [done..|by apply has_byte_false|]. by right. }
  assert (prefix_ok p) as Hp by (by eapply parse_prefix_ok).
  assert (∃ z c' w' l',
    (if negb (ttl =? 0) then vg_ctrl_drop_ttl p ttl else vg_ctrl_drop p VG_REASON_MANUAL) (c, w)
      = Some (z, (c', w')) ∧ Inv c' w' ∧ drop_all_walk (drops c') = Some l' ∧ cfg c' = cfg c
    ∧ (z = 0 ∧ (∀ q, q ∈ cidrs c' l' ↔ q ∈ cidrs c l ∨ q = p) ∨ z = -1 ∧ cidrs c' l' = cidrs c l))
    as (z & c' & w' & l' & E & HI' & Hl' & _ & Hz).
  { destruct (negb (ttl =? 0)); [|by apply drop_add_cidrs].
    pose proof (Inv_same c w _ HI (time_same w)) as HI1.
    destruct (drop_add_cidrs p VG_REASON_TIMED (now_of w + ttl) c _ l Hp HI1 Hl) as (z & c' & w' & l' & E & H).
    exists z, c', w', l'. split; [|done]. unfold vg_ctrl_drop_ttl, onK.
    erewrite mbind_step; [exact E|]. unfold liftK, call, now_of. cbn [fst snd]. by destruct (sys_time w). }
  rewrite (mbind_step _ _ _ _ _ E).
  exists (if z <? 0 then msg "error: refused or map update failed" else msg "ok"), c', w', l'.
  split_and!; [done..|apply has_byte_false; by destruct (z <? 0)|]. destruct Hz as [[-> Hq]|[-> Hq]]; [left|by right].
  split; [done|]. exists p. split_and!; [done| |done].
  destruct HI' as (l1 & f1 & Hi1 & _).
  pose proof (drop_all_walk_spec _ _ _ _ (inv_rep _ _ _ _ Hi1)) as El. simplify_eq.
  assert (p ∈ cidrs c' l') as (rc & -> & (i & -> & Hin)%list_elem_of_fmap)%list_elem_of_fmap
    by (apply Hq; by right).
  by apply Hi1.
Qed.

(** The reply to [drop <cidr> [ttl=<s>]] tells what happened: on [ok]
    the prefix is listed and has its map entry, and the prefixes listed
    besides it are those listed before; any other reply begins with [error]
    and exactly the prefixes listed before are. *)
Theorem drop_command_reply args c w l :
  Inv c w → drop_all_walk (drops c) = Some l →
  ∃ r c' w' l', dispatch (bs "drop " ++ args) (c, w) = Some (r, (c', w')) ∧ Inv c' w'
    ∧ drop_all_walk (drops c') = Some l'
    ∧ (r = msg "ok" ∧ (∃ p, vg_parse_cidr_len (cidr_word args) = Some p ∧ in_map w' p
            ∧ ∀ q, q ∈ cidrs c' l' ↔ q ∈ cidrs c l ∨ q = p)
       ∨ is_error r ∧ cidrs c' l' = cidrs c l).
Proof.
  intros HI Hl. destruct (drop_reply_spec args c w l HI Hl) as (r & c' & w' & l' & E & HI' & Hl' & _ & H).
  by exists r, c', w', l'.
Qed.

(** ** reload *)

(** The kernel as the configuration [cf] wants it, up to calls on the tries
    that failed in its past. *)
Definition nets_hold fd4 fd6 (l : list vg_cidr) w : Prop :=
  ∀ q, prefix_ok q →
    (stored fd4 fd6 w q → q ∈ l ∨ refused (net_fd fd4 fd6 q) (lpm_key_of q) w)
    ∧ (q ∈ l → stored fd4 fd6 w q ∨ unstored (net_fd fd4 fd6 q) (lpm_key_of q) w).

Definition applied (cf : vg_config) w : Prop :=
  (∃ bc, xdp_cfg w = Some bc ∧ ∀ port, port_allowed (Some bc) port = true ↔ port ∈ cfg_allow_ports cf)
  ∧ nets_hold local_v4 local_v6 (local_cidr cf) w ∧ nets_hold allow_v4 allow_v6 (allow_cidr cf) w.

Lemma nets_hold_same fd4 fd6 l w w' :
  same_trie fd4 w w' → same_trie fd6 w w' → past w w' → nets_hold fd4 fd6 l w → nets_hold fd4 fd6 l w'.
Proof.
  intros [E4 _] [E6 _] Hp H q Hq. destruct (H q Hq) as [H1 H2].
  assert (stored fd4 fd6 w' q ↔ stored fd4 fd6 w q) as Hs.
  { unfold stored. destruct (net_fd_or fd4 fd6 q) as [E|E]; rewrite E; by rewrite ?E4, ?E6. }
  rewrite Hs. split.
  - intros [?|?]%H1; [by left|right; by apply Hp].
  - intros [?|?]%H2; [by left|right; by apply Hp].
Qed.

(** What follows the commit of a reload. *)
Lemma populate_applied cf c w s' u :
  cfg_ok cf → (∃ bc, xdp_cfg w = Some bc
     ∧ ∀ port, port_allowed (Some bc) port = true ↔ port ∈ cfg_allow_ports cf) →
  (_ ← onK (vg_populate_allow cf); onK (vg_populate_local cf)) (c, w) = Some (u, s') →
  s'.1 = c ∧ applied cf s'.2.
Proof.
  intros Hc Hports E. destruct (ok_local _ Hc) as [_ Hl], (ok_allow _ Hc) as [_ Ha].
  destruct (populate_pair_spec allow_v4 allow_v6 eq_refl eq_refl _ w Ha) as ([] & w1 & E1 & Hs1 & H1).
  destruct (populate_pair_spec local_v4 local_v6 eq_refl eq_refl _ w1 Hl) as ([] & w2 & E2 & Hs2 & H2).
  assert (onK (vg_populate_allow cf) (c, w) = Some (tt, (c, w1))) as E1'
    by (unfold onK, liftK, vg_populate_allow; cbn [fst snd]; by rewrite E1).
  rewrite (mbind_step _ _ _ _ _ E1') in E. unfold onK, liftK, vg_populate_local in E. cbn [fst snd] in E.
  rewrite E2 in E. injection E as <- <-. split; [done|]. cbn [snd].
  pose proof (grows_populate local_v4 local_v6 (local_cidr cf) w1 tt w2 E2) as Hp2. split_and!.
  - destruct Hs1 as [_ X1], Hs2 as [_ X2]. by rewrite X2, X1.
  - done.
  - eapply nets_hold_same; [apply Hs2; done..|exact Hp2|done].
Qed.

(** Without a file, or with one that does not load, everything stays as it
    was: the controller and the maps. *)
Lemma reload_refused c w z c' w' :
  vg_ctrl_reload (c, w) = Some (z, (c', w')) →
  cfg_path c = [] ∨ vg_config_load (read_config (cfg_path c) w).1 = None →
  z = -1 ∧ c' = c ∧ same_maps w w'.
Proof.
  intros E Hn. unfold vg_ctrl_reload in E. apply mbind_inv in E as (c0 & s0 & [-> ->]%getc_inv & E).
  unfold id in E. case_bool_decide as Hp; [by injection E as <- <- <-|].
  destruct Hn as [Hn|Hn]; [done|].
  apply mbind_inv in E as (file & s1 & E1 & E). unfold onK, liftK, call in E1. cbn [fst snd] in E1.
  pose proof (read_config_same (cfg_path c) w) as Hs.
  destruct (read_config (cfg_path c) w) as [fl w1]. injection E1 as <- <-. cbn [fst snd] in *.
  rewrite Hn in E. by injection E as <- <- <-.
Qed.

(** The addresses of the interfaces are read with the controller unchanged. *)
Lemma reload_ifaddrs (n1 : vg_config) c w1 ifa c2 w2 :
  (if auto_local n1 then onK (call getifaddrs) else mret None) (c, w1) = Some (ifa, (c2, w2)) →
  Inv c w1 → c2 = c ∧ Inv c w2.
Proof.
  intros E2 HI1. destruct (auto_local n1); [|unfold mret, M_ret in E2; by simplify_eq].
  unfold onK, liftK, call in E2. cbn [fst snd] in E2.
  pose proof (getifaddrs_same w1) as Hs. destruct (getifaddrs w1) as [x w2']. injection E2 as _ <- <-.
  split; [done|]. by eapply Inv_same.
Qed.

(** Pruning keeps the configuration installed before it and the state. *)
Lemma reload_pruned c w n2 k c4 w4 :
  Inv c w → vg_ctrl_prune_protected (set_cfg c n2, w) = Some (k, (c4, w4)) →
  cfg c4 = n2 ∧ state c4 = state c.
Proof.
  intros (l & f & Hi & _) E4.
  assert (inv (set_cfg c n2) w l f) as Hi' by (eapply inv_ext; try done; apply Hi).
  pose proof (prune_protected_spec (set_cfg c n2) w l f Hi') as Hw.
  eapply wp_det in Hw; [|exact E4]. destruct Hw as (_ & _ & _ & (Hcf & _ & Hst) & _).
  by split.
Qed.

(** C29: [vg_ctrl_reload] always returns and keeps the invariant.  A file
    that does not load is an error and changes nothing, neither the
    controller nor any map of the kernel.  On success the
    controller runs the loaded configuration, with the fields a reload
    cannot change carried over and the local networks of the interface filled
    in, the kernel holds its ports, and its local and allowed tries hold
    exactly its networks, up to entries whose delete or update the kernel
    has failed. *)
Theorem reload_applies c w :
  defaults_parse → Good c w →
  ∃ z c' w', vg_ctrl_reload (c, w) = Some (z, (c', w')) ∧ Good c' w'
    ∧ (cfg_path c = [] ∨ vg_config_load (read_config (cfg_path c) w).1 = None →
       z = -1 ∧ c' = c ∧ same_maps w w')
    ∧ (z = 0 → ∃ n ifa, vg_config_load (read_config (cfg_path c) w).1 = Some n
         ∧ vg_config_auto_local (reload_merge (cfg c) n (iface_override c)) ifa = Some (cfg c')
         ∧ state c' = state c ∧ applied (cfg c') w').
Proof.
  intros Hdef HG. destruct (reload_stable Hdef c w HG) as (z & [c' w'] & E & HG').
  exists z, c', w'. split_and!; [done|done| |].
  - by eapply reload_refused.
  - intros ->. unfold vg_ctrl_reload in E. apply mbind_inv in E as (c0 & s0 & [-> ->]%getc_inv & E).
    unfold id in E.
    case_bool_decide; [done|].
    apply mbind_inv in E as (file & s1 & E1 & E). unfold onK, liftK, call in E1. cbn [fst snd id] in E1.
    destruct (read_config (cfg_path c) w) as [fl w1] eqn:Er. injection E1 as <- <-. cbn [fst snd id] in *.
    assert (Inv c w1) as HI1.
    { eapply Inv_same; [apply HG|]. pose proof (read_config_same (cfg_path c) w) as H1. by rewrite Er in H1. }
    destruct (vg_config_load fl) as [n|] eqn:El; [|done].
    set (n1 := reload_merge _ _ _) in *.
    apply mbind_inv in E as (ifa & [c2 w2] & E2 & E).
    destruct (reload_ifaddrs _ _ _ _ _ _ E2 HI1) as [-> HI2].
    destruct (vg_config_auto_local n1 ifa) as [n2|] eqn:Ea; [|done].
    apply mbind_inv in E as ([] & s3 & ->%modc_inv & E). cbn [fst snd] in E.
    apply mbind_inv in E as (k & [c4 w4] & E4 & E).
    destruct (reload_pruned _ _ _ _ _ _ HI2 E4) as [Hcf Hst].
    apply mbind_inv in E as (st & s5 & [-> ->]%getc_inv & E). cbn [fst snd] in E.
    apply mbind_inv in E as (e & [c6 w6] & E6 & E).
    unfold onK, liftK, vg_cfg_commit, call in E6. cbn [fst snd] in E6.
    destruct (bpf_cfg_update _ w4) as [e' w6'] eqn:Eb. injection E6 as -> <- <-.
    destruct (e =? 0) eqn:Ee; cbn [negb] in E; [|done]. apply Z.eqb_eq in Ee as ->.
    apply mbind_inv in E as (u7 & s7 & E7 & E). apply mbind_inv in E as (u8 & s8 & E8 & E).
    injection E as ->. exists n, ifa. split; [done|].
    assert (cfg_ok n2) as Hn2.
    { destruct HG' as [_ Hc']. destruct s7 as [c7 w7]. apply onK_ctrl in E7, E8. cbn [fst] in *.
      by rewrite E8, E7, Hcf in Hc'. }
    destruct (populate_applied n2 c4 w6' (c', w') u8 Hn2) as [Hc' Hap].
    + eexists. split; [by eapply cfg_update_ok|]. intros. by apply bpf_cfg_ports.
    + by rewrite (mbind_step _ _ _ _ _ E7).
    + cbn [fst snd] in *. subst c'. rewrite Hcf. by split_and!.
Qed.
End Main.
