(* ===== verification/Http.v ===== *)
(** * http.c: the metrics endpoint

    One request and its response.  The text of the page, the response
    header and the two buffers they are printed to are those of the source;
    the theorem shows that neither buffer cuts anything off. *)

From Stdlib Require Import String SpecFloat.
From S2P Require Import Prelude Types CString Ipaddr Config Kernel Maps Lists DropTable Snap.
From S2P Require Import Double Policy Ctl MapsThms.
Open Scope Z_scope.

Definition http_req_size : Z := 512.
Definition http_body_size : Z := 4096.
Definition http_resp_size : Z := 4608.

(** A line of a string literal of the source. *)
Definition line (s : string) : list Z := bs s ++ [10].

(** What [format_prometheus] prints. *)
Definition prometheus_text (c : vg_ctrl) (m : vg_metrics) : list Z :=
  line "# TYPE voidgate_armed gauge"
  ++ bs "voidgate_armed " ++ dec_signed (if bool_decide (state c = VG_ACTIVE) then 1 else 0) ++ [10]
  ++ line "# TYPE voidgate_rx_packets_total counter"
  ++ bs "voidgate_rx_packets_total " ++ dec (rx_pkts m) ++ [10]
  ++ line "# TYPE voidgate_rx_bytes_total counter"
  ++ bs "voidgate_rx_bytes_total " ++ dec (rx_bytes m) ++ [10]
  ++ line "# TYPE voidgate_dropped_packets_total counter"
  ++ bs "voidgate_dropped_packets_total " ++ dec (dropped m) ++ [10]
  ++ line "# TYPE voidgate_map_full_total counter"
  ++ bs "voidgate_map_full_total " ++ dec (map_full m) ++ [10]
  ++ line "# TYPE voidgate_drop_prefixes gauge"
  ++ bs "voidgate_drop_prefixes " ++ dec_signed (drop_count (drops c)) ++ [10]
  ++ line "# TYPE voidgate_rx_pps gauge"
  ++ bs "voidgate_rx_pps " ++ fmt_f0 (rx_pps c) ++ [10].

Definition format_prometheus (c : vg_ctrl) (m : vg_metrics) (buflen : Z) : list Z :=
  snprintf buflen (prometheus_text c m).

Definition crlf : list Z := [13; 10].

Definition not_found : list Z :=
  bs "HTTP/1.1 404 Not Found" ++ crlf
  ++ bs "Content-Length: 0" ++ crlf ++ bs "Connection: close" ++ crlf ++ crlf.

(** The header of the page, for a body of [len] bytes. *)
Definition ok_header (len : Z) : list Z :=
  bs "HTTP/1.1 200 OK" ++ crlf ++ bs "Content-Type: text/plain; version=0.0.4" ++ crlf
  ++ bs "Content-Length: " ++ dec len ++ crlf ++ bs "Connection: close" ++ crlf ++ crlf.

(** [strncmp(req, "GET ", 4) == 0 && strstr(req, "/metrics") != NULL] on the
    string a buffer holds. *)
Definition wants_metrics (req : list Z) : bool :=
  let s := cstr req in
  bool_decide (take 4 s = bs "GET ") && strstr (bs "/metrics") s.

Definition zero_metrics : vg_metrics := Metrics 0 0 0 0 0 0 0.

(** What [write] sends, from what it returns. *)
Definition written (n : Z) (buf : list Z) : list Z := take (Z.to_nat n) buf.

Section Http.
Context {K : Type} `{!Kernel K}.

Abbreviation P A := (M (vg_ctrl * K) A).

(** [evs]: what the one [read] returns; [wr]: the result of the [write]. *)
Definition vg_http_handle (evs : list rd_event) (wr : Z) : P (list Z) :=
  match evs with
  | RData ((_ :: _) as req) :: _ =>
      if negb (wants_metrics req) then mret (written wr not_found)
      else
        c ← getc id;
        r ← onK (vg_metrics_read (maps c));
        let m := default zero_metrics r in
        let body := format_prometheus c m http_body_size in
        mret (written wr (snprintf http_resp_size
                            (ok_header (Z.of_nat (List.length body)) ++ body)))
  | _ => mret []
  end.
End Http.

(** ** Buffers *)

Definition is_u64 (x : Z) : Prop := 0 ≤ x < 2 ^ 64.

Lemma sum_loop_u64 n cpu buf words dst :
  Forall is_u64 dst → Forall is_u64 (sum_loop n cpu buf words dst).
Proof.
  revert cpu dst. induction n as [|n IH]; intros cpu dst Hd; [done|]. cbn [sum_loop]. apply IH.
  unfold add_words. eapply Forall_zip_with_fst; [exact Hd|]. apply Forall_true.
  intros. unfold is_u64, u64. by apply Z.mod_pos_bound.
Qed.

Lemma zero_u64 : is_u64 0.
Proof. by split. Qed.

Definition metrics_u64 (m : vg_metrics) : Prop :=
  is_u64 (rx_pkts m) ∧ is_u64 (rx_bytes m) ∧ is_u64 (dropped m) ∧ is_u64 (map_full m).

Lemma metrics_read_u64 {K} `{!Kernel K} mp (w : K) :
  ∃ r w', vg_metrics_read mp w = Some (r, w') ∧ metrics_u64 (default zero_metrics r).
Proof.
  unfold vg_metrics_read, vg_sum_percpu, mbind, M_bind. split_if.
  - eexists None, _. split; [done|]. split_and!; apply zero_u64.
  - unfold call. destruct (bpf_metrics_read w) as [[buf|] w']; [|eexists None, _; split; [done|]; split_and!; apply zero_u64].
    cbn. eexists (Some _), _. split; [done|]. cbn [default].
    set (l := sum_loop _ _ _ _ _). assert (Forall is_u64 l) as Hl.
    { apply sum_loop_u64, Forall_replicate, zero_u64. }
    assert (∀ i, is_u64 (default 0 (l !! i))) as Hd.
    { intros i. destruct (l !! i) eqn:E; [|apply zero_u64]. by eapply Forall_lookup_1 in Hl. }
    unfold metrics_u64. cbn [rx_pkts rx_bytes dropped map_full]. split_and!; apply Hd.
Qed.

Lemma u64_dec_length x : is_u64 x → (List.length (dec x) ≤ 20)%nat.
Proof.
  intros [H0 H1]. apply dec_length; [|lia]. split; [done|]. eapply Z.lt_trans; [exact H1|]. by vm_compute.
Qed.

(** The page fits the buffer it is printed to. *)
Lemma prometheus_length c m :
  metrics_u64 m → valid_binary 53 1024 (rx_pps c) = true → - 2 ^ 31 ≤ drop_count (drops c) < 2 ^ 31 →
  (List.length (prometheus_text c m) ≤ 1200)%nat.
Proof.
  intros (H1 & H2 & H3 & H4) Hv Hc.
  apply u64_dec_length in H1, H2, H3, H4. apply fmt_f0_length in Hv.
  assert (List.length (dec_signed (drop_count (drops c))) ≤ 11)%nat.
  { apply dec_signed_length; [|lia]. change (10 ^ Z.of_nat 10) with 10000000000. lia. }
  assert (List.length (dec_signed (if bool_decide (state c = VG_ACTIVE) then 1 else 0)) ≤ 2)%nat.
  { apply dec_signed_length; [|lia]. split_if; by vm_compute. }
  unfold prometheus_text, line. rewrite !length_app. cbn [bs List.length]. lia.
Qed.

Lemma ok_header_length len : 0 ≤ len < 10000 → (List.length (ok_header len) ≤ 200)%nat.
Proof.
  intros. assert (List.length (dec len) ≤ 4)%nat by (apply dec_length; [|lia]; by change (10 ^ _) with 10000).
  unfold ok_header, crlf. rewrite !length_app. cbn [bs List.length]. lia.
Qed.

(** A request for the page: [GET ] first and [/metrics] somewhere, before
    any NUL. *)
Definition scrape (req : list Z) : Prop :=
  (∃ r, cstr req = bs "GET " ++ r) ∧ ∃ a b, cstr req = a ++ bs "/metrics" ++ b.

Lemma wants_metrics_spec req : wants_metrics req = true ↔ scrape req.
Proof.
  unfold wants_metrics, scrape. rewrite andb_true_iff, bool_decide_eq_true, strstr_spec.
  assert (take 4 (cstr req) = bs "GET " ↔ ∃ r, cstr req = bs "GET " ++ r) as ->; [|done].
  split; [|by intros [r ->]]. intros H. exists (drop 4 (cstr req)). by rewrite <-H, take_drop.
Qed.

(** What the first [read] yields. *)
Definition first_read (evs : list rd_event) : list Z :=
  match evs with RData req :: _ => req | _ => [] end.

Section HttpThms.
Context {K : Type} `{!Kernel K}.
Implicit Types (c : vg_ctrl) (w : K).

Lemma http_ok_bytes evs wr c w :
  first_read evs ≠ [] → wants_metrics (first_read evs) = true →
  valid_binary 53 1024 (rx_pps c) = true → - 2 ^ 31 ≤ drop_count (drops c) < 2 ^ 31 →
  ∃ m w', vg_metrics_read (maps c) w = Some (m, w') ∧
    let body := prometheus_text c (default zero_metrics m) in
    vg_http_handle evs wr (c, w)
    = Some (written wr (ok_header (Z.of_nat (List.length body)) ++ body), (c, w')).
Proof.
  intros Hne Hw Hv Hc. destruct (metrics_read_u64 (maps c) w) as (r & w' & E & Hm).
  exists r, w'. split; [done|]. cbv zeta.
  pose proof (prometheus_length c _ Hm Hv Hc) as Hl.
  destruct evs as [|[| |[|x req]] evs]; try done. cbn [first_read] in Hw. unfold vg_http_handle.
  rewrite Hw. cbn [negb]. unfold mbind, M_bind, getc, gets, onK, liftK. cbn [fst snd id]. rewrite E.
  unfold mret, M_ret. do 3 f_equal. unfold format_prometheus.
  rewrite (snprintf_fits http_body_size) by (unfold http_body_size; lia).
  rewrite snprintf_fits; [done|]. rewrite length_app.
  pose proof (ok_header_length (Z.of_nat (List.length (prometheus_text c (default zero_metrics r))))).
  unfold http_resp_size. lia.
Qed.

(** C35: a request on the metrics port that is a [GET] naming [/metrics]
    is answered with the whole page, uncut by the two buffers, under a header
    whose [Content-Length] is the length of the page; any other request with
    the 404, a connection without data with nothing.  The answer is offered
    to a single [write]; what that does not take is not sent.  The controller
    is not changed, and when the counters cannot be read the page shows
    zeros.  (The page prints a valid binary64 rate and a [drop_count] that is
    an [int].) *)
Theorem http_response evs wr c w :
  valid_binary 53 1024 (rx_pps c) = true → - 2 ^ 31 ≤ drop_count (drops c) < 2 ^ 31 →
  ∃ out w', vg_http_handle evs wr (c, w) = Some (out, (c, w')) ∧
    (first_read evs = [] ∧ out = [] ∧ w' = w
     ∨ first_read evs ≠ [] ∧ ¬ scrape (first_read evs) ∧ out = written wr not_found ∧ w' = w
     ∨ first_read evs ≠ [] ∧ scrape (first_read evs) ∧
       ∃ m, vg_metrics_read (maps c) w = Some (m, w') ∧
         let body := prometheus_text c (default zero_metrics m) in
         let resp := ok_header (Z.of_nat (List.length body)) ++ body in
         out = written wr resp ∧ (Z.of_nat (List.length resp) ≤ wr → out = resp)).
Proof.
  intros Hv Hc. destruct (decide (first_read evs = [])) as [E|Hne].
  { exists [], w. split; [|by left]. by destruct evs as [|[| |[|x req]] evs]. }
  destruct (wants_metrics (first_read evs)) eqn:Hw.
  - destruct (http_ok_bytes evs wr c w) as (m & w' & Em & Eh); [done..|].
    eexists _, w'. split; [exact Eh|]. right. right. apply wants_metrics_spec in Hw.
    split_and!; [done..|]. exists m. split; [done|]. cbv zeta. split; [done|].
    intros Hwr. unfold written. rewrite take_ge; [done|]. lia.
  - exists (written wr not_found), w. split.
    + destruct evs as [|[| |[|x req]] evs]; try done. cbn [first_read] in Hw. unfold vg_http_handle.
      by rewrite Hw.
    + right. left. rewrite <-wants_metrics_spec, Hw. by split_and!.
Qed.
End HttpThms.
