(* ===== verification/Client.v ===== *)
(** * voidgatectl.c: the command line client

    The command line it sends, what it prints and its exit status.  The
    theorems put it together with the server of [Ctl]: what the server reads
    is the command the user gave, and the exit status tells whether it was
    carried out. *)

From Stdlib Require Import String.
From S2P Require Import Prelude Types CString Ipaddr IpaddrThms Config Kernel Maps MapsThms.
From S2P Require Import ConfigThms Lists DropTable DropThms Snap SnapThms Double Policy.
From S2P Require Import PolicyThms SweepThms TickThms Ctl CtlThms CtlMain.
Open Scope Z_scope.

Definition cmd_size : Z := 256.

(** [strncat(cmd, src, sizeof(cmd) - strlen(cmd) - 1)] *)
Definition strncat (cmd src : list Z) : list Z :=
  cmd ++ take (Z.to_nat (cmd_size - Z.of_nat (List.length cmd) - 1)) src.

(** The [for] over [argv[i]], [i] from 1 on. *)
Fixpoint cmd_loop (argv : list (list Z)) (first : bool) (cmd : list Z) : list Z :=
  match argv with
  | [] => cmd
  | arg :: argv =>
      let cmd := if (first : bool) then cmd else strncat cmd [32] in
      cmd_loop argv false (strncat cmd arg)
  end.

Definition client_cmd (argv : list (list Z)) : list Z := strncat (cmd_loop argv true []) [10].

(** The [while] over [read]: the flags and the text printed; any error ends
    it. *)
Fixpoint reply_loop (evs : list rd_event) (failed replied : bool) (out : list Z)
  : bool * bool * list Z :=
  match evs with
  | RData ((_ :: _) as buf) :: evs =>
      let failed := failed || (negb replied && bool_decide (take 5 (cstr buf) = bs "error")) in
      reply_loop evs failed true (out ++ cstr buf)
  | _ => (failed, replied, out)
  end.

Record client_run := ClientRun { exit_status : Z; sent : list Z; printed : list Z }.

(** [argv] without the program name; whether [socket] and [connect] succeed;
    what [write] returns and what the reads return. *)
Definition client_main (argv : list (list Z)) (sock conn : bool) (wr : Z) (evs : list rd_event)
  : client_run :=
  match argv with
  | [] => ClientRun 1 [] []
  | _ =>
      let cmd := client_cmd argv in
      if negb sock then ClientRun 1 [] []
      else if negb conn then ClientRun 1 [] []
      else if wr <? 0 then ClientRun 1 [] []
      else
        let '(failed, replied, out) := reply_loop evs false false [] in
        ClientRun (if failed || negb replied then 1 else 0) (take (Z.to_nat wr) cmd) out
  end.

(** ** The command *)

(** The words with a space between. *)
Definition join (argv : list (list Z)) : list Z :=
  match argv with
  | [] => []
  | a :: argv => a ++ concat ((λ w, 32 :: w) <$> argv)
  end.

Lemma strncat_take cmd s t : cmd = take 255 s → strncat cmd t = take 255 (s ++ t).
Proof.
  intros ->. unfold strncat, cmd_size. rewrite take_app, length_take. do 2 f_equal.
  destruct (decide (255 ≤ List.length s)%nat); lia.
Qed.

Lemma cmd_loop_spec argv cmd s :
  cmd = take 255 s → cmd_loop argv false cmd = take 255 (s ++ concat ((λ w, 32 :: w) <$> argv)).
Proof.
  revert cmd s. induction argv as [|a argv IH]; intros cmd s E; cbn [cmd_loop fmap list_fmap concat].
  { by rewrite app_nil_r. }
  rewrite (IH _ ((s ++ [32]) ++ a)) by (by apply strncat_take, strncat_take).
  f_equal. by rewrite <-!app_assoc.
Qed.

(** The buffer holds the first 255 bytes of the command line. *)
Lemma client_cmd_spec argv : client_cmd argv = take 255 (join argv ++ [10]).
Proof.
  apply strncat_take. destruct argv as [|a argv]; [done|]. cbn [cmd_loop join].
  apply cmd_loop_spec. by apply (strncat_take [] []).
Qed.

Definition words_ok (argv : list (list Z)) : Prop := argv ≠ [] ∧ (10 ∉ join argv) ∧ (0 ∉ join argv).

Lemma request_of_line s :
  10 ∉ s → 0 ∉ s →
  request_of (take 255 (s ++ [10])) = if (List.length s <=? 254)%nat then Command s else TooLong.
Proof.
  intros H10 H0. destruct (List.length s <=? 254)%nat eqn:El; [apply Nat.leb_le in El|apply Nat.leb_gt in El].
  - rewrite take_ge by (rewrite length_app; simpl; lia). unfold request_of.
    rewrite take_ge by (rewrite length_app; simpl; lia). rewrite strchr_app by done.
    rewrite (proj2 (has_byte_false 0 s)) by done. by destruct s.
  - rewrite take_app_le by lia. unfold request_of. rewrite take_take, Nat.min_id.
    assert ((10 ∉ take 255 s) ∧ (0 ∉ take 255 s)) as [T10 T0].
    { split; intros (i & Hi & _)%elem_of_take; apply list_elem_of_lookup_2 in Hi; contradiction. }
    rewrite (proj2 (strchr_None _ _) T10), (proj2 (has_byte_false _ _) T0), length_take.
    replace (255 <=? 255 `min` List.length s)%nat with true by (symmetry; apply Nat.leb_le; lia).
    destruct s; [simpl in El; lia|done].
Qed.

(** ** The exit status *)

(** The reads of a reply: the first one yields its first five bytes at
    least, or all of it. *)
Definition replies_ok (evs : list rd_event) (r : list Z) : Prop :=
  Forall (λ e, match e with RData (_ :: _) => True | _ => False end) evs ∧ stream evs = r
  ∧ match evs with RData chunk :: _ => (5 `min` List.length r ≤ List.length chunk)%nat | _ => True end.

Lemma reply_loop_replied evs failed out :
  ∃ o, reply_loop evs failed true out = (failed, true, o).
Proof.
  revert out. induction evs as [|[| |[|x buf]] evs IH]; intros out; cbn [reply_loop]; try by eexists.
  cbn [negb andb]. rewrite orb_false_r. apply IH.
Qed.

Lemma client_exit argv wr evs r :
  argv ≠ [] → 0 ≤ wr → (0 ∉ r) → replies_ok evs r →
  exit_status (client_main argv true true wr evs)
  = if bool_decide (r = [] ∨ is_error r) then 1 else 0.
Proof.
  intros Ha Hw H0 (Hf & <- & Hc). destruct argv as [|a argv]; [done|]. unfold client_main.
  cbn [negb]. rewrite (proj2 (Z.ltb_ge wr 0)) by done.
  destruct evs as [|[| |[|x buf]] evs]; try (apply Forall_cons in Hf; tauto); [done|].
  cbn [reply_loop stream orb negb andb] in *.
  set (b := x :: buf) in *. assert (0 ∉ b) as Hb by (intros ?; apply H0, elem_of_app; by left).
  rewrite cstr_no_nul by done. cbn [app].
  destruct (reply_loop_replied evs (bool_decide (take 5 b = bs "error")) b) as [o ->].
  rewrite orb_false_r. unfold is_error.
  assert (take 5 (b ++ stream evs) = bs "error" ↔ take 5 b = bs "error") as Heq.
  { destruct (decide (5 ≤ List.length b)%nat) as [Hl|Hl]; [by rewrite take_app_le|].
    rewrite length_app in Hc. destruct (stream evs); [by rewrite app_nil_r|].
    cbn [List.length] in Hc. lia. }
  assert (b ++ stream evs ≠ []) as Hne by done. cbn [exit_status].
  rewrite (bool_decide_ext (b ++ stream evs = [] ∨ _) (take 5 b = bs "error")) by (clear Hb; tauto).
  done.
Qed.

(** A first read shorter than "error" is taken for a success. *)
Lemma client_exit_short argv wr chunk evs :
  argv ≠ [] → 0 ≤ wr → (0 ∉ chunk) → chunk ≠ [] → (List.length chunk < 5)%nat →
  exit_status (client_main argv true true wr (RData chunk :: evs)) = 0.
Proof.
  intros Ha Hw H0 Hc Hl. destruct argv as [|a argv]; [done|]. destruct chunk as [|x buf]; [done|].
  unfold client_main. cbn [negb]. rewrite (proj2 (Z.ltb_ge wr 0)) by done. cbn [reply_loop orb negb andb].
  set (b := x :: buf) in *. rewrite cstr_no_nul by done. cbn [app].
  destruct (reply_loop_replied evs (bool_decide (take 5 b = bs "error")) b) as [o ->].
  rewrite bool_decide_eq_false_2; [done|]. intros E%(f_equal List.length).
  rewrite length_take in E. change (List.length (bs "error")) with 5%nat in E. lia.
Qed.

(** C32: the server executes what the user typed or nothing: however the
    stream is cut into reads, it sees the words joined by single spaces when
    they fit, and otherwise refuses the command as too long; a truncated
    command is never executed. *)
Theorem client_request argv evs :
  words_ok argv → reads_ok evs 0 → stream evs = client_cmd argv →
  recv evs [] = if (List.length (join argv) <=? 254)%nat then Command (join argv) else TooLong.
Proof.
  intros (_ & H10 & H0) Hr Hs.
  rewrite recv_spec by (done || (by intros ?%elem_of_nil) || (simpl; lia)). cbn [app].
  rewrite Hs, client_cmd_spec. by apply request_of_line.
Qed.

(** [send] without errors: what it takes is some of what was offered. *)
Fixpoint sends_ok (sends : list wr_event) (len : nat) : Prop :=
  match sends with
  | [] => len = 0%nat
  | WEintr :: sends => sends_ok sends len
  | WErr :: _ => len = 0%nat
  | WSent n :: sends => len = 0%nat ∨ 1 ≤ n ≤ Z.of_nat len ∧ sends_ok sends (len - Z.to_nat n)
  end.

Lemma send_loop_all sends r : sends_ok sends (List.length r) → send_loop sends r = r.
Proof.
  revert r. induction sends as [|[| |n] sends IH]; intros [|x r] H; try done; cbn [sends_ok] in H.
  - by apply IH.
  - destruct H as [?|[Hn H]]; [done|]. cbn [send_loop].
    rewrite (proj2 (Z.leb_gt n 0)) by lia. rewrite IH; [apply take_drop|]. by rewrite length_drop.
Qed.

Section EndToEnd.
Context {K : Type} `{!Kernel K} `{!KernelLaws K} `{!Env K} `{!EnvLaws K} {I : Inet} `{!InetLaws I}.
Implicit Types (w : K) (c : vg_ctrl).

(** C19: the status of [voidgatectl drop <cidr> ...] against a daemon, where
    the request arrives whole in whatever pieces and the first read of the
    reply yields five bytes at least, or all of it.  Status 0: the prefix is
    listed and has its map entry, and nothing else changed in the list.
    Status 1: the listed prefixes are what they were (the prefix may be among
    them: setting its map entry again can fail).  Where the first read of the
    reply is shorter than five bytes the status is 0 whatever the daemon
    answered. *)
Theorem client_drop_status args evs c w l :
  Inv c w → drop_all_walk (drops c) = Some l →
  words_ok (bs "drop" :: args) → args ≠ [] → (List.length (join (bs "drop" :: args)) ≤ 254)%nat →
  reads_ok evs 0 → stream evs = client_cmd (bs "drop" :: args) →
  ∃ r c' w' l', Inv c' w' ∧ drop_all_walk (drops c') = Some l'
    ∧ dispatch (join (bs "drop" :: args)) (c, w) = Some (r, (c', w'))
    ∧ (∀ sends, sends_ok sends (List.length r) →
         vg_ctl_server_handle evs sends (c, w) = Some (r, (c', w')))
    ∧ (∀ revs wr, replies_ok revs r → 0 ≤ wr →
        exit_status (client_main (bs "drop" :: args) true true wr revs) = 0
        ∧ (∃ p, vg_parse_cidr_len (cidr_word (join args)) = Some p ∧ in_map w' p
             ∧ ∀ q, q ∈ cidrs c' l' ↔ q ∈ cidrs c l ∨ q = p)
        ∨ exit_status (client_main (bs "drop" :: args) true true wr revs) = 1
          ∧ is_error r ∧ cidrs c' l' = cidrs c l)
    ∧ ∀ chunk revs wr, stream (RData chunk :: revs) = r → 0 ≤ wr → chunk ≠ [] →
        (List.length chunk < 5)%nat →
        exit_status (client_main (bs "drop" :: args) true true wr (RData chunk :: revs)) = 0.
Proof.
  intros HI Hl (_ & H10 & H0) Hargs Hlen Hr Hs.
  assert (join (bs "drop" :: args) = bs "drop " ++ join args) as Ej.
  { destruct args as [|a args]; [done|]. reflexivity. }
  destruct (drop_reply_spec (join args) c w l HI Hl) as (r & c' & w' & l' & E & HI' & Hl' & Hnul & Hc).
  exists r, c', w', l'. split; [done|]. split; [done|]. split; [by rewrite Ej|]. split; [|split].
  - intros sends Hsend. unfold vg_ctl_server_handle.
    rewrite recv_spec by (done || (by intros ?%elem_of_nil) || (simpl; lia)). cbn [app].
    rewrite Hs, client_cmd_spec, request_of_line by done.
    rewrite (proj2 (Nat.leb_le _ _)) by done. rewrite Ej, (mbind_step _ _ _ _ _ E).
    by rewrite send_loop_all.
  - intros revs wr Hrev Hwr. rewrite (client_exit _ _ _ r) by done.
    destruct Hc as [[-> Hp]|[He Hc]]; [left; by split|right]. split; [|by split].
    by rewrite bool_decide_eq_true_2 by (by right).
  - intros chunk revs wr Hst Hwr Hne Hsh. apply client_exit_short; try done.
    intros Hin. apply Hnul. rewrite <-Hst. cbn [stream]. apply elem_of_app. by left.
Qed.
End EndToEnd.
