(* ===== verification/Os.v ===== *)
(** * The operating system seen from the daemon

    System calls and libbpf calls are not part of the repository: a call is
    a request, the answer comes from the class [Os].  The descriptor table of
    the process, the [flock] it holds and the log of its calls are state of
    the model: descriptors are given out as POSIX says, the lowest free one,
    and closing (or [dup2] over) the locked descriptor gives up the lock.
    A BPF object that libbpf loads keeps descriptors of its own (one per map
    and one for the program; how many is libbpf's affair, the answer of
    [SkelLoad] carries them), which go when the object is destroyed.
    A computation ends the process, or is cut off at the number of loop turns
    it was given, or returns. *)

From S2P Require Import Prelude Types CString Ipaddr Config Kernel Maps Lists DropTable Snap.
From S2P Require Import Double Policy Ctl.
Open Scope Z_scope.

Inductive open_mode := O_READ | O_CREATE_RDWR | O_CREATE_APPEND | O_RDWR.
Inductive lock_op := LOCK_EX | LOCK_SH.
Inductive sockaddr := SockUnix (path : list Z) | SockLoopback (port : Z).

(** A call and its arguments ([flock] is always [LOCK_NB]; [Stop] reads
    [g_stop], which the signal handler sets). *)
Inductive sysreq :=
  | Open (path : list Z) (mode : open_mode) | Close (fd : Z) | Flock (fd : Z) (op : lock_op)
  | Read (fd n : Z) | Pread (fd n : Z) | Write (fd : Z) (buf : list Z)
  | Pwrite (fd : Z) (buf : list Z) | Ftruncate (fd : Z) | Unlink (path : list Z)
  | Dup2 (fd fd2 : Z) | Pipe | Fork | Setsid | Getpid | Kill (pid sig : Z) | Nanosleep
  | Sigaction (sig : Z) | Stop
  | Socket | SocketInet | Connect (fd : Z) (a : sockaddr) | Bind (fd : Z) (a : sockaddr)
  | Listen (fd n : Z) | Accept (fd : Z) | SetTimeouts (fd : Z) | Reuseaddr (fd : Z)
  | Poll (fds : list Z) (ms : Z) | Chmod (path : list Z) | Getgrnam (name : list Z)
  | Chown (path : list Z) (gid : Z)
  | IfNametoindex (name : list Z) | Setrlimit | NumCpus | Calloc (n : Z) | AllocDrops | AllocSnaps
  | SkelOpen | SetMaxEntries (name : list Z) (n : Z) | SkelLoad | SkelDestroy | ProgFd
  | XdpAttach (ifindex flags : Z) | XdpDetach (ifindex flags : Z).

(** The result, [- errno] for a failure, and the data of a read (of [poll],
    the [revents] of each descriptor; of [SkelLoad], an entry for each
    descriptor libbpf opened and keeps). *)
Record sysans := Ans { rc : Z; out : list Z }.

Class Os (K : Type) := {
  sys : sysreq → K → sysans * K;
  (* what the reads and the sends on an accepted connection return *)
  conn_io : K → (list rd_event * list wr_event) * K;
}.

Definition EINTR : Z := 4.
Definition ESRCH : Z := 3.
Definition EWOULDBLOCK : Z := 11.

(** A call in the log, and whether the lock was held when it was made. *)
Record event := Ev { e_req : sysreq; e_ans : sysans; e_held : bool }.

(** The process: open descriptors, the one whose file it holds locked, its
    calls, the last one first, and its live BPF objects, each with the
    descriptors libbpf holds for it. *)
Record proc := Proc { fds : list Z; held : option Z; log : list event; objs : list (list Z) }.

(** The lowest descriptor that is not open. *)
Definition new_fd (l : list Z) : Z :=
  match list_find (λ n, Z.of_nat n ∉ l) (seq 0 (S (List.length l))) with
  | Some (_, n) => Z.of_nat n
  | None => 0
  end.

Definition add_fd (fd : Z) (p : proc) : proc := Proc (fd :: fds p) (held p) (log p) (objs p).

Definition lose_fd (fd : Z) (p : proc) : proc :=
  Proc (filter (λ x, x ≠ fd) (fds p)) (if bool_decide (held p = Some fd) then None else held p)
    (log p) (objs p).

Definition set_held (h : option Z) (p : proc) : proc := Proc (fds p) h (log p) (objs p).

Definition log_call (r : sysreq) (a : sysans) (p : proc) : proc :=
  Proc (fds p) (held p) (Ev r a (bool_decide (is_Some (held p))) :: log p) (objs p).

Definition set_objs (o : list (list Z)) (p : proc) : proc := Proc (fds p) (held p) (log p) o.

(** [n] new descriptors, one after the other. *)
Fixpoint new_fds (n : nat) (l : list Z) : list Z :=
  match n with
  | O => []
  | S n => let x := new_fd l in x :: new_fds n (x :: l)
  end.

(** The object opened last is loaded, with [n] descriptors. *)
Definition load_obj (n : nat) (p : proc) : proc :=
  match objs p with
  | [] => p
  | o :: os =>
      let l := new_fds n (fds p) in
      set_objs ((l ++ o) :: os) (foldr add_fd p l)
  end.

(** It is destroyed, and its descriptors with it. *)
Definition destroy_obj (p : proc) : proc :=
  match objs p with
  | [] => p
  | o :: os => set_objs os (foldr lose_fd p o)
  end.

(** The effect of an answered call on the process, and its result. *)
Definition proc_step (r : sysreq) (a : sysans) (p : proc) : sysans * proc :=
  let p := log_call r a p in
  match r with
  | Open _ _ | Socket | SocketInet | Accept _ =>
      if rc a <? 0 then (a, p) else (Ans (new_fd (fds p)) (out a), add_fd (new_fd (fds p)) p)
  | Pipe =>
      if rc a <? 0 then (a, p)
      else
        let x := new_fd (fds p) in
        let y := new_fd (x :: fds p) in
        (Ans (rc a) [x; y], add_fd y (add_fd x p))
  | Close fd => (a, lose_fd fd p)
  | Dup2 x y => if (rc a <? 0) || (x =? y) then (a, p) else (a, add_fd y (lose_fd y p))
  | Flock fd LOCK_EX => if rc a =? 0 then (a, set_held (Some fd) p) else (a, p)
  | SkelOpen => if rc a <? 0 then (a, p) else (a, set_objs ([] :: objs p) p)
  | SkelLoad => if rc a =? 0 then (a, load_obj (List.length (out a)) p) else (a, p)
  | SkelDestroy => (a, destroy_obj p)
  | _ => (a, p)
  end.

(** How a computation can stop early: [exit], or cut off after the loop
    turns it was given (with the controller, once there is one). *)
Inductive stop := Exit (status : Z) | Cut (c : option vg_ctrl).

Definition D (K A : Type) : Type := M (K * proc) (stop + A).

#[export] Instance D_ret K : MRet (D K) := λ A a s, Some (inr a, s).
#[export] Instance D_bind K : MBind (D K) := λ A B f m s,
  match m s with
  | Some (inr a, s') => f a s'
  | Some (inl z, s') => Some (inl z, s')
  | None => None
  end.

Section Os.
Context {K : Type} `{!Kernel K} `{!Env K} `{!Os K}.

Definition stop_now {A} (z : stop) : D K A := λ s, Some (inl z, s).

(** [vg_die]: the message goes to the log, the exit status is 1. *)
Definition vg_die {A} : D K A := stop_now (Exit 1).

Definition sysc (r : sysreq) : D K sysans := λ s,
  let '(a, w) := sys r s.1 in
  let '(a, p) := proc_step r a s.2 in
  Some (inr a, (w, p)).

(** A computation on the kernel, or on the controller and the kernel. *)
Definition onW {A} (m : M K A) : D K A := λ s,
  match m s.1 with Some (a, w) => Some (inr a, (w, s.2)) | None => None end.

Definition onC {A} (m : M (vg_ctrl * K) A) (c : vg_ctrl) : D K (A * vg_ctrl) := λ s,
  match m (c, s.1) with Some (a, (c, w)) => Some (inr (a, c), (w, s.2)) | None => None end.

(** Undefined behaviour unless the value is there. *)
Definition dlift {A} (o : option A) : D K A := λ s,
  match o with Some a => Some (inr a, s) | None => None end.
End Os.
