(* ===== verification/Setup.v ===== *)
(** * Setting up and tearing down: maps.c, ctl_server.c, http.c

    Loading the BPF object and attaching it, the listening sockets, and
    their release, as sequences of system calls. *)

From Stdlib Require Import String.
From S2P Require Import Prelude Types CString Ipaddr Config Kernel Maps Lists DropTable Snap.
From S2P Require Import Double Policy Ctl Os.
Open Scope Z_scope.

Definition VG_SOCK_PATH : list Z := bs "/run/voidgate.sock".
Definition XDP_FLAGS_SKB_MODE : Z := 2.
Definition XDP_FLAGS_DRV_MODE : Z := 4.

(** The fields of [struct vg_maps] besides those of [Maps.vg_maps]; [skel] is
    whether the pointer is not NULL. *)
Record vg_link := Link { ifindex : Z; skel : bool; attach_flags : Z; attached : bool }.

Section Setup.
Context {K : Type} `{!Kernel K} `{!Env K} `{!Os K}.

(** [bpf_map__set_max_entries] of both families, unless the size is 0. *)
Definition set_sizes (a b : list Z) (n : Z) : D K unit :=
  if n =? 0 then mret tt
  else _ ← sysc (SetMaxEntries a n); _ ← sysc (SetMaxEntries b n); mret tt.

(** A failure is only logged. *)
Definition bump_memlock : D K unit := _ ← sysc Setrlimit; mret tt.

Definition vg_maps_open (cfg : vg_config) : D K (vg_maps * vg_link) :=
  idx ← sysc (IfNametoindex (interface cfg));
  _ ← bump_memlock;
  n ← sysc NumCpus;
  let m := maps_open_sizes (rc n) in
  buf ← sysc (Calloc (sum_scratch_size m));
  if rc buf <? 0 then vg_die
  else
    sk ← sysc SkelOpen;
    if rc sk <? 0 then vg_die
    else
      _ ← set_sizes (bs "remote_v4") (bs "remote_v6") (remote_map_size cfg);
      _ ← set_sizes (bs "drop_v4") (bs "drop_v6") (drop_map_size cfg);
      err ← sysc SkelLoad;
      if negb (rc err =? 0) then _ ← sysc SkelDestroy; vg_die
      else mret (m, Link (rc idx) true 0 false).

Definition vg_xdp_detach (m : vg_link) : D K vg_link :=
  if negb (attached m) then mret m
  else
    _ ← sysc (XdpDetach (ifindex m) (attach_flags m));
    mret (Link (ifindex m) (skel m) (attach_flags m) false).

Definition vg_maps_close (m : vg_link) : D K vg_link :=
  m ← vg_xdp_detach m;
  if skel m then _ ← sysc SkelDestroy; mret (Link (ifindex m) false (attach_flags m) (attached m))
  else mret m.

(** The flags tried and the result of [bpf_xdp_attach]. *)
Definition attach_mode (m : vg_link) (mode : list Z) : D K (Z * Z) :=
  let try flags := e ← sysc (XdpAttach (ifindex m) flags); mret (flags, rc e) in
  if bool_decide (mode = bs "skb") then try XDP_FLAGS_SKB_MODE
  else if bool_decide (mode = bs "native") then try XDP_FLAGS_DRV_MODE
  else
    r ← try XDP_FLAGS_DRV_MODE;
    if negb (r.2 =? 0) then try XDP_FLAGS_SKB_MODE else mret r.

Definition vg_xdp_attach (m : vg_link) (cfg : vg_config) : D K (Z * vg_link) :=
  if negb (skel m) then mret (-1, m)
  else
    prog ← sysc ProgFd;
    if rc prog <? 0 then mret (-1, m)
    else
      r ← attach_mode m (xdp_mode cfg);
      if negb (r.2 =? 0) then mret (-1, m)
      else mret (0, Link (ifindex m) (skel m) r.1 true).

(** [struct sockaddr_un]: the path is cut to its 108 bytes. *)
Definition unix_addr (path : list Z) : sockaddr := SockUnix (snprintf 108 path).

Definition vg_ctl_server_alive (path : list Z) : D K bool :=
  fd ← sysc Socket;
  if rc fd <? 0 then mret false
  else
    e ← sysc (Connect (rc fd) (unix_addr path));
    _ ← sysc (Close (rc fd));
    mret (rc e =? 0).

Definition vg_ctl_server_listen (path group : list Z) : D K Z :=
  _ ← sysc (Unlink path);
  fd ← sysc Socket;
  if rc fd <? 0 then mret (-1)
  else
    e ← sysc (Bind (rc fd) (unix_addr path));
    if rc e <? 0 then _ ← sysc (Close (rc fd)); mret (-1)
    else
      _ ← sysc (Chmod path);
      _ ← (if bool_decide (group = []) then mret tt
           else
             gr ← sysc (Getgrnam group);
             if rc gr <? 0 then mret tt else _ ← sysc (Chown path (rc gr)); mret tt);
      e ← sysc (Listen (rc fd) 16);
      if rc e <? 0 then _ ← sysc (Close (rc fd)); mret (-1)
      else mret (rc fd).

Definition vg_http_listen (port : Z) : D K Z :=
  if port <=? 0 then mret (-1)
  else
    fd ← sysc SocketInet;
    if rc fd <? 0 then mret (-1)
    else
      _ ← sysc (Reuseaddr (rc fd));
      e ← sysc (Bind (rc fd) (SockLoopback (u16 port)));
      if rc e <? 0 then _ ← sysc (Close (rc fd)); mret (-1)
      else
        e ← sysc (Listen (rc fd) 8);
        if rc e <? 0 then _ ← sysc (Close (rc fd)); mret (-1)
        else mret (rc fd).
End Setup.
