(* ===== verification/Daemon.v ===== *)
(** * voidgate.c: the daemon

    The command line, the pid file, going to the background, the start
    sequence, the poll loop and the shutdown of [main], and [daemon_stop].
    The loop and the wait of the parent take the number of turns to run: a
    run cut off there is the state after that many turns. *)

From Stdlib Require Import String.
From S2P Require Import Prelude Types CString Ipaddr Config Kernel Maps Lists DropTable Snap.
From S2P Require Import Double Policy Ctl Http Os Setup.
Open Scope Z_scope.

Definition SIGINT : Z := 2.
Definition SIGTERM : Z := 15.
Definition SIGPIPE : Z := 13.
Definition STDIN_FILENO : Z := 0.
Definition STDOUT_FILENO : Z := 1.
Definition STDERR_FILENO : Z := 2.
Definition POLLIN : Z := 1.

(** ** The command line *)

Record options := Options {
  o_cfg : list Z; o_iface : option (list Z); o_verbose : Z; o_daemon : bool; o_stop : bool;
}.

Definition default_options : options := Options (bs "/etc/voidgate/voidgate.conf") None 0 false false.

(** The [while] over what [getopt] returns, each option with its argument;
    [None] is the usage message and status 1. *)
Fixpoint parse_options (opts : list (Z * list Z)) (o : options) : option options :=
  match opts with
  | [] => Some o
  | (opt, optarg) :: opts =>
      if opt =? 99 then
        parse_options opts (Options optarg (o_iface o) (o_verbose o) (o_daemon o) (o_stop o))
      else if opt =? 105 then
        parse_options opts (Options (o_cfg o) (Some optarg) (o_verbose o) (o_daemon o) (o_stop o))
      else if opt =? 118 then
        parse_options opts (Options (o_cfg o) (o_iface o)
          (if o_verbose o <? 2 then o_verbose o + 1 else o_verbose o) (o_daemon o) (o_stop o))
      else if opt =? 100 then
        parse_options opts (Options (o_cfg o) (o_iface o) (o_verbose o) true (o_stop o))
      else if opt =? 115 then
        if bool_decide (optarg = bs "stop")
        then parse_options opts (Options (o_cfg o) (o_iface o) (o_verbose o) (o_daemon o) true)
        else None
      else None
  end.

(** ** Time *)

Definition elapsed_ms (a b : timespec) : Z :=
  (tv_sec a - tv_sec b) * 1000 + Z.quot (tv_nsec a - tv_nsec b) 1000000.

Section Daemon.
Context {K : Type} `{!Kernel K} `{!Env K} `{!Os K} {I : Inet}.

(** ** Start of the process *)

Definition redirect_log (fd : Z) : D K unit :=
  e ← sysc (Dup2 fd STDERR_FILENO);
  if rc e <? 0 then vg_die
  else if negb (fd =? STDERR_FILENO) then _ ← sysc (Close fd); mret tt else mret tt.

(** The parent's [do read while EINTR]; the number of bytes read. *)
Fixpoint await_ready (turns : nat) (fd : Z) : D K Z :=
  match turns with
  | O => stop_now (Cut None)
  | S turns =>
      n ← sysc (Read fd 4);
      if rc n =? - EINTR then await_ready turns fd else mret (rc n)
  end.

Definition daemon_start (turns : nat) (log_fd : Z) : D K Z :=
  pp ← sysc Pipe;
  if rc pp <? 0 then vg_die
  else
    let r := default 0 (out pp !! 0%nat) in
    let w := default 0 (out pp !! 1%nat) in
    child ← sysc Fork;
    if rc child <? 0 then vg_die
    else if 0 <? rc child then
      _ ← sysc (Close w);
      _ ← sysc (Close log_fd);
      n ← await_ready turns r;
      _ ← sysc (Close r);
      if negb (n =? 4) then vg_die else stop_now (Exit 0)
    else
      _ ← sysc (Close r);
      _ ← redirect_log log_fd;
      e ← sysc Setsid;
      if rc e <? 0 then vg_die
      else
        fd ← sysc (Open (bs "/dev/null") O_RDWR);
        if rc fd <? 0 then vg_die
        else
          e1 ← sysc (Dup2 (rc fd) STDIN_FILENO);
          if rc e1 <? 0 then vg_die
          else
            e2 ← sysc (Dup2 (rc fd) STDOUT_FILENO);
            if rc e2 <? 0 then vg_die
            else
              _ ← (if STDERR_FILENO <? rc fd then _ ← sysc (Close (rc fd)); mret tt else mret tt);
              mret w.

(** The pid another instance wrote only goes to the message. *)
Definition pid_lock (path : list Z) : D K Z :=
  fd ← sysc (Open path O_CREATE_RDWR);
  if rc fd <? 0 then vg_die
  else
    e ← sysc (Flock (rc fd) LOCK_EX);
    if rc e =? 0 then mret (rc fd)
    else if negb (rc e =? - EWOULDBLOCK) then vg_die
    else _ ← sysc (Pread (rc fd) 31); vg_die.

Definition write_pidfile (fd : Z) (path : list Z) : D K unit :=
  pid ← sysc Getpid;
  let buf := snprintf 32 (dec_signed (rc pid) ++ [10]) in
  e ← sysc (Ftruncate fd);
  if rc e <? 0 then _ ← sysc (Unlink path); vg_die
  else
    n ← sysc (Pwrite fd buf);
    if negb (rc n =? Z.of_nat (List.length buf)) then _ ← sysc (Unlink path); vg_die
    else mret tt.

(** ** [-s stop] *)

(** The wait of [daemon_stop]: whether the process went away. *)
Fixpoint stop_loop (i : nat) (pid : Z) (path : list Z) : D K unit :=
  match i with
  | O => vg_die
  | S i =>
      e ← sysc (Kill pid 0);
      if rc e <? 0 then
        if rc e =? - ESRCH then _ ← sysc (Unlink path); mret tt else vg_die
      else _ ← sysc Nanosleep; stop_loop i pid path
  end.

Definition daemon_stop (path : list Z) : D K unit :=
  fd ← sysc (Open path O_READ);
  if rc fd <? 0 then vg_die
  else
    n ← sysc (Read (rc fd) 31);
    e ← sysc (Flock (rc fd) LOCK_SH);
    if rc e =? 0 then
      _ ← sysc (Close (rc fd)); _ ← sysc (Unlink path); vg_die
    else
      _ ← sysc (Close (rc fd));
      if rc n <=? 0 then vg_die
      else
        let pid := strtol (take (Z.to_nat (rc n)) (out n)) in
        if pid <=? 0 then vg_die
        else
          e ← sysc (Kill (s32 pid) SIGTERM);
          if rc e <? 0 then
            _ ← (if rc e =? - ESRCH then _ ← sysc (Unlink path); mret tt else mret tt); vg_die
          else stop_loop 200 (s32 pid) path.

(** ** The loop *)

Definition sock_timeout (fd : Z) : D K unit := _ ← sysc (SetTimeouts fd); mret tt.

(** What the [write] of the metrics page returns. *)
Definition write_result (sends : list wr_event) : Z :=
  match sends with WSent n :: _ => n | _ => -1 end.

(** One ready descriptor. *)
Definition serve (ctl_fd fd : Z) (c : vg_ctrl) : D K vg_ctrl :=
  cfd ← sysc (Accept fd);
  if rc cfd <? 0 then mret c
  else
    _ ← sock_timeout (rc cfd);
    io ← onW (call conn_io);
    r ← (if fd =? ctl_fd then onC (vg_ctl_server_handle io.1 io.2) c
         else onC (vg_http_handle io.1 (write_result io.2)) c);
    _ ← sysc (Close (rc cfd));
    mret r.2.

(** The [for] over [pfd], each descriptor with its [revents]. *)
Fixpoint serve_all (ctl_fd : Z) (pfd : list (Z * Z)) (c : vg_ctrl) : D K vg_ctrl :=
  match pfd with
  | [] => mret c
  | (fd, revents) :: pfd =>
      c ← (if Z.land revents POLLIN =? 0 then mret c else serve ctl_fd fd c);
      serve_all ctl_fd pfd c
  end.

(** One turn of the [while]; [None] is the [break]. *)
Definition loop_body (ctl_fd http_fd : Z) (last : timespec) (c : vg_ctrl)
  : D K (option timespec * vg_ctrl) :=
  now ← onW (call sys_clock);
  wait ← dlift (int_res (idle_poll_ms (cfg c) - s32 (elapsed_ms now last)));
  let wait := if wait <? 0 then 0 else wait in
  let pfd := (if 0 <=? ctl_fd then [ctl_fd] else []) ++ (if 0 <=? http_fd then [http_fd] else []) in
  pr ← sysc (Poll pfd wait);
  if rc pr <? 0 then
    if rc pr =? - EINTR then mret (Some last, c) else mret (None, c)
  else
    c ← (if 0 <? rc pr
         then serve_all ctl_fd ((λ i, (default 0 (pfd !! i), default 0 (out pr !! i))) <$>
                                seq 0 (List.length pfd)) c
         else mret c);
    now ← onW (call sys_clock);
    if (rc pr <=? 0) || (idle_poll_ms (cfg c) <=? elapsed_ms now last) then
      r ← onC vg_ctrl_tick c;
      mret (Some now, r.2)
    else mret (Some last, c).

(** [while (!g_stop)]; [stopped] is whether [main] itself set the flag. *)
Fixpoint main_loop (turns : nat) (stopped : bool) (ctl_fd http_fd : Z) (last : timespec)
    (c : vg_ctrl) : D K vg_ctrl :=
  if stopped then mret c
  else
    s ← sysc Stop;
    if negb (rc s =? 0) then mret c
    else
      match turns with
      | O => stop_now (Cut (Some c))
      | S turns =>
          r ← loop_body ctl_fd http_fd last c;
          match r.1 with
          | None => mret r.2
          | Some last => main_loop turns false ctl_fd http_fd last r.2
          end
      end.

(** ** [main] *)

(** From the lock to the redirected log: the configuration in force, the
    descriptor of the pid file and of the readiness pipe (-1: none). *)
Definition start_process (turns : nat) (o : options) (cf : vg_config)
  : D K (vg_config * Z * Z) :=
  pid_fd ← pid_lock (pid_file cf);
  alive ← vg_ctl_server_alive VG_SOCK_PATH;
  if (alive : bool) then _ ← sysc (Unlink (pid_file cf)); vg_die
  else
    let cf := match o_iface o with
              | Some i => set_strs cf (snprintf VG_MAX_IFACE i) (xdp_mode cf) (log_file cf)
                            (pid_file cf) (ctl_socket_group cf)
              | None => cf
              end in
    idx ← sysc (IfNametoindex (interface cf));
    if rc idx =? 0 then vg_die
    else
      ifa ← (if auto_local cf then onW (call getifaddrs) else mret None);
      match vg_config_auto_local cf ifa with
      | None => vg_die
      | Some cf =>
          log_fd ← sysc (Open (log_file cf) O_CREATE_APPEND);
          if rc log_fd <? 0 then vg_die
          else
            ready ← (if o_daemon o then daemon_start turns (rc log_fd)
                     else _ ← redirect_log (rc log_fd); mret (-1));
            _ ← sysc (Sigaction SIGINT);
            _ ← sysc (Sigaction SIGTERM);
            _ ← sysc (Sigaction SIGPIPE);
            mret (cf, pid_fd, ready)
      end.

(** Close the maps and die. *)
Definition close_and_die {A} (m : vg_link) : D K A := _ ← vg_maps_close m; vg_die.

(** From the BPF object to the controller. *)
Definition start_gate (o : options) (cf : vg_config) : D K (vg_link * vg_ctrl) :=
  mm ← vg_maps_open cf;
  let '(m, ln) := (mm : vg_maps * vg_link) in
  _ ← onW (vg_populate_allow cf);
  _ ← onW (vg_populate_local cf);
  e ← onW (vg_cfg_commit 0 cf);
  if negb (e =? 0) then close_and_die ln
  else
    a ← vg_xdp_attach ln cf;
    let '(e, ln) := (a : Z * vg_link) in
    if e <? 0 then close_and_die ln
    else
      ad ← sysc AllocDrops;
      as_ ← sysc AllocSnaps;
      c ← dlift (vg_ctrl_init (0 <=? rc ad) (0 <=? rc as_) cf m (Some (o_cfg o)) (o_iface o));
      match c with
      | None => close_and_die ln
      | Some c => mret (ln, c)
      end.

(** The end of the start: sockets, pid file, report to the parent.  The two
    sockets and whether the report failed. *)
Definition start_service (cf : vg_config) (pid_fd ready : Z) : D K (Z * Z * bool) :=
  ctl_fd ← vg_ctl_server_listen VG_SOCK_PATH (ctl_socket_group cf);
  http_fd ← vg_http_listen (metrics_port cf);
  _ ← write_pidfile pid_fd (pid_file cf);
  failed ← (if 0 <=? ready then
              pid ← sysc Getpid;
              n ← sysc (Write ready (le_bytes 4 (rc pid)));
              _ ← sysc (Close ready);
              mret (negb (rc n =? 4))
            else mret false);
  mret (ctl_fd, http_fd, failed).

Definition shutdown (ln : vg_link) (ctl_fd http_fd pid_fd : Z) (c : vg_ctrl) : D K unit :=
  r ← onC vg_ctrl_disarm c;
  _ ← vg_maps_close ln;
  _ ← (if 0 <=? ctl_fd then _ ← sysc (Close ctl_fd); _ ← sysc (Unlink VG_SOCK_PATH); mret tt
       else mret tt);
  _ ← (if 0 <=? http_fd then _ ← sysc (Close http_fd); mret tt else mret tt);
  _ ← sysc (Unlink (pid_file (cfg r.2)));
  _ ← sysc (Close pid_fd);
  mret tt.

(** The result is the exit status. *)
Definition main (turns : nat) (opts : list (Z * list Z)) : D K Z :=
  match parse_options opts default_options with
  | None => mret 1
  | Some o =>
      file ← onW (call (read_config (o_cfg o)));
      match vg_config_load file with
      | None => vg_die
      | Some cf =>
          if o_stop o then _ ← daemon_stop (pid_file cf); mret 0
          else
            p ← start_process turns o cf;
            let '(cf, pid_fd, ready) := (p : vg_config * Z * Z) in
            g ← start_gate o cf;
            let '(ln, c) := (g : vg_link * vg_ctrl) in
            s ← start_service cf pid_fd ready;
            let '(ctl_fd, http_fd, failed) := (s : Z * Z * bool) in
            last ← onW (call sys_clock);
            c ← main_loop turns failed ctl_fd http_fd last c;
            _ ← shutdown ln ctl_fd http_fd pid_fd c;
            mret (if (failed : bool) then 1 else 0)
      end
  end.
End Daemon.
