(* ===== verification/ProcThms.v ===== *)
(** * Reasoning about the calls of the daemon

    Triples over the process (its descriptors, lock and log), for any
    answers of the operating system, and the invariant of the time the lock
    is held. *)

From S2P Require Import Prelude Types CString Ipaddr Config Kernel Maps Lists DropTable Snap.
From S2P Require Import Double Policy Ctl Os Setup.
Open Scope Z_scope.

(** Calls that change what the instances of the daemon share: the XDP hook of
    the interface, the files by their names, the contents of the pid file.
    An [open] that may create its file is one of them. *)
Definition needs_lock (r : sysreq) : bool :=
  match r with
  | XdpAttach _ _ | XdpDetach _ _ | Unlink _ | Bind _ (SockUnix _) | Chmod _ | Chown _ _
  | Pwrite _ _ | Ftruncate _ | Open _ O_CREATE_RDWR | Open _ O_CREATE_APPEND => true
  | _ => false
  end.

(** The [open] of [pid_lock], which has to come before the lock. *)
Definition makes_pidfile (r : sysreq) : bool :=
  match r with Open _ O_CREATE_RDWR => true | _ => false end.

(** Every call of the log that needs the lock was made with it, except that
    the first call of all may be the [open] of the pid file. *)
Fixpoint guarded (l : list event) : Prop :=
  match l with
  | [] => True
  | e :: l =>
      (needs_lock (e_req e) = true → e_held e = true ∨ l = [] ∧ makes_pidfile (e_req e) = true)
      ∧ guarded l
  end.

(** The program the process has on the hook, by its interface and flags: the
    one it attached last, unless a detach of that interface with those flags
    succeeded since.  A detach that fails, or that names another interface
    or other flags, leaves it there. *)
Fixpoint xdp_on (l : list event) : option (Z * Z) :=
  match l with
  | [] => None
  | Ev (XdpAttach i fl) a _ :: l => if rc a =? 0 then Some (i, fl) else xdp_on l
  | Ev (XdpDetach i fl) a _ :: l =>
      if (rc a =? 0) && bool_decide (xdp_on l = Some (i, fl)) then None else xdp_on l
  | _ :: l => xdp_on l
  end.

(** The process asked for exactly that program to be taken off, and the
    kernel failed the call. *)
Definition stuck (x : Z * Z) (l : list event) : Prop :=
  ∃ a h, Ev (XdpDetach x.1 x.2) a h ∈ l ∧ rc a ≠ 0.

(** Nothing is left on the hook but what the kernel would not take off. *)
Definition off_hook (l : list event) : Prop := ∀ x, xdp_on l = Some x → stuck x l.

Definition on_hook (h : option (Z * Z)) (l : list event) : Prop :=
  match h with Some x => xdp_on l = Some x | None => off_hook l end.

Lemma guarded_suffix l l' : l `suffix_of` l' → guarded l' → guarded l.
Proof. intros [k ->]. induction k as [|e k IH]; [done|]. intros [_ H]. by apply IH. Qed.

(** A call that has nothing to do with the hook. *)
Definition off_xdp (r : sysreq) : bool :=
  match r with XdpAttach _ _ | XdpDetach _ _ => false | _ => true end.

Lemma xdp_on_cons r a h l : off_xdp r = true → xdp_on (Ev r a h :: l) = xdp_on l.
Proof. by destruct r. Qed.

Lemma stuck_cons e x l : stuck x l → stuck x (e :: l).
Proof. intros (a & h & Hin & Ha). exists a, h. split; [by right|done]. Qed.

Lemma on_hook_same h e l : xdp_on (e :: l) = xdp_on l → on_hook h l → on_hook h (e :: l).
Proof.
  intros Ex. destruct h as [x|]; cbn [on_hook]; [by rewrite Ex|].
  intros Ho x Hx. rewrite Ex in Hx. by apply stuck_cons, Ho.
Qed.

Definition fd_set (p : proc) : gset Z := list_to_set (fds p).

Lemma new_fd_fresh l : new_fd l ∉ l.
Proof.
  unfold new_fd. destruct (list_find _ _) as [[i n]|] eqn:E.
  - by apply list_find_Some in E as (_ & ? & _).
  - apply list_find_None in E. exfalso.
    assert (Z.of_nat <$> seq 0 (S (length l)) ⊆+ l) as Hs.
    { apply NoDup_submseteq; [apply NoDup_fmap_2, NoDup_seq; apply _|].
      intros x (n & -> & Hn)%list_elem_of_fmap. eapply Forall_forall in E; [|exact Hn].
      by apply dec_stable. }
    apply submseteq_length in Hs. rewrite length_fmap, length_seq in Hs. lia.
Qed.

Lemma new_fd_nonneg l : 0 ≤ new_fd l.
Proof. unfold new_fd. destruct (list_find _ _) as [[]|]; lia. Qed.

Lemma fd_set_add x p : fd_set (add_fd x p) = {[x]} ∪ fd_set p.
Proof. done. Qed.

Lemma fd_set_lose x p : fd_set (lose_fd x p) = fd_set p ∖ {[x]}.
Proof.
  unfold fd_set, lose_fd. cbn [fds]. apply set_eq. intros y.
  rewrite elem_of_difference, !elem_of_list_to_set, elem_of_singleton, list_elem_of_filter. tauto.
Qed.

Lemma new_fd_not_in p : new_fd (fds p) ∉ fd_set p.
Proof. unfold fd_set. rewrite elem_of_list_to_set. apply new_fd_fresh. Qed.

Lemma new_fds_fresh n l x : x ∈ new_fds n l → x ∉ l.
Proof.
  revert l. induction n as [|n IH]; intros l; cbn [new_fds]; [by intros ?%elem_of_nil|].
  intros [->|Hx]%elem_of_cons; [apply new_fd_fresh|]. apply IH in Hx. by intros ?; apply Hx; right.
Qed.

(** Several descriptors at once leave the rest of the process alone. *)
Lemma add_fds_state l p :
  let p' := foldr add_fd p l in
  held p' = held p ∧ log p' = log p ∧ objs p' = objs p ∧ fd_set p' = list_to_set l ∪ fd_set p.
Proof.
  cbv zeta. induction l as [|x l (H1 & H2 & H3 & H4)]; cbn [foldr list_to_set].
  - split_and!; [done..|]. by rewrite union_empty_l_L.
  - split_and!; [done..|]. rewrite fd_set_add, H4. by rewrite (assoc_L (∪)).
Qed.

Lemma lose_fds_state l p :
  let p' := foldr lose_fd p l in
  (∀ x, held p' = Some x → held p = Some x) ∧ (∀ x, held p = Some x → x ∉ l → held p' = Some x)
  ∧ log p' = log p ∧ objs p' = objs p ∧ fd_set p' = fd_set p ∖ list_to_set l.
Proof.
  cbv zeta. induction l as [|y l (H1 & H1' & H2 & H3 & H4)]; cbn [foldr list_to_set].
  - split_and!; [done..|]. by rewrite difference_empty_L.
  - split_and!; [| |done|done|].
    + intros x. unfold lose_fd at 1. cbn [held]. case_bool_decide; [done|apply H1].
    + intros x Hx Hl. apply not_elem_of_cons in Hl as [Hn Hl]. unfold lose_fd at 1. cbn [held].
      rewrite (H1' x Hx Hl). rewrite bool_decide_eq_false_2; congruence.
    + rewrite fd_set_lose, H4. set_solver.
Qed.

(** Calls that yield a descriptor. *)
Definition opens (r : sysreq) : bool :=
  match r with Open _ _ | Socket | SocketInet | Accept _ => true | _ => false end.

(** ** Triples *)
Section Triples.
Context {K T : Type} (obs : K * proc → T).
Implicit Types (P : T → Prop).

(** From a state whose observation is in [P], [m] returns into [Q], or stops
    in [E]. *)
Definition tri_on {A} (P : T → Prop) (m : D K A) (Q : A → T → Prop) (E : stop → T → Prop) : Prop :=
  ∀ s r s', P (obs s) → m s = Some (r, s') →
    match r with inr a => Q a (obs s') | inl z => E z (obs s') end.

Lemma tri_ret {A} (a : A) P (Q : A → T → Prop) E : (∀ p, P p → Q a p) → tri_on P (mret a) Q E.
Proof. intros H s r s' Hp [= <- <-]. by apply H. Qed.

Lemma tri_bind {A B} (m : D K A) (f : A → D K B) P Q1 Q E :
  tri_on P m Q1 E → (∀ a, tri_on (Q1 a) (f a) Q E) → tri_on P (m ≫= f) Q E.
Proof.
  intros Hm Hf s r s' Hp. unfold mbind, D_bind.
  destruct (m s) as [[[z|a] s1]|] eqn:Em; [| |done].
  - intros [= <- <-]. by apply (Hm _ _ _ Hp Em).
  - intros Ef. apply (Hf a s1 r s'); [|done]. by apply (Hm _ _ _ Hp Em).
Qed.

Lemma tri_stop {A} z P (Q : A → T → Prop) E : (∀ p, P p → E z p) → tri_on P (stop_now z) Q E.
Proof. intros H s r s' Hp [= <- <-]. by apply H. Qed.

Lemma tri_die {A} P (Q : A → T → Prop) E : (∀ p, P p → E (Exit 1) p) → tri_on P vg_die Q E.
Proof. apply tri_stop. Qed.

Lemma tri_dlift {A} (o : option A) P (Q : A → T → Prop) E :
  (∀ a p, o = Some a → P p → Q a p) → tri_on P (dlift o) Q E.
Proof. intros H s r s' Hp. unfold dlift. destruct o; [|done]. intros [= <- <-]. by apply H. Qed.

Lemma tri_conseq {A} (m : D K A) P P' (Q Q' : A → T → Prop) (E E' : stop → T → Prop) :
  tri_on P' m Q' E' → (∀ p, P p → P' p) → (∀ a p, Q' a p → Q a p) → (∀ z p, E' z p → E z p) →
  tri_on P m Q E.
Proof.
  intros Hm HP HQ HE s r s' Hp Er. specialize (Hm s r s' (HP _ Hp) Er). destruct r; auto.
Qed.

Lemma tri_pre {A} (m : D K A) P P' Q E :
  (∀ p, P p → P' p) → tri_on P' m Q E → tri_on P m Q E.
Proof. intros HP Hm s r s' Hp. by apply Hm, HP. Qed.

Lemma tri_pure {A} (φ : Prop) (m : D K A) P Q E :
  (φ → tri_on P m Q E) → tri_on (λ p, φ ∧ P p) m Q E.
Proof. intros H s r s' [Hφ Hp]. by apply H. Qed.

Lemma tri_or {A} (m : D K A) P1 P2 Q E :
  tri_on P1 m Q E → tri_on P2 m Q E → tri_on (λ p, P1 p ∨ P2 p) m Q E.
Proof. intros H1 H2 s r s' [Hp|Hp]; [by apply H1|by apply H2]. Qed.

Lemma tri_exists {A B} (m : D K A) (P : B → T → Prop) Q E :
  (∀ x, tri_on (P x) m Q E) → tri_on (λ p, ∃ x, P x p) m Q E.
Proof. intros H s r s' [x Hp]. by apply (H x). Qed.
End Triples.

(** Triples on the process, and on the kernel. *)
Abbreviation tri := (tri_on snd).
Abbreviation wtri := (tri_on fst).

Section ProcTriples.
Context {K : Type} `{!Kernel K} `{!Env K} `{!Os K}.

Lemma tri_sysc r P (Q : sysans → proc → Prop) E :
  (∀ p a, P p → Q (proc_step r a p).1 (proc_step r a p).2) → tri P (sysc r) Q E.
Proof.
  intros H [w p] x s Hp. unfold sysc. cbn [fst snd] in *. destruct (sys r w) as [a w'].
  specialize (H p a Hp). destruct (proc_step r a p) as [a' p']. by intros [= <- <-].
Qed.

Lemma tri_onW {A} (m : M K A) P (Q : A → proc → Prop) E :
  (∀ p a, P p → Q a p) → tri P (onW m) Q E.
Proof.
  intros H [w p] r s Hp. unfold onW. cbn [fst snd] in *. destruct (m w) as [[a w']|]; [|done].
  intros [= <- <-]. by apply H.
Qed.

Lemma tri_onC {A} (m : M (vg_ctrl * K) A) c P (Q : A * vg_ctrl → proc → Prop) E :
  (∀ p a, P p → Q a p) → tri P (onC m c) Q E.
Proof.
  intros H [w p] r s Hp. unfold onC. cbn [fst snd] in *. destruct (m (c, w)) as [[a [c' w']]|]; [|done].
  intros [= <- <-]. by apply H.
Qed.

(** [m] always comes to an end. *)
Definition total {A} (m : D K A) : Prop := ∀ s, is_Some (m s).

Lemma total_ret {A} (a : A) : total (mret a).
Proof. intros s. by eexists. Qed.

Lemma total_stop {A} z : total (A := A) (stop_now z).
Proof. intros s. by eexists. Qed.

Lemma total_sysc r : total (sysc r).
Proof.
  intros s. unfold sysc. destruct (sys r s.1) as [a w]. destruct (proc_step r a s.2). by eexists.
Qed.

Lemma total_bind {A B} (m : D K A) (f : A → D K B) :
  total m → (∀ a, total (f a)) → total (m ≫= f).
Proof.
  intros Hm Hf s. unfold mbind, D_bind. destruct (Hm s) as [[[z|a] s'] ->]; [by eexists|apply Hf].
Qed.

Lemma proc_step_log r a p :
  log (proc_step r a p).2 = Ev r a (bool_decide (is_Some (held p))) :: log p.
Proof.
  destruct r; cbn [proc_step]; repeat case_match; try done.
  - unfold load_obj. case_match; [done|]. by apply add_fds_state.
  - unfold destroy_obj. cbn [snd]. case_match; [done|]. by apply lose_fds_state.
Qed.

(** The log after a call, and its answer. *)
Lemma tri_log r l E :
  tri (λ p, log p = l) (sysc r)
    (λ a p, ∃ a0 h, (opens r = false → r ≠ Pipe → a = a0) ∧ log p = Ev r a0 h :: l) E.
Proof.
  apply tri_sysc. intros p a <-. exists a, (bool_decide (is_Some (held p))).
  split; [|apply proc_step_log]. destruct r; cbn [proc_step opens]; repeat case_match; done.
Qed.

(** ** While the lock is held *)

(** The hook and the live BPF objects. *)
Definition gate : Type := option (Z * Z) * list (list Z).

(** The process holds the lock on [fd], has the descriptors [F] open (those
    libbpf holds included), and the hook and the BPF objects are as [b]
    says. *)
Definition locked (fd : Z) (F : gset Z) (b : gate) (p : proc) : Prop :=
  held p = Some fd ∧ fd_set p = F ∧ guarded (log p) ∧ on_hook b.1 (log p) ∧ objs p = b.2.

(** Calls that leave all that alone. *)
Definition is_plain (r : sysreq) : bool :=
  match r with
  | Open _ _ | Socket | SocketInet | Accept _ | Pipe | Close _ | Dup2 _ _ | Flock _ _
  | XdpAttach _ _ | XdpDetach _ _ | SkelOpen | SkelLoad | SkelDestroy => false
  | _ => true
  end.

Lemma guarded_log fd F b r a p : locked fd F b p → guarded (log (log_call r a p)).
Proof.
  intros (Hh & _ & Hg & _). split; [|done]. intros _. left. cbn [e_held]. rewrite Hh.
  by rewrite bool_decide_eq_true_2.
Qed.

Lemma log_locked fd F b r a p :
  locked fd F b p → off_xdp r = true → locked fd F b (log_call r a p).
Proof.
  intros Hp Hr. pose proof (guarded_log _ _ _ r a _ Hp) as Hg. destruct Hp as (Hh & Hf & _ & Hx & Ho).
  split_and!; [done|done|done| |done]. apply on_hook_same; [|done]. by apply xdp_on_cons.
Qed.

Section Locked.
Context (fd : Z) (E : stop → proc → Prop).
Implicit Types (F : gset Z) (b : gate) (h : option (Z * Z)).

Lemma tri_plain r F b : is_plain r = true → tri (locked fd F b) (sysc r) (λ _, locked fd F b) E.
Proof.
  intros Hr. apply tri_sysc. intros p a Hp.
  assert (locked fd F b (log_call r a p)) by (apply log_locked; [done|by destruct r]).
  by destruct r.
Qed.

(** A new descriptor, or none. *)
Definition fresh F b (x : Z) (p : proc) : Prop :=
  x < 0 ∧ locked fd F b p ∨ (0 ≤ x ∧ x ∉ F) ∧ locked fd ({[x]} ∪ F) b p.

Lemma locked_add x F b p : locked fd F b p → locked fd ({[x]} ∪ F) b (add_fd x p).
Proof. intros (? & <- & ? & ? & ?). by split_and!. Qed.

Lemma locked_lose x F b p : x ≠ fd → locked fd F b p → locked fd (F ∖ {[x]}) b (lose_fd x p).
Proof.
  intros Hx (Hh & <- & ? & ? & ?). split_and!; [|apply fd_set_lose|done|done|done].
  unfold lose_fd. cbn [held]. rewrite Hh. rewrite bool_decide_eq_false_2; congruence.
Qed.

Lemma tri_open r F b : opens r = true → tri (locked fd F b) (sysc r) (λ a, fresh F b (rc a)) E.
Proof.
  intros Hr. apply tri_sysc. intros p a Hp. set (p1 := log_call r a p).
  assert (locked fd F b p1) as H1 by (apply log_locked; [done|by destruct r]).
  assert (proc_step r a p = if rc a <? 0 then (a, p1)
                            else (Ans (new_fd (fds p1)) (out a), add_fd (new_fd (fds p1)) p1)) as ->
    by (by destruct r).
  destruct (rc a <? 0) eqn:El; breflect; [by left|]. right. cbn [fst snd rc]. split.
  - destruct H1 as (_ & <- & _). split; [apply new_fd_nonneg|apply new_fd_not_in].
  - by apply locked_add.
Qed.

Lemma tri_close x F b :
  x ≠ fd → tri (locked fd F b) (sysc (Close x)) (λ _, locked fd (F ∖ {[x]}) b) E.
Proof.
  intros Hx. apply tri_sysc. intros p a Hp. cbn [proc_step fst snd].
  apply locked_lose; [done|]. by apply log_locked.
Qed.

Lemma tri_dup2 x y F b :
  y ≠ fd → x ≠ y →
  tri (locked fd F b) (sysc (Dup2 x y))
    (λ a p, rc a < 0 ∧ locked fd F b p ∨ 0 ≤ rc a ∧ locked fd ({[y]} ∪ F ∖ {[y]}) b p) E.
Proof.
  intros Hy Hxy. apply tri_sysc. intros p a Hp. cbn [proc_step].
  assert (locked fd F b (log_call (Dup2 x y) a p)) as H1 by (by apply log_locked).
  rewrite (proj2 (Z.eqb_neq x y)), orb_false_r by done.
  destruct (rc a <? 0) eqn:El; breflect; [by left|]. right. split; [done|].
  by apply locked_add, locked_lose.
Qed.

Lemma tri_pipe F b :
  tri (locked fd F b) (sysc Pipe)
    (λ a p, rc a < 0 ∧ locked fd F b p
       ∨ 0 ≤ rc a ∧ ∃ x y, out a = [x; y] ∧ (0 ≤ x ∧ x ∉ F) ∧ (0 ≤ y ∧ y ∉ {[x]} ∪ F)
           ∧ locked fd ({[y]} ∪ ({[x]} ∪ F)) b p) E.
Proof.
  apply tri_sysc. intros p a Hp. cbn [proc_step]. set (p1 := log_call Pipe a p).
  assert (locked fd F b p1) as H1 by (by apply log_locked).
  destruct (rc a <? 0) eqn:El; breflect; [by left|]. right. cbn [fst snd rc out].
  set (x := new_fd (fds p1)). set (y := new_fd (x :: fds p1)). split; [done|]. exists x, y.
  pose proof H1 as (_ & Hf1 & _). split_and!; [done|apply new_fd_nonneg| |apply new_fd_nonneg| |].
  - rewrite <-Hf1. apply new_fd_not_in.
  - rewrite <-Hf1. apply (new_fd_not_in (add_fd x p1)).
  - by apply locked_add, locked_add.
Qed.

Lemma tri_attach i fl F h o :
  tri (locked fd F (h, o)) (sysc (XdpAttach i fl))
    (λ a p, rc a = 0 ∧ locked fd F (Some (i, fl), o) p ∨ rc a ≠ 0 ∧ locked fd F (h, o) p) E.
Proof.
  apply tri_sysc. intros p a Hp. cbn [proc_step fst snd].
  pose proof (guarded_log _ _ _ (XdpAttach i fl) a _ Hp) as Hg. destruct Hp as (Hh & Hf & _ & Hb & Ho).
  destruct (decide (rc a = 0)) as [Ea|Ea]; [left|right]; (split; [done|]); split_and!; try done.
  - cbn. by rewrite Ea.
  - apply on_hook_same; [|done]. cbn. by rewrite (proj2 (Z.eqb_neq _ _) Ea).
Qed.

(** Taking off the program that is on: it is gone, or the call failed. *)
Lemma tri_detach i fl F o :
  tri (locked fd F (Some (i, fl), o)) (sysc (XdpDetach i fl)) (λ _, locked fd F (None, o)) E.
Proof.
  apply tri_sysc. intros p a Hp. cbn [proc_step fst snd].
  pose proof (guarded_log _ _ _ (XdpDetach i fl) a _ Hp) as Hg. destruct Hp as (Hh & Hf & _ & Hb & Ho).
  split_and!; [done..| |done]. cbn [fst on_hook] in *. intros x. cbn [log_call log xdp_on].
  rewrite bool_decide_eq_true_2, andb_true_r by done. destruct (rc a =? 0) eqn:Ea; [done|]. breflect.
  rewrite Hb. intros [= <-]. eexists a, _. split; [by left|done].
Qed.

(** BPF objects: opened, loaded, destroyed. *)
Lemma tri_skel_open F h o :
  tri (locked fd F (h, o)) (sysc SkelOpen)
    (λ a p, rc a < 0 ∧ locked fd F (h, o) p ∨ 0 ≤ rc a ∧ locked fd F (h, [] :: o) p) E.
Proof.
  apply tri_sysc. intros p a Hp. assert (locked fd F (h, o) (log_call SkelOpen a p)) as H1 by (by apply log_locked).
  cbn [proc_step]. destruct (rc a <? 0) eqn:Ea; breflect; [by left|]. right. split; [done|].
  destruct H1 as (? & ? & ? & ? & Ho). split_and!; try done. cbn in *. by rewrite Ho.
Qed.

Lemma tri_skel_load F h o :
  tri (locked fd F (h, [] :: o)) (sysc SkelLoad)
    (λ a p, rc a ≠ 0 ∧ locked fd F (h, [] :: o) p
       ∨ rc a = 0 ∧ ∃ l, (∀ x, x ∈ l → x ∉ F) ∧ locked fd (list_to_set l ∪ F) (h, l :: o) p) E.
Proof.
  apply tri_sysc. intros p a Hp.
  assert (locked fd F (h, [] :: o) (log_call SkelLoad a p)) as H1 by (by apply log_locked).
  cbn [proc_step]. destruct (rc a =? 0) eqn:Ea; breflect; [right|by left]. split; [done|]. cbn [fst snd].
  set (p1 := log_call SkelLoad a p) in *. destruct H1 as (? & Hf & ? & ? & Ho). cbn [snd] in Ho. unfold load_obj.
  rewrite Ho. set (l := new_fds _ _). exists l. split.
  - intros x Hx%new_fds_fresh. rewrite <-Hf. unfold fd_set. by rewrite elem_of_list_to_set.
  - destruct (add_fds_state l p1) as (E1 & E2 & E3 & E4).
    split_and!; cbn [set_objs held log objs fst snd]; [by rewrite E1| |by rewrite E2..|by rewrite app_nil_r].
    rewrite <-Hf, <-E4. done.
Qed.

Lemma tri_skel_destroy F h l o :
  fd ∉ l → tri (locked fd F (h, l :: o)) (sysc SkelDestroy) (λ _, locked fd (F ∖ list_to_set l) (h, o)) E.
Proof.
  intros Hl. apply tri_sysc. intros p a Hp.
  assert (locked fd F (h, l :: o) (log_call SkelDestroy a p)) as H1 by (by apply log_locked).
  cbn [proc_step fst snd]. set (p1 := log_call SkelDestroy a p) in *.
  destruct H1 as (Hh & Hf & ? & ? & Ho). cbn [snd] in Ho. unfold destroy_obj. rewrite Ho.
  destruct (lose_fds_state l p1) as (_ & E1 & E2 & E3 & E4).
  split_and!; cbn [set_objs held log objs fst snd]; [by apply E1| |by rewrite E2..|done].
  rewrite <-Hf, <-E4. done.
Qed.
End Locked.
End ProcTriples.

Create HintDb total.
#[export] Hint Resolve total_ret total_stop total_sysc total_bind : total.
