(* ===== verification/DaemonThms.v ===== *)
(** * The daemon's calls: specifications of its parts

    What each part of [main] does to the descriptors, the lock and the XDP
    hook, whatever the operating system answers. *)

From Stdlib Require Import String.
From S2P Require Import Prelude Types CString Ipaddr Config Kernel Maps Lists DropTable Snap.
From S2P Require Import Double Policy Ctl Http Os Setup Daemon ProcThms.
Open Scope Z_scope.

(** Run one call by its rule; the branch a test takes after it. *)
Ltac tcall L := eapply tri_bind; [eapply L; try reflexivity; try set_solver|intros ?; cbv beta].
Ltac tplain := tcall tri_plain.
Ltac tend := first [apply tri_ret | apply tri_die | apply tri_stop]; intros ? ?; cbv beta in *.
Ltac tbranch := match goal with |- context [if ?b then _ else _] => destruct b eqn:?; breflect; cbn [negb] end.

(** Nothing shared touched without the lock, nothing left on the hook. *)
Definition calm (p : proc) : Prop := guarded (log p) ∧ off_hook (log p).

(** Nothing on the hook and no BPF object. *)
Definition idle : gate := (None, []).

(** What is on the hook, by the daemon's own record. *)
Definition hook_of (ln : vg_link) : option (Z * Z) :=
  if attached ln then Some (ifindex ln, attach_flags ln) else None.

Lemma locked_calm fd F o p : locked fd F (None, o) p → calm p.
Proof. intros (_ & _ & ? & ? & _). by split. Qed.

Section Parts.
Context {K : Type} `{!Kernel K} `{!Env K} `{!Os K} {I : Inet}.
Context (fd : Z) (E : stop → proc → Prop).
Implicit Types (F : gset Z) (b : gate).

(** A new descriptor: the two cases of [fresh]. *)
Lemma tri_fresh {A} F b x (m1 m2 : D K A) Q :
  (x < 0 → tri (locked fd F b) m1 Q E) →
  (0 ≤ x → x ∉ F → tri (locked fd ({[x]} ∪ F) b) m2 Q E) →
  tri (fresh fd F b x) (if x <? 0 then m1 else m2) Q E.
Proof.
  intros H1 H2. apply tri_or; apply tri_pure.
  - intros Hx. rewrite (proj2 (Z.ltb_lt _ _) Hx). by apply H1.
  - intros [Hx Hf]. rewrite (proj2 (Z.ltb_ge _ _) Hx). by apply H2.
Qed.

Lemma diff_add x F : x ∉ F → ({[x]} ∪ F) ∖ {[x]} = F.
Proof. set_solver. Qed.

Lemma alive_tri path F b :
  fd ∈ F → tri (locked fd F b) (vg_ctl_server_alive path) (λ _, locked fd F b) E.
Proof.
  intros Hfd. unfold vg_ctl_server_alive. tcall tri_open. apply tri_fresh; intros Hx; [by tend|].
  intros Hf. tplain. tcall tri_close. rewrite diff_add by done. by tend.
Qed.

(** A descriptor that is closed again when a later call fails. *)
Lemma close_tri x F b :
  fd ∈ F → x ∉ F → 0 ≤ x →
  tri (locked fd ({[x]} ∪ F) b) (_ ← sysc (Close x); mret (-1)) (λ y, fresh fd F b y) E.
Proof. intros. tcall tri_close. rewrite diff_add by done. tend. left. by split. Qed.

Lemma listen_tri path group F b :
  fd ∈ F → tri (locked fd F b) (vg_ctl_server_listen path group) (λ x, fresh fd F b x) E.
Proof.
  intros Hfd. unfold vg_ctl_server_listen. tplain. tcall tri_open.
  apply tri_fresh; intros Hx; [tend; by left|]. intros Hf.
  tplain. tbranch; [by apply close_tri|]. tplain.
  eapply tri_bind with (Q1 := λ _, locked fd ({[rc a0]} ∪ F) b); [|intros _].
  { tbranch; [by tend|]. tplain. tbranch; [by tend|]. tplain. by tend. }
  tplain. tbranch; [by apply close_tri|]. tend. right. by split.
Qed.

Lemma http_listen_tri port F b :
  fd ∈ F → tri (locked fd F b) (vg_http_listen port) (λ x, fresh fd F b x) E.
Proof.
  intros Hfd. unfold vg_http_listen. tbranch; [tend; by left|]. tcall tri_open.
  apply tri_fresh; intros Hx; [tend; by left|]. intros Hf. tplain.
  tplain. tbranch; [by apply close_tri|]. tplain. tbranch; [by apply close_tri|]. tend. right. by split.
Qed.

Lemma set_sizes_tri x y n F b :
  tri (locked fd F b) (set_sizes x y n) (λ _, locked fd F b) E.
Proof. unfold set_sizes. tbranch; [by tend|]. tplain. tplain. by tend. Qed.

Lemma memlock_tri F b : tri (locked fd F b) bump_memlock (λ _, locked fd F b) E.
Proof. unfold bump_memlock. tplain. by tend. Qed.

(** The object is loaded, with descriptors [l] of its own. *)
Lemma maps_open_tri cf F :
  fd ∈ F → (∀ p, calm p → E (Exit 1) p) →
  tri (locked fd F idle) (vg_maps_open cf)
    (λ r p, ∃ l, ((attached r.2 = false ∧ skel r.2 = true) ∧ ∀ x, x ∈ l → x ∉ F)
       ∧ locked fd (list_to_set l ∪ F) (None, [l]) p) E.
Proof.
  intros Hfd HE.
  assert (∀ A F' o (Q : A → proc → Prop), tri (locked fd F' (None, o)) (vg_die (K := K)) Q E) as Hdie.
  { intros. apply tri_die. intros p ?%locked_calm. by apply HE. }
  unfold vg_maps_open. tplain. tcall memlock_tri. tplain. tplain. tbranch; [apply Hdie|].
  tcall tri_skel_open. apply tri_or; apply tri_pure; intros Ho.
  { rewrite (proj2 (Z.ltb_lt _ _) Ho). apply Hdie. }
  rewrite (proj2 (Z.ltb_ge _ _) Ho). do 2 (tcall set_sizes_tri). tcall tri_skel_load.
  apply tri_or; apply tri_pure; intros Hl.
  - rewrite (proj2 (Z.eqb_neq _ _) Hl). cbn [negb]. tcall tri_skel_destroy. apply Hdie.
  - rewrite Hl. cbn [Z.eqb negb]. tend. destruct H as (l & Hd & H). exists l. by split_and!.
Qed.

(** The program is taken off and the object destroyed: its descriptors go. *)
Lemma maps_close_tri ln F l :
  skel ln = true → fd ∈ F → (∀ x, x ∈ l → x ∉ F) →
  tri (locked fd (list_to_set l ∪ F) (hook_of ln, [l])) (vg_maps_close ln) (λ _, locked fd F idle) E.
Proof.
  intros Hs Hfd Hl. unfold vg_maps_close.
  eapply tri_bind with (Q1 := λ m p, skel m = true ∧ locked fd (list_to_set l ∪ F) (None, [l]) p).
  - unfold vg_xdp_detach, hook_of. destruct (attached ln); cbn [negb]; [|by tend].
    tcall tri_detach. by tend.
  - intros m. apply tri_pure. intros ->. tcall tri_skel_destroy. tend.
    replace ((list_to_set l ∪ F) ∖ list_to_set l) with F in H by set_solver. done.
Qed.

Lemma close_and_die_tri {A} ln F l (Q : A → proc → Prop) :
  skel ln = true → fd ∈ F → (∀ x, x ∈ l → x ∉ F) → (∀ p, calm p → E (Exit 1) p) →
  tri (locked fd (list_to_set l ∪ F) (hook_of ln, [l])) (close_and_die ln) Q E.
Proof.
  intros Hs Hfd Hl HE. unfold close_and_die. tcall maps_close_tri. apply tri_die.
  intros p ?%locked_calm. by apply HE.
Qed.

(** The hook is taken exactly when [vg_xdp_attach] succeeds, and then with
    the interface and the flags the daemon remembers. *)
Lemma attach_tri ln cf F o :
  attached ln = false →
  tri (locked fd F (None, o)) (vg_xdp_attach ln cf)
    (λ r p, ((r.1 < 0 ∨ attached r.2 = true) ∧ skel r.2 = skel ln) ∧ locked fd F (hook_of r.2, o) p) E.
Proof.
  intros Ha. assert (hook_of ln = None) as Hn by (unfold hook_of; by rewrite Ha).
  unfold vg_xdp_attach. tbranch; [tend; cbn [fst snd]; rewrite Hn; split; [split; [by left|done]|done]|].
  tplain. tbranch; [tend; cbn [fst snd]; rewrite Hn; split; [split; [by left|done]|done]|].
  eapply tri_bind with (Q1 := λ r p, r.2 = 0 ∧ locked fd F (Some (ifindex ln, r.1), o) p
    ∨ r.2 ≠ 0 ∧ locked fd F (None, o) p).
  - unfold attach_mode.
    assert (∀ fl, tri (locked fd F (None, o)) (e ← sysc (XdpAttach (ifindex ln) fl); mret (fl, rc e))
      (λ r p, r.2 = 0 ∧ locked fd F (Some (ifindex ln, r.1), o) p ∨ r.2 ≠ 0 ∧ locked fd F (None, o) p) E) as Htry.
    { intros fl. tcall tri_attach. by tend. }
    do 2 (tbranch; [apply Htry|]). eapply tri_bind; [apply Htry|]. intros r.
    apply tri_or; apply tri_pure; intros Hr.
    + rewrite Hr. cbn [Z.eqb negb]. tend. by left.
    + rewrite (proj2 (Z.eqb_neq _ _) Hr). apply Htry.
  - intros r. apply tri_or; apply tri_pure; intros Hr.
    + rewrite Hr. cbn [Z.eqb negb]. tend. split; [split; [by right|done]|done].
    + rewrite (proj2 (Z.eqb_neq _ _) Hr). tend. cbn [fst snd]. rewrite Hn. split; [split; [by left|done]|done].
Qed.

(** ** The loop opens and closes *)

Lemma serve_tri ctl_fd x c F b :
  fd ∈ F → tri (locked fd F b) (serve ctl_fd x c) (λ _, locked fd F b) E.
Proof.
  intros Hfd. unfold serve. tcall tri_open. apply tri_fresh; intros Hx; [by tend|]. intros Hf.
  eapply tri_bind with (Q1 := λ _, locked fd ({[rc a]} ∪ F) b); [unfold sock_timeout; tplain; by tend|].
  intros _. eapply tri_bind; [by apply tri_onW with (Q := λ _, locked fd ({[rc a]} ∪ F) b)|]. intros io.
  eapply tri_bind with (Q1 := λ _, locked fd ({[rc a]} ∪ F) b).
  { tbranch; by apply tri_onC. }
  intros r. tcall tri_close. rewrite diff_add by done. by tend.
Qed.

Lemma serve_all_tri ctl_fd pfd c F b :
  fd ∈ F → tri (locked fd F b) (serve_all ctl_fd pfd c) (λ _, locked fd F b) E.
Proof.
  intros Hfd. revert c. induction pfd as [|[x rev] pfd IH]; intros c; cbn [serve_all]; [by tend|].
  eapply tri_bind with (Q1 := λ _, locked fd F b); [|intros; apply IH].
  tbranch; [by tend|]. by apply serve_tri.
Qed.

Lemma loop_body_tri ctl_fd http_fd last c F b :
  fd ∈ F → tri (locked fd F b) (loop_body ctl_fd http_fd last c) (λ _, locked fd F b) E.
Proof.
  intros Hfd. unfold loop_body.
  eapply tri_bind; [by apply tri_onW with (Q := λ _, locked fd F b)|]. intros now.
  eapply tri_bind; [by apply tri_dlift with (Q := λ _, locked fd F b)|]. intros wait.
  tplain. tbranch; [tbranch; by tend|].
  eapply tri_bind with (Q1 := λ _, locked fd F b); [tbranch; [by apply serve_all_tri|by tend]|]. intros c'.
  eapply tri_bind; [by apply tri_onW with (Q := λ _, locked fd F b)|]. intros now'.
  tbranch; [|by tend]. eapply tri_bind; [by apply tri_onC with (Q := λ _, locked fd F b)|]. intros r. by tend.
Qed.

Lemma main_loop_tri turns stopped ctl_fd http_fd last c F b :
  fd ∈ F → (∀ c p, locked fd F b p → E (Cut (Some c)) p) →
  tri (locked fd F b) (main_loop turns stopped ctl_fd http_fd last c) (λ _, locked fd F b) E.
Proof.
  intros Hfd HE. revert stopped last c.
  induction turns as [|turns IH]; intros stopped last c; cbn [main_loop];
    (destruct stopped; [by tend|]); tplain; (tbranch; [by tend|]).
  - apply tri_stop. intros p. apply HE.
  - eapply tri_bind; [by apply loop_body_tri|]. intros r. destruct r.1; [apply IH|by tend].
Qed.
End Parts.

(** ** Start and end *)

(** The process as it starts. *)
Definition init (F0 : gset Z) (p : proc) : Prop :=
  held p = None ∧ fd_set p = F0 ∧ log p = [] ∧ objs p = [].

(** Without the lock. *)
Definition unlocked (F : gset Z) (p : proc) : Prop :=
  held p = None ∧ fd_set p = F ∧ calm p ∧ objs p = [].

(** [write_pidfile] gave up: its last calls. *)
Definition pid_failed (l : list event) : bool :=
  match l with
  | Ev (Unlink _) _ _ :: Ev (Pwrite _ _) _ _ :: _ => true
  | Ev (Unlink _) _ _ :: Ev (Ftruncate _) _ _ :: _ => true
  | _ => false
  end.

(** How a run that did not return ended. *)
Definition ends (F0 : gset Z) (z : stop) (p : proc) : Prop :=
  guarded (log p) ∧
  match z with
  | Exit _ => ∀ x, xdp_on (log p) = Some x → pid_failed (log p) = true ∨ stuck x (log p)
  | Cut None => off_hook (log p)
  | Cut (Some _) => is_Some (xdp_on (log p)) ∧ is_Some (held p)
      ∧ ∃ l, objs p = [l] ∧ (size (fd_set p) ≤ size F0 + 3 + List.length l)%nat
  end.

Lemma calm_log r a p :
  needs_lock r = false ∨ log p = [] ∧ makes_pidfile r = true → off_xdp r = true →
  calm p → calm (log_call r a p).
Proof.
  intros Hn Hx [Hg Hc]. split.
  - split; [|done]. cbn [e_req]. destruct Hn as [->|Hn]; [done|by right].
  - apply (on_hook_same None); [by apply xdp_on_cons|done].
Qed.

Lemma calm_start p : log p = [] → calm p.
Proof. unfold calm, off_hook. by intros ->. Qed.

Lemma calm_exit F0 n p : calm p → ends F0 (Exit n) p.
Proof. intros [Hg Hx]. split; [done|]. intros x ?%Hx. by right. Qed.

Lemma calm_cut F0 p : calm p → ends F0 (Cut None) p.
Proof. intros [Hg Hx]. by split. Qed.

Lemma dup_same y (F : gset Z) : y ∈ F → {[y]} ∪ F ∖ {[y]} = F.
Proof. intros Hy. apply set_eq. intros z. destruct (decide (z = y)) as [->|]; set_solver. Qed.

Lemma size_union_le (X Y : gset Z) : (size (X ∪ Y) ≤ size X + size Y)%nat.
Proof. rewrite size_union_alt. assert (Y ∖ X ⊆ Y) as H%subseteq_size by set_solver. lia. Qed.

Lemma size_list_to_set_le (l : list Z) : (size (list_to_set l : gset Z) ≤ List.length l)%nat.
Proof.
  induction l as [|x l IH]; cbn [list_to_set List.length]; [by rewrite size_empty|].
  pose proof (size_union_le {[x]} (list_to_set l)). rewrite size_singleton in *. lia.
Qed.

Section Run.
Context {K : Type} `{!Kernel K} `{!Env K} `{!Os K} {I : Inet}.
Context (F0 : gset Z) (Hstd : {[0; 1; 2]} ⊆ F0).

#[local] Abbreviation E := (ends F0).

Lemma pid_lock_tri path :
  tri (init F0) (pid_lock (K := K) path)
    (λ fd p, (0 ≤ fd ∧ fd ∉ F0) ∧ locked fd ({[fd]} ∪ F0) idle p) E.
Proof.
  unfold pid_lock.
  eapply tri_bind with (Q1 := λ a p, rc a < 0 ∧ calm p ∨ (0 ≤ rc a ∧ rc a ∉ F0) ∧ unlocked ({[rc a]} ∪ F0) p).
  { apply tri_sysc. intros p a (Hh & Hf & Hnil & Ho). cbn [proc_step].
    assert (calm (log_call (Open path O_CREATE_RDWR) a p)) as Hc'
      by (apply calm_log; [by right|done|by apply calm_start]).
    destruct (rc a <? 0) eqn:Ea; breflect; [by left|]. right. cbn [fst snd rc].
    split; [split; [apply new_fd_nonneg|]|]; rewrite <-Hf; [exact (new_fd_not_in p)|]. by split_and!. }
  intros a. apply tri_or; apply tri_pure.
  { intros Ha. rewrite (proj2 (Z.ltb_lt _ _) Ha). apply tri_die, calm_exit. }
  intros [Ha Hf]. rewrite (proj2 (Z.ltb_ge _ _) Ha).
  eapply tri_bind with (Q1 := λ e p, rc e = 0 ∧ locked (rc a) ({[rc a]} ∪ F0) idle p ∨ rc e ≠ 0 ∧ calm p).
  { apply tri_sysc. intros p e (Hh & Hs & Hc & Ho). cbn [proc_step].
    assert (calm (log_call (Flock (rc a) LOCK_EX) e p)) as [Hg Hx] by (apply calm_log; [by left|done|done]).
    destruct (rc e =? 0) eqn:Ee; breflect; [left|by right]. split; [done|]. by split_and!. }
  intros e. apply tri_or; apply tri_pure; intros He.
  { rewrite He. cbn [Z.eqb]. by tend. }
  rewrite (proj2 (Z.eqb_neq _ _) He). tbranch; [apply tri_die, calm_exit|].
  eapply tri_bind with (Q1 := λ _, calm); [|intros; apply tri_die, calm_exit].
  apply tri_sysc. intros p x Hc. apply calm_log; [by left|done|done].
Qed.

Section WithLock.
Context (fd : Z) (Hfd : fd ∉ F0).

#[local] Abbreviation F1 := ({[fd]} ∪ F0).

Lemma locked_exit F n p : locked fd F idle p → E (Exit n) p.
Proof. intros ?%locked_calm. by apply calm_exit. Qed.

Lemma redirect_tri x F :
  F1 ⊆ F → x ∉ F → tri (locked fd ({[x]} ∪ F) idle) (redirect_log (K := K) x) (λ _, locked fd F idle) E.
Proof.
  intros HF Hx. unfold redirect_log. tcall tri_dup2. apply tri_or; apply tri_pure; intros He.
  { rewrite (proj2 (Z.ltb_lt _ _) He). apply tri_die, locked_exit. }
  rewrite (proj2 (Z.ltb_ge _ _) He). rewrite (proj2 (Z.eqb_neq x STDERR_FILENO)) by set_solver.
  cbn [negb]. rewrite dup_same by set_solver. tcall tri_close. rewrite diff_add by done. by tend.
Qed.

Lemma await_tri turns r F : tri (locked fd F idle) (await_ready (K := K) turns r) (λ _, locked fd F idle) E.
Proof.
  induction turns as [|turns IH]; cbn [await_ready].
  { apply tri_stop. intros p ?%locked_calm. by apply calm_cut. }
  tplain. tbranch; [apply IH|by tend].
Qed.

Lemma daemon_start_tri turns x :
  x ∉ F1 →
  tri (locked fd ({[x]} ∪ F1) idle) (daemon_start (K := K) turns x) (λ y, fresh fd F1 idle y) E.
Proof.
  intros Hx. unfold daemon_start. tcall tri_pipe. apply tri_or; apply tri_pure; intros Hp.
  { rewrite (proj2 (Z.ltb_lt _ _) Hp). apply tri_die, locked_exit. }
  rewrite (proj2 (Z.ltb_ge _ _) Hp). apply tri_exists; intros r. apply tri_exists; intros y.
  do 3 (apply tri_pure; intro). rewrite H. destruct H0 as [Hr Hrf], H1 as [Hy Hyf].
  cbn [lookup list_lookup default].
  tplain. tbranch; [apply tri_die, locked_exit|]. tbranch.
  - tcall tri_close. tcall tri_close. tcall await_tri. tcall tri_close.
    tbranch; [apply tri_die, locked_exit|apply tri_stop, locked_exit].
  - tcall tri_close.
    replace (({[y]} ∪ ({[r]} ∪ ({[x]} ∪ F1))) ∖ {[r]}) with ({[x]} ∪ ({[y]} ∪ F1) : gset Z)
      by (apply set_eq; set_solver).
    tcall redirect_tri. tplain. tbranch; [apply tri_die, locked_exit|].
    tcall tri_open. apply tri_fresh; intros Hz; [apply tri_die, locked_exit|]. intros Hzf.
    do 2 (tcall tri_dup2; apply tri_or; apply tri_pure; intros He;
      [rewrite (proj2 (Z.ltb_lt _ _) He); apply tri_die, locked_exit|
       rewrite (proj2 (Z.ltb_ge _ _) He), dup_same by set_solver; clear He]).
    match type of Hz with 0 ≤ ?z => assert (STDERR_FILENO < z) as Hz2 end.
    { rewrite !not_elem_of_union in Hzf. unfold STDERR_FILENO. clear -Hstd Hz Hzf.
      destruct Hzf as (_ & _ & Hzf). apply Z.nle_gt. intros Hle. apply Hzf, Hstd.
      rewrite !elem_of_union, !elem_of_singleton. lia. }
    rewrite (proj2 (Z.ltb_lt _ _) Hz2).
    eapply tri_bind with (Q1 := λ _, locked fd ({[y]} ∪ F1) idle).
    { tcall tri_close. rewrite diff_add by done. by tend. }
    intros _. tend. right. split; [|done]. set_solver.
Qed.
End WithLock.

Lemma start_process_tri turns o cf :
  tri (init F0) (start_process (K := K) turns o cf)
    (λ r p, (0 ≤ r.1.2 ∧ r.1.2 ∉ F0) ∧ fresh r.1.2 ({[r.1.2]} ∪ F0) idle r.2 p) E.
Proof.
  unfold start_process. eapply tri_bind; [apply pid_lock_tri|]. intros fd. apply tri_pure.
  intros [H0 Hfd]. tcall alive_tri. destruct a; [tplain; apply tri_die, locked_exit|].
  set (cf1 := match o_iface o with Some i => _ | None => _ end). tplain.
  tbranch; [apply tri_die, locked_exit|].
  eapply tri_bind with (Q1 := λ _, locked fd ({[fd]} ∪ F0) idle); [tbranch; [by apply tri_onW|by tend]|].
  intros ifa. destruct (vg_config_auto_local cf1 ifa) as [cf2|]; [|apply tri_die, locked_exit].
  tcall tri_open. apply tri_fresh; intros Hx; [apply tri_die, locked_exit|]. intros Hxf.
  eapply tri_bind with (Q1 := λ y, fresh fd ({[fd]} ∪ F0) idle y).
  { tbranch; [by apply daemon_start_tri|]. eapply tri_bind; [by apply redirect_tri|].
    intros ?. tend. by left. }
  intros ready. do 3 (eapply tri_bind with (Q1 := λ _, fresh fd ({[fd]} ∪ F0) idle ready);
    [apply tri_or; apply tri_pure; intros Hr;
     (eapply tri_conseq; [by apply tri_plain|done| |done]); intros ???; [by left|by right]|intros _]).
  by tend.
Qed.

(** The descriptors of a socket that may not be there. *)
Definition sock_fd (x : Z) : gset Z := if 0 <=? x then {[x]} else ∅.

(** Loaded and attached: the object's descriptors [l], and the daemon's
    record of what it attached. *)
Definition gate_up (ln : vg_link) (l : list Z) (F : gset Z) : Prop :=
  (attached ln = true ∧ skel ln = true) ∧ ∀ x, x ∈ l → x ∉ F.

Lemma start_gate_tri fd o cf F :
  fd ∈ F →
  tri (locked fd F idle) (start_gate (K := K) o cf)
    (λ r p, ∃ l, gate_up r.1 l F ∧ locked fd (list_to_set l ∪ F) (hook_of r.1, [l]) p) E.
Proof.
  intros Hfd. unfold start_gate. eapply tri_bind; [apply maps_open_tri; [done|apply calm_exit]|].
  intros [m ln]. cbn [fst snd]. apply tri_exists; intros l. apply tri_pure. intros [[Ha Hs] Hl].
  set (F' := list_to_set l ∪ F).
  do 3 (eapply tri_bind; [by apply tri_onW with (Q := λ _, locked fd F' (None, [l]))|]; intros ?).
  assert (hook_of ln = None) as Hn by (unfold hook_of; by rewrite Ha).
  tbranch; [rewrite <-Hn; apply close_and_die_tri; [done..|apply calm_exit]|].
  eapply tri_bind; [by apply attach_tri|]. intros [e ln']. cbn [fst snd]. apply tri_pure. intros [He Hs'].
  rewrite Hs in Hs'. tbranch; [apply close_and_die_tri; [done..|apply calm_exit]|].
  destruct He as [He|He]; [lia|]. tplain. tplain.
  eapply tri_bind; [by apply tri_dlift with (Q := λ _, locked fd F' (hook_of ln', [l]))|].
  intros [c|]; [tend; exists l; by split_and!|]. apply close_and_die_tri; [done..|apply calm_exit].
Qed.

Section WithLock2.
Context (fd : Z) (Hfd : fd ∉ F0) (ln : vg_link) (l : list Z).

#[local] Abbreviation F1 := ({[fd]} ∪ F0).
#[local] Abbreviation F2 := (list_to_set l ∪ F1).
#[local] Abbreviation up := (hook_of ln, [l]).

(** Giving up on the pid file. *)
Lemma pid_fail_tri {A} r path F b (Q : A → proc → Prop) :
  match r with Pwrite _ _ | Ftruncate _ => True | _ => False end →
  tri (λ p, locked fd F b p ∧ ∃ a h l, log p = Ev r a h :: l)
    (_ ← sysc (K := K) (Unlink path); vg_die) Q E.
Proof.
  intros Hr. eapply tri_bind with (Q1 := λ _ p, guarded (log p) ∧ pid_failed (log p) = true).
  - apply tri_sysc. intros p x (Hl & a & h & l0 & Ep). split; [by eapply guarded_log|].
    cbn [proc_step snd log_call log]. rewrite Ep. by destruct r.
  - intros _. apply tri_die. intros p [Hg Hp]. split; [done|]. intros x _. by left.
Qed.

Lemma pid_call_tri r F b :
  match r with Pwrite _ _ | Ftruncate _ => True | _ => False end →
  tri (locked fd F b) (sysc (K := K) r) (λ _ p, locked fd F b p ∧ ∃ a h l, log p = Ev r a h :: l) E.
Proof.
  intros Hr. apply tri_sysc. intros p a Hp. assert (is_plain r = true) as Hpl by (by destruct r).
  assert (proc_step r a p = (a, log_call r a p)) as -> by (by destruct r). cbn [snd]. split.
  - apply log_locked; [done|]. by destruct r.
  - by eexists _, _, _.
Qed.

Lemma write_pidfile_tri path F :
  tri (locked fd F up) (write_pidfile (K := K) fd path) (λ _, locked fd F up) E.
Proof.
  unfold write_pidfile. tplain. eapply tri_bind; [by apply pid_call_tri|]. intros e.
  tbranch; [by apply pid_fail_tri|].
  set (buf := snprintf 32 _).
  eapply tri_bind with (Q1 := λ _ p, locked fd F up p ∧ ∃ a h l, log p = Ev (Pwrite fd buf) a h :: l).
  { eapply tri_conseq; [by apply (pid_call_tri (Pwrite fd buf) F up)|by intros p []|done|done]. }
  intros n. tbranch; [by apply pid_fail_tri|]. tend. by destruct H.
Qed.

(** Two listening sockets, or one, or none. *)
Definition serving (x y : Z) (p : proc) : Prop :=
  (0 ≤ x → x ∉ F2) ∧ (0 ≤ y → y ∉ sock_fd x ∪ F2) ∧ locked fd (sock_fd y ∪ (sock_fd x ∪ F2)) up p.

Lemma fresh_sock F b x p :
  fresh fd F b x p → (0 ≤ x → x ∉ F) ∧ locked fd (sock_fd x ∪ F) b p.
Proof.
  unfold sock_fd. intros [[Hx Hl]|[[Hx Hf] Hl]].
  - rewrite (proj2 (Z.leb_gt 0 x)), union_empty_l_L by lia. split; [lia|done].
  - by rewrite (proj2 (Z.leb_le 0 x)).
Qed.

Lemma start_service_tri cf ready :
  tri (fresh fd F2 up ready) (start_service (K := K) cf fd ready)
    (λ r, serving r.1.1 r.1.2) E.
Proof.
  eapply tri_pre; [apply fresh_sock|]. apply tri_pure. intros Hr. unfold start_service.
  eapply tri_bind; [apply listen_tri; set_solver|]. intros x.
  eapply tri_pre; [apply fresh_sock|]. apply tri_pure. intros Hx.
  eapply tri_bind; [apply http_listen_tri; set_solver|]. intros y.
  eapply tri_pre; [apply fresh_sock|]. apply tri_pure. intros Hy.
  tcall write_pidfile_tri.
  eapply tri_bind with (Q1 := λ _, locked fd (sock_fd y ∪ (sock_fd x ∪ F2)) up).
  - unfold sock_fd at 3. tbranch.
    + tplain. tplain. tcall tri_close. tend.
      replace ((sock_fd y ∪ (sock_fd x ∪ ({[ready]} ∪ F2))) ∖ {[ready]}) with
        (sock_fd y ∪ (sock_fd x ∪ F2)) in H; [done|].
      assert (sock_fd ready = {[ready]}) as Es by (unfold sock_fd; by rewrite (proj2 (Z.leb_le 0 ready))).
      rewrite Es in *. unfold sock_fd in *.
      destruct (0 <=? x) eqn:?, (0 <=? y) eqn:?; breflect; apply set_eq; set_solver.
    + tend. by rewrite union_empty_l_L in H.
  - intros failed. tend. split_and!; [| |done]; cbn [fst snd]; set_solver.
Qed.

(** A clean end: everything the process opened is closed, the lock given up,
    the BPF object destroyed and nothing left on the hook that the kernel
    would take off. *)
Definition clean (p : proc) : Prop := held p = None ∧ fd_set p = F0 ∧ calm p ∧ objs p = [].

Lemma close_sock_tri x F b :
  fd ∈ F → (0 ≤ x → x ∉ F) → 0 ≤ x → tri (locked fd (sock_fd x ∪ F) b) (sysc (K := K) (Close x)) (λ _, locked fd F b) E.
Proof.
  intros HF Hx H0. unfold sock_fd. rewrite (proj2 (Z.leb_le 0 x)) by done.
  assert (x ≠ fd) as Hne by (intros ->; by apply Hx).
  eapply tri_conseq; [apply (tri_close fd E x ({[x]} ∪ F) b Hne)|done| |done]. intros a p. by rewrite diff_add by auto.
Qed.

Lemma sock_fd_none x : (0 <=? x) = false → sock_fd x = ∅.
Proof. unfold sock_fd. by intros ->. Qed.

Lemma sock_swap y x : sock_fd y ∪ (sock_fd x ∪ F1) = sock_fd x ∪ (sock_fd y ∪ F1).
Proof. set_solver. Qed.

(** The object's descriptors apart from all others. *)
Lemma serving_split x y p :
  gate_up ln l F1 → serving x y p →
  ((0 ≤ x → x ∉ F1) ∧ (0 ≤ y → y ∉ sock_fd x ∪ F1) ∧ ∀ z, z ∈ l → z ∉ sock_fd y ∪ (sock_fd x ∪ F1))
  ∧ locked fd (list_to_set l ∪ (sock_fd y ∪ (sock_fd x ∪ F1))) up p.
Proof.
  intros [_ Hl] (Hx & Hy & Hp). split_and!; [set_solver|set_solver| |].
  - unfold sock_fd in *. intros z Hz. specialize (Hl z Hz).
    destruct (0 <=? x) eqn:?, (0 <=? y) eqn:?; breflect; set_solver.
  - by replace (list_to_set l ∪ (sock_fd y ∪ (sock_fd x ∪ F1))) with (sock_fd y ∪ (sock_fd x ∪ F2))
      by (apply set_eq; set_solver).
Qed.

Lemma shutdown_tri x y c :
  gate_up ln l F1 → tri (serving x y) (shutdown (K := K) ln x y fd c) (λ _, clean) E.
Proof.
  intros Hup. eapply tri_pre; [intros p; by apply serving_split|]. destruct Hup as [[_ Hs] _].
  apply tri_pure. intros (Hx & Hy & Hl). unfold shutdown. set (F := sock_fd y ∪ (sock_fd x ∪ F1)) in *.
  eapply tri_bind; [by apply tri_onC with (Q := λ _, locked fd (list_to_set l ∪ F) up)|]. intros r.
  eapply tri_bind; [apply maps_close_tri; [done|set_solver|done]|]. intros ln'.
  eapply tri_bind with (Q1 := λ _, locked fd (sock_fd y ∪ F1) idle).
  { unfold F. rewrite sock_swap. tbranch.
    - eapply tri_bind; [apply close_sock_tri; [set_solver| |done]|intros ?; tplain; by tend].
      intros H0 Hin. apply elem_of_union in Hin as [Hin|Hin]; [|by apply Hx].
      unfold sock_fd in Hin, Hy. destruct (0 <=? y) eqn:Ey; [|set_solver].
      apply elem_of_singleton in Hin as ->. breflect. apply (Hy Ey). rewrite (proj2 (Z.leb_le 0 y)) by done.
      set_solver.
    - tend. by rewrite (sock_fd_none x), union_empty_l_L in H by (by apply Z.leb_gt). }
  intros _. eapply tri_bind with (Q1 := λ _, locked fd F1 idle).
  { tbranch.
    - eapply tri_bind; [apply close_sock_tri; [set_solver|set_solver|done]|intros ?; by tend].
    - tend. by rewrite (sock_fd_none y), union_empty_l_L in H by (by apply Z.leb_gt). }
  intros _. tplain. eapply tri_bind with (Q1 := λ _, clean); [|intros; by tend].
  apply tri_sysc. intros p e Hp. cbn [proc_step snd].
  apply (log_locked _ _ _ (Close fd) e) in Hp; [|done]. destruct Hp as (Hh & Hf & Hg & Hb & Ho).
  split_and!; [| |split; done|done].
  - unfold lose_fd. cbn [held]. rewrite Hh. by rewrite bool_decide_eq_true_2.
  - rewrite fd_set_lose, Hf. by apply diff_add.
Qed.

Lemma serving_cut x y c p : attached ln = true → serving x y p → E (Cut (Some c)) p.
Proof.
  intros Ha (_ & _ & Hh & Hf & Hg & Hb & Ho). split; [done|].
  assert (is_Some (xdp_on (log p))) as Hon by (unfold hook_of in Hb; rewrite Ha in Hb; cbn in Hb; by rewrite Hb).
  split_and!; [done|by rewrite Hh|]. exists l. split; [done|]. rewrite Hf.
  assert (∀ z, (size (sock_fd z) ≤ 1)%nat) as Hs.
  { intros z. unfold sock_fd. destruct (0 <=? z); [by rewrite size_singleton|rewrite size_empty; lia]. }
  assert (size (list_to_set l : gset Z) ≤ List.length l)%nat as Hl by apply size_list_to_set_le.
  pose proof (size_union_le (sock_fd y) (sock_fd x ∪ F2)). pose proof (size_union_le (sock_fd x) F2).
  pose proof (size_union_le (list_to_set l) F1). pose proof (size_union_le {[fd]} F0).
  rewrite size_singleton in *. pose proof (Hs x). pose proof (Hs y). lia.
Qed.
End WithLock2.

(** The same with the pipe to the waiting parent open, or not. *)
Lemma start_gate_fresh fd ready o cf :
  tri (fresh fd ({[fd]} ∪ F0) idle ready) (start_gate (K := K) o cf)
    (λ r p, ∃ l, gate_up r.1 l ({[fd]} ∪ F0)
       ∧ fresh fd (list_to_set l ∪ ({[fd]} ∪ F0)) (hook_of r.1, [l]) ready p) E.
Proof.
  apply tri_or; apply tri_pure; intros Hr; (eapply tri_conseq; [apply start_gate_tri|done| |done]);
    try set_solver; intros r p (l & [Hup Hl] & Hp); exists l.
  - split; [by split|by left].
  - split; [split; [done|set_solver]|]. right. split; [set_solver|].
    by replace ({[ready]} ∪ (list_to_set l ∪ ({[fd]} ∪ F0)) : gset Z)
      with (list_to_set l ∪ ({[ready]} ∪ ({[fd]} ∪ F0)) : gset Z) by (apply set_eq; set_solver).
Qed.

(** A run of [main], not to stop another instance. *)
Lemma main_tri turns opts :
  (∀ o, parse_options opts default_options = Some o → o_stop o = false) →
  tri (init F0) (main (K := K) turns opts) (λ _, clean) E.
Proof.
  intros Ho. unfold main. destruct (parse_options opts default_options) as [o|]; [|tend; destruct H as (? & ? & ? & ?); split_and!; [done|done|by apply calm_start|done]].
  eapply tri_bind; [by apply tri_onW with (Q := λ _, init F0)|]. intros file.
  destruct (vg_config_load file) as [cf|]; [|apply tri_die; intros p (_ & _ & ? & _); by apply calm_exit, calm_start].
  rewrite (Ho o eq_refl). eapply tri_bind; [apply start_process_tri|]. intros [[cf1 fd] ready].
  cbn [fst snd]. apply tri_pure. intros [H0 Hfd].
  eapply tri_bind; [by apply start_gate_fresh|]. intros [ln c]. cbn [fst snd].
  apply tri_exists; intros l. apply tri_pure. intros Hup.
  eapply tri_bind; [by apply start_service_tri|]. intros [[x y] failed]. cbn [fst snd].
  eapply tri_bind; [by apply tri_onW with (Q := λ _, serving fd ln l x y)|]. intros last.
  eapply tri_bind with (Q1 := λ _, serving fd ln l x y).
  { apply tri_pure. intros Hx. apply tri_pure. intros Hy. set (up := (hook_of ln, [l])).
    set (F := sock_fd y ∪ (sock_fd x ∪ (list_to_set l ∪ ({[fd]} ∪ F0)))).
    eapply tri_conseq with (P' := locked fd F up) (Q' := λ _, locked fd F up) (E' := E);
      [|done|intros c' p Hp; by split_and!|done].
    apply main_loop_tri; [set_solver|]. intros c' p Hp. apply (serving_cut fd ln l x y); [apply Hup|by split_and!]. }
  intros c'. eapply tri_bind; [by apply shutdown_tri|]. intros ?. by tend.
Qed.
End Run.
