(* ===== verification/DaemonTime.v ===== *)
(** * When the daemon ticks

    How precise [elapsed_ms] is, how long a turn of the loop may sleep, and
    that requests cannot keep the tick from running. *)

From S2P Require Import Prelude Types CString Ipaddr Config Kernel Maps Lists DropTable Snap.
From S2P Require Import Double Policy Ctl Http Os Setup Daemon ProcThms DaemonThms.
Open Scope Z_scope.

(** A time in nanoseconds; the fields of a reading are in range. *)
Definition nanos (t : timespec) : Z := tv_sec t * 10 ^ 9 + tv_nsec t.
Definition ts_ok (t : timespec) : Prop := 0 ≤ tv_nsec t < 10 ^ 9.

(** [elapsed_ms] rounds the nanosecond part toward zero, so it is less than
    a millisecond off, either way. *)
Lemma elapsed_ms_close a b :
  ts_ok a → ts_ok b → Z.abs (elapsed_ms a b * 10 ^ 6 - (nanos a - nanos b)) < 10 ^ 6.
Proof.
  unfold ts_ok, nanos, elapsed_ms. intros Ha Hb.
  pose proof (Z.quot_rem' (tv_nsec a - tv_nsec b) 1000000).
  pose proof (Z.rem_bound_abs (tv_nsec a - tv_nsec b) 1000000 ltac:(lia)). lia.
Qed.

Section Time.
Context {K : Type} `{!Kernel K} `{!Env K} `{!Os K} {I : Inet}.
Context (Hclock : ∀ w : K, ts_ok (sys_clock w).1).
Implicit Types (w : K) (p : proc).

Definition grows (l : list event) (p : proc) : Prop := l `suffix_of` log p.

Lemma grows_sysc r l E : tri (grows l) (sysc (K := K) r) (λ _, grows l) E.
Proof.
  apply tri_sysc. intros p a Hl. unfold grows. rewrite proc_step_log. by apply suffix_cons_r.
Qed.

Lemma serve_grows ctl_fd fd c l E : tri (grows l) (serve (K := K) ctl_fd fd c) (λ _, grows l) E.
Proof.
  unfold serve, sock_timeout.
  repeat first [by apply tri_ret | apply grows_sysc | by apply tri_onW | by apply tri_onC | case_match
               |eapply tri_bind with (Q1 := λ _, grows l); [|intros ?]].
Qed.

Lemma serve_all_grows ctl_fd pfd c l E : tri (grows l) (serve_all (K := K) ctl_fd pfd c) (λ _, grows l) E.
Proof.
  revert c. induction pfd as [|[fd rev] pfd IH]; intros c; cbn [serve_all]; [by apply tri_ret|].
  eapply tri_bind with (Q1 := λ _, grows l); [|intros; apply IH].
  case_match; [by apply tri_ret|apply serve_grows].
Qed.

(** How a turn that goes on ended: interrupted; with a tick; or before the
    next tick was due. *)
Inductive turn_end (last : timespec) (c : vg_ctrl) (pr : sysans) : timespec → vg_ctrl → K → Prop :=
  | turn_interrupted w' : rc pr = - EINTR → turn_end last c pr last c w'
  | turn_ticked v c1 z c' w' :
      0 ≤ rc pr → vg_ctrl_tick (c1, (sys_clock v).2) = Some (z, (c', w')) →
      turn_end last c pr (sys_clock v).1 c' w'
  | turn_not_due v c' :
      0 < rc pr → nanos (sys_clock v).1 - nanos last < (idle_poll_ms (cfg c') + 1) * 10 ^ 6 →
      turn_end last c pr last c' (sys_clock v).2.

(** C21: requests cannot starve the tick: a turn that is not interrupted
    ends with a tick, or less than [idle_poll_ms] (and a millisecond of
    rounding) after the last one; when nothing is ready it ticks.  The wait
    for requests ends by the time the next tick is due, and does not wait
    at all when it is overdue. *)
Theorem turn_timing ctl_fd http_fd last c w p last' c' w' p' :
  ts_ok last → 0 ≤ elapsed_ms (sys_clock w).1 last < 2 ^ 31 →
  loop_body ctl_fd http_fd last c (w, p) = Some (inr (Some last', c'), (w', p')) →
  ∃ fds wait pr h, Ev (Poll fds wait) pr h ∈ log p' ∧ turn_end last c pr last' c' w'
    ∧ 0 ≤ wait
    ∧ (0 < wait → nanos (sys_clock w).1 - nanos last + wait * 10 ^ 6
                  < (idle_poll_ms (cfg c) + 1) * 10 ^ 6).
Proof.
  intros Hlast He. unfold loop_body, mbind, D_bind. unfold onW at 1, call at 1. cbn [fst snd].
  pose proof (Hclock w) as Hnow. destruct (sys_clock w) as [now w1]. cbn [fst] in *.
  unfold dlift, int_res. assert (s32 (elapsed_ms now last) = elapsed_ms now last) as ->
    by (unfold s32; rewrite Z.mod_small; lia).
  set (d := idle_poll_ms (cfg c) - elapsed_ms now last).
  destruct ((- 2 ^ 31 <=? d) && (d <? 2 ^ 31)); [|done].
  set (wait := if d <? 0 then 0 else d). set (fds := (_ : list Z) ++ _).
  unfold sysc at 1. cbn [fst snd proc_step]. destruct (sys (Poll fds wait) w1) as [pr w2].
  set (p1 := log_call (Poll fds wait) pr p).
  assert (0 ≤ wait ∧ (0 < wait → nanos now - nanos last + wait * 10 ^ 6
    < (idle_poll_ms (cfg c) + 1) * 10 ^ 6)) as Hwait.
  { pose proof (elapsed_ms_close now last Hnow Hlast).
    unfold wait. destruct (d <? 0) eqn:Ed; breflect; subst d; lia. }
  assert (∀ q, grows (log p1) q → Ev (Poll fds wait) pr (bool_decide (is_Some (held p))) ∈ log q) as Hin.
  { intros q [pre ->]. apply elem_of_app. right. by apply elem_of_cons; left. }
  intros Hrun. exists fds, wait, pr, (bool_decide (is_Some (held p))). revert Hrun.
  destruct (rc pr <? 0) eqn:Epr; breflect.
  { destruct (rc pr =? - EINTR) eqn:Ei; breflect; [|done]. intros [= <- <- <- <-].
    split_and!; [by apply Hin; exists []|by apply turn_interrupted|apply Hwait..]. }
  set (sv := if 0 <? rc pr then _ else _).
  assert (tri (grows (log p1)) sv (λ _, grows (log p1)) (λ _, grows (log p1))) as Hsv.
  { unfold sv. case_match; [apply serve_all_grows|by apply tri_ret]. }
  destruct (sv (w2, p1)) as [[[z|c2] [w3 p3]]|] eqn:Esv; [done| |done].
  pose proof (Hsv (w2, p1) _ _ ltac:(by exists []) Esv) as Hg. cbn [snd] in Hg.
  unfold onW, call. cbn [fst snd]. pose proof (Hclock w3) as Hnow2.
  destruct (sys_clock w3) as [now2 w4] eqn:Ec3. cbn [fst] in Hnow2.
  destruct ((rc pr <=? 0) || _) eqn:Edue.
  - unfold onC. cbn [fst snd]. destruct (vg_ctrl_tick (c2, w4)) as [[z [c5 w5]]|] eqn:Et; [|done].
    intros [= <- <- <- <-]. split_and!; [by apply Hin| |apply Hwait..].
    replace now2 with (sys_clock w3).1 by (by rewrite Ec3).
    eapply turn_ticked; [done|]. rewrite Ec3. exact Et.
  - intros [= <- <- <- <-]. breflect. split_and!; [by apply Hin| |apply Hwait..].
    replace w4 with (sys_clock w3).2 by (by rewrite Ec3). apply turn_not_due; [done|]. rewrite Ec3. cbn [fst].
    pose proof (elapsed_ms_close now2 last Hnow2 Hlast). lia.
Qed.
End Time.
