(* ===== verification/System.v ===== *)
(** * The whole gate: daemon, control socket and data plane together

    Runs of the system as sequences of steps (a tick, a request on the
    control socket, a packet, anything else the kernel does that leaves the
    tries and the cfg array alone), the invariant of every reachable state,
    and what it means for packets. *)

From S2P Require Import Prelude Types CString Ipaddr IpaddrThms Config Kernel Maps MapsThms.
From S2P Require Import ConfigThms Lists DropTable DropThms Snap SnapThms Double Policy.
From S2P Require Import PolicyThms SweepThms TickThms Ctl CtlThms Xdp XdpThms XdpMain.
Import Dlist Hlist.
Open Scope Z_scope.

(** ** The data plane leaves the tries alone *)
Section XdpFrame.
Context {K : Type} `{!Kernel K} `{!XdpLaws K}.
Implicit Types w : K.

Lemma mupd_same m f w : same_maps w (metrics_upd m f w).
Proof. unfold metrics_upd. repeat split_if; auto using mstore_maps, same_maps_refl. Qed.

Lemma account_same h a m len w : same_maps w (account_world h a m len w).
Proof.
  unfold account_world. assert (same_maps w (hget_world h a w)) as Hg.
  { unfold hget_world. split_if; auto using hupdate_maps, same_maps_refl. }
  eapply same_maps_trans; [exact Hg|]. split_if; [apply hstore_maps|apply mupd_same].
Qed.

Lemma count_same lt h r m s d len w : same_maps w (count_world lt h r m s d len w).
Proof.
  unfold count_world. eapply same_maps_trans; [|apply mupd_same].
  destruct (xdp_lpm_hit lt d w); [|apply same_maps_refl]. eapply same_maps_trans; apply account_same.
Qed.

Lemma xdp_same pkt w v w' :
  bytes_ok pkt → voidgate_xdp pkt w = Some (v, w') → same_maps w w'.
Proof.
  intros Hb. rewrite xdp_result_eq by done. unfold xdp_result.
  assert (∀ i, same_maps w (judged_world pkt i w)) as Hj.
  { intros i. unfold judged_world. rewrite parsed_mupd. unfold rx_world.
    destruct (pi_err i); [eapply same_maps_trans|]; apply mupd_same. }
  assert (same_maps w (rx_world pkt w)) as Hr by apply mupd_same.
  repeat split_if; intros [= <- <-];
    first [solve [eapply same_maps_trans; [apply Hr|apply mupd_same]]
          |solve [eapply same_maps_trans; [apply Hj|apply mupd_same]]
          |solve [eapply same_maps_trans; [apply Hj|apply count_same]]
          |eapply same_maps_trans; [apply Hr|eapply same_maps_trans; apply mupd_same]].
Qed.
End XdpFrame.

(** ** Runs *)
Section Runs.
Context {K : Type} `{!Kernel K} `{!KernelLaws K} `{!XdpLaws K} `{!Env K} `{!EnvLaws K}.
Context {I : Inet} `{!InetLaws I} (Hdefaults : defaults_parse).
Implicit Types (w : K) (c : vg_ctrl).

(** The kernel as the daemon starts with it: disarmed, nothing dropped, no
    delete of a drop refused yet. *)
Definition start_world w : Prop :=
  (∃ bc, xdp_cfg w = Some bc ∧ armed bc = 0) ∧ lpm_view drop_v4 w = ∅ ∧ lpm_view drop_v6 w = ∅
  ∧ ∀ q, ¬ refused_key q w.

Inductive reach : vg_ctrl * K → Prop :=
  | reach_start cf m path ov c w :
      cfg_ok cf → drop_map_size cf ≤ 2 ^ 30 →
      vg_ctrl_init true true cf m path ov = Some (Some c) → start_world w → reach (c, w)
  | reach_tick s z s' : reach s → vg_ctrl_tick s = Some (z, s') → reach s'
  | reach_ctl s evs sends r s' : reach s → vg_ctl_server_handle evs sends s = Some (r, s') → reach s'
  | reach_packet c w pkt v w' :
      reach (c, w) → bytes_ok pkt → voidgate_xdp pkt w = Some (v, w') → reach (c, w')
  | reach_kernel c w w' : reach (c, w) → same_maps w w' → reach (c, w').

Lemma init_good cf m path ov c w :
  cfg_ok cf → drop_map_size cf ≤ 2 ^ 30 →
  vg_ctrl_init true true cf m path ov = Some (Some c) → start_world w → Good c w.
Proof.
  intros Hc Hs Hi ((bc & Hx & Ha) & H4 & H6 & _). unfold vg_ctrl_init in Hi.
  pose proof (ok_u32 _ Hc) as Hu. decompose_Forall_hyps.
  destruct (drops_init_spec (drop_map_size cf)) as (t & Et & Hrep & _ & _); [lia|].
  rewrite Et in Hi. cbn in Hi. injection Hi as <-. split; [|done].
  exists [], []. split_and!.
  - split; cbn; try done.
    + destruct (snap_init_spec (remote_map_size cf)) as (fr & Hsr & Hcap). split; [done|].
      by eexists _, _.
    + exists bc. by split.
    + by intros i ?%elem_of_nil.
  - by intros q ?%elem_of_nil.
  - intros q _ [v Hv]. unfold drop_fd in Hv.
    destruct (family q =? AF_INET); rewrite ?H4, ?H6, lookup_empty in Hv; done.
Qed.

(** Rule induction over runs. *)
Lemma reach_good s : reach s → Good s.1 s.2.
Proof.
  induction 1 as [cf m path ov c w Hc Hs Hi Hw|[c w] z s' _ IH E|[c w] evs sends r s' _ IH E
                 |c w pkt v w' _ IH Hb E|c w w' _ IH Hm]; cbn [fst snd] in *.
  - by eapply init_good.
  - eapply (wp_det _ (λ _ s', Good s'.1 s'.2)); [|exact E]. by apply keeps_stable; [apply tick_keeps|].
  - eapply (wp_det _ (λ _ s', Good s'.1 s'.2)); [|exact E]. by apply handle_stable.
  - destruct IH. split; [|done]. eapply Inv_same; [done|]. by eapply xdp_same.
  - destruct IH. split; [|done]. by eapply Inv_same.
Qed.

(** ** What the data plane does with the list *)

Definition pkt_family (i : pkt_info) : Z := if pi_v6 i then AF_INET6 else AF_INET.

Lemma pi_addrs_ok pkt i :
  bytes_ok pkt → ip_info pkt = Some i →
  addr_ok (pkt_family i) (pi_saddr i) ∧ addr_ok (pkt_family i) (pi_daddr i).
Proof.
  intros Hb. assert (∀ o n, bytes_ok (bn pkt o n)) as Hbn.
  { intros o n. revert o. induction n; intros o; constructor; [|apply IHn]. by apply b8_nonneg. }
  unfold ip_info. destruct (l3_info pkt) as [[p nh]|]; [|done].
  destruct (p =? VG_ETH_P_IP); [|destruct (p =? VG_ETH_P_IPV6); [|done]]; destruct (_ <? _); try done;
    intros [= <-]; unfold v4_info, v6_info.
  - repeat case_match; unfold pkt_family; cbn [pi_v6 pi_saddr pi_daddr];
      (split; (split; [by rewrite bn_length|apply Hbn])).
  - repeat case_match; unfold pkt_family; cbn [pi_v6 pi_saddr pi_daddr];
      (split; (split; [by rewrite bn_length|apply Hbn])).
Qed.

(** A trie key as a prefix. *)
Definition cidr_of_key (fam : Z) (k : lpm_key) : vg_cidr := Cidr fam (store16 k.2) k.1.

Lemma cidr_of_key_ok fam m k :
  fam = AF_INET ∨ fam = AF_INET6 → lpm_bits m = max_plen fam → key_ok m k →
  prefix_ok (cidr_of_key fam k) ∧ lpm_key_of (cidr_of_key fam k) = k.
Proof.
  intros Hf Hm (Hp & Hl & Hb & Hz). pose proof (addr_bytes_max _ Hf) as Hmax.
  assert (addr_ok fam k.2) as Ha by (split; [lia|done]).
  assert (prefix_ok (cidr_of_key fam k)) as Hpk.
  { split; [split|]; cbn [cidr_of_key family addr prefixlen].
    - done.
    - by eapply store16_length.
    - by apply store16_bytes.
    - lia.
    - intros i Hi. cbn in Hi. destruct (decide (i < 8 * addr_bytes fam)%nat).
      + rewrite <-(bit_at_take (addr_bytes fam)) by done. cbn [addr cidr_of_key].
        rewrite (take_store16 fam) by done. apply Hz. lia.
      + eapply store16_bits; [done|]. lia. }
  split; [done|]. rewrite lpm_key_eq by apply Hpk. cbn.
  rewrite (take_store16 fam) by done. by destruct k.
Qed.

Lemma drop_trie_bits i : lpm_bits (drop_trie i) = max_plen (pkt_family i).
Proof. unfold drop_trie, pkt_family. by destruct (pi_v6 i). Qed.

Lemma drop_trie_fd i q : family q = pkt_family i → drop_fd q = drop_trie i.
Proof. unfold drop_trie, pkt_family, drop_fd. intros ->. by destruct (pi_v6 i). Qed.

Lemma pkt_family_ok i : pkt_family i = AF_INET ∨ pkt_family i = AF_INET6.
Proof. unfold pkt_family. destruct (pi_v6 i); auto. Qed.

(** A hit in a drop trie is a map entry that covers the address. *)
Lemma drop_hit_entry i a w :
  addr_ok (pkt_family i) a →
  xdp_lpm_hit (drop_trie i) a w = true ↔
  ∃ q, prefix_ok q ∧ family q = pkt_family i ∧ in_map w q ∧ in_cidr q a.
Proof.
  intros [Hl Hb]. rewrite hit_iff.
  2:{ rewrite Hl, drop_trie_bits. apply addr_bytes_max, pkt_family_ok. }
  split.
  - intros (k & Hk & Hcov). assert (key_ok (drop_trie i) k) as Hok.
    { apply (keys_ok _ w). by apply keys_view. }
    destruct (cidr_of_key_ok (pkt_family i) (drop_trie i) k) as [Hp Ek];
      [apply pkt_family_ok|apply drop_trie_bits|done|].
    exists (cidr_of_key (pkt_family i) k). split_and!; [done|done| |].
    + unfold in_map. by rewrite Ek, (drop_trie_fd i).
    + rewrite <-key_covers_cidr by apply Hp. by rewrite Ek.
  - intros (q & Hp & Hf & Hm & Hin). exists (lpm_key_of q). split.
    + unfold in_map in Hm. by rewrite (drop_trie_fd i) in Hm.
    + apply key_covers_cidr; [apply Hp|done].
Qed.

(** A packet that hits an entry of an armed kernel, not exempt, is dropped. *)
Lemma entry_drops w q pkt i bc :
  prefix_ok q → in_map w q → bytes_ok pkt → ip_info pkt = Some i → family q = pkt_family i →
  in_cidr q (pi_saddr i) ∨ in_cidr q (pi_daddr i) →
  xdp_cfg w = Some bc → armed bc ≠ 0 → exempt bc i w = false →
  ∃ w', voidgate_xdp pkt w = Some (XDP_DROP, w').
Proof.
  intros Hq Hm Hb Hip Hf Haddr Hx Ha%Z.eqb_neq He.
  assert (must_drop pkt w = true) as Hmd.
  { unfold must_drop, armed_cfg. rewrite Hx, Ha, Hip, He. cbn [negb andb].
    destruct (pi_addrs_ok _ _ Hb Hip) as [Hs Hd]. unfold drop_hit. apply orb_true_iff.
    destruct Haddr as [Haddr|Haddr]; [left|right]; apply drop_hit_entry; try done; by eexists. }
  rewrite xdp_result_eq by done. unfold xdp_result. rewrite Hip, Hmd.
  unfold armed_cfg. rewrite Hx, Ha. by eexists.
Qed.

(** A packet between networks that no entry of the drop maps touches passes. *)
Lemma unprotected_passes cf w pkt i :
  cfg_ok cf → (∀ q, prefix_ok q → in_map w q → vg_cidr_is_protected cf q = false) →
  bytes_ok pkt → ip_info pkt = Some i →
  (∀ a, a = pi_saddr i ∨ a = pi_daddr i →
     ∃ q, q ∈ local_cidr cf ++ allow_cidr cf ∧ family q = pkt_family i ∧ in_cidr q a) →
  ∃ w', voidgate_xdp pkt w = Some (XDP_PASS, w').
Proof.
  intros Hok Hun Hb Hip Hprot. destruct (pi_addrs_ok _ _ Hb Hip) as [Hs Hd].
  assert (∀ a, a = pi_saddr i ∨ a = pi_daddr i → addr_ok (pkt_family i) a →
    xdp_lpm_hit (drop_trie i) a w = false) as Hmiss.
  { intros a Ha Haok. apply not_true_iff_false. intros Hhit.
    apply drop_hit_entry in Hhit as (q & Hq & Hf & Hm & Hin); [|done].
    pose proof (Hun q Hq Hm) as Hno. apply not_true_iff_false in Hno. apply Hno.
    apply protected_spec; [done|apply Hq|].
    destruct (Hprot a Ha) as (p & Hp & Hfp & Hinp). exists p. split_and!; [done|congruence|].
    exists a. rewrite Hf. done. }
  assert (must_drop pkt w = false) as Hmd.
  { unfold must_drop. rewrite Hip. unfold drop_hit.
    rewrite (Hmiss (pi_saddr i)), (Hmiss (pi_daddr i)) by auto. cbn [orb].
    destruct (armed_cfg w); [apply andb_false_r|done]. }
  rewrite xdp_result_eq by done. unfold xdp_result. rewrite Hip, Hmd.
  destruct (armed_cfg w); by eexists.
Qed.

(** Where no delete was refused the maps hold no protected prefix. *)
Lemma Good_unprotected c w q :
  Good c w → (∀ p, ¬ refused_key p w) → prefix_ok q → in_map w q →
  vg_cidr_is_protected (cfg c) q = false.
Proof.
  intros [(l & f & Hi & Hc & Ht) _] Hnr Hq Hm. apply not_true_iff_false. intros Hp.
  destruct (Ht q Hq Hm) as [Hql|Hrf]; [|by eapply Hnr]. by apply (Hnr q), Hc.
Qed.

(** ** Claims *)

(** C2: in every reachable state of the running system the self-check of the
    drop index passes, every listed drop has its map entry, a map entry that
    is not listed is one the kernel has refused to delete earlier in this
    run, a listed drop that overlaps a local or allowed network is another
    such entry, the kernel is armed exactly when the controller is active,
    and an idle controller lists nothing.  So in a run in which no delete was
    refused the listed drops are exactly the prefixes with a map entry, and
    none overlaps a local or allowed network. *)
Theorem reachable_consistent c w :
  reach (c, w) →
  ∃ l, drop_all_walk (drops c) = Some l ∧ vg_ctrl_drops_check (drops c) = Some 0
    ∧ (∀ p, p ∈ cidrs c l → in_map w p)
    ∧ (∀ p, prefix_ok p → in_map w p → p ∈ cidrs c l ∨ refused_key p w)
    ∧ (∀ p, p ∈ cidrs c l → vg_cidr_is_protected (cfg c) p = true → refused_key p w)
    ∧ ((∀ p, ¬ refused_key p w) →
       (∀ p, prefix_ok p → in_map w p ↔ p ∈ cidrs c l)
       ∧ ∀ p, p ∈ cidrs c l → vg_cidr_is_protected (cfg c) p = false)
    ∧ (∃ bc, xdp_cfg w = Some bc ∧ armed bc = state_word (state c))
    ∧ (state c = VG_IDLE → l = []).
Proof.
  intros Hr. apply reach_good in Hr as [(l & f & Hi & Hc & Ht) _]. cbn [fst snd] in *.
  assert (∀ p, p ∈ cidrs c l → in_map w p) as Hm.
  { intros p (r & -> & (i & -> & Hin)%list_elem_of_fmap)%list_elem_of_fmap. by apply Hi. }
  exists l. split; [eapply drop_all_walk_spec, Hi|]. split; [eapply drops_check_ok, Hi|].
  split; [done|]. split; [done|]. split; [done|]. split; [|split; apply Hi].
  intros Hnr. split.
  - intros p Hp. split; [|by apply Hm]. intros Hin. destruct (Ht p Hp Hin) as [|Hrf]; [done|by apply Hnr in Hrf].
  - intros p Hp. apply not_true_iff_false. intros Hpr. by apply (Hnr p), Hc.
Qed.

Lemma reach_progress s :
  reach s →
  (∃ z s', vg_ctrl_tick s = Some (z, s'))
  ∧ ∀ evs sends, ∃ r s', vg_ctl_server_handle evs sends s = Some (r, s').
Proof.
  intros Hr. apply reach_good in Hr. destruct s as [c w]. split.
  - destruct (keeps_stable _ tick_keeps c w Hr) as (z & s' & E & _). eauto.
  - intros evs sends. destruct (handle_stable Hdefaults evs sends c w Hr) as (r & s' & E & _). eauto.
Qed.

(** C15: the daemon never gets stuck: from every reachable state the tick and
    any request on the control socket run to completion. *)
Theorem reachable_progress s :
  reach s →
  (∃ z s', vg_ctrl_tick s = Some (z, s'))
  ∧ ∀ evs sends, ∃ r s', vg_ctl_server_handle evs sends s = Some (r, s').
Proof. apply reach_progress. Qed.

(** C3: a listed drop is enforced: in every reachable state a packet whose
    source or destination lies in a listed prefix, and that no exemption
    covers, is dropped by the XDP program. *)
Theorem listed_drop_enforced c w l r pkt i bc :
  reach (c, w) → drop_all_walk (drops c) = Some l → r ∈ recs c l →
  bytes_ok pkt → ip_info pkt = Some i → family (cidr r) = pkt_family i →
  in_cidr (cidr r) (pi_saddr i) ∨ in_cidr (cidr r) (pi_daddr i) →
  xdp_cfg w = Some bc → exempt bc i w = false →
  ∃ w', voidgate_xdp pkt w = Some (XDP_DROP, w').
Proof.
  intros Hr Hl Hin Hb Hip Hf Haddr Hx He.
  apply reach_good in Hr as [(l0 & f & Hi & _) _]. cbn [fst snd] in *.
  pose proof (drop_all_walk_spec _ _ _ _ (inv_rep _ _ _ _ Hi)) as El. simplify_eq.
  apply list_elem_of_fmap in Hin as (j & -> & Hj).
  destruct (inv_armed _ _ _ _ Hi) as (bc' & Hx' & Ha).
  assert (bc' = bc) as -> by congruence.
  assert (state c = VG_ACTIVE) as Hst.
  { destruct (state c) eqn:E; [|done]. apply (inv_idle _ _ _ _ Hi) in E as ->. by apply elem_of_nil in Hj. }
  eapply entry_drops; [by eapply inv_prefix|by eapply inv_map|done..| |done].
  by rewrite Ha, Hst.
Qed.

(** C4: local and allowed hosts are safe: no reachable state of a run in
    which the kernel has not refused a delete drops a packet between two
    addresses of local or allowed networks, whatever was dropped before by
    hand, by policy, by aggregation or through reloads. *)
Theorem protected_never_dropped c w pkt i :
  reach (c, w) → (∀ p, ¬ refused_key p w) →
  bytes_ok pkt → ip_info pkt = Some i →
  (∀ a, a = pi_saddr i ∨ a = pi_daddr i →
     ∃ q, q ∈ local_cidr (cfg c) ++ allow_cidr (cfg c) ∧ family q = pkt_family i ∧ in_cidr q a) →
  ∃ w', voidgate_xdp pkt w = Some (XDP_PASS, w').
Proof.
  intros Hr Hnr Hb Hip Hprot. apply reach_good in Hr. eapply unprotected_passes; [apply Hr| |done..].
  intros q. by eapply Good_unprotected.
Qed.
End Runs.
