(* ===== verification/Traced.v ===== *)
(** * The kernel between two calls of the daemon

    The XDP program runs while the controller works: it sees the maps as they
    are after any of the calls an operation makes, and as they stay when the
    daemon is killed there.  [tw K] is the kernel [K] that remembers every
    world it went through; it satisfies the same laws, running the code on it
    is running it on [K] ([era]), and a logic of paths says how the drop maps
    move along an operation: they grow first and shrink then. *)

From S2P Require Import Prelude Types CString Ipaddr IpaddrThms Config Kernel Maps MapsThms.
From S2P Require Import ConfigThms Lists DropTable DropThms Snap SnapThms Double Policy.
From S2P Require Import PolicyThms SweepThms TickThms Ctl CtlThms.
Import Dlist Hlist.
Open Scope Z_scope.

(** The world now, and every world since, oldest first. *)
Record tw (K : Type) := TW { cur : K; seen : list K }.
Arguments TW {_} _ _.
Arguments cur {_} _.
Arguments seen {_} _.

(** A call on the recorded world. *)
Definition on_cur {K A} (f : K → A * K) (t : tw K) : A * tw K :=
  ((f (cur t)).1, TW (f (cur t)).2 (seen t ++ [(f (cur t)).2])).

Definition store_cur {K} (f : K → K) (t : tw K) : tw K := TW (f (cur t)) (seen t ++ [f (cur t)]).

Section TracedKernel.
Context {K : Type} `{!Kernel K}.

#[export] Instance traced_kernel : Kernel (tw K) := {|
  bpf_lpm_update m k v := on_cur (bpf_lpm_update m k v);
  bpf_lpm_delete m k := on_cur (bpf_lpm_delete m k);
  bpf_lpm_next_key m o := on_cur (bpf_lpm_next_key m o);
  bpf_cfg_update c := on_cur (bpf_cfg_update c);
  bpf_metrics_read := on_cur bpf_metrics_read;
  bpf_hash_next_key h o := on_cur (bpf_hash_next_key h o);
  bpf_hash_read h k := on_cur (bpf_hash_read h k);
  sys_time := on_cur sys_time;
  sys_clock := on_cur sys_clock;
  xdp_cfg t := xdp_cfg (cur t);
  xdp_metrics t := xdp_metrics (cur t);
  xdp_metrics_store m := store_cur (xdp_metrics_store m);
  xdp_lpm_hit m a t := xdp_lpm_hit m a (cur t);
  xdp_hash_lookup h a t := xdp_hash_lookup h a (cur t);
  xdp_hash_update_noexist h a c := store_cur (xdp_hash_update_noexist h a c);
  xdp_hash_store h a c := store_cur (xdp_hash_store h a c);
  lpm_view m t := lpm_view m (cur t);
  lpm_keys m t := lpm_keys m (cur t);
  failed o m k t := failed o m k (cur t);
|}.

#[export] Instance traced_env `{!Env K} : Env (tw K) := {|
  read_config path := on_cur (read_config path);
  getifaddrs := on_cur getifaddrs;
|}.

Lemma on_cur_inv {A} (f : K → A * K) t a t' :
  on_cur f t = (a, t') → f (cur t) = (a, cur t') ∧ seen t' = seen t ++ [cur t'].
Proof. unfold on_cur. intros [= <- <-]. cbn. by destruct (f (cur t)). Qed.

#[export] Instance traced_laws `{!KernelLaws K} : KernelLaws (tw K).
Proof.
  split.
  - intros m k v t t' Hk [E _]%on_cur_inv. exact (update_ok m k v (cur t) (cur t') Hk E).
  - intros m k v t e t' [E _]%on_cur_inv. exact (update_fail m k v (cur t) e (cur t') E).
  - intros m k v t. apply (update_but m k v (cur t)).
  - intros m k v t e t' o m' k' [E _]%on_cur_inv. exact (update_past m k v (cur t) e (cur t') o m' k' E).
  - intros m k t t' Hk [E _]%on_cur_inv. exact (delete_ok m k (cur t) (cur t') Hk E).
  - intros m k t e t' [E _]%on_cur_inv. exact (delete_fail m k (cur t) e (cur t') E).
  - intros m k t e t' o m' k' [E _]%on_cur_inv. exact (delete_past m k (cur t) e (cur t') o m' k' E).
  - intros m k t. apply (delete_sub m k (cur t)).
  - intros m k t t' Hk [E _]%on_cur_inv. exact (delete_enoent m k (cur t) (cur t') Hk E).
  - intros m t. apply (keys_nodup m (cur t)).
  - intros m t. apply (keys_ok m (cur t)).
  - intros m t. apply (keys_view m (cur t)).
  - intros m t. apply (next_first m (cur t)).
  - intros m t. apply (next_after m (cur t)).
  - intros m o t. apply (next_same m o (cur t)).
  - intros c t t' [E _]%on_cur_inv. exact (cfg_update_ok c (cur t) (cur t') E).
  - intros c t e t' [E _]%on_cur_inv. exact (cfg_update_fail c (cur t) e (cur t') E).
  - intros c t. apply (cfg_update_tries c (cur t)).
  - intros c t. apply (cfg_update_past c (cur t)).
  - intros t. apply (metrics_same (cur t)).
  - intros h o t. apply (hash_key_ok h o (cur t)).
  - intros h o t. apply (hash_next_same h o (cur t)).
  - intros h k t. apply (hash_read_same h k (cur t)).
  - intros t. apply (time_same (cur t)).
  - intros t. apply (clock_same (cur t)).
  - intros m a t. apply (hit_iff m a (cur t)).
Qed.

#[export] Instance traced_env_laws `{!Env K} `{!EnvLaws K} : EnvLaws (tw K).
Proof.
  split.
  - intros path t. apply (read_config_same path (cur t)).
  - intros t. apply (getifaddrs_same (cur t)).
  - intros t. apply (getifaddrs_ok (cur t)).
Qed.
End TracedKernel.

(** ** Erasure: a run on the recording kernel is a run on the kernel *)
Section Erase.
Context {K : Type} `{!Kernel K} `{!Env K} {I : Inet}.

Definition erase {A} (r : option (A * tw K)) : option (A * K) :=
  match r with Some (a, t) => Some (a, cur t) | None => None end.

Definition erase_c {A T} (r : option (A * (T * tw K))) : option (A * (T * K)) :=
  match r with Some (a, (c, t)) => Some (a, (c, cur t)) | None => None end.

Definition kera {A} (mt : M (tw K) A) (m : M K A) : Prop := ∀ t, m (cur t) = erase (mt t).

Definition era {A T} (mt : M (T * tw K) A) (m : M (T * K) A) : Prop :=
  ∀ c t, m (c, cur t) = erase_c (mt (c, t)).

Lemma kera_ret {A} (a : A) : kera (mret a) (mret a).
Proof. by intros t. Qed.

Lemma kera_call {A} (f : K → A * K) : kera (call (on_cur f)) (call f).
Proof. intros t. unfold call, on_cur. cbn. by destruct (f (cur t)). Qed.

Lemma kera_gets {A} (f : K → A) : kera (gets (λ t, f (cur t))) (gets f).
Proof. by intros t. Qed.

Lemma kera_bind {A B} (mt : M (tw K) A) m (ft : A → M (tw K) B) f :
  kera mt m → (∀ a, kera (ft a) (f a)) → kera (mt ≫= ft) (m ≫= f).
Proof.
  intros Hm Hf t. unfold mbind, M_bind. rewrite Hm. destruct (mt t) as [[a t']|]; [|done].
  cbn. apply Hf.
Qed.

Lemma kera_none {A} : kera (λ _, None : option (A * tw K)) (λ _, None).
Proof. by intros t. Qed.

Lemma era_ret {A T} (a : A) : era (T := T) (mret a) (mret a).
Proof. by intros c t. Qed.

Lemma era_none {A T} : era (T := T) (λ _, None : option (A * (T * tw K))) (λ _, None).
Proof. by intros c t. Qed.

Lemma era_lift {A T} (o : option A) : era (T := T) (lift o) (lift o).
Proof. intros c t. unfold lift. by destruct o. Qed.

Lemma era_bind {A B T} (mt : M (T * tw K) A) m (ft : A → M (T * tw K) B) f :
  era mt m → (∀ a, era (ft a) (f a)) → era (mt ≫= ft) (m ≫= f).
Proof.
  intros Hm Hf c t. unfold mbind, M_bind. rewrite Hm. destruct (mt (c, t)) as [[a [c' t']]|]; [|done].
  cbn. apply Hf.
Qed.

Lemma era_liftK {A T} (mt : M (tw K) A) m : kera mt m → era (T := T) (liftK mt) (liftK m).
Proof. intros Hm c t. unfold liftK. cbn [fst snd]. rewrite Hm. by destruct (mt t) as [[a t']|]. Qed.

Lemma era_onK {A} (mt : M (tw K) A) m : kera mt m → era (onK mt) (onK m).
Proof. apply era_liftK. Qed.

Lemma era_getc {A} (g : vg_ctrl → A) : era (getc g) (getc g).
Proof. by intros c t. Qed.

Lemma era_modc g : era (modc g) (modc g).
Proof. by intros c t. Qed.

Lemma era_onD {A} (m : M drop_tab A) : era (onD m) (onD m).
Proof. intros c t. unfold onD. cbn [fst snd]. by destruct (m (drops c)) as [[]|]. Qed.

Lemma era_onS {A} (m : M snap_tab A) : era (onS m) (onS m).
Proof. intros c t. unfold onS. cbn [fst snd]. by destruct (m (snap c)) as [[]|]. Qed.
End Erase.

Create HintDb era.
#[export] Hint Resolve kera_ret kera_call kera_gets kera_none era_ret era_none era_lift
  era_getc era_modc era_onD era_onS : era.

(** Follows the two programs together. *)
Ltac era :=
  repeat first
    [ progress intros
    | solve [eauto with era]
    | match goal with
      | |- era (_ ≫= _) _ => apply era_bind
      | |- kera (_ ≫= _) _ => apply kera_bind
      | |- era (onK _) _ => apply era_onK
      | |- era (liftK _) _ => apply era_liftK
      | |- kera (call _) _ => apply kera_call
      | |- kera (gets _) _ => apply kera_gets
      | |- _ (if ?b then _ else _) _ => destruct b
      | |- _ (match ?b with _ => _ end) _ => destruct b
      end ].

Section EraseOps.
Context {K : Type} `{!Kernel K} `{!Env K} {I : Inet}.

Lemma era_commit a cf : kera (K := K) (vg_cfg_commit a cf) (vg_cfg_commit a cf).
Proof. unfold vg_cfg_commit. era. Qed.

Lemma era_drop_add_map p rs now : kera (K := K) (vg_drop_add p rs now) (vg_drop_add p rs now).
Proof. unfold vg_drop_add, lpm_update. era. Qed.

Lemma era_drop_del p : kera (K := K) (vg_drop_del p) (vg_drop_del p).
Proof. unfold vg_drop_del, lpm_delete. era. Qed.

Lemma era_flush_loop fuel m k : kera (K := K) (flush_loop fuel m k) (flush_loop fuel m k).
Proof. revert k. induction fuel as [|fuel IH]; intros k; cbn [flush_loop]; era. Qed.

Lemma era_flush m : kera (K := K) (flush_lpm m) (flush_lpm m).
Proof. unfold flush_lpm. era; apply era_flush_loop. Qed.

Lemma era_populate_loop fd4 fd6 l : kera (K := K) (populate_loop fd4 fd6 l) (populate_loop fd4 fd6 l).
Proof. induction l as [|p l IH]; cbn [populate_loop]; unfold lpm_update; era. Qed.

Lemma era_sum mp val rd : kera (K := K) (vg_sum_percpu mp (on_cur rd) val) (vg_sum_percpu mp rd val).
Proof. unfold vg_sum_percpu. era. Qed.

Lemma era_metrics mp : kera (K := K) (vg_metrics_read mp) (vg_metrics_read mp).
Proof. unfold vg_metrics_read. era. apply era_sum. Qed.

Hint Resolve era_commit era_drop_add_map era_drop_del era_flush era_populate_loop era_sum era_metrics : era.

Lemma era_drop_flush : kera (K := K) vg_drop_flush vg_drop_flush.
Proof. unfold vg_drop_flush. era. Qed.

Lemma era_populate_local cf : kera (K := K) (vg_populate_local cf) (vg_populate_local cf).
Proof. unfold vg_populate_local. era. Qed.

Lemma era_populate_allow cf : kera (K := K) (vg_populate_allow cf) (vg_populate_allow cf).
Proof. unfold vg_populate_allow. era. Qed.

Hint Resolve era_drop_flush era_populate_local era_populate_allow : era.

Lemma era_arm : era (K := K) vg_ctrl_arm vg_ctrl_arm.
Proof. unfold vg_ctrl_arm. era. Qed.

Lemma era_disarm : era (K := K) vg_ctrl_disarm vg_ctrl_disarm.
Proof. unfold vg_ctrl_disarm. era. Qed.

Hint Resolve era_arm era_disarm : era.

Lemma era_remove r : era (K := K) (drop_remove r) (drop_remove r).
Proof. unfold drop_remove, deref. era. Qed.

Lemma era_drop_add p rs exp : era (K := K) (drop_add p rs exp) (drop_add p rs exp).
Proof. unfold drop_add, drop_add_new, drop_add_again, deref. era. Qed.

Hint Resolve era_remove era_drop_add : era.

Lemma era_drop p rs : era (K := K) (vg_ctrl_drop p rs) (vg_ctrl_drop p rs).
Proof. apply era_drop_add. Qed.

Lemma era_drop_ttl p ttl : era (K := K) (vg_ctrl_drop_ttl p ttl) (vg_ctrl_drop_ttl p ttl).
Proof. unfold vg_ctrl_drop_ttl. era. Qed.

Lemma era_undrop p : era (K := K) (vg_ctrl_undrop p) (vg_ctrl_undrop p).
Proof. unfold vg_ctrl_undrop. era. Qed.

Hint Resolve era_drop era_drop_ttl era_undrop : era.

Lemma era_for_each fuel bt b pos n acc :
  (∀ i, era (bt i) (b i)) →
  era (K := K) (for_each_safe fuel bt pos n acc) (for_each_safe fuel b pos n acc).
Proof.
  intros Hb. revert pos n acc. induction fuel as [|fuel IH]; intros pos n acc; cbn [for_each_safe]; era.
Qed.

Lemma era_each bt b : (∀ i, era (bt i) (b i)) → era (K := K) (each_drop bt) (each_drop b).
Proof. intros Hb. unfold each_drop. era. by apply era_for_each. Qed.

Lemma era_prune : era (K := K) vg_ctrl_prune_protected vg_ctrl_prune_protected.
Proof. apply era_each. intros i. unfold prune_body, deref. era. Qed.

Lemma era_expire : era (K := K) expire_drops expire_drops.
Proof. unfold expire_drops. era. apply era_each. intros i. unfold expire_body, deref. era. Qed.

Lemma era_aggregate p : era (K := K) (maybe_aggregate p) (maybe_aggregate p).
Proof. unfold maybe_aggregate. era. Qed.

Hint Resolve era_prune era_expire era_aggregate : era.

Lemma era_remote dt fam a c : era (K := K) (policy_one_remote dt fam a c) (policy_one_remote dt fam a c).
Proof. unfold policy_one_remote. era. Qed.

Section Foreach.
Context {T : Type} (fnt : Z → list Z → host_counters → M (T * tw K) unit)
  (fn : Z → list Z → host_counters → M (T * K) unit) (Hfn : ∀ fam a c, era (fnt fam a c) (fn fam a c)).

Lemma era_foreach_loop turns mp h fam o :
  era (foreach_loop fnt turns mp h fam o) (foreach_loop fn turns mp h fam o).
Proof.
  revert o. induction turns as [|n IH]; intros o; cbn [foreach_loop]; era.
Qed.

Lemma era_foreach mp budget : era (vg_remote_foreach fnt mp budget) (vg_remote_foreach fn mp budget).
Proof. unfold vg_remote_foreach, foreach_family. era; apply era_foreach_loop. Qed.
End Foreach.

Lemma era_walk dt : era (K := K) (walk_remotes dt) (walk_remotes dt).
Proof. unfold walk_remotes, remote_foreach, maps_remote_walk. era. apply era_foreach. intros. apply era_remote. Qed.

Hint Resolve era_walk : era.

Lemma era_tick : era (K := K) vg_ctrl_tick vg_ctrl_tick.
Proof. unfold vg_ctrl_tick, tick_dt, log_drops, tick_idle, tick_quiet. era. Qed.

Lemma era_drops_loop fuel l text : era (K := K) (drops_loop fuel l text) (drops_loop fuel l text).
Proof.
  revert l text. induction fuel as [|fuel IH]; intros l text; cbn [drops_loop]; era.
Qed.

Lemma era_reload : era (K := K) vg_ctrl_reload vg_ctrl_reload.
Proof. unfold vg_ctrl_reload. era. Qed.

Hint Resolve era_drops_loop era_reload : era.

Lemma era_dispatch req : era (K := K) (dispatch req) (dispatch req).
Proof.
  unfold dispatch, vg_ctl_commands. cbn [dispatch_loop].
  unfold ctl_status, ctl_stats, ctl_drops, ctl_arm, ctl_disarm, ctl_drop, ctl_undrop, ctl_reload. era.
Qed.

Lemma era_handle evs sends :
  era (K := K) (vg_ctl_server_handle evs sends) (vg_ctl_server_handle evs sends).
Proof. unfold vg_ctl_server_handle. era. apply era_dispatch. Qed.
End EraseOps.
