(* ===== verification/TracedThms.v ===== *)
(** * How an operation moves the drop maps

    A logic of paths for code run on the recording kernel: [mvc R m] says
    that [m] keeps the configuration and that every world it goes through
    follows the last one by [R].  Adding drops only grows the drop maps, by
    prefixes that are not protected; expiry, undrop, disarm and reload only
    shrink them; a tick and a request do the first and then the second. *)

From S2P Require Import Prelude Types CString Ipaddr IpaddrThms Config Kernel Maps MapsThms.
From S2P Require Import ConfigThms Lists DropTable DropThms Snap SnapThms Double Policy.
From S2P Require Import PolicyThms SweepThms TickThms Ctl CtlThms Xdp XdpThms Traced.
Import Dlist Hlist.
Open Scope Z_scope.

Section Paths.
Context {K : Type} `{!Kernel K} `{!KernelLaws K}.
Implicit Types (w : K) (c : vg_ctrl) (t : tw K) (R : K → K → Prop).

(** From [w] over the worlds of [l], the last of which is [w']. *)
Fixpoint path R w (l : list K) w' : Prop :=
  match l with
  | [] => w' = w
  | x :: l => R w x ∧ path R x l w'
  end.

Lemma path_app R w1 l1 w2 l2 w3 : path R w1 l1 w2 → path R w2 l2 w3 → path R w1 (l1 ++ l2) w3.
Proof.
  revert w1. induction l1 as [|x l1 IH]; intros w1; cbn [path app]; [by intros ->|].
  intros [HR H1] H2. split; [done|]. by apply IH.
Qed.

(** What the relation preserves holds all along, and backwards. *)
Lemma path_forward R (J : K → Prop) w l w' :
  (∀ x y, R x y → J x → J y) → path R w l w' → J w → J w' ∧ ∀ x, x ∈ l → J x.
Proof.
  intros HJ. revert w. induction l as [|x l IH]; intros w; cbn [path].
  { intros -> Hw. split; [done|]. by intros x ?%elem_of_nil. }
  intros [HR Hp] Hw. destruct (IH x Hp) as [Hw' Hl]; [by eapply HJ|]. split; [done|].
  intros y [->|Hy]%elem_of_cons; [by eapply HJ|by apply Hl].
Qed.

Lemma path_backward R (J : K → Prop) w l w' :
  (∀ x y, R x y → J y → J x) → path R w l w' → J w' → J w ∧ ∀ x, x ∈ l → J x.
Proof.
  intros HJ. revert w. induction l as [|x l IH]; intros w; cbn [path].
  { intros -> Hw. split; [done|]. by intros x ?%elem_of_nil. }
  intros [HR Hp] Hw'. destruct (IH x Hp Hw') as [Hx Hl]. split; [by eapply HJ|].
  by intros y [->|Hy]%elem_of_cons; [|apply Hl].
Qed.

(** ** The two directions *)
Definition is_armed w : Prop := is_Some (armed_cfg w).

(** Nothing is lifted or disarmed, and what is added is not protected. *)
Record grow (cf : vg_config) w w' : Prop := {
  grow_keeps q : in_map w q → in_map w' q;
  grow_new q : prefix_ok q → in_map w' q → in_map w q ∨ vg_cidr_is_protected cf q = false;
  grow_armed : is_armed w → is_armed w';
}.

(** Nothing is dropped or armed. *)
Record shrink w w' : Prop := {
  shrink_keeps q : in_map w' q → in_map w q;
  shrink_armed : is_armed w' → is_armed w;
}.

Lemma armed_same w w' : xdp_cfg w' = xdp_cfg w → is_armed w' ↔ is_armed w.
Proof. unfold is_armed, armed_cfg. by intros ->. Qed.

Lemma grow_tries cf w w' : same_tries w w' → grow cf w w'.
Proof.
  intros Hs. pose proof (λ q, in_map_views w w' q (views_same_tries _ _ Hs)) as Hm.
  destruct Hs as [_ Hx]. split; [intros q; apply Hm|intros q _ ?; left; by apply Hm|].
  by apply armed_same.
Qed.

Lemma grow_same cf w w' : same_maps w w' → grow cf w w'.
Proof. intros H. by apply grow_tries, same_maps_tries. Qed.

Lemma shrink_same w w' : same_maps w w' → shrink w w'.
Proof.
  intros Hs. pose proof (λ q, in_map_views w w' q (views_same_of _ _ Hs)) as Hm.
  destruct Hs as (_ & Hx & _). split; [intros q; apply Hm|]. by apply armed_same.
Qed.

(** ** Computations on the recording kernel *)
Definition kmv {A} R (m : M (tw K) A) : Prop := ∀ t a t',
  m t = Some (a, t') → ∃ l, seen t' = seen t ++ l ∧ path R (cur t) l (cur t').

Definition mv {A} (P : vg_ctrl → tw K → Prop) R (m : M (vg_ctrl * tw K) A)
    (Q : A → vg_ctrl → tw K → Prop) : Prop := ∀ c t a c' t',
  P c t → m (c, t) = Some (a, (c', t')) →
  ∃ l, seen t' = seen t ++ l ∧ path R (cur t) l (cur t') ∧ Q a c' t'.

Definition mvc {A} (cf : vg_config) R (m : M (vg_ctrl * tw K) A) : Prop :=
  mv (λ c _, cfg c = cf) R m (λ _ c _, cfg c = cf).

Lemma mv_bind {A B} P R (m : M (vg_ctrl * tw K) A) (f : A → M (vg_ctrl * tw K) B) Q1 Q :
  mv P R m Q1 → (∀ a, mv (Q1 a) R (f a) Q) → mv P R (m ≫= f) Q.
Proof.
  intros Hm Hf c t b c' t' HP E. apply mbind_inv in E as (a & [c1 t1] & E1 & E2).
  destruct (Hm _ _ _ _ _ HP E1) as (l1 & S1 & P1 & H1).
  destruct (Hf _ _ _ _ _ _ H1 E2) as (l2 & S2 & P2 & H2).
  exists (l1 ++ l2). rewrite S2, S1, <-app_assoc. split_and!; [done|by eapply path_app|done].
Qed.

Lemma mv_conseq {A} (P P' : vg_ctrl → tw K → Prop) R (m : M (vg_ctrl * tw K) A) Q Q' :
  mv P' R m Q' → (∀ c t, P c t → P' c t) → (∀ a c t, Q' a c t → Q a c t) → mv P R m Q.
Proof.
  intros Hm HP HQ c t a c' t' Hp E. destruct (Hm _ _ _ _ _ (HP _ _ Hp) E) as (l & ? & ? & ?).
  exists l. auto.
Qed.

(** A total-correctness fact about the same code can be used along. *)
Lemma mv_wp {A} (P : vg_ctrl → tw K → Prop) R (m : M (vg_ctrl * tw K) A) Q Q' :
  mv P R m Q → (∀ c t, P c t → wp m (λ a s, Q' a s.1 s.2) (c, t)) →
  mv P R m (λ a c t, Q a c t ∧ Q' a c t).
Proof.
  intros Hm Hw c t a c' t' HP E. destruct (Hm _ _ _ _ _ HP E) as (l & ? & ? & ?).
  exists l. split_and!; try done. apply (wp_det _ _ _ _ _ (Hw _ _ HP) E).
Qed.

Lemma mv_ret {A} (a : A) (P : vg_ctrl → tw K → Prop) R Q :
  (∀ c t, P c t → Q a c t) → mv P R (mret a) Q.
Proof. intros H c t b c' t' HP [= <- <- <-]. exists []. rewrite app_nil_r.
  split_and!; [done|done|by apply H]. Qed.

Lemma mv_getc {A} (g : vg_ctrl → A) (P : vg_ctrl → tw K → Prop) R Q :
  (∀ c t, P c t → Q (g c) c t) → mv P R (getc g) Q.
Proof. intros H c t b c' t' HP [= <- <- <-]. exists []. rewrite app_nil_r.
  split_and!; [done|done|by apply H]. Qed.

Lemma mv_modc g (P : vg_ctrl → tw K → Prop) R Q :
  (∀ c t, P c t → Q tt (g c) t) → mv P R (modc g) Q.
Proof. intros H c t b c' t' HP [= <- <- <-]. exists []. rewrite app_nil_r.
  split_and!; [done|done|by apply H]. Qed.

(** A fact about a result, kept beside the state. *)
Lemma mv_pure {A} (φ : Prop) (P : vg_ctrl → tw K → Prop) R (m : M (vg_ctrl * tw K) A) Q :
  (φ → mv P R m Q) → mv (λ c t, φ ∧ P c t) R m Q.
Proof. intros H c t a c' t' [Hφ HP]. by apply H. Qed.

Lemma mvc_ret {A} cf R (a : A) : mvc cf R (mret a).
Proof. by apply mv_ret. Qed.

Lemma mvc_none {A} cf R : mvc cf R (λ _, None : option (A * (vg_ctrl * tw K))).
Proof. by intros c t a c' t' _. Qed.

Lemma mvc_getc {A} cf R (g : vg_ctrl → A) : mvc cf R (getc g).
Proof. by apply mv_getc. Qed.

Lemma mvc_modc cf R g : (∀ c, cfg (g c) = cfg c) → mvc cf R (modc g).
Proof. intros Hg. apply mv_modc. intros c t <-. apply Hg. Qed.

Lemma mvc_lift {A} cf R (o : option A) : mvc cf R (lift o).
Proof. unfold lift. destruct o; [apply mvc_ret|apply mvc_none]. Qed.

Lemma mvc_bind {A B} cf R (m : M (vg_ctrl * tw K) A) (f : A → M (vg_ctrl * tw K) B) :
  mvc cf R m → (∀ a, mvc cf R (f a)) → mvc cf R (m ≫= f).
Proof. intros Hm Hf. eapply mv_bind; [apply Hm|apply Hf]. Qed.

Lemma mvc_onD {A} cf R (m : M drop_tab A) : mvc cf R (onD m).
Proof.
  intros c t a c' t' HP. unfold onD. cbn [fst snd]. destruct (m (drops c)) as [[]|]; [|done].
  intros [= <- <- <-]. exists []. by rewrite app_nil_r.
Qed.

Lemma mvc_onS {A} cf R (m : M snap_tab A) : mvc cf R (onS m).
Proof.
  intros c t a c' t' HP. unfold onS. cbn [fst snd]. destruct (m (snap c)) as [[]|]; [|done].
  intros [= <- <- <-]. exists []. by rewrite app_nil_r.
Qed.

Lemma mvc_liftK {A} cf R (m : M (tw K) A) : kmv R m → mvc cf R (liftK m).
Proof.
  intros Hm c t a c' t' HP. unfold liftK. cbn [fst snd]. destruct (m t) as [[b t1]|] eqn:E; [|done].
  intros [= <- <- <-]. destruct (Hm _ _ _ E) as (l & ? & ?). by exists l.
Qed.

Lemma mvc_onK {A} cf R (m : M (tw K) A) : kmv R m → mvc cf R (onK m).
Proof. apply mvc_liftK. Qed.

Lemma kmv_ret {A} R (a : A) : kmv R (mret a).
Proof. intros t b t' [= <- <-]. exists []. by rewrite app_nil_r. Qed.

Lemma kmv_none {A} R : kmv R (λ _, None : option (A * tw K)).
Proof. by intros t b t'. Qed.

Lemma kmv_gets {A} R (f : tw K → A) : kmv R (gets f).
Proof. intros t b t' [= <- <-]. exists []. by rewrite app_nil_r. Qed.

Lemma kmv_bind {A B} R (m : M (tw K) A) (f : A → M (tw K) B) :
  kmv R m → (∀ a, kmv R (f a)) → kmv R (m ≫= f).
Proof.
  intros Hm Hf t b t' E. apply mbind_inv in E as (a & t1 & E1 & E2).
  destruct (Hm _ _ _ E1) as (l1 & S1 & P1). destruct (Hf _ _ _ _ E2) as (l2 & S2 & P2).
  exists (l1 ++ l2). rewrite S2, S1, <-app_assoc. split; [done|by eapply path_app].
Qed.

Lemma kmv_call {A} R (f : K → A * K) : (∀ w, R w (f w).2) → kmv R (call (on_cur f)).
Proof. intros Hf t a t' [= <- <-]. exists [(f (cur t)).2]. by cbn. Qed.

(** ** Calls that read *)
Section Reads.
Context (R : K → K → Prop) (HR : ∀ w w', same_maps w w' → R w w').

Lemma kmv_read {A} (f : K → A * K) : (∀ w, same_maps w (f w).2) → kmv R (call (on_cur f)).
Proof. intros Hf. apply kmv_call. intros w. apply HR, Hf. Qed.

Lemma kmv_time : kmv R (call sys_time).
Proof. apply kmv_read, time_same. Qed.

Lemma kmv_clock : kmv R (call sys_clock).
Proof. apply kmv_read, clock_same. Qed.

Lemma kmv_sum mp (rd : K → option (list Z) * K) sz :
  (∀ w, same_maps w (rd w).2) → kmv R (vg_sum_percpu mp (on_cur rd) sz).
Proof.
  intros Hr. unfold vg_sum_percpu. split_if; [apply kmv_ret|]. apply kmv_bind; [by apply kmv_read|].
  intros []; apply kmv_ret.
Qed.

Lemma kmv_metrics mp : kmv R (vg_metrics_read mp).
Proof.
  unfold vg_metrics_read. apply kmv_bind; [apply kmv_sum, metrics_same|]. intros. apply kmv_ret.
Qed.

Lemma mvc_foreach_loop cf fn n mp h fam o :
  (∀ k ctr, length k = hash_key_len h → bytes_ok k → mvc cf R (fn fam k ctr)) →
  mvc cf R (foreach_loop fn n mp h fam o).
Proof.
  intros Hfn. revert o. induction n as [|n IH]; intros o; cbn [foreach_loop]; [apply mvc_ret|].
  apply (mv_bind _ _ _ _ (λ k c _, (∀ x, k = Some x → length x = hash_key_len h ∧ bytes_ok x) ∧ cfg c = cf)).
  - intros c t a c' t' Hc [= <- <- <-]. exists [(bpf_hash_next_key h o (cur t)).2].
    split; [done|]. split; [split; [by apply HR, hash_next_same|done]|]. split; [|done].
    intros x. apply hash_key_ok.
  - intros [k|]; apply mv_pure; intros Hk; [|by apply mvc_ret]. destruct (Hk k eq_refl) as [Hl Hb].
    apply mvc_bind; [apply mvc_liftK, kmv_sum, hash_read_same|]. intros s.
    apply mvc_bind; [destruct s; [by apply Hfn|apply mvc_ret]|]. intros _. apply IH.
Qed.

Lemma mvc_foreach cf fn mp budget :
  (∀ fam k ctr, fam = AF_INET ∨ fam = AF_INET6 → addr_ok fam k → mvc cf R (fn fam k ctr)) →
  mvc cf R (vg_remote_foreach fn mp budget).
Proof.
  intros Hfn.
  assert (∀ h fam b, fam = AF_INET ∨ fam = AF_INET6 → hash_key_len h = addr_bytes fam →
    mvc cf R (foreach_family fn mp h fam b)) as Hfam.
  { intros h fam b Hf Hh. unfold foreach_family. apply mvc_bind.
    { apply mvc_foreach_loop. intros k ctr Hl Hb. apply Hfn; [done|]. split; [congruence|done]. }
    intros [o full]. split_if; [apply mvc_ret|]. apply mvc_bind; [|intros; apply mvc_ret].
    apply mvc_liftK, kmv_read, hash_next_same. }
  unfold vg_remote_foreach. apply mvc_bind; [apply Hfam; [by left|done]|]. intros c4.
  apply mvc_bind; [apply Hfam; [by right|done]|]. intros c6. apply mvc_ret.
Qed.
End Reads.

(** ** Leaves *)
Lemma kmv_update cf p v :
  prefix_ok p → vg_cidr_is_protected cf p = false → kmv (grow cf) (lpm_update (drop_fd p) p v).
Proof.
  intros Hp Hpr. apply kmv_call. intros w.
  destruct (bpf_lpm_update (drop_fd p) (lpm_key_of p) v w) as [e w'] eqn:E. cbn [snd].
  destruct (decide (e = 0)) as [->|He]; [|by apply grow_tries; eapply update_fail].
  apply update_ok in E as [Hv [Hb Hx]]; [|by apply lpm_key_ok, drop_fd_fits, Hp].
  assert (map_added w w' p v) as Ha by (split_and!; [done|intros m ?; by apply Hb|done]).
  split.
  - intros q Hq. unfold in_map in *. destruct (decide (drop_fd q = drop_fd p)) as [Ef|Ef].
    + rewrite Ef, Hv. rewrite Ef in Hq. destruct (decide (lpm_key_of p = lpm_key_of q)) as [->|].
      * rewrite lookup_insert_eq. by eexists.
      * by rewrite lookup_insert_ne.
    + destruct Ha as (_ & Hm & _). by rewrite Hm.
  - intros q Hq Hm. assert (views_added w w' p v) as Hva by (by destruct Ha as (? & ? & _)).
    destruct (in_map_vadded w w' p v q Hva Hp Hq Hm) as [?| ->]; auto.
  - by apply armed_same.
Qed.

Lemma kmv_delete m k : kmv shrink (call (bpf_lpm_delete m k)).
Proof.
  apply kmv_call. intros w. destruct (delete_sub m k w) as [Hs [Hb Hx]]. split.
  - intros q [v Hv]. unfold in_map. destruct (decide (drop_fd q = m)) as [<-|Hm].
    + exists v. by eapply lookup_weaken.
    + destruct (Hb _ Hm) as [<- _]. by eexists.
  - by apply armed_same.
Qed.

Lemma kmv_flush_loop fuel m k : kmv shrink (flush_loop fuel m k).
Proof.
  revert k. induction fuel as [|fuel IH]; intros k; cbn [flush_loop]; [apply kmv_none|].
  apply kmv_bind; [apply (kmv_read _ shrink_same), next_same|]. intros nx.
  apply kmv_bind; [apply kmv_delete|]. intros _. destruct nx; [apply IH|apply kmv_ret].
Qed.

Lemma kmv_flush m : kmv shrink (flush_lpm m).
Proof.
  unfold flush_lpm. apply kmv_bind; [apply kmv_gets|]. intros n.
  apply kmv_bind; [apply (kmv_read _ shrink_same), next_same|]. intros [k|]; [apply kmv_flush_loop|apply kmv_ret].
Qed.

(** A commit leaves the tries alone. *)
Lemma commit_step a cf w : ∀ q, in_map (bpf_cfg_update (bpf_cfg_of a cf) w).2 q ↔ in_map w q.
Proof. intros q. apply in_map_views. intros m. apply cfg_update_tries. Qed.

Lemma commit_cases a cf w :
  let w' := (bpf_cfg_update (bpf_cfg_of a cf) w).2 in
  (is_armed w' ↔ is_armed w) ∨ (is_armed w' ↔ a ≠ 0).
Proof.
  destruct (bpf_cfg_update (bpf_cfg_of a cf) w) as [e w'] eqn:E. cbn [snd].
  destruct (decide (e = 0)) as [->|He].
  - right. apply cfg_update_ok in E. unfold is_armed, armed_cfg. rewrite E. cbn [armed bpf_cfg_of].
    destruct (a =? 0) eqn:Ea; breflect; split; (done || by intros []).
  - left. apply armed_same. by eapply cfg_update_fail.
Qed.

Lemma kmv_commit_grow cf0 cf : kmv (grow cf0) (vg_cfg_commit 1 cf).
Proof.
  apply kmv_call. intros w. pose proof (commit_step 1 cf w) as Hq.
  split; [intros q; apply Hq|intros q _ ?; left; by apply Hq|].
  destruct (commit_cases 1 cf w) as [H|H]; rewrite H; [done|lia].
Qed.

Lemma kmv_commit_shrink cf : kmv shrink (vg_cfg_commit 0 cf).
Proof.
  apply kmv_call. intros w. split; [intros q; apply commit_step|].
  destruct (commit_cases 0 cf w) as [H|H]; rewrite H; [done|by intros []].
Qed.

(** ** Operations *)
Create HintDb mv.
Hint Resolve mvc_ret mvc_none mvc_getc mvc_lift mvc_onD mvc_onS : mv.

(** Follows a computation, the configuration kept. *)
Ltac mvc :=
  repeat first
    [ progress intros
    | solve [eauto with mv]
    | match goal with
      | |- mvc _ _ (_ ≫= _) => apply mvc_bind
      | |- mvc _ _ (onK _) => apply mvc_onK
      | |- mvc _ _ (modc _) => apply mvc_modc
      | |- context [if ?b then _ else _] => destruct b
      | |- context [match ?b with _ => _ end] => destruct b
      end ].

Section Grow.
Context (cf : vg_config).
Let time_grow : kmv (grow cf) (call sys_time) := kmv_time _ (grow_same cf).
Hint Resolve time_grow kmv_commit_grow : mv.

Lemma arm_grows : mvc cf (grow cf) vg_ctrl_arm.
Proof. unfold vg_ctrl_arm. mvc; done. Qed.
Hint Resolve arm_grows : mv.

(** Only prefixes that are not protected are added. *)
Lemma drop_add_grows p rs exp : prefix_ok p → mvc cf (grow cf) (drop_add p rs exp).
Proof.
  intros Hp. unfold drop_add. apply mvc_bind; [mvc|]. intros now.
  eapply (mv_bind _ _ _ _ (λ a c _, a = cf ∧ cfg c = cf)); [by apply mv_getc|]. intros cf'.
  apply mv_pure. intros ->.
  destruct (vg_cidr_is_protected cf p) eqn:Hpr; [apply mvc_ret|].
  assert (∀ v, kmv (grow cf) (lpm_update (drop_fd p) p v)) as Hu by (intros; by apply kmv_update).
  match goal with |- mv _ _ ?m _ => change (mvc cf (grow cf) m) end.
  unfold drop_add_new, drop_add_again, deref, vg_drop_add. mvc; done.
Qed.

Lemma drop_grows p rs : prefix_ok p → mvc cf (grow cf) (vg_ctrl_drop p rs).
Proof. apply drop_add_grows. Qed.

Lemma drop_ttl_grows p ttl : prefix_ok p → mvc cf (grow cf) (vg_ctrl_drop_ttl p ttl).
Proof. intros Hp. unfold vg_ctrl_drop_ttl. mvc. by apply drop_add_grows. Qed.

Lemma aggregate_grows host :
  prefix_ok host → prefixlen host = max_plen (family host) → mvc cf (grow cf) (maybe_aggregate host).
Proof.
  intros Hp Hpl. unfold maybe_aggregate. destruct (aggregate_net host) as [net|] eqn:E; mvc.
  apply drop_grows. by eapply aggregate_net_ok.
Qed.

Lemma remote_grows dt fam a ctr :
  fam = AF_INET ∨ fam = AF_INET6 → addr_ok fam a → mvc cf (grow cf) (policy_one_remote dt fam a ctr).
Proof.
  intros Hf Ha. unfold policy_one_remote. mvc; try done.
  - by apply drop_grows, host_cidr_ok.
  - by apply aggregate_grows; [apply host_cidr_ok|apply host_cidr_plen].
Qed.

Lemma walk_grows dt : mvc cf (grow cf) (walk_remotes dt).
Proof.
  unfold walk_remotes, remote_foreach, maps_remote_walk. mvc; try done; apply (mvc_foreach _ (grow_same cf)); intros; by apply remote_grows.
Qed.
End Grow.

Section Shrink.
Context (cf : vg_config).
Let time_shrink : kmv shrink (call sys_time) := kmv_time _ shrink_same.
Hint Resolve time_shrink kmv_commit_shrink : mv.

Lemma remove_shrinks r : mvc cf shrink (drop_remove r).
Proof. unfold drop_remove, deref, vg_drop_del, lpm_delete. mvc. apply kmv_delete. Qed.
Hint Resolve remove_shrinks : mv.

Lemma undrop_shrinks p : mvc cf shrink (vg_ctrl_undrop p).
Proof. unfold vg_ctrl_undrop, vg_drop_del, lpm_delete. mvc. apply kmv_delete. Qed.

Lemma each_shrinks body : (∀ i, mvc cf shrink (body i)) → mvc cf shrink (each_drop body).
Proof.
  intros Hb. unfold each_drop. mvc. generalize (walk_fuel a) at 1. intros fuel.
  generalize 0 as acc. revert a0 a1. induction fuel as [|fuel IH]; intros pos n acc; cbn [for_each_safe]; mvc.
Qed.

Lemma prune_shrinks : mvc cf shrink vg_ctrl_prune_protected.
Proof. apply each_shrinks. intros i. unfold prune_body, deref. mvc. Qed.

Lemma expire_shrinks : mvc cf shrink expire_drops.
Proof. unfold expire_drops. mvc. apply each_shrinks. intros i. unfold expire_body, deref. mvc. Qed.

Lemma disarm_shrinks : mvc cf shrink vg_ctrl_disarm.
Proof.
  unfold vg_ctrl_disarm, vg_drop_flush. mvc; try done. apply kmv_bind; intros; apply kmv_flush.
Qed.
Hint Resolve disarm_shrinks : mv.

Lemma quiet_shrinks : mvc cf shrink tick_quiet.
Proof. unfold tick_quiet. mvc; done. Qed.
End Shrink.

(** ** Two phases *)

(** From [P], the drop maps grow and then shrink. *)
Definition two_phase {A} cf (P : vg_ctrl → tw K → Prop) (m : M (vg_ctrl * tw K) A) : Prop :=
  ∀ c t a c' t', P c t → m (c, t) = Some (a, (c', t')) →
  ∃ l1 wm l2, seen t' = seen t ++ l1 ++ l2 ∧ path (grow cf) (cur t) l1 wm ∧ path shrink wm l2 (cur t').

Lemma two_shrink {A} cf P Q (m : M (vg_ctrl * tw K) A) : mv P shrink m Q → two_phase cf P m.
Proof.
  intros Hm c t a c' t' HP E. destruct (Hm _ _ _ _ _ HP E) as (l & ? & ? & _).
  by exists [], (cur t), l.
Qed.

Lemma two_grow {A} cf P Q (m : M (vg_ctrl * tw K) A) : mv P (grow cf) m Q → two_phase cf P m.
Proof.
  intros Hm c t a c' t' HP E. destruct (Hm _ _ _ _ _ HP E) as (l & ? & ? & _).
  exists l, (cur t'), []. by rewrite app_nil_r.
Qed.

Lemma two_bind {A B} cf P Q (m : M (vg_ctrl * tw K) A) (f : A → M (vg_ctrl * tw K) B) :
  mv P (grow cf) m Q → (∀ a, two_phase cf (Q a) (f a)) → two_phase cf P (m ≫= f).
Proof.
  intros Hm Hf c t b c' t' HP E. apply mbind_inv in E as (a & [c1 t1] & E1 & E2).
  destruct (Hm _ _ _ _ _ HP E1) as (l & S1 & P1 & H1).
  destruct (Hf _ _ _ _ _ _ H1 E2) as (l1 & wm & l2 & S2 & P2 & P3).
  exists (l ++ l1), wm, l2. rewrite S2, S1, !app_assoc. split_and!; [done|by eapply path_app|done].
Qed.

Lemma two_then {A B} cf P (m : M (vg_ctrl * tw K) A) (g : A → B) :
  two_phase cf P m → two_phase cf P (a ← m; mret (g a)).
Proof.
  intros Hm c t b c' t' HP E. apply mbind_inv in E as (a & [c1 t1] & E1 & [= <- <- <-]).
  by apply (Hm _ _ _ _ _ HP E1).
Qed.

Lemma two_pre {A} cf (P P' : vg_ctrl → tw K → Prop) (m : M (vg_ctrl * tw K) A) :
  two_phase cf P' m → (∀ c t, P c t → P' c t) → two_phase cf P m.
Proof. intros Hm HP c t a c' t' Hp. by apply Hm, HP. Qed.

Lemma tick_dt_grows cf : mvc cf (grow cf) tick_dt.
Proof. unfold tick_dt. mvc; try done. apply kmv_clock, grow_same. Qed.

Lemma tick_idle_grows cf : mvc cf (grow cf) tick_idle.
Proof. unfold tick_idle. mvc. apply arm_grows. Qed.

(** A tick adds what the remotes call for, then lifts what has expired and
    may disarm. *)
Lemma tick_two cf : two_phase cf (λ c _, cfg c = cf) vg_ctrl_tick.
Proof.
  unfold vg_ctrl_tick. eapply two_bind; [apply tick_dt_grows|]. intros dt. eapply two_bind; [by apply mvc_modc|]. intros ?.
  eapply two_bind; [apply mvc_getc|]. intros mp.
  eapply two_bind; [apply mvc_onK, kmv_metrics, grow_same|]. intros [m|]; [|eapply two_grow, mvc_ret].
  eapply two_bind; [apply mvc_getc|]. intros l. eapply two_bind.
  { apply mvc_modc. intros c. unfold tick_rates. by repeat case_match. }
  intros ?. eapply two_bind; [by apply mvc_modc|]. intros ?.
  destruct (fle dt d0); [eapply two_grow, mvc_ret|]. eapply two_bind; [apply mvc_getc|]. intros st.
  case_bool_decide.
  - eapply two_grow, tick_idle_grows.
  - eapply two_bind; [apply walk_grows|]. intros ?. eapply two_shrink.
    apply mvc_bind; [apply expire_shrinks|]. intros ?. apply quiet_shrinks.
Qed.
End Paths.

(** ** The control socket *)
Section CtlPaths.
Context {K : Type} `{!Kernel K} `{!KernelLaws K} `{!Env K} `{!EnvLaws K} {I : Inet} `{!InetLaws I}.
Implicit Types (w : K) (c : vg_ctrl) (t : tw K).

(** The invariant that links the controller to the kernel. *)
Definition linked c t : Prop := ∃ l f, inv c t l f.

Lemma linked_read {A} (f : K → A * K) :
  (∀ w, same_maps w (f w).2) →
  mv linked shrink (onK (call (on_cur f))) (λ _, linked).
Proof.
  intros Hf c t a c' t' (l & fr & Hi) [= <- <- <-]. exists [(f (cur t)).2]. split; [done|].
  split; [split; [apply shrink_same, Hf|done]|]. exists l, fr.
  eapply inv_same; [exact Hi|]. apply (Hf (cur t)).
Qed.

Lemma linked_prune : mv linked shrink vg_ctrl_prune_protected (λ _, linked).
Proof.
  intros c t a c' t' Hl E.
  destruct (prune_shrinks (cfg c) c t a c' t' eq_refl E) as (l & ? & ? & _).
  exists l. split_and!; [done..|]. destruct Hl as (ls & f & Hi).
  pose proof (prune_protected_spec c t ls f Hi) as Hw. eapply wp_det in Hw; [|exact E].
  destruct Hw as (l' & f' & Hi' & _). cbn [fst snd app] in Hi'. by exists l', f'.
Qed.

(** A commit of the word of the current state does not arm. *)
Lemma linked_commit st cf :
  mv (λ c t, st = state c ∧ linked c t) shrink
    (onK (vg_cfg_commit (if bool_decide (st = VG_ACTIVE) then 1 else 0) cf)) (λ _ _ _, True).
Proof.
  intros c t a c' t' [-> (l & f & Hi)] [= <- <- <-]. eexists [_]. split; [done|]. split; [|done].
  split; [|done]. split; [intros q; apply commit_step|].
  destruct (inv_armed _ _ _ _ Hi) as (bc & Hx & Ha). change (xdp_cfg (cur t) = Some bc) in Hx.
  destruct (commit_cases (if bool_decide (state c = VG_ACTIVE) then 1 else 0) cf (cur t)) as [H|H]; rewrite H; [done|].
  unfold is_armed, armed_cfg. rewrite Hx, Ha. by destruct (state c).
Qed.

Lemma kmv_populate_loop fd4 fd6 l :
  fd4 ≠ drop_v4 → fd4 ≠ drop_v6 → fd6 ≠ drop_v4 → fd6 ≠ drop_v6 →
  kmv (K := K) shrink (populate_loop fd4 fd6 l).
Proof.
  intros H1 H2 H3 H4. induction l as [|p l IH]; cbn [populate_loop]; [apply kmv_ret|].
  apply kmv_bind; [|intros _; apply IH]. apply kmv_call. intros w.
  set (m := if family p =? AF_INET then fd4 else fd6).
  assert (∀ q, drop_fd q ≠ m) as Hm.
  { intros q. unfold m, drop_fd. by destruct (family p =? AF_INET), (family q =? AF_INET). }
  destruct (update_but m (lpm_key_of p) (VByte 1) w) as [Hb Hx]. split; [|by apply armed_same].
  intros q. unfold in_map. by destruct (Hb _ (Hm q)) as [-> _].
Qed.

Lemma kmv_populate fd4 fd6 l :
  fd4 ≠ drop_v4 → fd4 ≠ drop_v6 → fd6 ≠ drop_v4 → fd6 ≠ drop_v6 →
  kmv (K := K) shrink (_ ← flush_lpm fd4; _ ← flush_lpm fd6; populate_loop fd4 fd6 l).
Proof.
  intros. apply kmv_bind; [apply kmv_flush|]. intros _.
  apply kmv_bind; [apply kmv_flush|]. intros _. by apply kmv_populate_loop.
Qed.

Lemma mv_any {A} P R (m : M (tw K) A) : kmv R m → mv P R (onK m) (λ _ _ _, True).
Proof.
  intros Hm c t a c' t' _ E. destruct (mvc_onK (cfg c) R m Hm c t a c' t' eq_refl E) as (l & ? & ? & _).
  by exists l.
Qed.

Lemma reload_shrinks : mv linked shrink vg_ctrl_reload (λ _ _ _, True).
Proof.
  unfold vg_ctrl_reload.
  eapply (mv_bind _ _ _ _ (λ _, linked)); [by apply mv_getc|]. intros c0.
  case_bool_decide; [by apply mv_ret|].
  eapply mv_bind; [apply linked_read, read_config_same|]. intros file.
  destruct (vg_config_load file) as [n|]; [|by apply mv_ret].
  eapply (mv_bind _ _ _ _ (λ _, linked)).
  { destruct (auto_local _); [apply linked_read, getifaddrs_same|by apply mv_ret]. }
  intros ifa. destruct (vg_config_auto_local _ ifa) as [n2|]; [|by apply mv_ret].
  eapply (mv_bind _ _ _ _ (λ _, linked)).
  { apply mv_modc. intros c t (l & f & Hi). exists l, f. eapply inv_ext; try done. apply Hi. }
  intros ?. eapply mv_bind; [apply linked_prune|]. intros k.
  eapply mv_bind; [by apply (mv_getc _ _ _ (λ a c t, a = state c ∧ linked c t))|]. intros st.
  eapply mv_bind; [apply linked_commit|]. intros e. destruct (negb (e =? 0)); [by apply mv_ret|].
  eapply mv_bind; [by apply mv_any, kmv_populate|]. intros ?.
  eapply mv_bind; [by apply mv_any, kmv_populate|]. intros ?. by apply mv_ret.
Qed.

Lemma drops_loop_grows cf fuel l text : mvc (K := K) cf (grow cf) (drops_loop fuel l text).
Proof.
  pose proof (kmv_time _ (grow_same (K := K) cf)) as Ht.
  revert l text. induction fuel as [|fuel IH]; intros l text; cbn [drops_loop];
    (split_if; [apply mvc_ret|]); [apply mvc_none|].
  apply mvc_bind; [apply mvc_getc|]. intros d. apply mvc_bind; [apply mvc_lift|]. intros i.
  apply mvc_bind; [apply mvc_lift|]. intros r. apply mvc_bind; [by apply mvc_onK|]. intros now.
  apply mvc_bind; [apply mvc_lift|]. intros nx. apply IH.
Qed.

(** A request, from a state whose configuration is [cf]. *)
Definition ready cf c t : Prop := cfg c = cf ∧ linked c t.

Lemma two_ready {A} cf (m : M (vg_ctrl * tw K) A) :
  two_phase cf (λ c _, cfg c = cf) m → two_phase cf (ready cf) m.
Proof. intros Hm. eapply two_pre; [exact Hm|]. by intros c t []. Qed.

Lemma dispatch_two cf req : two_phase (K := K) cf (ready cf) (dispatch req).
Proof.
  assert (∀ A (a : A), two_phase (K := K) cf (ready cf) (mret a)) as Hret.
  { intros A a. apply two_ready. eapply two_grow, mvc_ret. }
  unfold dispatch. cbn [dispatch_loop vg_ctl_commands].
  repeat (split_if; [|]); try apply Hret.
  - apply two_ready. eapply two_grow. apply mvc_bind; [apply mvc_getc|]. intros. apply mvc_ret.
  - apply two_ready. eapply two_grow. unfold ctl_stats.
    apply mvc_bind; [apply mvc_getc|]. intros c0.
    apply mvc_bind; [apply mvc_onK, kmv_metrics, grow_same|]. intros []; apply mvc_ret.
  - apply two_ready. eapply two_grow. unfold ctl_drops. apply mvc_bind; [apply mvc_getc|]. intros d.
    split_if; [apply mvc_ret|]. apply mvc_bind; [apply mvc_lift|]. intros l.
    apply mvc_bind; [apply drops_loop_grows|]. intros text. apply mvc_ret.
  - apply two_ready, two_then. eapply two_grow, arm_grows.
  - apply two_ready, two_then. eapply two_shrink, disarm_shrinks.
  - unfold ctl_drop. destruct (vg_parse_cidr_len _) as [p|] eqn:Ep; [|apply Hret].
    apply parse_prefix_ok in Ep.
    destruct (match strchr 32 _ with Some (_, rest) => parse_ttl rest | None => Some 0 end)
      as [ttl|]; [|apply Hret].
    apply two_ready, two_then. eapply two_grow.
    split_if; [by apply drop_ttl_grows|by apply drop_grows].
  - unfold ctl_undrop. destruct (vg_parse_cidr _) as [p|]; [|apply Hret].
    apply two_ready, two_then. eapply two_shrink, undrop_shrinks.
  - apply two_then. eapply two_pre; [eapply two_shrink, reload_shrinks|]. by intros c t [].
Qed.

Lemma handle_two cf evs sends : two_phase (K := K) cf (ready cf) (vg_ctl_server_handle evs sends).
Proof.
  unfold vg_ctl_server_handle. destruct (recv evs []); try (apply two_ready; eapply two_grow, mvc_ret).
  apply two_then, dispatch_two.
Qed.

(** A listed prefix is in force. *)
Lemma Good_listed c w l r :
  Good c w → drop_all_walk (drops c) = Some l → r ∈ recs c l →
  prefix_ok (cidr r) ∧ in_map w (cidr r) ∧ is_armed w.
Proof.
  intros [(l0 & f & Hi & _) _] Hl (j & -> & Hj)%list_elem_of_fmap.
  pose proof (drop_all_walk_spec _ _ _ _ (inv_rep _ _ _ _ Hi)) as El. simplify_eq.
  split_and!; [by eapply inv_prefix|by eapply inv_map|].
  destruct (inv_armed _ _ _ _ Hi) as (bc & Hx & Ha). unfold is_armed, armed_cfg. rewrite Hx, Ha.
  destruct (state c) eqn:Es; [|by eexists]. apply (inv_idle _ _ _ _ Hi) in Es as ->. by apply elem_of_nil in Hj.
Qed.
End CtlPaths.
