(* ===== verification/DetectMain.v ===== *)
(** * Detection: main theorem

    A remote that floods an active gate is listed by the next tick, and its
    packets are dropped until the daemon changes the maps again. *)

From S2P Require Import Prelude Types Ipaddr IpaddrThms Config ConfigThms Kernel Maps MapsThms Lists.
From S2P Require Import DropTable DropThms Snap SnapThms Double Policy PolicyThms SweepThms TickThms.
From S2P Require Import PolicyMain PolicyRate Xdp XdpThms MapsMain Detect System TracedThms.
Open Scope Z_scope.

Section Flood.
Context {K : Type} `{!Kernel K} `{!KernelLaws K} `{!XdpLaws K} `{!Calm K}.
Implicit Types (w : K) (c : vg_ctrl).

(** The time of a tick, as [tick_dt] computes it. *)
Definition seconds_between (l now : timespec) : double :=
  fadd (of_int (tv_sec now - tv_sec l)) (fdiv (of_int (tv_nsec now - tv_nsec l)) d1e9).

(** The remote [a] floods: the gate is active and has a snapshot of [a];
    whatever the walk reads of its counters, they grew since by a rate over a
    threshold.  Its prefix is neither listed nor protected, the walk gets as
    far as [a], and pool and tries have room for two drops (host and network)
    of every remote.  The tick takes less than the ban time. *)
Record flooding (sc : scene) (cpus fam : Z) (a : list Z) c w : Prop := {
  fl_inv : Inv c w;
  fl_active : state c = VG_ACTIVE;
  fl_maps : maps c = maps_open_sizes cpus;
  fl_family : fam = AF_INET ∨ fam = AF_INET6;
  fl_addr : addr_ok fam a;
  fl_unlisted : drops_find (host_cidr fam a) (drops c) = Some (None, drops c);
  fl_unprotected : vg_cidr_is_protected (cfg c) (host_cidr fam a) = false;
  fl_visited : a ∈ take (Z.to_nat (walk_budget (cfg c))) (sc_keys sc (remote_of fam));
  fl_grew : ∃ t p b g, last_tick c = Some t ∧ snap_seen (snap c) fam a = Some (p, b, g)
    ∧ let dt := seconds_between t (sys_clock w).1 in
      fle dt d0 = false
      ∧ ∀ buf, sc_reads sc (remote_of fam) a buf → grew p b (cfg c) dt (read_counters cpus buf);
  fl_gen : u32 (snap_gen (snap c) + 1) ≠ 0;
  fl_calm : let n := (2 * (length (sc_keys sc remote_v4) + length (sc_keys sc remote_v6)))%nat in
    calm sc n w ∧ drop_count (drops c) + Z.of_nat n ≤ drop_pool_cap (drops c);
  fl_ban : sc_till sc - sc_from sc ≤ ban_time (cfg c);
}.

(** ** The rest of the tick *)

(** Expiry leaves a record of this tick alone. *)
Lemma expire_caught sc fam a n c w l :
  walking sc n c w l → caught sc fam a c l → sc_till sc - sc_from sc ≤ ban_time (cfg c) →
  wp expire_drops (λ _ s', ∃ l' f', inv s'.1 s'.2 l' f' ∧ caught sc fam a s'.1 l') (c, w).
Proof.
  intros [[f Hi] _ Hc _] (r & Hin & Hcr & Hrs & Ht) Hban. eapply wp_mono; [by apply (expire_spec c w l f)|].
  intros z s' (l' & f' & Hi' & _ & _ & Hpool & _ & _ & Hgone & _). cbn [app] in Hi'. exists l', f'.
  split; [done|]. exists r. split; [|done]. rewrite (recs_pool c s'.1 l' Hpool).
  apply list_elem_of_fmap in Hin as (i & -> & Hin). apply list_elem_of_fmap. exists i. split; [done|].
  destruct (decide (i ∈ l')) as [|Hni]; [done|]. destruct (Hgone i Hin Hni) as [Hd _].
  apply expired_due in Hd as (_ & _ & Hd). rewrite Hrs in Hd. specialize (Hd ltac:(done)).
  destruct (calm_time sc n w Hc) as [Hnow _]. unfold now_of in Hd. lia.
Qed.

(** A controller that lists drops does not disarm. *)
Lemma quiet_listed c w l f :
  inv c w l f → l ≠ [] → wp tick_quiet (λ _ s', drops s'.1 = drops c) (c, w).
Proof.
  intros Hi Hl. pose proof (rep_count _ _ _ _ (inv_rep _ _ _ _ Hi)) as Hcnt.
  assert ((drop_count (drops c) =? 0) = false) as E0.
  { apply Z.eqb_neq. destruct l; [done|]. simpl in Hcnt. lia. }
  pose proof (tick_quiet_disarms c w) as E. cbv zeta in E. rewrite E0 in E. cbn [negb] in E.
  destruct (negb _) in E; eexists _, _; (split; [exact E|done]).
Qed.

Lemma in_host_cidr fam a : addr_ok fam a → in_cidr (host_cidr fam a) a.
Proof.
  intros [Hl _] i Hi. unfold host_cidr in *. cbn [prefixlen addr] in *.
  rewrite take_ge by lia. unfold bit_at, store16.
  rewrite lookup_app_l; [done|]. rewrite Hl. unfold addr_bytes.
  apply Nat.Div0.div_lt_upper_bound. destruct (fam =? AF_INET); lia.
Qed.

(** ** The beginning of a tick *)

(** The metrics [vg_metrics_read] gives for the words of every CPU. *)
Definition metrics_of (cpus : Z) (buf : list Z) : vg_metrics :=
  let g i := u64 (cpu_sum (Z.to_nat (Z.max cpus 1)) 0 buf 7 i) in
  Metrics (g 0%nat) (g 1%nat) (g 2%nat) (g 3%nat) (g 4%nat) (g 5%nat) (g 6%nat).

(** The controller once the metrics are read, [dt] seconds after the last
    tick: the new rates, and the counters of the tick at 0. *)
Definition entered (now : timespec) (dt : double) (m : vg_metrics) c : vg_ctrl :=
  set_last_m (tick_rates (last_m c) m dt
                (set_drop_stats (set_last_tick c (Some now)) (replicate 5 0) 0)) (Some m).

Lemma entered_same now dt m c :
  let c' := entered now dt m c in
  drops c' = drops c ∧ snap c' = snap c ∧ cfg c' = cfg c ∧ maps c' = maps c ∧ state c' = state c
  ∧ quiet_since c' = quiet_since c ∧ last_tick c' = Some now.
Proof. unfold entered, tick_rates. destruct (last_m c); [|done]. by destruct (flt d0 dt). Qed.

Lemma tick_enter cpus t buf w2 c w :
  let dt := seconds_between t (sys_clock w).1 in
  let c' := entered (sys_clock w).1 dt (metrics_of cpus buf) c in
  maps c = maps_open_sizes cpus → last_tick c = Some t → fle dt d0 = false →
  bpf_metrics_read (sys_clock w).2 = (Some buf, w2) →
  vg_ctrl_tick (c, w) =
    (if bool_decide (state c = VG_IDLE) then tick_idle
     else (_ ← walk_remotes dt; _ ← expire_drops; tick_quiet)) (c', w2).
Proof.
  cbv zeta. intros Hm Hl Hdt Hr. set (dt := seconds_between t (sys_clock w).1) in *.
  assert (tick_dt (c, w) = Some (dt, (set_last_tick c (Some (sys_clock w).1), (sys_clock w).2))) as E1.
  { unfold tick_dt, mbind, M_bind, onK, liftK, call, getc, gets, modc, modify. cbn [fst snd].
    destruct (sys_clock w) as [now w1] eqn:Ec. cbn [fst snd]. by rewrite Hl. }
  unfold vg_ctrl_tick. rewrite (mbind_step _ _ _ _ _ E1).
  set (c1 := set_drop_stats (set_last_tick c (Some (sys_clock w).1)) (replicate 5 0) 0).
  erewrite (mbind_step log_drops); [|reflexivity]. erewrite (mbind_step (getc maps)); [|reflexivity].
  cbn [fst snd maps set_drop_stats set_last_tick]. rewrite Hm.
  assert (onK (vg_metrics_read (maps_open_sizes cpus)) (c1, (sys_clock w).2)
          = Some (Some (metrics_of cpus buf), (c1, w2))) as E2.
  { unfold onK, liftK, vg_metrics_read. cbn [fst snd].
    erewrite mbind_step; [|apply (sum_percpu_sums cpus _ _ _ buf w2); [by right|exact Hr]]. done. }
  rewrite (mbind_step _ _ _ _ _ E2). erewrite (mbind_step (getc last_m)); [|reflexivity].
  erewrite (mbind_step (modc _)); [|reflexivity]. erewrite (mbind_step (modc _)); [|reflexivity].
  rewrite Hdt. erewrite (mbind_step (getc state)); [|reflexivity].
  set (c' := entered _ _ _ _).
  assert (state c' = state c) as Est by apply entered_same.
  match goal with |- context [bool_decide (state ?x = VG_IDLE)] => change x with c' end.
  rewrite Est. by destruct (bool_decide _).
Qed.

(** An active tick from its beginning. *)
Lemma active_enter sc n cpus t c w (Q : Z → vg_ctrl * K → Prop) :
  state c = VG_ACTIVE → maps c = maps_open_sizes cpus → last_tick c = Some t → calm sc n w →
  let dt := seconds_between t (sys_clock w).1 in
  fle dt d0 = false →
  (∀ m w2, let c' := entered (sys_clock w).1 dt m c in
     calm sc n w2 → same_maps w w2 →
     wp (_ ← walk_remotes dt; _ ← expire_drops; tick_quiet) Q (c', w2)) →
  wp vg_ctrl_tick Q (c, w).
Proof.
  intros Hst Hm Hl Hc dt Hdt HQ. set (w1 := (sys_clock w).2).
  assert (calm sc n w1) as Hc1 by (by apply calm_clock).
  destruct (calm_metrics sc n w1 Hc1) as [[buf Hbuf] Hc2].
  destruct (bpf_metrics_read w1) as [o w2] eqn:Er. cbn [fst snd] in *. subst o.
  assert (same_maps w w2) as Hs2.
  { eapply same_maps_trans; [apply clock_same|]. pose proof (metrics_same w1) as H. by rewrite Er in H. }
  destruct (HQ (metrics_of cpus buf) w2 Hc2 Hs2) as (z & s' & E & Hpost). exists z, s'. split; [|done].
  rewrite (tick_enter cpus t buf w2 c w Hm Hl Hdt Er), Hst. rewrite bool_decide_eq_false_2 by done. exact E.
Qed.

(** An active tick of a flooded gate. *)
Lemma tick_catches sc cpus fam a c w :
  flooding sc cpus fam a c w →
  wp vg_ctrl_tick (λ _ s', ∃ l, drop_all_walk (drops s'.1) = Some l ∧ caught sc fam a s'.1 l) (c, w).
Proof.
  intros [HI Hact Hmaps Hfam Haddr Hfind Hun Hvis Hgrew Hgen [Hcalm Hroom] Hban].
  destruct Hgrew as (t & p & b & g & Hlast & Hseen & Hdt & Hover).
  destruct HI as (l & f & Hi & _). set (n := (2 * _)%nat) in *.
  eapply active_enter; [done..|]. intros m w2 c3 Hc2 Hs2. set (dt := seconds_between _ _) in *.
  destruct (entered_same (sys_clock w).1 dt m c) as (Ed & Es & Ecf & Em & Est & _). fold c3 in Ed, Es, Ecf, Em, Est.
  apply wp_bind. eapply wp_mono.
  { apply (walk_catches sc fam a p b cpus dt (cfg c) Hfam Haddr Hdt Hover 0 c3 w2 l); try done.
    - rewrite Nat.add_0_r. split; [|congruence|done|].
      + exists f. eapply inv_ext; [by eapply inv_same|done|done|rewrite Es; apply Hi|done|done].
      + rewrite Ed. pose proof (rep_count _ _ _ _ (inv_rep _ _ _ _ Hi)).
        change (Z.of_nat (length l + n) ≤ drop_pool_cap (drops c)). lia.
    - congruence.
    - unfold pending, recs. rewrite Ed, Es, Ecf. split_and!; [|done|by exists g].
      destruct (drops_find_spec _ _ _ _ (host_cidr fam a) (inv_rep _ _ _ _ Hi)) as (o & Eo & Ho);
        [apply host_cidr_ok..|]; try done.
      rewrite Hfind in Eo. injection Eo as <-. intros r (i & -> & Hin)%list_elem_of_fmap. by apply Ho.
    - by rewrite Es. }
  intros _ [c4 w4] (l4 & Hw4 & Hcf4 & Hc4). cbn [fst snd] in *. apply wp_bind. eapply wp_mono.
  { eapply expire_caught; [done..|]. by rewrite Hcf4. }
  intros _ [c5 w5] (l5 & f5 & Hi5 & Hc5). cbn [fst snd] in *.
  eapply wp_mono; [eapply (quiet_listed c5 w5 l5 f5 Hi5)|].
  { intros ->. destruct Hc5 as (r & Hr & _). by apply elem_of_nil in Hr. }
  intros z [c6 w6] E6. cbn [fst] in *. exists l5. unfold caught, recs. rewrite E6.
  split; [eapply drop_all_walk_spec, Hi5|done].
Qed.

(** The next tick lists the host prefix of [a] by policy, and from its end
    until the daemon changes the maps again (so in every world [w2] with the
    maps that the tick left, whatever was counted meanwhile) the XDP program
    drops every packet from or to [a] that no exemption covers. *)
Definition stopped_by_tick (fam : Z) (a : list Z) c w : Prop :=
  ∃ z c' w' l' r, vg_ctrl_tick (c, w) = Some (z, (c', w'))
    ∧ drop_all_walk (drops c') = Some l' ∧ r ∈ recs c' l'
    ∧ cidr r = host_cidr fam a ∧ reason r = VG_REASON_POLICY
    ∧ ∀ w2, same_maps w' w2 →
      ∀ pkt i bc, bytes_ok pkt → ip_info pkt = Some i → pkt_family i = fam →
        pi_saddr i = a ∨ pi_daddr i = a → xdp_cfg w2 = Some bc → exempt bc i w2 = false →
        ∃ w3, voidgate_xdp pkt w2 = Some (XDP_DROP, w3).

Lemma flood_stopped sc cpus fam a c w :
  flooding sc cpus fam a c w → cfg_ok (cfg c) → stopped_by_tick fam a c w.
Proof.
  intros Hfl Hok. destruct (tick_catches sc cpus fam a c w Hfl)
    as (z & [c' w'] & E & l' & Hl' & r & Hin & Hcr & Hrs & _). cbn [fst] in *.
  exists z, c', w', l', r. split_and!; try done. intros w2 Hsame pkt i bc Hb Hip Hf Ha Hx He.
  pose proof (wp_det _ _ _ _ _ (tick_keeps c w (fl_inv _ _ _ _ _ _ Hfl)) E) as (HI' & Hcf & _).
  cbn [fst snd] in *.
  destruct (Good_listed c' w2 l' r) as (Hp & Hm & bc' & Hbc); [|done..|].
  { split; [by eapply Inv_same|]. by rewrite Hcf. }
  rewrite Hcr in *. assert (in_cidr (host_cidr fam a) a) as Hin0 by (apply in_host_cidr, Hfl).
  unfold armed_cfg in Hbc. rewrite Hx in Hbc.
  apply (entry_drops w2 (host_cidr fam a) pkt i bc); try done; [by destruct Ha as [-> | ->]; auto|].
  intros E0. by rewrite E0 in Hbc.
Qed.

(** C5: a flood is stopped within one tick, where nothing gets in the way.
    Let the gate be active, with a snapshot of a remote whose host prefix is
    neither listed nor overlaps a local or allowed network, and let the
    remote's counters have grown since the last tick by a rate over a
    threshold.  Let it be among the first [walk_budget] keys of its hash, let
    the tick be calm (no address enters or leaves the hashes, every counter
    can be read, the map updates succeed), let there be room, in the pool and
    in each trie, for two drops of every remote in both hashes, let the clock
    move by less than [ban_time] and the generation of the snapshots not
    wrap.  Then the tick ends with the remote's host prefix listed by policy,
    and until the daemon changes the maps again the XDP program drops every
    packet from or to that address that no exemption covers. *)
Theorem flood_dropped sc cpus fam a c w :
  flooding sc cpus fam a c w → cfg_ok (cfg c) → stopped_by_tick fam a c w.
Proof. apply flood_stopped. Qed.
End Flood.
