(* ===== verification/Wake.v ===== *)
(** * Detection from idle

    The three ticks that stop a flood which finds the gate idle: one arms it,
    one takes a snapshot of every remote, one compares and drops. *)

From S2P Require Import Prelude Types Ipaddr IpaddrThms Config ConfigThms Kernel Maps MapsThms Lists.
From S2P Require Import DropTable DropThms Snap SnapThms SnapMain Double Policy PolicyThms SweepThms.
From S2P Require Import TickThms PolicyMain PolicyRate Xdp XdpThms MapsMain Detect System TracedThms.
From S2P Require Import DetectMain.
Import Dlist Hlist.
Open Scope Z_scope.

(** ** Snapshots with room *)

(** At least [m] entries of the pool are free. *)
Definition snap_room (m : nat) (t : snap_tab) : Prop :=
  0 ≤ snap_cap t ∧ ∃ bk fr, srep t bk fr ∧ (m ≤ length fr)%nat.

Lemma room_ok m t : snap_room m t → snap_ok t.
Proof. intros (Hc & bk & fr & Hs & _). split; [done|]. by exists bk, fr. Qed.

Lemma indices_length n i : length (indices n i) = n.
Proof. unfold indices. by rewrite length_fmap, length_seq. Qed.

(** A cleared table has its whole pool free and remembers nothing. *)
Lemma clear_room t :
  0 ≤ snap_cap t →
  snap_room (Z.to_nat (snap_cap t)) (snap_clear t) ∧ snap_gen (snap_clear t) = snap_gen t
  ∧ ∀ fam a, snap_seen (snap_clear t) fam a = None.
Proof.
  intros Hc. destruct (snap_reset_spec t Hc) as (Hs & Ec & Eg). fold (snap_clear t) in *.
  split_and!; [split; [by rewrite Ec|]|done|].
  - eexists _, _. split; [exact Hs|]. by rewrite indices_length.
  - intros fam a. eapply seen_none; [exact Hs|]. by intros i ?%elem_of_nil.
Qed.

Section Sight.
Context {K : Type} `{!Kernel K} `{!KernelLaws K}.
Implicit Types (w : K) (c : vg_ctrl).

(** The first time an address is met it only gets a snapshot. *)
Lemma first_sight m dt fam a cur c w :
  snap_room (S m) (snap c) → (addr_bytes fam ≤ length a)%nat → snap_seen (snap c) fam a = None →
  ∃ t, policy_one_remote dt fam a cur (c, w) = Some (tt, (set_snap c t, w))
    ∧ snap_room m t ∧ snap_gen t = snap_gen (snap c)
    ∧ snap_seen t fam a = Some (in_pkts cur, in_bytes cur, snap_gen (snap c))
    ∧ ∀ fam' a', snap_key fam' a' ≠ snap_key fam a →
        snap_seen t fam' a' = snap_seen (snap c) fam' a'.
Proof.
  intros Hroom Hl Hnew. destruct (remote_one dt fam a cur c w (room_ok _ _ Hroom) Hl)
    as (t & _ & Hsee & Hoth & E). rewrite Hnew in E.
  destruct Hroom as (Hc & bk & fr & Hs & Hlen).
  destruct (snap_get_spec _ bk fr fam a Hs Hl) as (r & t1 & Eg & Ec & En & Hr).
  assert (onS (snap_get fam a) (c, w) = Some (r, (set_snap c t1, w))) as E1
    by (unfold onS; cbn [fst snd]; by rewrite Eg).
  destruct r as [[i []]|].
  - destruct Hr as (_ & fr' & -> & Hs' & _). simpl in Hlen.
    assert (t = snap_store i cur t1) as ->.
    { unfold policy_one_remote in E. rewrite (mbind_step _ _ _ _ _ E1) in E.
      apply (f_equal (from_option (λ x, snap x.2.1) (snap c))) in E. by symmetry. }
    exists (snap_store i cur t1). split_and!; try done.
    + split; [cbn; by rewrite Ec|]. eexists _, fr'. split; [by apply srep_touch|lia].
    + destruct Hsee as [?|(_ & Et & Hf)]; [done|].
      pose proof (s_fr _ _ _ Hs) as Hfr. rewrite Et in Hf. cbn in Hfr. rewrite Hf in Hfr. by destruct Hfr.
  - destruct Hr as (Hi & Hh & _). by rewrite (seen_some _ bk fr fam a i) in Hnew.
  - destruct Hr as (_ & -> & _). simpl in Hlen. lia.
Qed.
End Sight.

(** ** The walk that takes the snapshots *)

Section First.
Context {K : Type} `{!Kernel K} `{!KernelLaws K} `{!Calm K} (sc : scene) (cpus : Z) (dt : double).
Implicit Types (w : K) (c : vg_ctrl).

Definition keys (fam : Z) : list (list Z) := sc_keys sc (remote_of fam).

(** The snapshot of [a] holds counters that were read for it. *)
Definition sighted (t : snap_tab) (fam : Z) (a : list Z) : Prop :=
  ∃ buf, sc_reads sc (remote_of fam) a buf
    ∧ snap_seen t fam a = Some (in_pkts (read_counters cpus buf), in_bytes (read_counters cpus buf), snap_gen t).

(** From [c0] and [w0] the walk has met the addresses [V] of [N] and only
    taken their snapshots. *)
Definition sights (c0 : vg_ctrl) (w0 : K) (N : nat) (V : list (Z * list Z)) c w : Prop :=
  c = set_snap c0 (snap c) ∧ same_maps w0 w ∧ calm sc 0 w
  ∧ snap_gen (snap c) = snap_gen (snap c0) ∧ snap_room (N - length V) (snap c)
  ∧ (∀ x, x ∈ V → addr_ok x.1 x.2 ∧ sighted (snap c) x.1 x.2)
  ∧ (∀ fam a, addr_ok fam a → (fam, a) ∉ V → snap_seen (snap c) fam a = None).

Lemma sights_step c0 w0 N V c w fam k buf :
  sights c0 w0 N V c w → (fam, k) ∉ V → addr_ok fam k → (length V < N)%nat →
  sc_reads sc (remote_of fam) k buf →
  wp (remote_cb (WalkCtx dt) fam k (read_counters cpus buf))
    (λ _ s', sights c0 w0 N (V ++ [(fam, k)]) s'.1 s'.2) (c, w).
Proof.
  intros (Hc & Hs & Hcm & Hg & Hroom & Hin & Hout) Hnew Hk Hlen Hbuf.
  destruct (first_sight (N - S (length V)) dt fam k (read_counters cpus buf) c w)
    as (t & E & Hr & Hgt & Hseen & Hoth); [by replace (S (N - S (length V))) with (N - length V)%nat by lia
      |destruct Hk; lia|by apply Hout|].
  assert (∀ f a, addr_ok f a → (f, a) ≠ (fam, k) → snap_seen t f a = snap_seen (snap c) f a) as Hother.
  { intros f a Ha Hne. apply Hoth. intros Ek. apply Hne. by apply snap_key_inj. }
  exists tt, (set_snap c t, w). split; [exact E|]. cbn [fst snd]. split_and!; try done.
  - by rewrite Hc.
  - cbn. congruence.
  - cbn [snap set_snap]. rewrite length_app. cbn [length].
    by replace (N - (length V + 1))%nat with (N - S (length V))%nat by lia.
  - intros x [Hx|Hx]%elem_of_app.
    + destruct (Hin x Hx) as [Ha (b & Hb & Hsx)]. split; [done|]. exists b. split; [done|]. cbn.
      rewrite Hgt, Hother; [done..|]. destruct x. by intros [= -> ->].
    + apply list_elem_of_singleton in Hx as ->. split; [done|]. exists buf. split; [done|]. cbn.
      by rewrite Hgt.
  - intros f a Ha Hnot. cbn. rewrite Hother; [apply Hout; [done|]|done|]; set_solver.
Qed.

Lemma sights_visiting c0 w0 N fam V0 :
  fam = AF_INET ∨ fam = AF_INET6 → (∀ k, (fam, k) ∉ V0) → (length V0 + length (keys fam) ≤ N)%nat →
  visiting sc (remote_cb (WalkCtx dt)) cpus (remote_of fam) fam
    (λ vis, sights c0 w0 N (V0 ++ (pair fam <$> vis))).
Proof.
  intros Hf HV Hlen. split.
  - intros vis c w H. exists 0%nat. apply H.
  - intros vis c w w' (Hc & Hs & Hcm & Hrest) Hs' Hcm'.
    split; [done|]. split; [by eapply same_maps_trans|]. split; [by apply Hcm'|done].
  - intros vis k rest buf c w Hk Hl Hb Hr H.
    assert (NoDup (vis ++ k :: rest)) as Hnd.
    { rewrite <-Hk. eapply calm_nodup. apply H. }
    rewrite fmap_app, app_assoc. apply sights_step; [done| |split; [destruct Hf as [-> | ->]; done|done]| |done].
    + intros [Hin|Hin]%elem_of_app; [by apply (HV k)|].
      apply list_elem_of_fmap in Hin as (k' & [= <-] & Hin). apply NoDup_app in Hnd as (_ & Hd & _).
      apply (Hd k Hin). set_solver.
    + unfold keys in Hlen. rewrite Hk, length_app in Hlen. simpl in Hlen.
      rewrite length_app, length_fmap. lia.
Qed.

(** The addresses a walk with this budget meets. *)
Definition met (budget : Z) (fam : Z) : list (Z * list Z) := pair fam <$> take (Z.to_nat budget) (keys fam).

Lemma foreach_sights c w budget :
  let N := (length (keys AF_INET) + length (keys AF_INET6))%nat in
  calm sc 0 w → snap_room N (snap c) → (∀ fam a, snap_seen (snap c) fam a = None) → budget ≠ 0 →
  wp (vg_remote_foreach (remote_cb (WalkCtx dt)) (maps_open_sizes cpus) budget)
    (λ _ s', sights c w N (met budget AF_INET ++ met budget AF_INET6) s'.1 s'.2) (c, w).
Proof.
  intros N Hcm Hroom Hnone Hb%Z.eqb_neq. unfold vg_remote_foreach. rewrite Hb. apply wp_bind. eapply wp_mono.
  { apply (foreach_family_visits sc _ cpus (remote_of AF_INET) AF_INET
      (λ vis, sights c w N ([] ++ (pair AF_INET <$> vis)))).
    - apply sights_visiting; [by left|by intros k ?%elem_of_nil|unfold N; simpl; lia].
    - split_and!; try done.
      + by destruct c.
      + cbn [length app fmap list_fmap]. by rewrite Nat.sub_0_r.
      + by intros x ?%elem_of_nil. }
  intros c4 [c1 w1] [H1 _]. cbn [fst snd app] in H1. fold (keys AF_INET) in H1. fold (met budget AF_INET) in H1.
  apply wp_bind. eapply wp_mono.
  { apply (foreach_family_visits sc _ cpus (remote_of AF_INET6) AF_INET6
      (λ vis, sights c w N (met budget AF_INET ++ (pair AF_INET6 <$> vis)))).
    - apply sights_visiting; [by right| |].
      + intros k (k' & [= ?] & _)%list_elem_of_fmap.
      + unfold met, N. rewrite length_fmap, length_take. lia.
    - cbn [fmap list_fmap]. by rewrite app_nil_r. }
  intros c6 [c2 w2] [H2 _]. by apply wp_ret.
Qed.

(** The first walk after arming: a snapshot of every remote within the
    budget, and nothing else. *)
Lemma walk_sights c w :
  let N := (length (keys AF_INET) + length (keys AF_INET6))%nat in
  calm sc 0 w → maps c = maps_open_sizes cpus → snap_room N (snap c) →
  (∀ fam a, snap_seen (snap c) fam a = None) → u32 (snap_gen (snap c) + 1) ≠ 0 →
  wp (walk_remotes dt) (λ _ s', ∃ t, s'.1 = set_snap c t ∧ same_maps w s'.2 ∧ calm sc 0 s'.2
    ∧ snap_gen t = u32 (snap_gen (snap c) + 1)
    ∧ ∀ fam a, fam = AF_INET ∨ fam = AF_INET6 →
        a ∈ take (Z.to_nat (walk_budget (cfg c))) (keys fam) → sighted t fam a) (c, w).
Proof.
  intros N Hcm Hm Hroom Hnone Hgen. unfold walk_remotes. apply wp_bind, wp_getc.
  fold (walk_budget (cfg c)). apply wp_bind, wp_modc. apply wp_bind, wp_getc. cbn [maps set_snap]. rewrite Hm.
  set (b := walk_budget (cfg c)). set (c0 := set_snap c (next_gen (snap c))).
  assert (snap_gen (snap c0) = u32 (snap_gen (snap c) + 1)) as Hg0.
  { apply Z.eqb_neq in Hgen. cbn. unfold next_gen. by rewrite Hgen. }
  apply wp_bind. unfold remote_foreach, maps_remote_walk. eapply wp_mono.
  { apply (foreach_sights c0 w b); [done| | |apply budget_pos].
    - destruct Hroom as (Hc & bk & fr & Hs & Hl). apply Z.eqb_neq in Hgen. unfold c0, next_gen. cbn [snap set_snap].
      rewrite Hgen. split; [done|]. exists bk, fr. split; [by apply srep_gen|done].
    - intros fam a. unfold c0. cbn [snap set_snap].
      destruct (next_gen_keeps (snap c) fam a Hgen (room_ok _ _ Hroom)) as [_ ->]. apply Hnone. }
  intros full [c1 w1] (Hc & Hs & Hcm1 & Hg & Hr & Hin & _). cbn [fst snd] in *.
  assert (∀ fam a, fam = AF_INET ∨ fam = AF_INET6 → a ∈ take (Z.to_nat b) (keys fam) →
    sighted (snap c1) fam a) as Hall.
  { intros fam a Hf Ha. apply (Hin (fam, a)). apply elem_of_app.
    destruct Hf as [-> | ->]; [left|right]; apply list_elem_of_fmap; by exists a. }
  destruct full.
  - apply wp_onS. destruct (snap_prune_forgets (snap c1) (room_ok _ _ Hr)) as (t' & E & _ & Egt & Hseen).
    exists tt, t'. rewrite E. split; [done|]. exists t'. cbn [fst snd].
    split_and!; [by rewrite Hc|done|done|congruence|]. intros fam a Hf Ha.
    destruct (Hall fam a Hf Ha) as (buf & Hb & Hx). exists buf. split; [done|].
    by rewrite Hseen, Hx, Z.eqb_refl, Egt.
  - apply wp_ret. exists (snap c1). cbn [fst snd]. split_and!; [by rewrite Hc at 1|done|done|congruence|done].
Qed.
End First.

(** ** The three ticks *)

Section Ticks.
Context {K : Type} `{!Kernel K} `{!KernelLaws K} `{!XdpLaws K} `{!Calm K}.
Implicit Types (w : K) (c : vg_ctrl).

(** The rates are over a wake threshold. *)
Definition over_wake c : bool :=
  flt (of_int (wake_pps (cfg c))) (rx_pps c) || flt (wake_bps (cfg c)) (rx_bps c).

Lemma tick_wakes cpus t buf w2 w3 c w :
  let dt := seconds_between t (sys_clock w).1 in
  state c = VG_IDLE → maps c = maps_open_sizes cpus → last_tick c = Some t → fle dt d0 = false →
  bpf_metrics_read (sys_clock w).2 = (Some buf, w2) →
  over_wake (entered (sys_clock w).1 dt (metrics_of cpus buf) c) = true →
  bpf_cfg_update (bpf_cfg_of 1 (cfg c)) w2 = (0, w3) →
  ∃ c', vg_ctrl_tick (c, w) = Some (0, (c', w3)) ∧ state c' = VG_ACTIVE ∧ drops c' = drops c
    ∧ cfg c' = cfg c ∧ maps c' = maps c ∧ last_tick c' = Some (sys_clock w).1 ∧ quiet_since c' = 0
    ∧ snap c' = snap_clear (snap c).
Proof.
  intros dt Hst Hm Hl Hdt Hr Hw Hcm. set (c0 := entered _ _ _ c) in *.
  destruct (entered_same (sys_clock w).1 dt (metrics_of cpus buf) c)
    as (Ed & Es & Ecf & Em & Est & _ & Elt). fold c0 in Ed, Es, Ecf, Em, Est, Elt.
  exists (set_state (set_quiet (set_snap c0 (snap_clear (snap c0))) 0) VG_ACTIVE).
  cbn [state drops cfg maps last_tick quiet_since snap set_state set_quiet set_snap].
  rewrite Es. split_and!; try congruence.
  rewrite (tick_enter cpus t buf w2 c w Hm Hl Hdt Hr), Hst, bool_decide_eq_true_2 by done. fold dt c0.
  unfold tick_idle. erewrite (mbind_step (getc id)); [|reflexivity]. cbn [fst snd id].
  fold (over_wake c0). rewrite Hw. unfold vg_ctrl_arm.
  unfold mbind, M_bind, getc, gets, modc, modify, onK, liftK, vg_cfg_commit, call, mret, M_ret.
  cbn [fst snd]. rewrite bool_decide_eq_false_2 by congruence. cbn [fst snd cfg set_quiet set_snap].
  rewrite Ecf, Hcm. by rewrite Es.
Qed.

(** Expiry with nothing listed. *)
Lemma expire_nothing c w f :
  rep (drops c) [] f [] → expire_drops (c, w) = Some (0, (c, (sys_time w).2)).
Proof.
  intros Hi. unfold expire_drops.
  assert (onK (call sys_time) (c, w) = Some ((sys_time w).1, (c, (sys_time w).2))) as Et
    by (unfold onK, liftK, call; cbn; by destruct (sys_time w)).
  rewrite (mbind_step _ _ _ _ _ Et). pose proof (rep_next _ _ _ _ Hi) as En. change (walk_pos []) with L_all in En.
  unfold each_drop, mbind, M_bind, getc, gets, lift. cbn [fst snd]. rewrite En. cbn [fst snd]. rewrite En.
  by destruct (walk_fuel (drops c)).
Qed.

(** A quiet period that has just begun does not disarm. *)
Lemma quiet_stays sc n c w :
  calm sc n w → quiet_since c = 0 → sc_till sc - sc_from sc ≤ clear_seconds (cfg c) →
  ∃ q w', tick_quiet (c, w) = Some (0, (set_quiet c q, w')).
Proof.
  intros Hc Hq Hcl. pose proof (tick_quiet_disarms c w) as E. cbv zeta in E. rewrite Hq, Z.eqb_refl in E.
  destruct (calm_time sc n w Hc) as [H1 Hc1]. destruct (calm_time sc n _ Hc1) as [H2 _].
  assert ((now_of (sys_time w).2 - now_of w <? clear_seconds (cfg c)) = true) as Ht.
  { apply Z.ltb_lt. unfold now_of. lia. }
  rewrite Ht in E. destruct (negb _); [by eexists _, _|]. destruct (negb _); by eexists _, _.
Qed.

Lemma tick_sights sc cpus t c w f :
  let dt := seconds_between t (sys_clock w).1 in
  rep (drops c) [] f [] → state c = VG_ACTIVE → maps c = maps_open_sizes cpus → last_tick c = Some t →
  fle dt d0 = false → calm sc 0 w →
  snap_room (length (keys sc AF_INET) + length (keys sc AF_INET6)) (snap c) →
  (∀ fam a, snap_seen (snap c) fam a = None) → u32 (snap_gen (snap c) + 1) ≠ 0 →
  quiet_since c = 0 → sc_till sc - sc_from sc ≤ clear_seconds (cfg c) →
  wp vg_ctrl_tick (λ z s', z = 0 ∧ drops s'.1 = drops c ∧ state s'.1 = VG_ACTIVE ∧ cfg s'.1 = cfg c
    ∧ maps s'.1 = maps c ∧ last_tick s'.1 = Some (sys_clock w).1
    ∧ snap_gen (snap s'.1) = u32 (snap_gen (snap c) + 1)
    ∧ ∀ fam a, fam = AF_INET ∨ fam = AF_INET6 →
        a ∈ take (Z.to_nat (walk_budget (cfg c))) (keys sc fam) → sighted sc cpus (snap s'.1) fam a) (c, w).
Proof.
  intros dt Hi Hst Hm Hl Hdt Hcm Hroom Hnone Hgen Hq Hcl.
  eapply active_enter; [done..|]. fold dt. intros m w2 c3 Hc2 Hs2.
  destruct (entered_same (sys_clock w).1 dt m c) as (Ed & Es & Ecf & Em & Est & Eq & Elt).
  fold c3 in Ed, Es, Ecf, Em, Est, Eq, Elt. apply wp_bind. eapply wp_mono.
  { apply (walk_sights sc cpus dt c3 w2); rewrite ?Es; try done. congruence. }
  intros _ [c4 w4] (t4 & Hc4 & Hs4 & Hcm4 & Hg4 & Hall). cbn [fst snd] in *. subst c4.
  destruct (quiet_stays sc 0 (set_snap c3 t4) (sys_time w4).2) as (q & w6 & E6);
    [by apply (calm_time sc)|by rewrite <-Hq|change (cfg (set_snap c3 t4)) with (cfg c3); by rewrite Ecf|].
  apply wp_bind. eexists _, _. split; [apply (expire_nothing _ _ f); change (drops (set_snap c3 t4)) with (drops c3); by rewrite Ed|].
  eexists _, _. split; [exact E6|].
  cbn [fst snd drops state cfg maps last_tick snap set_quiet set_snap]. rewrite Es in Hg4. rewrite Ecf in Hall.
  split_and!; congruence || done.
Qed.

Definition all_keys (sc : scene) : nat := length (sc_keys sc remote_v4) + length (sc_keys sc remote_v6).

(** The gate is idle and the rates of this tick are over a wake threshold;
    the cfg update of arming succeeds. *)
Record waking (cpus : Z) c w : Prop := {
  wa_inv : Inv c w;
  wa_idle : state c = VG_IDLE;
  wa_maps : maps c = maps_open_sizes cpus;
  wa_rates : ∃ t buf w2 w3, last_tick c = Some t
    ∧ let dt := seconds_between t (sys_clock w).1 in
      fle dt d0 = false ∧ bpf_metrics_read (sys_clock w).2 = (Some buf, w2)
      ∧ over_wake (entered (sys_clock w).1 dt (metrics_of cpus buf) c) = true
      ∧ bpf_cfg_update (bpf_cfg_of 1 (cfg c)) w2 = (0, w3);
}.

(** The remote [a] is in the hashes during the two ticks after that, within
    the budget of the walk, and not protected.  The snapshot pool has room
    for every remote of the first of them, the pool of drops for two drops of
    every remote of the second; the generation does not wrap. *)
Record onset (sc2 sc3 : scene) (fam : Z) (a : list Z) c : Prop := {
  on_family : fam = AF_INET ∨ fam = AF_INET6;
  on_addr : addr_ok fam a;
  on_unprotected : vg_cidr_is_protected (cfg c) (host_cidr fam a) = false;
  on_met sc : sc = sc2 ∨ sc = sc3 →
    a ∈ take (Z.to_nat (walk_budget (cfg c))) (sc_keys sc (remote_of fam));
  on_snaps : Z.of_nat (all_keys sc2) ≤ snap_cap (snap c);
  on_drops : Z.of_nat (2 * all_keys sc3) ≤ drop_pool_cap (drops c);
  on_gen : 0 ≤ snap_gen (snap c) < 2 ^ 32 - 2;
  on_clear : sc_till sc2 - sc_from sc2 ≤ clear_seconds (cfg c);
  on_ban : sc_till sc3 - sc_from sc3 ≤ ban_time (cfg c);
}.

Lemma gen_nowrap g : 0 ≤ g < 2 ^ 32 - 2 → u32 (g + 1) = g + 1 ∧ u32 (g + 1 + 1) ≠ 0.
Proof. intros Hg. unfold u32. rewrite !Z.mod_small by lia. lia. Qed.

(** The tick that compares. *)
Lemma sighted_flooding sc2 sc3 cpus fam a t c0 c w f :
  onset sc2 sc3 fam a c0 → cfg c = cfg c0 → drops c = drops c0 → Inv c w → rep (drops c) [] f [] → state c = VG_ACTIVE →
  maps c = maps_open_sizes cpus → last_tick c = Some t → u32 (snap_gen (snap c) + 1) ≠ 0 →
  sighted sc2 cpus (snap c) fam a → calm sc3 (2 * all_keys sc3) w →
  let dt := seconds_between t (sys_clock w).1 in
  fle dt d0 = false →
  (∀ buf2 buf3, sc_reads sc2 (remote_of fam) a buf2 → sc_reads sc3 (remote_of fam) a buf3 →
     let last := read_counters cpus buf2 in
     grew (in_pkts last) (in_bytes last) (cfg c) dt (read_counters cpus buf3)) →
  flooding sc3 cpus fam a c w.
Proof.
  intros [Hf Ha Hu Hmet _ Hroom _ _ Hban] Ecf Ed HI Hrep Hst Hm Hl Hgen (buf & Hb & Hseen) Hcm dt Hdt Hgrew.
  rewrite <-Ecf in *. rewrite <-Ed in *. split; try done.
  - destruct (drops_find_spec _ _ _ _ (host_cidr fam a) Hrep) as (o & Eo & Ho); [by apply host_cidr_ok..|].
    rewrite Eo. destruct o; [|done]. by destruct Ho as [?%elem_of_nil _].
  - apply Hmet. by right.
  - eexists t, _, _, _. split; [done|]. split; [exact Hseen|]. split; [done|].
    intros buf3. by apply Hgrew.
  - cbv zeta. pose proof (rep_count _ _ _ _ Hrep) as Hc. simpl in Hc.
    split; [exact Hcm|]. unfold all_keys in Hroom. lia.
Qed.

(** C6: a flood that finds the gate idle is stopped by the third tick, where
    nothing gets in the way.  A tick that sees the rates over a wake threshold
    and manages to arm the gate does so; the next one drops nothing and takes
    a snapshot of the remote; the one after that lists it, if its counters
    grew in between by a rate over a threshold, and until the daemon changes
    the maps again its packets are dropped, unless an exemption covers them.
    Between two ticks the kernel may count packets as it likes.  The second
    and the third tick are to be calm (no address enters or leaves the hashes
    during the tick, counters can be read, map updates succeed), the remote
    within the walk budget of both and not protected; the second is to have
    room for a snapshot of every remote, the third for two drops of every
    remote in the pool and in each trie; the generation of the snapshots does
    not wrap, and the clock moves by less than [clear_seconds] in the second
    tick and less than [ban_time] in the third. *)
Theorem flood_from_idle sc2 sc3 cpus fam a c w :
  waking cpus c w → cfg_ok (cfg c) → onset sc2 sc3 fam a c →
  ∃ c1 w1, vg_ctrl_tick (c, w) = Some (0, (c1, w1)) ∧ state c1 = VG_ACTIVE ∧
  ∀ w1', same_maps w1 w1' → calm sc2 0 w1' →
    fle (seconds_between (sys_clock w).1 (sys_clock w1').1) d0 = false →
  ∃ c2 w2, vg_ctrl_tick (c1, w1') = Some (0, (c2, w2)) ∧ drops c2 = drops c ∧
  ∀ w2', same_maps w2 w2' → calm sc3 (2 * all_keys sc3) w2' →
    let dt := seconds_between (sys_clock w1').1 (sys_clock w2').1 in
    fle dt d0 = false →
    (∀ buf2 buf3, sc_reads sc2 (remote_of fam) a buf2 → sc_reads sc3 (remote_of fam) a buf3 →
       let last := read_counters cpus buf2 in
       grew (in_pkts last) (in_bytes last) (cfg c) dt (read_counters cpus buf3)) →
    stopped_by_tick fam a c2 w2'.
Proof.
  intros [HI Hst Hm (t & buf & w2 & w3 & Hl & Hdt & Hr & Hw & Hcm)] Hok Hon.
  pose proof HI as (l & f & Hi & _). pose proof (inv_idle _ _ _ _ Hi Hst) as ->.
  destruct (gen_nowrap _ (on_gen _ _ _ _ _ Hon)) as [Hg1 Hg2].
  destruct (tick_wakes cpus t buf w2 w3 c w Hst Hm Hl Hdt Hr Hw Hcm)
    as (c1 & E1 & Hs1 & Hd1 & Hc1 & Hm1 & Hl1 & Hq1 & Hsn1).
  pose proof (wp_det _ _ _ _ _ (tick_keeps c w HI) E1) as (HI1 & _). cbn [fst snd] in HI1.
  exists c1, w3. split_and!; [done..|]. intros w1' Hsame Hcalm Hdt1.
  destruct (clear_room (snap c)) as (Hroom & Hgc & Hnone); [apply (inv_snap _ _ _ _ Hi)|].
  destruct (tick_sights sc2 cpus (sys_clock w).1 c1 w1' f)
    as (z & [c2 w4] & E2 & -> & Hd2 & Hs2 & Hc2 & Hm2 & Hl2 & Hg & Hall); rewrite ?Hsn1, ?Hd1; try done.
  { apply Hi. } { congruence. }
  { destruct Hroom as (Hcap & bk & fr & Hsr & Hlen). split; [done|]. exists bk, fr. split; [done|].
    pose proof (on_snaps _ _ _ _ _ Hon) as Hsz. unfold all_keys in Hsz. unfold keys. cbn. lia. }
  { rewrite Hgc, Hg1. pose proof (on_gen _ _ _ _ _ Hon). lia. }
  { rewrite Hc1. apply (on_clear _ _ _ _ _ Hon). }
  cbn [fst snd] in *.
  pose proof (wp_det _ _ _ _ _ (tick_keeps c1 w1' (Inv_same _ _ _ HI1 Hsame)) E2) as (HI2 & _).
  cbn [fst snd] in HI2. exists c2, w4. split_and!; [done|congruence|].
  intros w2' Hsame2 Hcalm2 Hdt2 Hgrew.
  apply (flood_stopped sc3 cpus); [|by rewrite Hc2, Hc1].
  eapply (sighted_flooding sc2 sc3 cpus fam a (sys_clock w1').1 c c2 w2' f); try done.
  - congruence.
  - congruence.
  - by eapply Inv_same.
  - rewrite Hd2, Hd1. apply Hi.
  - congruence.
  - by rewrite Hg, Hsn1, Hgc, Hg1.
  - apply Hall; [apply Hon|]. rewrite Hc1. apply (on_met _ _ _ _ _ Hon). by left.
  - by rewrite Hc2, Hc1.
Qed.
End Ticks.
