(* ===== verification/TracedMain.v ===== *)
(** * What packets see while the daemon works

    The claims about the worlds inside an operation: protected hosts pass at
    every one of them, a drop that stays is enforced without a gap, and a
    reload goes through a world without local networks. *)

From S2P Require Import Prelude Types CString Ipaddr IpaddrThms Config Kernel Maps MapsThms.
From S2P Require Import ConfigThms Lists DropTable DropThms Snap SnapThms Double Policy.
From S2P Require Import PolicyThms SweepThms TickThms Ctl CtlThms Xdp XdpThms XdpMain System.
From S2P Require Import CtlMain Traced TracedThms.
Import Dlist Hlist.
Open Scope Z_scope.

(** What the loop of the daemon runs between two calls of [poll], and its
    last act. *)
Inductive daemon_op := OpTick | OpRequest (evs : list rd_event) (sends : list wr_event) | OpShutdown.

Section Ops.
Context {K : Type} `{!Kernel K} `{!Env K} {I : Inet}.

Definition run_op (o : daemon_op) : M (vg_ctrl * K) unit :=
  match o with
  | OpTick => z ← vg_ctrl_tick; mret tt
  | OpRequest evs sends => r ← vg_ctl_server_handle evs sends; mret tt
  | OpShutdown => z ← vg_ctrl_disarm; mret tt
  end.
End Ops.

Section Main.
Context {K : Type} `{!Kernel K} `{!KernelLaws K} `{!XdpLaws K} `{!Env K} `{!EnvLaws K}.
Context {I : Inet} `{!InetLaws I} (Hdefaults : defaults_parse).
Implicit Types (w x : K) (c : vg_ctrl) (t : tw K).

(** The kernel is in [x] after one of the calls of the operation. *)
Definition visits (o : daemon_op) c w x : Prop :=
  ∃ c' t', run_op o (c, TW w []) = Some (tt, (c', t')) ∧ x ∈ seen t'.

Lemma op_era o : era (K := K) (run_op o) (run_op o).
Proof.
  destruct o; cbn [run_op]; (apply era_bind; [|intros; apply era_ret]);
    [apply era_tick|apply era_handle|apply era_disarm].
Qed.

Lemma op_two o cf : two_phase (K := K) cf (ready cf) (run_op o).
Proof.
  destruct o; cbn [run_op]; apply two_then;
    [apply two_ready, tick_two|apply handle_two|apply two_ready; eapply two_shrink, disarm_shrinks].
Qed.

Lemma linked_of_inv c w l f s : inv c w l f → inv c (TW w s) l f.
Proof. intros []. by split. Qed.

(** The maps inside an operation. *)
Lemma visits_between o c w c' w' x :
  Good c w → run_op o (c, w) = Some (tt, (c', w')) → visits o c w x →
  (∀ q, prefix_ok q → in_map x q → in_map w q ∨ vg_cidr_is_protected (cfg c) q = false)
  ∧ (∀ q, in_map w q → in_map w' q → in_map x q)
  ∧ (is_armed w → is_armed w' → is_armed x).
Proof.
  intros [(l & f & Hi & _) _] E (c1 & t' & Et & Hx).
  pose proof (op_era o c (TW w [])) as He. cbn [cur] in He. rewrite E, Et in He.
  injection He as -> ->.
  destruct (op_two o (cfg c) _ _ _ _ _ (conj eq_refl (ex_intro _ l (ex_intro _ f
    (linked_of_inv _ _ _ _ [] Hi)))) Et) as (l1 & wm & l2 & S & P1 & P2).
  cbn [seen cur app] in *. rewrite S in Hx. split_and!.
  - set (J := λ v, ∀ q, prefix_ok q → in_map v q → in_map w q ∨ vg_cidr_is_protected (cfg c) q = false).
    destruct (path_forward (grow (cfg c)) J w l1 wm) as [Hm H1]; [|done|by left|].
    { intros u v Hg Hu q Hq Hv. destruct (grow_new _ _ _ Hg q Hq Hv); [by apply Hu|by right]. }
    destruct (path_forward shrink J wm l2 (cur t')) as [_ H2]; [|done|done|].
    { intros u v Hg Hu q Hq Hv. apply Hu; [done|]. by eapply shrink_keeps. }
    apply elem_of_app in Hx as [Hx|Hx]; [by apply H1|by apply H2].
  - intros q Hw Hw'.
    destruct (path_forward (grow (cfg c)) (λ v, in_map v q) w l1 wm) as [_ H1];
      [intros u v Hg; by apply (grow_keeps _ _ _ Hg)|done|done|].
    destruct (path_backward shrink (λ v, in_map v q) wm l2 (cur t')) as [_ H2];
      [intros u v Hg; by apply (shrink_keeps _ _ Hg)|done|done|].
    apply elem_of_app in Hx as [Hx|Hx]; auto.
  - intros Hw Hw'.
    destruct (path_forward (grow (cfg c)) is_armed w l1 wm) as [_ H1];
      [intros u v Hg; by apply (grow_armed _ _ _ Hg)|done|done|].
    destruct (path_backward shrink is_armed wm l2 (cur t')) as [_ H2];
      [intros u v Hg; by apply (shrink_armed _ _ Hg)|done|done|].
    apply elem_of_app in Hx as [Hx|Hx]; auto.
Qed.

(** An operation completes, and what it visits are the worlds of that run. *)
Lemma op_total o c w : Good c w → ∃ c' w', run_op o (c, w) = Some (tt, (c', w')) ∧ Good c' w'.
Proof.
  intros HG. assert (stable (K := K) (run_op o)) as Hs.
  { destruct o; cbn [run_op]; (apply stable_bind; [|intros; apply stable_ret]).
    - apply keeps_stable, tick_keeps.
    - by apply handle_stable.
    - apply keeps_stable, disarm_keeps. }
  destruct (Hs c w HG) as ([] & [c' w'] & E & HG'). by exists c', w'.
Qed.

(** C7: a protected host is safe at every moment: in a run in which the kernel
    has not refused a delete so far, in every world the kernel goes through during a tick, a
    request or the shutdown (and in which the XDP program goes on when the
    daemon is killed there), a packet between two addresses of local or
    allowed networks passes. *)
Theorem protected_throughout o c w x pkt i :
  reach (c, w) → (∀ p, ¬ refused_key p w) → visits o c w x →
  bytes_ok pkt → ip_info pkt = Some i →
  (∀ a, a = pi_saddr i ∨ a = pi_daddr i →
     ∃ q, q ∈ local_cidr (cfg c) ++ allow_cidr (cfg c) ∧ family q = pkt_family i ∧ in_cidr q a) →
  ∃ x', voidgate_xdp pkt x = Some (XDP_PASS, x').
Proof.
  intros Hr%reach_good Hnr Hv Hb Hip Hprot; [|done]. cbn [fst snd] in Hr.
  destruct (op_total o c w Hr) as (c' & w' & E & _).
  destruct (visits_between o c w c' w' x Hr E Hv) as (Hnew & _).
  eapply (unprotected_passes (cfg c)); [apply Hr| |done..]. intros q Hq Hm.
  destruct (Hnew q Hq Hm); [|done]. by eapply Good_unprotected.
Qed.

(** C8: a drop is enforced without a gap: a prefix that is listed before an
    operation and after it is enforced in every world in between; a packet
    from or to it that no exemption of that world covers is dropped. *)
Theorem drop_without_gap o c w l r c' w' l' r' x pkt i bc :
  reach (c, w) → drop_all_walk (drops c) = Some l → r ∈ recs c l →
  run_op o (c, w) = Some (tt, (c', w')) → drop_all_walk (drops c') = Some l' → r' ∈ recs c' l' →
  cidr r' = cidr r → visits o c w x →
  bytes_ok pkt → ip_info pkt = Some i → family (cidr r) = pkt_family i →
  in_cidr (cidr r) (pi_saddr i) ∨ in_cidr (cidr r) (pi_daddr i) →
  xdp_cfg x = Some bc → exempt bc i x = false →
  ∃ x', voidgate_xdp pkt x = Some (XDP_DROP, x').
Proof.
  intros Hr%reach_good Hl Hin E Hl' Hin' Hc Hv Hb Hip Hf Ha Hx He; [|done]. cbn [fst snd] in Hr.
  destruct (op_total o c w Hr) as (c2 & w2 & E2 & HG'). rewrite E in E2. injection E2 as <- <-.
  destruct (Good_listed _ _ _ _ Hr Hl Hin) as (Hp & Hm & Har).
  destruct (Good_listed _ _ _ _ HG' Hl' Hin') as (_ & Hm' & Har'). rewrite Hc in Hm'.
  destruct (visits_between o c w c' w' x Hr E Hv) as (_ & Hgap & Harm).
  eapply entry_drops; [done|by apply Hgap|done..| |done].
  destruct (Harm Har Har') as [y Hy]. unfold armed_cfg in Hy. rewrite Hx in Hy.
  by destruct (armed bc =? 0) eqn:Eb; breflect.
Qed.

(** ** Reload *)

(** A successful reload ends in [vg_populate_local]. *)
Lemma reload_tail c t c' t' :
  vg_ctrl_reload (c, t) = Some (0, (c', t')) → ∃ cf t1, vg_populate_local cf t1 = Some (tt, t').
Proof.
  unfold vg_ctrl_reload. intros E.
  apply mbind_inv in E as (c0 & s0 & _ & E). destruct (bool_decide _); [done|].
  apply mbind_inv in E as (file & s1 & _ & E). destruct (vg_config_load file); [|done].
  apply mbind_inv in E as (ifa & s2 & _ & E). destruct (vg_config_auto_local _ ifa) as [n|]; [|done].
  do 4 apply mbind_inv in E as (? & ? & _ & E). destruct (negb _); [done|].
  apply mbind_inv in E as (u & s7 & _ & E). apply mbind_inv in E as ([] & s8 & E8 & E).
  injection E as ->. exists n, s7.2. unfold onK, liftK in E8.
  destruct (vg_populate_local n s7.2) as [[[] t8]|]; [|done]. by injection E8 as _ ->.
Qed.

(** The world is among those recorded. *)
Definition recorded t : Prop := cur t ∈ seen t.

Lemma path_last (R : K → K → Prop) w l w' : path R w l w' → l = [] ∧ w' = w ∨ w' ∈ l.
Proof.
  revert w. induction l as [|x l IH]; intros w; cbn [path]; [by left|].
  intros [_ [[-> ->]|Hp]%IH]; right; set_solver.
Qed.

Lemma kmv_recorded {A} R (m : M (tw K) A) t a t' :
  kmv R m → m t = Some (a, t') → recorded t → recorded t' ∧ seen t ⊆ seen t'.
Proof.
  intros Hm E Hr. destruct (Hm _ _ _ E) as (l & S & P). unfold recorded. rewrite S.
  split; [|set_solver]. destruct (path_last _ _ _ _ P) as [[_ ->]|Hl]; set_solver.
Qed.

Lemma flush_recorded m t u t' : flush_lpm m t = Some (u, t') → recorded t'.
Proof.
  unfold flush_lpm. intros E. apply mbind_inv in E as (n & t1 & [= <- <-] & E).
  apply mbind_inv in E as (k & t2 & [= <- <-] & E).
  match type of E with _ ?t2 = _ => assert (recorded t2) as Hr by (unfold recorded; cbn; set_solver) end.
  revert E. destruct ((bpf_lpm_next_key m None (cur t)).1) as [k|]; intros E.
  - exact (proj1 (kmv_recorded _ _ _ _ _ (kmv_flush_loop _ _ _) E Hr)).
  - by injection E as _ <-.
Qed.

(** [populate_loop] writes its own two tries only. *)
Lemma populate_loop_other fd4 fd6 l m t u t' :
  m ≠ fd4 → m ≠ fd6 → populate_loop fd4 fd6 l t = Some (u, t') → same_trie m t t' ∧ xdp_cfg t' = xdp_cfg t.
Proof.
  intros H4 H6. revert t. induction l as [|p l IH]; intros t E; cbn [populate_loop] in E.
  { by injection E as _ <-. }
  apply mbind_inv in E as (e & t1 & [= _ <-] & E). apply IH in E as [[E1 E2] Ex].
  destruct (update_but (if family p =? AF_INET then fd4 else fd6) (lpm_key_of p) (VByte 1) t) as [Hb Hx].
  destruct (Hb m) as [H1 H2]; [by destruct (family p =? AF_INET)|].
  split; [split|]; (etrans; [eassumption|]); [exact H1|exact H2|exact Hx].
Qed.

Lemma flush_empties m t u t' :
  (∀ k, ¬ refused m k t') → flush_lpm m t = Some (u, t') → lpm_view m t' = ∅ ∧ same_but m t t'.
Proof.
  intros Hnr E. pose proof (flush_lpm_spec m t) as Hw. eapply wp_det in Hw; [|exact E].
  destruct Hw as (Hb & _ & Hl). split; [|done]. apply map_empty. intros k. apply eq_None_not_Some.
  intros Hk. by apply (Hnr k), Hl.
Qed.

(** Inside [vg_populate_local] there is a world without local networks. *)
Lemma populate_local_gap cf t1 t' :
  (∀ m k, ¬ refused m k t') → vg_populate_local cf t1 = Some (tt, t') →
  ∃ x, x ∈ seen t' ∧ lpm_view local_v4 x = ∅ ∧ lpm_view local_v6 x = ∅
    ∧ xdp_cfg x = xdp_cfg (cur t')
    ∧ ∀ m, m ≠ local_v4 → m ≠ local_v6 → lpm_view m x = lpm_view m (cur t').
Proof.
  intros Hnr E. unfold vg_populate_local in E.
  apply mbind_inv in E as (u2 & t2 & E2 & E). apply mbind_inv in E as (u3 & t3 & E3 & E).
  pose proof (flush_recorded _ _ _ _ E3) as Hr.
  assert (past t3 t') as P3 by (by apply (grows_populate_loop local_v4 local_v6 (local_cidr cf) t3 tt t')).
  assert (past t2 t3) as P2 by (by apply (grows_flush local_v6 t2 u3 t3)).
  destruct (flush_empties local_v4 t1 u2 t2) as [H4 _]; [|done|].
  { intros k Hk. by apply (Hnr local_v4 k), P3, P2. }
  destruct (flush_empties local_v6 t2 u3 t3) as [H6 [Hb _]]; [|done|].
  { intros k Hk. by apply (Hnr local_v6 k), P3. }
  destruct (kmv_recorded _ _ _ _ _ (kmv_populate_loop local_v4 local_v6 (local_cidr cf) ltac:(done)
    ltac:(done) ltac:(done) ltac:(done)) E Hr) as [_ Hs].
  exists (cur t3). split_and!; [by apply Hs| |done| |].
  - destruct (Hb local_v4) as [Hv _]; [done|]. rewrite <-H4. exact Hv.
  - symmetry. by apply (populate_loop_other local_v4 local_v6 (local_cidr cf) drop_v4 t3 tt t').
  - intros m Hm4 Hm6. symmetry. by apply (populate_loop_other local_v4 local_v6 (local_cidr cf) m t3 tt t').
Qed.

Lemma Good_traced c w s : Good c w → Good c (TW w s).
Proof.
  intros [(l & f & Hi & Hc & Ht) Hok]. split; [|done]. exists l, f.
  split_and!; [by apply linked_of_inv|exact Hc|exact Ht].
Qed.

Lemma hit_ext m a x y :
  Z.of_nat (8 * length a) = lpm_bits m → lpm_view m x = lpm_view m y →
  xdp_lpm_hit m a x = xdp_lpm_hit m a y.
Proof. intros Hl Hv. apply eq_true_iff_eq. by rewrite !hit_iff, Hv by done. Qed.

Lemma hit_empty m a x :
  Z.of_nat (8 * length a) = lpm_bits m → lpm_view m x = ∅ → xdp_lpm_hit m a x = false.
Proof.
  intros Hl Hv. apply not_true_iff_false. rewrite hit_iff, Hv by done.
  intros (k & [v Hk] & _). by rewrite lookup_empty in Hk.
Qed.

(** Without local networks a TCP packet has no port to be let through. *)
Lemma gap_exempt bc pkt i x y :
  bytes_ok pkt → ip_info pkt = Some i → pi_proto i = 6 → ndp_exempt i = false →
  allow_exempt i y = false →
  lpm_view local_v4 x = ∅ → lpm_view local_v6 x = ∅ →
  (∀ m, m ≠ local_v4 → m ≠ local_v6 → lpm_view m x = lpm_view m y) → exempt bc i x = false.
Proof.
  intros Hb Hip Hp Hn Ha H4 H6 Hm. destruct (pi_addrs_ok _ _ Hb Hip) as [[Hs _] [Hd _]].
  pose proof (addr_bytes_max _ (pkt_family_ok i)) as Hmax.
  assert (lpm_bits (local_trie i) = max_plen (pkt_family i)) as Hlb
    by (unfold local_trie, pkt_family; by destruct (pi_v6 i)).
  assert (lpm_bits (allow_trie i) = max_plen (pkt_family i)) as Hab
    by (unfold allow_trie, pkt_family; by destruct (pi_v6 i)).
  assert (lpm_view (local_trie i) x = ∅) as Hle by (unfold local_trie; by destruct (pi_v6 i)).
  assert (lpm_view (allow_trie i) x = lpm_view (allow_trie i) y) as Hae
    by (apply Hm; unfold allow_trie; by destruct (pi_v6 i)).
  unfold exempt, tcp_exempt, dhcp_exempt. rewrite Hn, Hp. cbn [Z.eqb Pos.eqb andb orb].
  rewrite !(hit_empty (local_trie i)) by (done || lia). rewrite !andb_false_r, !orb_false_r.
  unfold allow_exempt in *. by rewrite !(hit_ext (allow_trie i) _ x y) by (done || lia).
Qed.

(** C30: a reload opens a window in which the allowed ports are closed: a
    successful reload of a run in which no delete was refused goes through a
    world whose local networks, of both families, are all gone, and in which
    a TCP packet from or to a listed prefix is dropped whatever its ports,
    unless an end of it is in an allowed network or the exemption of
    link-local traffic covers it. *)
Theorem reload_window c w c' t' l' r pkt i :
  reach (c, w) → vg_ctrl_reload (c, TW w []) = Some (0, (c', t')) →
  (∀ m k, ¬ refused m k (cur t')) →
  drop_all_walk (drops c') = Some l' → r ∈ recs c' l' →
  bytes_ok pkt → ip_info pkt = Some i → family (cidr r) = pkt_family i →
  in_cidr (cidr r) (pi_saddr i) ∨ in_cidr (cidr r) (pi_daddr i) →
  pi_proto i = 6 → ndp_exempt i = false → allow_exempt i (cur t') = false →
  ∃ x x', x ∈ seen t' ∧ lpm_view local_v4 x = ∅ ∧ lpm_view local_v6 x = ∅
    ∧ voidgate_xdp pkt x = Some (XDP_DROP, x').
Proof.
  intros Hr%reach_good E Hnr Hl Hin Hb Hip Hf Ha Hp Hn Hal; [|done]. cbn [fst snd] in Hr.
  pose proof (reload_stable Hdefaults c (TW w []) (Good_traced _ _ _ Hr)) as HG.
  eapply wp_det in HG; [|exact E]. cbn [fst snd] in HG.
  destruct (Good_listed _ _ _ _ HG Hl Hin) as (Hq & Hm & y & Hy).
  destruct (reload_tail _ _ _ _ E) as (cf & t1 & E1).
  destruct (populate_local_gap _ _ _ Hnr E1) as (x & Hx & H4 & H6 & Hxc & Hv).
  unfold armed_cfg in Hy. change (xdp_cfg t') with (xdp_cfg (cur t')) in Hy. rewrite <-Hxc in Hy.
  destruct (xdp_cfg x) as [bc|] eqn:Ec; [|done].
  destruct (entry_drops x (cidr r) pkt i bc) as [x' Ex]; try done.
  - unfold in_map. rewrite Hv by (unfold drop_fd; by destruct (family (cidr r) =? AF_INET)). exact Hm.
  - by destruct (armed bc =? 0) eqn:Eb; breflect.
  - by eapply gap_exempt.
  - by exists x, x'.
Qed.
End Main.
