(* ===== verification/DaemonMain.v ===== *)
(** * The daemon: main theorems *)

From Stdlib Require Import String.
From S2P Require Import Prelude Types CString Ipaddr IpaddrThms Config Kernel Maps MapsThms.
From S2P Require Import ConfigThms Lists DropTable DropThms Snap SnapThms Double Policy.
From S2P Require Import PolicyThms SweepThms TickThms Xdp MapsMain Ctl CtlThms CtlMain Http Os Setup.
From S2P Require Import Daemon ProcThms DaemonThms System.
Open Scope Z_scope.

(** ** Whatever the operating system answers *)
Section AnyOs.
Context {K : Type} `{!Kernel K} `{!Env K} `{!Os K} {I : Inet}.
Implicit Types (w : K) (p : proc).

(** Not a run to stop another instance. *)
Definition serves (opts : list (Z * list Z)) : Prop :=
  ∀ o, parse_options opts default_options = Some o → o_stop o = false.

(** A process as the shell or the init system starts it: the three standard
    descriptors are open (others may be too), and it has no BPF object. *)
Definition started p : Prop :=
  held p = None ∧ log p = [] ∧ ({[0; 1; 2]} : gset Z) ⊆ fd_set p ∧ objs p = [].

Lemma started_init p : started p → init (fd_set p) p.
Proof. by intros (H1 & H2 & _ & H4). Qed.

(** However a serving run ends. *)
Lemma main_ends turns opts w p r w' p' :
  serves opts → started p → main turns opts (w, p) = Some (r, (w', p')) →
  match r with inl z => ends (fd_set p) z p' | inr _ => clean (fd_set p) p' end.
Proof.
  intros Ho Hs Er. pose proof Hs as (_ & _ & Hstd & _).
  pose proof (main_tri (fd_set p) Hstd turns opts Ho (w, p) r (w', p') (started_init p Hs) Er) as H.
  by destruct r.
Qed.

Lemma main_guarded turns opts w p r w' p' :
  serves opts → started p → main turns opts (w, p) = Some (r, (w', p')) → guarded (log p').
Proof.
  intros Ho Hs Er. pose proof (main_ends _ _ _ _ _ _ _ Ho Hs Er) as H.
  destruct r; [apply H|]. by destruct H as (_ & _ & [] & _).
Qed.


(** C22: a daemon that returns leaves nothing behind: the lock is given up,
    the BPF object is destroyed, exactly the descriptors it was started with
    are open (libbpf's are gone too), and its program is off the hook: it is
    still there only if the daemon asked the kernel to detach that very
    program, by its interface and the flags it was attached with, and the
    kernel failed the call. *)
Theorem main_returns_clean turns opts w p status w' p' :
  serves opts → started p → main turns opts (w, p) = Some (inr status, (w', p')) →
  (∀ x, xdp_on (log p') = Some x → stuck x (log p'))
  ∧ held p' = None ∧ fd_set p' = fd_set p ∧ objs p' = [].
Proof.
  intros Ho Hs Er. destruct (main_ends _ _ _ _ _ _ _ Ho Hs Er) as (H1 & H2 & [] & H3). by split_and!.
Qed.


(** C34: the daemon does not leak descriptors: between two turns of its loop,
    after any number of them and whatever it served, it has exactly one BPF
    object, and at most three descriptors are open besides those it was
    started with and those libbpf holds for that object; it still holds its
    lock. *)
Theorem main_descriptors_bounded turns opts w p c w' p' :
  serves opts → started p → main turns opts (w, p) = Some (inl (Cut (Some c)), (w', p')) →
  is_Some (held p')
  ∧ ∃ l, objs p' = [l] ∧ (size (fd_set p') ≤ size (fd_set p) + 3 + List.length l)%nat.
Proof. intros Ho Hs Er. by destruct (main_ends _ _ _ _ _ _ _ Ho Hs Er) as (_ & _ & H). Qed.
End AnyOs.

(** ** [-s stop] *)
Section StopOther.
Context {K : Type} `{!Kernel K} `{!Env K} `{!Os K}.
Implicit Types (w : K) (p : proc).

(** The calls of the wait: signal 0 to [pid] until it is gone. *)
Definition wait_call (pid : Z) (e : event) : Prop :=
  match e_req e with Kill q sig => q = pid ∧ sig = 0 | Unlink _ | Nanosleep => True | _ => False end.

(** The process was gone when [daemon_stop] looked last. *)
Definition saw_exit (pid : Z) (l : list event) : Prop :=
  ∃ a1 h1 path a h l', l = Ev (Unlink path) a1 h1 :: Ev (Kill pid 0) a h :: l' ∧ rc a = - ESRCH.

Lemma stop_loop_tri i pid path l :
  tri (λ p, ∃ pre, log p = pre ++ l ∧ Forall (wait_call pid) pre)
    (stop_loop (K := K) i pid path)
    (λ _ p, saw_exit pid (log p) ∧ ∃ pre, log p = pre ++ l ∧ Forall (wait_call pid) pre)
    (λ _ p, ∃ pre, log p = pre ++ l ∧ Forall (wait_call pid) pre).
Proof.
  induction i as [|i IH]; cbn [stop_loop]; [by apply tri_die|].
  apply tri_exists. intros pre. eapply tri_pre; [intros p; apply and_comm|]. apply tri_pure. intros Hpre.
  eapply tri_bind; [apply tri_log|]. intros e. apply tri_exists; intros a0. apply tri_exists; intros h.
  apply tri_pure. intros Ha. rewrite (Ha eq_refl ltac:(done)). clear Ha.
  assert (∀ q, wait_call pid (Ev (Kill pid 0) q h)) as Hk by (by split). tbranch.
  - tbranch.
    + eapply tri_bind; [apply tri_log|]. intros u. apply tri_exists; intros u0. apply tri_exists; intros h0.
      apply tri_pure. intros _. apply tri_ret. intros p ->. split.
      * by eexists _, _, _, _, _, _.
      * exists (Ev (Unlink path) u0 h0 :: Ev (Kill pid 0) a0 h :: pre). split; [done|]. by repeat constructor.
    + apply tri_die. intros p ->. exists (Ev (Kill pid 0) a0 h :: pre). split; [done|]. by constructor.
  - eapply tri_bind; [apply tri_log|]. intros u. eapply tri_pre; [|apply IH].
    intros p (u0 & h0 & _ & ->). exists (Ev Nanosleep u0 h0 :: Ev (Kill pid 0) a0 h :: pre).
    split; [done|]. by repeat constructor.
Qed.

Lemma stop_loop_total i pid path : total (stop_loop (K := K) i pid path).
Proof.
  induction i as [|i IH]; cbn [stop_loop]; [apply total_stop|].
  apply total_bind; [apply total_sysc|]. intros e. repeat case_match; eauto with total.
Qed.

Lemma daemon_stop_total path : total (daemon_stop (K := K) path).
Proof.
  unfold daemon_stop.
  repeat first [apply total_bind; [|intros ?] | case_match];
    eauto using stop_loop_total with total.
Qed.

(** What [daemon_stop] knows when it sends a signal: a shared [flock] on the
    file it read failed (with [EWOULDBLOCK] because another process holds the
    lock, or with any other error: the code does not tell them apart), and
    the text it read is a positive number.  The pid is its low 32 bits as a
    signed number, which can be negative. *)
Definition justified (l : list event) (pid : Z) : Prop :=
  ∃ fd n h fa h', Ev (Read fd 31) n h ∈ l ∧ Ev (Flock fd LOCK_SH) fa h' ∈ l ∧ rc fa ≠ 0 ∧ 0 < rc n ∧
    0 < strtol (take (Z.to_nat (rc n)) (out n)) ∧ pid = s32 (strtol (take (Z.to_nat (rc n)) (out n))).

Definition stop_ok (p : proc) : Prop :=
  ∀ pid sig a h, Ev (Kill pid sig) a h ∈ log p → justified (log p) pid ∧ (sig = SIGTERM ∨ sig = 0).

Lemma no_kill_ok p :
  Forall (λ e, match e_req e with Kill _ _ => False | _ => True end) (log p) → stop_ok p.
Proof. intros Hf pid sig a h Hin. by eapply Forall_forall in Hf; [|exact Hin]. Qed.

(** From the first signal on. *)
Lemma kills_ok p pid pre a h l :
  log p = pre ++ Ev (Kill pid SIGTERM) a h :: l → Forall (wait_call pid) pre → justified l pid →
  Forall (λ e, match e_req e with Kill _ _ => False | _ => True end) l → stop_ok p.
Proof.
  intros Ep Hpre Hj Hl q sig b k Hin. rewrite Ep in *.
  assert (∀ e, e ∈ l → e ∈ pre ++ Ev (Kill pid SIGTERM) a h :: l) as Hsub.
  { intros e He. apply elem_of_app. right. by apply elem_of_cons; right. }
  assert (justified (pre ++ Ev (Kill pid SIGTERM) a h :: l) pid) as Hj'.
  { destruct Hj as (fd & n & h1 & fa & h2 & H1 & H2 & H). exists fd, n, h1, fa, h2.
    split_and!; [by apply Hsub..|apply H|apply H|apply H|apply H]. }
  apply elem_of_app in Hin as [Hin|[Hin|Hin]%elem_of_cons].
  - eapply Forall_forall in Hpre; [|exact Hin]. destruct Hpre as [-> ->]. split; [done|by right].
  - injection Hin as -> -> _ _. split; [done|by left].
  - by eapply Forall_forall in Hl; [|exact Hin].
Qed.

(** One call, its answer [a0] and its entry in the log. *)
Ltac tlog a0 :=
  eapply tri_bind; [apply tri_log|]; intros ?; apply tri_exists; intros a0;
  apply tri_exists; intros ?; apply tri_pure;
  first [intros ->; [|done|done] | intros Heq; try rewrite (Heq eq_refl ltac:(done)); clear Heq].
Ltac tquiet := apply tri_die; intros p Hp; apply no_kill_ok; rewrite Hp; by repeat constructor.

Lemma daemon_stop_tri path :
  tri (λ p, log p = []) (daemon_stop (K := K) path)
    (λ _ p, stop_ok p ∧ ∃ pid, saw_exit pid (log p)) (λ _, stop_ok).
Proof.
  unfold daemon_stop. eapply tri_bind; [apply tri_log|]. intros fd. apply tri_exists; intros fa.
  apply tri_exists; intros fh. apply tri_pure. intros _. tbranch; [tquiet|].
  tlog n. tlog lk. tbranch; [tlog c1; tlog c2; tquiet|]. tlog c1.
  tbranch; [tquiet|]. set (pid := strtol _) in *. tbranch; [tquiet|].
  eapply tri_bind; [apply tri_log|]. intros e. apply tri_exists; intros ka. apply tri_exists; intros kh.
  apply tri_pure. intros Hka. rewrite (Hka eq_refl ltac:(done)). clear Hka.
  match goal with |- tri (λ p, log p = _ :: ?l0) _ _ _ => set (l := l0) end.
  assert (justified l (s32 pid)) as Hj.
  { eexists (rc fd), n, _, lk, _. split_and!; [..|reflexivity]; try done; unfold l;
      rewrite !elem_of_cons; [do 2 right; by left|right; by left]. }
  assert (Forall (λ e, match e_req e with Kill _ _ => False | _ => True end) l) as Hl
    by (by repeat constructor).
  tbranch.
  - eapply tri_bind with (Q1 := λ _ p, ∃ pre, log p = pre ++ Ev (Kill (s32 pid) SIGTERM) ka kh :: l
      ∧ Forall (wait_call (s32 pid)) pre).
    + tbranch; [|apply tri_ret; intros p Hp; by exists []]. tlog u. apply tri_ret. intros p Hp.
      eexists [_]. split; [exact Hp|]. by repeat constructor.
    + intros ?. apply tri_die. intros p (pre & Ep & Hpre). by eapply kills_ok.
  - eapply tri_conseq; [apply stop_loop_tri|intros p Hp; by exists []| |].
    + intros ? p [Hs (pre & Ep & Hpre)]. split; [by eapply kills_ok|by eexists].
    + intros ? p (pre & Ep & Hpre). by eapply kills_ok.
Qed.

End StopOther.
