(* ===== verification/DaemonReach.v ===== *)
(** * The daemon runs the gate

    [main] put together with the whole-system model of [System]: the states
    its loop goes through are the reachable ones, so everything proved of
    those holds of the running daemon; a turn of the loop always completes;
    and the times at which it ticks. *)

From Stdlib Require Import String.
From S2P Require Import Prelude Types CString Ipaddr IpaddrThms Config Kernel Maps MapsThms.
From S2P Require Import ConfigThms Lists DropTable DropThms Snap SnapThms Double Policy.
From S2P Require Import PolicyThms SweepThms TickThms Xdp MapsMain Ctl CtlThms CtlMain Http Os Setup.
From S2P Require Import Daemon ProcThms DaemonThms System.
Open Scope Z_scope.

(** System calls do not touch the BPF maps of the process, but for loading
    them, which creates them empty (and no call on them has failed yet), and
    destroying them. *)
Class OsLaws (K : Type) `{!Kernel K} `{!Os K} : Prop := {
  sys_same r w : r ≠ SkelLoad → r ≠ SkelDestroy → same_maps w (sys r w).2;
  load_fresh w a w' : sys SkelLoad w = (a, w') → rc a = 0 →
    (∀ m, lpm_view m w' = ∅) ∧ is_Some (xdp_cfg w') ∧ ∀ o m k, ¬ failed o m k w';
  conn_same w : same_maps w (conn_io w).2;
}.

Section Reach.
Context {K : Type} `{!Kernel K} `{!KernelLaws K} `{!XdpLaws K} `{!Env K} `{!EnvLaws K}.
Context `{!Os K} `{!OsLaws K} {I : Inet} `{!InetLaws I} (Hdefaults : defaults_parse).
Implicit Types (w : K) (c : vg_ctrl).

(** A run that is cut off is in a reachable state. *)
Definition in_reach (z : stop) w : Prop :=
  match z with Cut (Some c) => reach (c, w) | _ => True end.

#[local] Abbreviation E := in_reach.

Definition same_stable (P : K → Prop) : Prop := ∀ w w', same_maps w w' → P w → P w'.

Lemma reach_stable c : same_stable (λ w, reach (c, w)).
Proof. intros w w' Hs Hr. by eapply reach_kernel. Qed.

Lemma wtri_call {A} (P : K → Prop) (m : D K A) (w0 : K → K) Q :
  (∀ w p r w' p', m (w, p) = Some (r, (w', p')) → (∃ a, r = inr a) ∧ w' = w0 w) →
  (∀ w a, P w → Q a (w0 w)) → wtri P m Q E.
Proof.
  intros Hm HQ [w p] r [w' p'] Hp Er. destruct (Hm _ _ _ _ _ Er) as [[a ->] ->]. by apply HQ.
Qed.

Lemma sysc_world r w p x w' p' :
  sysc r (w, p) = Some (x, (w', p')) → (∃ a, x = inr a) ∧ w' = (sys r w).2.
Proof.
  unfold sysc. cbn [fst snd]. destruct (sys r w) as [a v]. destruct (proc_step r a p) as [a' p''].
  intros [= <- <- _]. split; [by eexists|done].
Qed.

Lemma wtri_sys r P : same_stable P → r ≠ SkelLoad → r ≠ SkelDestroy → wtri P (sysc r) (λ _, P) E.
Proof.
  intros HP H1 H2. apply (wtri_call _ _ (λ w, (sys r w).2)); [apply sysc_world|].
  intros w _. apply HP. by apply sys_same.
Qed.

Lemma wtri_any r P : wtri P (sysc r) (λ _ _, True) E.
Proof. apply (wtri_call _ _ (λ w, (sys r w).2)); [apply sysc_world|done]. Qed.

Lemma wtri_onW {A} (m : M K A) P Q :
  (∀ w a w', P w → m w = Some (a, w') → Q a w') → wtri P (onW m) Q E.
Proof.
  intros H [w p] r s Hp. unfold onW. cbn [fst snd] in *. destruct (m w) as [[a w']|] eqn:Em; [|done].
  intros [= <- <-]. by eapply H.
Qed.

Lemma wtri_onC {A} (m : M (vg_ctrl * K) A) c P Q :
  (∀ w a c' w', P w → m (c, w) = Some (a, (c', w')) → Q (a, c') w') → wtri P (onC m c) Q E.
Proof.
  intros H [w p] r s Hp. unfold onC. cbn [fst snd] in *.
  destruct (m (c, w)) as [[a [c' w']]|] eqn:Em; [|done]. intros [= <- <-]. by eapply H.
Qed.

(** ** Serving *)

(** The metrics page does not touch the maps. *)
Lemma http_same evs wr c w :
  ∃ out w', vg_http_handle evs wr (c, w) = Some (out, (c, w')) ∧ same_maps w w'.
Proof.
  unfold vg_http_handle. destruct evs as [|[| |[|x req]] evs]; try (by eexists _, _).
  split_if; [by eexists _, _|].
  assert (wp (vg_metrics_read (maps c)) (λ _ w', same_maps w w') w) as (m & w' & Em & Hs).
  { unfold vg_metrics_read. apply wp_bind. eapply wp_mono; [apply sum_same, metrics_same|].
    intros r w' Hs. by apply wp_ret. }
  unfold mbind, M_bind, getc, gets, onK, liftK. cbn [fst snd id]. rewrite Em. by eexists _, _.
Qed.

Lemma serve_reach ctl_fd fd c :
  wtri (λ w, reach (c, w)) (serve ctl_fd fd c) (λ c' w, reach (c', w)) E.
Proof.
  unfold serve. eapply tri_bind; [apply wtri_sys; [apply reach_stable|done|done]|]. intros cfd.
  split_if; [by apply tri_ret|]. eapply tri_bind with (Q1 := λ _ w, reach (c, w)).
  { unfold sock_timeout. eapply tri_bind; [apply wtri_sys; [apply reach_stable|done|done]|]. intros.
    by apply tri_ret. }
  intros _. eapply tri_bind with (Q1 := λ _ w, reach (c, w)).
  { apply wtri_onW. intros w a w' Hr [= Ec]. eapply reach_stable; [|exact Hr].
    change w' with (a, w').2. rewrite <-Ec. apply conn_same. }
  intros io. eapply tri_bind with (Q1 := λ r w, reach (r.2, w)).
  - split_if; apply wtri_onC; intros w a c' w' Hr Eh; cbn [snd].
    + by eapply reach_ctl.
    + destruct (http_same io.1 (write_result io.2) c w) as (o & w1 & E1 & Hs). rewrite E1 in Eh.
      injection Eh as _ <- <-. by eapply reach_kernel.
  - intros r. eapply tri_bind; [apply wtri_sys; [apply reach_stable|done|done]|]. intros.
    by apply tri_ret.
Qed.

Lemma serve_all_reach ctl_fd pfd c :
  wtri (λ w, reach (c, w)) (serve_all ctl_fd pfd c) (λ c' w, reach (c', w)) E.
Proof.
  revert c. induction pfd as [|[fd rev] pfd IH]; intros c; cbn [serve_all]; [by apply tri_ret|].
  eapply tri_bind with (Q1 := λ c' w, reach (c', w)); [|intros c'; apply IH].
  split_if; [by apply tri_ret|apply serve_reach].
Qed.

Lemma clock_reach c : wtri (λ w, reach (c, w)) (onW (call sys_clock)) (λ _ w, reach (c, w)) E.
Proof.
  apply wtri_onW. intros w a w' Hr [= Ec]. eapply reach_stable; [|exact Hr].
  change w' with (a, w').2. rewrite <-Ec. apply clock_same.
Qed.

Lemma loop_body_reach ctl_fd http_fd last c :
  wtri (λ w, reach (c, w)) (loop_body ctl_fd http_fd last c) (λ r w, reach (r.2, w)) E.
Proof.
  unfold loop_body. eapply tri_bind; [apply clock_reach|]. intros now.
  eapply tri_bind; [by apply tri_dlift with (Q := λ _ w, reach (c, w))|]. intros wait.
  eapply tri_bind; [apply wtri_sys; [apply reach_stable|done|done]|]. intros pr.
  split_if; [split_if; by apply tri_ret|].
  eapply tri_bind with (Q1 := λ c' w, reach (c', w)).
  { split_if; [apply serve_all_reach|by apply tri_ret]. }
  intros c'. eapply tri_bind; [apply clock_reach|]. intros now'. split_if; [|by apply tri_ret].
  eapply tri_bind with (Q1 := λ r w, reach (r.2, w)); [|intros; by apply tri_ret].
  apply wtri_onC. intros w a c1 w1 Hr Et. by eapply reach_tick.
Qed.

Lemma main_loop_reach turns stopped ctl_fd http_fd last c :
  wtri (λ w, reach (c, w)) (main_loop turns stopped ctl_fd http_fd last c) (λ c' w, reach (c', w)) E.
Proof.
  revert stopped last c. induction turns as [|turns IH]; intros stopped last c; cbn [main_loop];
    (destruct stopped; [by apply tri_ret|]);
    (eapply tri_bind; [apply wtri_sys; [apply reach_stable|done|done]|]; intros s);
    (split_if; [by apply tri_ret|]).
  - by apply tri_stop.
  - eapply tri_bind; [apply loop_body_reach|]. intros r. destruct r.1; [apply IH|by apply tri_ret].
Qed.

(** ** The start *)

(** Parts of the start that only make calls. *)
Ltac walk :=
  repeat first
    [ apply wtri_any | apply tri_ret; done | apply tri_stop; done | apply tri_die; done
    | apply wtri_onW; done | eapply tri_bind with (Q1 := λ _ _, True); [|intros ?] | case_match ].

Lemma await_any turns r : wtri (λ _, True) (await_ready turns r) (λ _ _, True) E.
Proof. induction turns; cbn [await_ready]; walk. done. Qed.

Lemma daemon_start_any turns fd : wtri (λ _, True) (daemon_start turns fd) (λ _ _, True) E.
Proof.
  unfold daemon_start, redirect_log.
  repeat first [apply await_any | progress walk].
Qed.

Lemma iface_ok cf i :
  cfg_ok cf →
  cfg_ok (set_strs cf (snprintf VG_MAX_IFACE i) (xdp_mode cf) (log_file cf) (pid_file cf)
            (ctl_socket_group cf)).
Proof.
  intros []. split; cbn; try done. unfold snprintf. rewrite length_take. unfold VG_MAX_IFACE. lia.
Qed.

Lemma auto_local_size cf ifa cf' :
  vg_config_auto_local cf ifa = Some cf' → drop_map_size cf' = drop_map_size cf.
Proof.
  unfold vg_config_auto_local. destruct (negb _); [by intros [= <-]|].
  by intros (l & _ & [= <-])%bind_Some.
Qed.

Lemma start_process_cfg turns o cf :
  cfg_ok cf →
  wtri (λ _, True) (start_process turns o cf)
    (λ r _, (cfg_ok r.1.1 ∧ drop_map_size r.1.1 = drop_map_size cf) ∧ True) E.
Proof.
  intros Hc. unfold start_process.
  eapply tri_bind with (Q1 := λ _ _, True); [unfold pid_lock; walk|]. intros pid_fd.
  eapply tri_bind with (Q1 := λ _ _, True); [unfold vg_ctl_server_alive; walk|]. intros [|]; [walk|].
  set (cf1 := match o_iface o with Some i => _ | None => _ end).
  assert (cfg_ok cf1 ∧ drop_map_size cf1 = drop_map_size cf) as [H1 Hs1].
  { unfold cf1. destruct (o_iface o); [|done]. split; [by apply iface_ok|done]. }
  eapply tri_bind; [apply wtri_any|]. intros idx. split_if; [walk|].
  eapply tri_bind with (Q1 := λ ifa _, (∀ l, ifa = Some l → Forall ifaddr_ok l) ∧ True).
  { split_if; [|by apply tri_ret]. apply wtri_onW. intros w a w' _ [= Eg]. split; [|done]. intros l ->.
    eapply (getifaddrs_ok w). by rewrite Eg. }
  intros ifa. apply tri_pure. intros Hifa. destruct (vg_config_auto_local cf1 ifa) as [cf2|] eqn:Ea; [|by apply tri_die].
  pose proof (auto_local_size _ _ _ Ea) as Hs2.
  apply auto_local_ok in Ea; [|done|done].
  eapply tri_bind; [apply wtri_any|]. intros log_fd. split_if; [by apply tri_die|].
  eapply tri_bind with (Q1 := λ _ _, True).
  { split_if; [apply daemon_start_any|]. unfold redirect_log. walk. }
  intros ready. do 3 (eapply tri_bind; [apply wtri_any|]; intros ?). apply tri_ret. intros w _.
  split; [|done]. split; [done|]. cbn [fst]. congruence.
Qed.

(** The maps as a start leaves them: nothing dropped, nothing refused. *)
Definition no_drops w : Prop :=
  lpm_view drop_v4 w = ∅ ∧ lpm_view drop_v6 w = ∅ ∧ ∀ q, ¬ refused_key q w.

Lemma no_drops_same : same_stable no_drops.
Proof.
  intros w w' (Hs & _ & Hp) (H4 & H6 & Hr). destruct (Hs drop_v4) as [E4 _], (Hs drop_v6) as [E6 _].
  split; [congruence|]. split; [congruence|]. intros q Hq. by apply (Hr q), Hp.
Qed.

Lemma start_world_same : same_stable start_world.
Proof.
  intros w w' Hs [Hx Hd]. split; [|by eapply no_drops_same]. destruct Hs as (_ & -> & _). exact Hx.
Qed.

Lemma maps_open_fresh cf : wtri (λ _, True) (vg_maps_open cf) (λ _, no_drops) E.
Proof.
  unfold vg_maps_open. eapply tri_bind; [apply wtri_any|]. intros ?.
  eapply tri_bind with (Q1 := λ _ _, True); [unfold bump_memlock; walk|intros _].
  do 2 (eapply tri_bind; [apply wtri_any|]; intros ?). split_if; [by apply tri_die|].
  eapply tri_bind; [apply wtri_any|]. intros sk. split_if; [by apply tri_die|].
  do 2 (eapply tri_bind with (Q1 := λ _ _, True); [unfold set_sizes; walk|intros _]).
  eapply tri_bind with (Q1 := λ a w, rc a = 0 → no_drops w).
  { intros [w p] r s _. unfold sysc. cbn [fst snd proc_step].
    destruct (sys SkelLoad w) as [x w'] eqn:El.
    assert (∃ q, proc_step SkelLoad x p = (x, q)) as [q Eq] by (cbn; case_match; by eexists).
    cbn [proc_step] in Eq. rewrite Eq. intros [= <- <-] Ha. cbn [fst].
    destruct (load_fresh w x w' El Ha) as (Hl & _ & Hf). split; [done|]. split; [done|].
    intros x0. apply Hf. }
  intros err. split_if; breflect.
  - eapply tri_bind with (Q1 := λ _ _, True); [apply wtri_any|]. intros _. by apply tri_die.
  - apply tri_ret. intros w Hw. by apply Hw.
Qed.

Lemma maps_close_any ln P : wtri P (vg_maps_close ln) (λ _ _, True) E.
Proof.
  eapply tri_pre with (P' := λ _, True); [done|]. unfold vg_maps_close, vg_xdp_detach. walk.
Qed.

Lemma close_and_die_any {A} ln P (Q : A → K → Prop) : wtri P (close_and_die ln) Q E.
Proof. unfold close_and_die. eapply tri_bind; [apply maps_close_any|]. intros ?. by apply tri_die. Qed.

Lemma populate_no_drops cf :
  wtri no_drops (onW (vg_populate_allow cf)) (λ _, no_drops) E
  ∧ wtri no_drops (onW (vg_populate_local cf)) (λ _, no_drops) E.
Proof.
  assert (∀ fd4 fd6 l w a w', fd4 ≠ drop_v4 → fd4 ≠ drop_v6 → fd6 ≠ drop_v4 → fd6 ≠ drop_v6 →
    (_ ← flush_lpm fd4; _ ← flush_lpm fd6; populate_loop fd4 fd6 l) w = Some (a, w') →
    no_drops w → no_drops w') as Hst.
  { intros fd4 fd6 l w a w' N1 N2 N3 N4 Ep (E4 & E6 & Hr).
    pose proof (populate_nets_same fd4 fd6 l w N1 N2 N3 N4) as Hs.
    eapply wp_det in Hs as ([H4 _] & [H6 _] & _); [|exact Ep].
    split; [congruence|]. split; [congruence|]. intros q Hq.
    assert (drop_fd q ≠ fd4 ∧ drop_fd q ≠ fd6) as [D4 D6]
      by (unfold drop_fd; by destruct (family q =? AF_INET)).
    by apply (Hr q), (spares_populate (drop_fd q) fd4 fd6 l D4 D6 w a w' _ Ep). }
  split; apply wtri_onW; intros w a w' Hw Ep;
    (eapply Hst; [| | | |exact Ep|exact Hw]); done.
Qed.

Lemma commit_start cf :
  wtri no_drops (onW (vg_cfg_commit 0 cf)) (λ e w, no_drops w ∧ (e = 0 → start_world w)) E.
Proof.
  apply wtri_onW. intros w e w' (H4 & H6 & Hr). unfold vg_cfg_commit, call. intros [= Ec].
  pose proof (cfg_update_past (bpf_cfg_of 0 cf) w) as Hp. rewrite Ec in Hp. cbn [snd] in Hp.
  pose proof (cfg_update_tries (bpf_cfg_of 0 cf) w) as Ht. rewrite Ec in Ht. cbn [snd] in Ht.
  destruct (Ht drop_v4) as [E4 _], (Ht drop_v6) as [E6 _].
  assert (no_drops w') as Hd.
  { split; [congruence|]. split; [congruence|]. intros q Hq. by apply (Hr q), Hp. }
  split; [done|]. intros ->.
  apply cfg_update_ok in Ec. split; [|done]. by eexists.
Qed.

Lemma start_gate_reach o cf :
  cfg_ok cf → drop_map_size cf ≤ 2 ^ 30 →
  wtri (λ _, True) (start_gate o cf) (λ r w, reach (r.2, w)) E.
Proof.
  intros Hc Hs. unfold start_gate. eapply tri_bind; [apply maps_open_fresh|]. intros [m ln].
  eapply tri_bind; [apply populate_no_drops|]. intros ?.
  eapply tri_bind; [apply populate_no_drops|]. intros ?.
  eapply tri_bind; [apply commit_start|]. intros e. split_if; [apply close_and_die_any|]. breflect.
  eapply tri_pre with (P' := start_world); [intros w [_ Hw]; by apply Hw|].
  eapply tri_bind with (Q1 := λ _, start_world).
  { unfold vg_xdp_attach, attach_mode.
    repeat first [by apply tri_ret | apply wtri_sys; [apply start_world_same|done|done] | case_match
                 |eapply tri_bind with (Q1 := λ _, start_world); [|intros ?]]. }
  intros [e' ln']. split_if; [apply close_and_die_any|].
  do 2 (eapply tri_bind; [apply wtri_sys; [apply start_world_same|done|done]|]; intros ?).
  set (ci := vg_ctrl_init _ _ _ _ _ _).
  eapply tri_bind with (Q1 := λ oc w, ci = Some oc ∧ start_world w); [by apply tri_dlift|]. intros oc.
  apply tri_pure. intros Ei. destruct oc as [c|]; [|apply close_and_die_any]. apply tri_ret. intros w Hw. cbn [snd].
  unfold ci, vg_ctrl_init in Ei. eapply reach_start; [exact Hc|exact Hs| |exact Hw].
  unfold vg_ctrl_init. apply bind_Some in Ei as (t & Et & Ei). rewrite Et. cbn [mbind option_bind].
  revert Ei. do 2 (case_match; [done|]). intros Ei. exact Ei.
Qed.

Lemma start_service_reach cf fd ready c :
  wtri (λ w, reach (c, w)) (start_service cf fd ready) (λ _ w, reach (c, w)) E.
Proof.
  unfold start_service, vg_ctl_server_listen, vg_http_listen, write_pidfile.
  repeat first [by apply tri_ret | by apply tri_die | apply wtri_sys; [apply reach_stable|done|done] | case_match
               |eapply tri_bind with (Q1 := λ _ w, reach (c, w)); [|intros ?]].
Qed.

(** The configuration that a start reads does not ask for more than 2^30
    drops.  (Between 2^30 and 2^31 [vg_ctrl_init] does not come back, its
    doubling loop diverges; from 2^31 on 2 * drop_map_size wraps modulo 2^32,
    and it may come back with a pool smaller than the maps.) *)
Definition sane_size (opts : list (Z * list Z)) w : Prop :=
  ∀ o cf, parse_options opts default_options = Some o →
    vg_config_load (read_config (o_cfg o) w).1 = Some cf → drop_map_size cf ≤ 2 ^ 30.

(** C9: the running daemon is the system of [System]: started with a
    configuration that asks for at most 2^30 drops, after any number of turns
    of its loop, whatever connections it served and whatever the operating
    system answered, the controller and the kernel are in a reachable state,
    so what is shown of those holds of it. *)
Theorem main_reaches turns opts w p c w' p' :
  sane_size opts w → main turns opts (w, p) = Some (inl (Cut (Some c)), (w', p')) → reach (c, w').
Proof.
  intros Hsz Er.
  enough (wtri (λ v, v = w) (main turns opts) (λ _ _, True) E) as H by exact (H (w, p) _ _ eq_refl Er).
  clear Er. unfold main. destruct (parse_options opts default_options) as [o|] eqn:Eo; [|by apply tri_ret].
  eapply tri_bind with (Q1 := λ file _, file = (read_config (o_cfg o) w).1 ∧ True).
  { apply wtri_onW. intros v a v' ->. unfold call. intros [= Ec]. by rewrite Ec. }
  intros file. apply tri_pure. intros ->.
  destruct (vg_config_load _) as [cf|] eqn:El; [|by apply tri_die].
  pose proof (Hsz o cf Eo El) as Hs. apply config_load_range in El as [Hc _]; [|done].
  split_if.
  { eapply tri_bind with (Q1 := λ _ _, True); [|intros; by apply tri_ret].
    assert (∀ i pid path, wtri (λ _, True) (stop_loop i pid path) (λ _ _, True) E) as Hl.
    { intros i pid path. induction i; cbn [stop_loop]; walk. done. }
    unfold daemon_stop. repeat first [apply Hl | progress walk]. }
  eapply tri_bind; [by apply start_process_cfg|]. intros [[cf1 fd] ready]. cbn [fst].
  apply tri_pure. intros [H1 Hs1].
  eapply tri_bind; [apply start_gate_reach; [done|lia]|]. intros [ln c0]. cbn [snd].
  eapply tri_bind; [apply start_service_reach|]. intros [[x y] failed].
  eapply tri_bind; [apply clock_reach|]. intros last.
  eapply tri_bind; [apply main_loop_reach|]. intros c1.
  eapply tri_bind with (Q1 := λ _ _, True); [|intros; by apply tri_ret].
  eapply tri_pre with (P' := λ _, True); [done|]. unfold shutdown.
  eapply tri_bind with (Q1 := λ _ _, True); [by apply wtri_onC|]. intros r1.
  eapply tri_bind; [apply maps_close_any|]. intros ?. walk.
Qed.

(** ** A turn of the loop completes *)

Definition runs {A} (P : K → Prop) (m : D K A) : Prop :=
  ∀ w p, P w → ∃ a s', m (w, p) = Some (inr a, s').

Lemma runs_ret {A} P (a : A) : runs P (mret a).
Proof. intros w p _. by eexists _, _. Qed.

Lemma runs_sysc P r : runs P (sysc r).
Proof.
  intros w p _. unfold sysc. cbn [fst snd]. destruct (sys r w) as [a w']. destruct (proc_step r a p).
  by eexists _, _.
Qed.

Lemma runs_call {A} P (f : K → A * K) : runs P (onW (call f)).
Proof. intros w p _. unfold onW, call. cbn [fst snd]. destruct (f w). by eexists _, _. Qed.

Lemma runs_bind {A B} P Q1 (m : D K A) (f : A → D K B) :
  runs P m → wtri P m Q1 E → (∀ a, runs (Q1 a) (f a)) → runs P (m ≫= f).
Proof.
  intros Hm Ht Hf w p Hp. destruct (Hm w p Hp) as (a & [w1 p1] & E1).
  pose proof (Ht (w, p) _ _ Hp E1) as HQ. cbn [fst] in HQ.
  destruct (Hf a w1 p1 HQ) as (b & s2 & E2). exists b, s2. unfold mbind, D_bind. by rewrite E1.
Qed.

Lemma runs_onC {A} P c (m : M (vg_ctrl * K) A) :
  (∀ w, P w → ∃ a s', m (c, w) = Some (a, s')) → runs P (onC m c).
Proof.
  intros H w p Hp. destruct (H w Hp) as (a & [c' w'] & Em). unfold onC. cbn [fst snd]. rewrite Em.
  by eexists _, _.
Qed.

Lemma serve_runs ctl_fd fd c : runs (λ w, reach (c, w)) (serve ctl_fd fd c).
Proof.
  unfold serve. eapply runs_bind; [apply runs_sysc|apply wtri_sys; [apply reach_stable|done|done]|].
  intros cfd. split_if; [apply runs_ret|].
  eapply (runs_bind _ (λ _ w, reach (c, w))).
  { unfold sock_timeout.
    eapply runs_bind; [apply runs_sysc|apply wtri_any|intros; apply runs_ret]. }
  { unfold sock_timeout.
    eapply tri_bind; [apply wtri_sys; [apply reach_stable|done|done]|intros; by apply tri_ret]. }
  intros _. eapply (runs_bind _ (λ _ w, reach (c, w))); [apply runs_call| |].
  { apply wtri_onW. intros w a w' Hr [= Ec]. eapply reach_stable; [|exact Hr].
    change w' with (a, w').2. rewrite <-Ec. apply conn_same. }
  intros io. eapply (runs_bind _ (λ _ _, True)).
  - split_if; apply runs_onC; intros w Hr.
    + by apply (reach_progress Hdefaults (c, w) Hr).
    + destruct (http_same io.1 (write_result io.2) c w) as (o & w1 & E1 & _). by eexists _, _.
  - split_if; by apply wtri_onC.
  - intros r. eapply runs_bind; [apply runs_sysc|apply wtri_any|intros; apply runs_ret].
Qed.

Lemma serve_all_runs ctl_fd pfd c : runs (λ w, reach (c, w)) (serve_all ctl_fd pfd c).
Proof.
  revert c. induction pfd as [|[fd rev] pfd IH]; intros c; cbn [serve_all]; [apply runs_ret|].
  eapply (runs_bind _ (λ c' w, reach (c', w))); [| |intros c'; apply IH].
  - split_if; [apply runs_ret|apply serve_runs].
  - split_if; [by apply tri_ret|apply serve_reach].
Qed.

Lemma wait_defined c w now last :
  reach (c, w) → 0 ≤ elapsed_ms now last < 2 ^ 31 →
  int_res (idle_poll_ms (cfg c) - s32 (elapsed_ms now last))
  = Some (idle_poll_ms (cfg c) - elapsed_ms now last).
Proof.
  intros Hr He. apply reach_good in Hr as [_ Hc]; [|done..]. cbn [fst] in Hc.
  pose proof (ok_int _ Hc) as Hi. decompose_Forall_hyps. unfold INT_MAX in *.
  assert (s32 (elapsed_ms now last) = elapsed_ms now last) as -> by (unfold s32; rewrite Z.mod_small; lia).
  unfold int_res. rewrite (proj2 (Z.leb_le _ _)), (proj2 (Z.ltb_lt _ _)) by lia. done.
Qed.

(** C20: a turn of the loop never gets stuck: from a reachable state, with
    the last tick less than 2^31 ms ago, the turn completes, whatever is
    connected and whatever the calls answer, in a reachable state again. *)
Theorem turn_completes ctl_fd http_fd last c w p :
  reach (c, w) → 0 ≤ elapsed_ms (sys_clock w).1 last < 2 ^ 31 →
  ∃ r c' w' p', loop_body ctl_fd http_fd last c (w, p) = Some (inr (r, c'), (w', p')) ∧ reach (c', w').
Proof.
  intros Hr He.
  assert (runs (λ v, v = w) (loop_body ctl_fd http_fd last c)) as Hruns.
  { unfold loop_body. eapply (runs_bind _ (λ now v, now = (sys_clock w).1 ∧ reach (c, v)));
      [apply runs_call| |].
    { apply wtri_onW. intros v a v' -> [= Ec]. rewrite Ec. split; [done|].
      eapply reach_stable; [|exact Hr]. change v' with (a, v').2. rewrite <-Ec. apply clock_same. }
    intros now v q [-> Hv]. rewrite (wait_defined c v) by done. unfold mbind at 1, D_bind at 1, dlift.
    revert v q Hv. set (wait := idle_poll_ms _ - _). cbv beta iota.
    match goal with |- ∀ v q, reach (c, v) → ∃ a s', ?m (v, q) = _ => change (runs (λ v, reach (c, v)) m) end.
    eapply runs_bind; [apply runs_sysc|apply wtri_sys; [apply reach_stable|done|done]|]. intros pr.
    split_if; [split_if; apply runs_ret|].
    eapply (runs_bind _ (λ c' w, reach (c', w))).
    { split_if; [apply serve_all_runs|apply runs_ret]. }
    { split_if; [apply serve_all_reach|by apply tri_ret]. }
    intros c'. eapply runs_bind; [apply runs_call|apply clock_reach|]. intros now'. split_if; [|apply runs_ret].
    eapply (runs_bind _ (λ _ _, True)); [|by apply wtri_onC|intros; apply runs_ret].
    apply runs_onC. intros v Hv. by apply (reach_progress Hdefaults (c', v) Hv). }
  destruct (Hruns w p eq_refl) as ([r c'] & [w' p'] & E1). exists r, c', w', p'. split; [done|].
  exact (loop_body_reach ctl_fd http_fd last c (w, p) _ _ Hr E1).
Qed.
End Reach.
