(* ===== verification/Peers.v ===== *)
(** * Several daemons on one machine

    [pid_lock] means to keep a second daemon out.  Here several processes run
    [main] at once: a history is a sequence of starts, calls and exits of any
    of them, checked by [sh_step] against what the operating system documents
    about the things they share: the directory entry of the pid file and the
    file behind it ([open], [unlink], [flock] on the file, not on its name),
    the control socket, and the XDP hook of each interface.  A process is
    killed, or exits, at any time; the lock goes with it, the program it
    attached stays. *)

From S2P Require Import Prelude Types CString Ipaddr Config Kernel Maps Lists DropTable Snap.
From S2P Require Import Double Policy Ctl Os Setup.
Open Scope Z_scope.

#[export] Instance open_mode_eq_dec : EqDecision open_mode.
Proof. solve_decision. Defined.
#[export] Instance lock_op_eq_dec : EqDecision lock_op.
Proof. solve_decision. Defined.
#[export] Instance sockaddr_eq_dec : EqDecision sockaddr.
Proof. solve_decision. Defined.
#[export] Instance sysreq_eq_dec : EqDecision sysreq.
Proof. solve_decision. Defined.

(** The socket file: who bound it, the descriptor, and whether it listens. *)
Record sock := Sock { s_pid : Z; s_fd : Z; s_listens : bool }.

(** The pid file's directory entry (an inode number), the next fresh inode,
    the inode each process opened as its pid file, the socket file, the XDP
    program of each interface (the process that attached it, and in which
    mode), the processes with their calls so far, and those that have
    exited. *)
Record shared := Shared {
  pf_dir : option Z;
  pf_next : Z;
  pf_open : gmap Z Z;
  sock_at : option sock;
  hook : gmap Z (Z * Z);
  procs : gmap Z proc;
  gone : gset Z;
}.

Inductive hstep := HStart (pid : Z) (fdl : list Z) | HCall (pid : Z) (r : sysreq) (a : sysans) | HExit (pid : Z).

Section Shared.
Context (pth : list Z).

(** The process runs and holds the lock of the inode. *)
Definition holds_b (s : shared) (i pid : Z) (p : proc) : bool :=
  bool_decide (pid ∉ gone s) && bool_decide (is_Some (held p)) && bool_decide (pf_open s !! pid = Some i).

Definition locked_by_other (s : shared) (pid i : Z) : bool :=
  existsb (λ x, negb (x.1 =? pid) && holds_b s i x.1 x.2) (map_to_list (procs s)).

(** Somebody answers at the socket. *)
Definition served (s : shared) : bool :=
  match sock_at s with
  | Some k => s_listens k && bool_decide (s_pid k ∉ gone s)
  | None => false
  end.

Definition set_proc (s : shared) (pid : Z) (p : proc) : shared :=
  Shared (pf_dir s) (pf_next s) (pf_open s) (sock_at s) (hook s) (<[pid := p]> (procs s)) (gone s).

Definition set_sock (s : shared) (k : option sock) : shared :=
  Shared (pf_dir s) (pf_next s) (pf_open s) k (hook s) (procs s) (gone s).

Definition set_hook (s : shared) (h : gmap Z (Z * Z)) : shared :=
  Shared (pf_dir s) (pf_next s) (pf_open s) (sock_at s) h (procs s) (gone s).

Definition unlink_pidfile (s : shared) : shared :=
  Shared None (pf_next s) (pf_open s) (sock_at s) (hook s) (procs s) (gone s).

Definition exit_proc (s : shared) (pid : Z) : shared :=
  Shared (pf_dir s) (pf_next s) (pf_open s) (sock_at s) (hook s) (procs s) ({[pid]} ∪ gone s).

(** [open(pth, O_CREAT)]: the file that is there, or a new one. *)
Definition open_pidfile (s : shared) (pid : Z) : shared :=
  match pf_dir s with
  | Some i => Shared (pf_dir s) (pf_next s) (<[pid := i]> (pf_open s)) (sock_at s) (hook s) (procs s)
                (gone s)
  | None => Shared (Some (pf_next s)) (pf_next s + 1) (<[pid := pf_next s]> (pf_open s)) (sock_at s)
              (hook s) (procs s) (gone s)
  end.

(** [bpf_xdp_attach] replaces the program of the interface, whoever attached
    it, if it is in the same mode; a program in the other mode makes it
    fail. *)
Definition attach_allowed (s : shared) (i fl : Z) : bool :=
  match hook s !! i with Some (_, fl') => fl =? fl' | None => true end.

(** [bpf_xdp_detach] takes off the program in that mode, whoever attached it. *)
Definition detach (i fl : Z) (h : gmap Z (Z * Z)) : gmap Z (Z * Z) :=
  match h !! i with
  | Some (_, fl') => if fl =? fl' then delete i h else h
  | None => h
  end.

(** A call and its answer; [None] is an answer the system cannot give. *)
Definition sh_call (s : shared) (pid : Z) (r : sysreq) (a : sysans) (p : proc) : option shared :=
  let s' := set_proc s pid (proc_step r a p).2 in
  match r with
  | Open q O_CREATE_RDWR =>
      if bool_decide (q = pth) && (0 <=? rc a) then Some (open_pidfile s' pid) else Some s'
  | Flock _ LOCK_EX =>
      match pf_open s !! pid with
      | Some i => if (rc a =? 0) && locked_by_other s pid i then None else Some s'
      | None => Some s'
      end
  | Unlink q =>
      if negb (rc a =? 0) then Some s'
      else if bool_decide (q = pth) then
        if bool_decide (pf_dir s = None) then None
        else Some (unlink_pidfile s')
      else if bool_decide (q = VG_SOCK_PATH) then
        if bool_decide (is_Some (sock_at s)) then Some (set_sock s' None) else None
      else Some s'
  | Bind fd (SockUnix _) =>
      if rc a <? 0 then Some s'
      else if bool_decide (is_Some (sock_at s)) then None
      else Some (set_sock s' (Some (Sock pid fd false)))
  | Listen fd _ =>
      match sock_at s with
      | Some k => if (s_pid k =? pid) && (s_fd k =? fd) && (0 <=? rc a)
                  then Some (set_sock s' (Some (Sock pid fd true))) else Some s'
      | None => Some s'
      end
  | Close fd =>
      match sock_at s with
      | Some k => if (s_pid k =? pid) && (s_fd k =? fd)
                  then Some (set_sock s' (Some (Sock pid fd false))) else Some s'
      | None => Some s'
      end
  | Connect _ (SockUnix _) => if Bool.eqb (rc a =? 0) (served s) then Some s' else None
  | XdpAttach i fl =>
      if negb (rc a =? 0) then Some s'
      else if attach_allowed s i fl then Some (set_hook s' (<[i := (pid, fl)]> (hook s)))
      else None
  | XdpDetach i fl => if rc a =? 0 then Some (set_hook s' (detach i fl (hook s))) else Some s'
  | _ => Some s'
  end.

Definition sh_step (s : shared) (h : hstep) : option shared :=
  match h with
  | HStart pid fdl =>
      if bool_decide (procs s !! pid = None) then Some (set_proc s pid (Proc fdl None [] [])) else None
  | HCall pid r a =>
      if bool_decide (pid ∈ gone s) then None
      else p ← procs s !! pid; sh_call s pid r a p
  | HExit pid => Some (exit_proc s pid)
  end.

Fixpoint sh_run (s : shared) (hs : list hstep) : option shared :=
  match hs with
  | [] => Some s
  | h :: hs => s' ← sh_step s h; sh_run s' hs
  end.

(** Nobody has started yet: a pid file, a socket and XDP programs may have
    been left. *)
Definition at_boot (s : shared) : Prop :=
  procs s = ∅ ∧ pf_open s = ∅ ∧ ∀ i, pf_dir s = Some i → i < pf_next s.
End Shared.
