(* ===== verification/PeersThms.v ===== *)
(** * The calls of a daemon on what daemons share

    The log of any run of [main] begins with the pid file and its lock, and
    when it removes the pid file it is done: no call on anything shared comes
    after it. *)

From Stdlib Require Import String.
From S2P Require Import Prelude Types CString Ipaddr Config Kernel Maps Lists DropTable Snap.
From S2P Require Import Double Policy Ctl Http Os Setup Daemon ProcThms DaemonThms DaemonMain Peers.
Open Scope Z_scope.

(** Calls that neither take the lock nor remove a file but the socket. *)
Definition ordinary (r : sysreq) : bool :=
  match r with
  | Open _ O_CREATE_RDWR | Flock _ LOCK_EX => false
  | Unlink q => bool_decide (q = VG_SOCK_PATH)
  | _ => true
  end.

(** Removes a file that is not the socket. *)
Definition farewell (r : sysreq) : bool :=
  match r with Unlink q => negb (bool_decide (q = VG_SOCK_PATH)) | _ => false end.

Definition silent (r : sysreq) : bool := ordinary r && negb (needs_lock r).

(** The first calls: the pid file is opened, then locked. *)
Definition opening (l : list event) : Prop :=
  l = [] ∨ (∃ q e, l = [e] ∧ e_req e = Open q O_CREATE_RDWR)
  ∨ ∃ q e f, l = [f; e] ∧ e_req e = Open q O_CREATE_RDWR ∧ 0 ≤ rc (e_ans e)
      ∧ ∃ fd, e_req f = Flock fd LOCK_EX.

(** At work: nothing removed yet. *)
Definition working (l : list event) : Prop :=
  ∃ body head, l = body ++ head ∧ opening head ∧ Forall (λ e, ordinary (e_req e) = true) body.

(** The log of a run. *)
Definition daemon_log (l : list event) : Prop :=
  working l ∨ ∃ tail e rest, l = tail ++ e :: rest ∧ farewell (e_req e) = true
    ∧ Forall (λ e, silent (e_req e) = true) tail ∧ working rest.

Section Calls.
Context {K : Type} `{!Kernel K} `{!Env K} `{!Os K} {I : Inet}.

(** Every call [m] makes satisfies [φ]. *)
Definition calls {A} (φ : sysreq → bool) (m : D K A) : Prop := ∀ s r s',
  m s = Some (r, s') → ∃ l, log s'.2 = l ++ log s.2 ∧ Forall (λ e, φ (e_req e) = true) l.

Lemma calls_ret {A} φ (a : A) : calls φ (mret a).
Proof. intros s r s' [= <- <-]. by exists []. Qed.

Lemma calls_stop {A} φ z : calls (A := A) φ (stop_now z).
Proof. intros s r s' [= <- <-]. by exists []. Qed.

Lemma calls_die {A} φ : calls (A := A) φ vg_die.
Proof. apply calls_stop. Qed.

Lemma calls_sysc φ r : φ r = true → calls φ (sysc r).
Proof.
  intros Hr [w p] x s'. unfold sysc. cbn [fst snd]. destruct (sys r w) as [a w'].
  pose proof (proc_step_log r a p) as Hl. destruct (proc_step r a p) as [a' p'].
  intros [= <- <-]. eexists [_]. cbn [snd] in *. split; [exact Hl|]. by repeat constructor.
Qed.

Lemma calls_bind {A B} φ (m : D K A) (f : A → D K B) :
  calls φ m → (∀ a, calls φ (f a)) → calls φ (m ≫= f).
Proof.
  intros Hm Hf s r s'. unfold mbind, D_bind. destruct (m s) as [[[z|a] s1]|] eqn:Em; [| |done].
  - intros [= <- <-]. apply (Hm _ _ _ Em).
  - intros Ef. destruct (Hm _ _ _ Em) as (l1 & E1 & H1), (Hf a _ _ _ Ef) as (l2 & E2 & H2).
    exists (l2 ++ l1). rewrite E2, E1, app_assoc. split; [done|]. by apply Forall_app.
Qed.

Lemma calls_onW {A} φ (m : M K A) : calls φ (onW m).
Proof.
  intros [w p] r s'. unfold onW. cbn [fst snd]. destruct (m w) as [[a w']|]; [|done].
  intros [= <- <-]. by exists [].
Qed.

Lemma calls_onC {A} φ (m : M (vg_ctrl * K) A) c : calls φ (onC m c).
Proof.
  intros [w p] r s'. unfold onC. cbn [fst snd]. destruct (m (c, w)) as [[a [c' w']]|]; [|done].
  intros [= <- <-]. by exists [].
Qed.

Lemma calls_dlift {A} φ (o : option A) : calls φ (dlift o).
Proof. intros s r s'. unfold dlift. destruct o; [|done]. intros [= <- <-]. by exists []. Qed.
End Calls.

Create HintDb calls.
#[export] Hint Resolve calls_ret calls_stop calls_die calls_onW calls_onC calls_dlift : calls.

Ltac calls :=
  repeat first
    [ progress intros
    | solve [eauto with calls]
    | match goal with
      | |- calls _ (_ ≫= _) => apply calls_bind
      | |- calls _ (sysc _) => apply calls_sysc; reflexivity
      | |- calls _ (if ?b then _ else _) => destruct b
      | |- calls _ (match ?b with _ => _ end) => destruct b
      end ].

Section Parts.
Context {K : Type} `{!Kernel K} `{!Env K} `{!Os K} {I : Inet}.

Lemma alive_calls path : calls (K := K) ordinary (vg_ctl_server_alive path).
Proof. unfold vg_ctl_server_alive. calls. Qed.

Lemma redirect_calls fd : calls (K := K) ordinary (redirect_log fd).
Proof. unfold redirect_log. calls. Qed.

Lemma await_calls turns fd : calls (K := K) ordinary (await_ready turns fd).
Proof. induction turns as [|turns IH]; cbn [await_ready]; calls. Qed.
Hint Resolve alive_calls redirect_calls await_calls : calls.

Lemma daemon_start_calls turns fd : calls (K := K) ordinary (daemon_start turns fd).
Proof. unfold daemon_start. calls. Qed.

Lemma close_calls ln : calls (K := K) ordinary (vg_maps_close ln).
Proof. unfold vg_maps_close, vg_xdp_detach. calls. Qed.
Hint Resolve daemon_start_calls close_calls : calls.

Lemma start_gate_calls o cf : calls (K := K) ordinary (start_gate o cf).
Proof.
  unfold start_gate, vg_maps_open, bump_memlock, set_sizes, vg_xdp_attach, attach_mode, close_and_die. calls.
Qed.

Lemma listen_calls group : calls (K := K) ordinary (vg_ctl_server_listen VG_SOCK_PATH group).
Proof. unfold vg_ctl_server_listen. calls. Qed.

Lemma http_listen_calls port : calls (K := K) ordinary (vg_http_listen port).
Proof. unfold vg_http_listen. calls. Qed.

Lemma serve_all_calls x pfd c : calls (K := K) ordinary (serve_all x pfd c).
Proof. revert c. induction pfd as [|[y rv] pfd IH]; intros c; cbn [serve_all]; unfold serve, sock_timeout; calls. Qed.
Hint Resolve start_gate_calls listen_calls http_listen_calls serve_all_calls : calls.

Lemma loop_calls turns b x y last c : calls (K := K) ordinary (main_loop turns b x y last c).
Proof.
  revert b last c. induction turns as [|turns IH]; intros b last c; cbn [main_loop]; unfold loop_body; calls.
Qed.
Hint Resolve loop_calls : calls.

(** ** The log of [main] *)
#[local] Abbreviation work := (λ p, working (log p)).
#[local] Abbreviation logged := (λ p, daemon_log (log p)).

Lemma working_app l1 l2 :
  Forall (λ e, ordinary (e_req e) = true) l1 → working l2 → working (l1 ++ l2).
Proof.
  intros H1 (b & h & -> & Ho & Hb). exists (l1 ++ b), h. rewrite app_assoc.
  split_and!; [done|done|]. by apply Forall_app.
Qed.

Lemma tri_calls {A} (m : D K A) : calls ordinary m → tri work m (λ _, work) (λ _, logged).
Proof.
  intros Hm s r s' Hw E. destruct (Hm _ _ _ E) as (l & -> & Hl).
  pose proof (working_app _ _ Hl Hw). destruct r; [by left|done].
Qed.

Lemma tri_unlink q : tri work (sysc (K := K) (Unlink q)) (λ _, logged) (λ _, logged).
Proof.
  apply tri_sysc. intros p a Hw. rewrite proc_step_log.
  destruct (farewell (Unlink q)) eqn:Ef.
  - right. by eexists [], _, (log p).
  - left. apply (working_app [_]); [|done]. repeat constructor. cbn in *. by destruct (bool_decide _).
Qed.

Lemma tri_silent r : silent r = true → tri logged (sysc (K := K) r) (λ _, logged) (λ _, logged).
Proof.
  intros Hr. apply tri_sysc. intros p a Hw. rewrite proc_step_log.
  destruct Hw as [Hw|(t & e & rest & -> & He & Ht & Hw)].
  - left. apply (working_app [_]); [|done]. repeat constructor. by apply andb_true_iff in Hr as [? _].
  - right. eexists (_ :: t), e, rest. split_and!; [done|done| |done]. by constructor.
Qed.

Lemma pid_lock_log path :
  tri (λ p, log p = []) (pid_lock (K := K) path) (λ _, work) (λ _, logged).
Proof.
  unfold pid_lock.
  eapply tri_bind with (Q1 := λ a p, ∃ q e, (e_req e = Open q O_CREATE_RDWR
    ∧ (0 ≤ rc a → 0 ≤ rc (e_ans e))) ∧ log p = [e]).
  { apply tri_sysc. intros p a Hl. rewrite proc_step_log, Hl. eexists path, _. split; [|done].
    split; [done|]. cbn [proc_step e_ans]. destruct (rc a <? 0) eqn:Ea; breflect; done. }
  intros fd. apply tri_exists; intros q. apply tri_exists; intros e. apply tri_pure. intros [He Hrc].
  assert (opening [e]) as H1 by (right; left; by exists q, e).
  tbranch; [apply tri_die; intros p ->; left; by exists [], [e]|].
  eapply tri_bind with (Q1 := λ _, work).
  { apply tri_sysc. intros p a Hl. rewrite proc_step_log, Hl. eexists [], _. split; [done|].
    split; [|done]. right; right. eexists q, e, _. split_and!; [done|done|by apply Hrc|by eexists]. }
  intros f. tbranch; [by tend|]. tbranch; [apply tri_die; by left|].
  eapply tri_bind; [apply tri_calls; calls|]. intros ?. apply tri_die. by left.
Qed.

Lemma start_process_log turns o cf :
  tri (λ p, log p = []) (start_process (K := K) turns o cf) (λ _, work) (λ _, logged).
Proof.
  unfold start_process. eapply tri_bind; [apply pid_lock_log|]. intros fd.
  eapply tri_bind; [apply tri_calls; calls|]. intros alive. destruct alive.
  - eapply tri_bind; [apply tri_unlink|]. intros ?. by apply tri_die.
  - apply tri_calls. calls.
Qed.

Lemma write_pidfile_log fd path :
  tri work (write_pidfile (K := K) fd path) (λ _, work) (λ _, logged).
Proof.
  unfold write_pidfile. eapply tri_bind; [apply tri_calls; calls|]. intros pid.
  eapply tri_bind; [apply tri_calls; calls|]. intros e.
  tbranch; [eapply tri_bind; [apply tri_unlink|]; intros ?; by apply tri_die|].
  eapply tri_bind; [apply tri_calls; calls|]. intros n.
  tbranch; [eapply tri_bind; [apply tri_unlink|]; intros ?; by apply tri_die|]. by tend.
Qed.

Lemma shutdown_log ln x y fd c : tri work (shutdown (K := K) ln x y fd c) (λ _, logged) (λ _, logged).
Proof.
  unfold shutdown. do 4 (eapply tri_bind; [apply tri_calls; calls|]; intros ?).
  eapply tri_bind; [apply tri_unlink|]. intros ?.
  eapply tri_bind; [by apply tri_silent|]. intros ?. by tend.
Qed.

Lemma main_log turns opts :
  serves opts → tri (λ p, log p = []) (main (K := K) turns opts) (λ _, logged) (λ _, logged).
Proof.
  assert (daemon_log []) as Hnil by (left; exists [], []; split_and!; [done|by left|done]).
  intros Ho. unfold main. destruct (parse_options opts default_options) as [o|] eqn:Eo.
  2:{ apply tri_ret. by intros p ->. }
  eapply tri_bind; [by apply tri_onW with (Q := λ _ p, log p = [])|]. intros file.
  destruct (vg_config_load file) as [cf|]; [|apply tri_die; by intros p ->].
  rewrite (Ho o Eo). eapply tri_bind; [apply start_process_log|]. intros [[cf1 fd] ready].
  eapply tri_bind; [apply tri_calls; calls|]. intros [ln c]. unfold start_service.
  eapply tri_bind.
  { do 2 (eapply tri_bind; [apply tri_calls; calls|]; intros ?).
    eapply tri_bind; [apply write_pidfile_log|]. intros ?. apply tri_calls. calls. }
  intros [[x y] failed]. do 2 (eapply tri_bind; [apply tri_calls; calls|]; intros ?).
  eapply tri_bind; [apply shutdown_log|]. intros ?. by tend.
Qed.
End Parts.
