(* ===== verification/PeersMain.v ===== *)
(** * Several daemons: main theorems

    One daemon at a time, as long as none starts while another removes the
    pid file; and two at once when one does. *)

From Stdlib Require Import String.
From S2P Require Import Prelude Types CString Ipaddr Config Kernel Maps Lists DropTable Snap.
From S2P Require Import Double Policy Ctl Http Os Setup Daemon ProcThms DaemonThms DaemonMain.
From S2P Require Import Peers PeersThms.
Open Scope Z_scope.

(** The process removed its pid file, and made no shared call since. *)
Definition retired (l : list event) : Prop :=
  ∃ tail e rest, l = tail ++ e :: rest ∧ farewell (e_req e) = true
    ∧ Forall (λ e, silent (e_req e) = true) tail.

(** ** Logs of a run so far *)

Lemma suffix_app_inv {A} (l a b : list A) :
  l `suffix_of` a ++ b → l `suffix_of` b ∨ ∃ a', a' `suffix_of` a ∧ l = a' ++ b.
Proof.
  intros [k Hk]. destruct (app_eq_inv _ _ _ _ Hk) as [(x & -> & ->)|(x & -> & ->)].
  - right. exists x. split; [by exists k|done].
  - left. by exists x.
Qed.

Lemma suffix_cons_cases {A} (l : list A) x l' :
  l `suffix_of` x :: l' → l = x :: l' ∨ l `suffix_of` l'.
Proof. intros [[|y k] Hk]; [by left|]. injection Hk as _ ->. right. by exists k. Qed.

Lemma opening_suffix l l' : l `suffix_of` l' → opening l' → opening l.
Proof.
  intros Hs Ho. destruct Ho as [->|[(q & e & -> & He)|(q & e & f & -> & He & Hrc & Hf)]].
  - apply suffix_nil_inv in Hs as ->. by left.
  - apply suffix_cons_cases in Hs as [->|Hs]; [right; left; by exists q, e|].
    apply suffix_nil_inv in Hs as ->. by left.
  - apply suffix_cons_cases in Hs as [->|Hs]; [right; right; by exists q, e, f|].
    apply suffix_cons_cases in Hs as [->|Hs]; [right; left; by exists q, e|].
    apply suffix_nil_inv in Hs as ->. by left.
Qed.

Lemma Forall_suffix {A} (P : A → Prop) l l' : l `suffix_of` l' → Forall P l' → Forall P l.
Proof. intros [k ->] [_ ?]%Forall_app. done. Qed.

Lemma working_suffix l l' : l `suffix_of` l' → working l' → working l.
Proof.
  intros Hs (b & h & -> & Ho & Hb). apply suffix_app_inv in Hs as [Hs|(b' & Hs & ->)].
  - exists [], l. split_and!; [done|by eapply opening_suffix|done].
  - exists b', h. split_and!; [done|done|by eapply Forall_suffix].
Qed.

Lemma daemon_log_suffix l l' : l `suffix_of` l' → daemon_log l' → daemon_log l.
Proof.
  intros Hs [Hw|(t & e & rest & -> & He & Ht & Hw)]; [left; by eapply working_suffix|].
  apply suffix_app_inv in Hs as [Hs|(t' & Hs & ->)].
  - apply suffix_cons_cases in Hs as [->|Hs]; [right; by exists [], e, rest|left; by eapply working_suffix].
  - right. exists t', e, rest. split_and!; [done|done|by eapply Forall_suffix|done].
Qed.

(** The log starts with a successful [open] of the pid file. *)
Definition opened (pth : list Z) (l : list event) : Prop :=
  ∃ e, last l = Some e ∧ e_req e = Open pth O_CREATE_RDWR ∧ 0 ≤ rc (e_ans e).

Section Log.
Context (pth : list Z) (l : list event).
Context (Hdl : daemon_log l) (Hpth : ∀ e, last l = Some e → e_req e = Open pth O_CREATE_RDWR).

Lemma working_locked r a h l1 :
  working l1 → Ev r a h ∈ l1 → (∃ fd, r = Flock fd LOCK_EX) →
  ∃ e, last l1 = Some e ∧ 0 ≤ rc (e_ans e).
Proof.
  intros (b & hd & -> & Ho & Hb) Hin [fd ->]. apply elem_of_app in Hin as [Hin|Hin].
  { by eapply Forall_forall in Hb; [|exact Hin]. }
  rewrite last_app. destruct Ho as [->|[(q & e & -> & He)|(q & e & f & -> & He & Hrc & Hf)]].
  - by apply elem_of_nil in Hin.
  - apply list_elem_of_singleton in Hin. by rewrite <-Hin in He.
  - exists e. by split.
Qed.

(** A log with the lock in it starts with the file. *)
Lemma locked_opened a h fd : Ev (Flock fd LOCK_EX) a h ∈ l → opened pth l.
Proof.
  intros Hin.
  assert (∃ e, last l = Some e ∧ 0 ≤ rc (e_ans e)) as (e & He & Hrc).
  { destruct Hdl as [Hw|(t & x & rest & -> & Hx & Ht & Hw)]; [by eapply working_locked; [| |by eexists]|].
    apply elem_of_app in Hin as [Hin|[Hin|Hin]%elem_of_cons].
    - by eapply Forall_forall in Ht; [|exact Hin].
    - by rewrite <-Hin in Hx.
    - destruct (working_locked _ _ _ _ Hw Hin ltac:(by eexists)) as (e & He & Hrc).
      exists e. split; [|done]. by rewrite last_app, last_cons, He. }
  exists e. split_and!; [done|by apply Hpth|done].
Qed.
End Log.

Lemma farewell_working l e : working l → e ∈ l → farewell (e_req e) = true → False.
Proof.
  intros (b & h & -> & Ho & Hb) [Hin|Hin]%elem_of_app Hf.
  - eapply Forall_forall in Hb; [|exact Hin]. unfold farewell, ordinary in *.
    destruct (e_req e); try done. by destruct (bool_decide _).
  - destruct Ho as [->|[(q & x & -> & He)|(q & x & f & -> & He & _ & fd & Hf2)]].
    + by apply elem_of_nil in Hin.
    + apply list_elem_of_singleton in Hin as ->. by rewrite He in Hf.
    + apply elem_of_cons in Hin as [->|Hin]; [by rewrite Hf2 in Hf|].
      apply list_elem_of_singleton in Hin as ->. by rewrite He in Hf.
Qed.

(** After the farewell only silent calls. *)
Lemma retired_cons e l : daemon_log (e :: l) → retired l → silent (e_req e) = true ∧ retired (e :: l).
Proof.
  intros Hd (t & x & rest & -> & Hx & Ht).
  assert (x ∈ t ++ x :: rest) as Hin by (apply elem_of_app; right; by left).
  destruct Hd as [Hw|([|y t'] & z & rest' & E & Hz & Ht' & Hw)].
  - exfalso. eapply farewell_working; [exact Hw|right; exact Hin|done].
  - cbn in E. injection E as -> E. exfalso. rewrite <-E in Hw. by eapply farewell_working.
  - injection E as <- E. apply Forall_cons in Ht' as [He _]. split; [done|].
    exists (e :: t), x, rest. split_and!; [done|done|by constructor].
Qed.

Lemma retired_or l : daemon_log l → retired l ∨ ¬ retired l.
Proof.
  intros [Hw|(t & e & rest & -> & He & Ht & _)]; [right|left; by exists t, e, rest].
  intros (t & e & rest & -> & He & _). eapply farewell_working; [exact Hw| |exact He].
  apply elem_of_app. right. by left.
Qed.

(** The pid file is opened first. *)
Lemma open_first q a h l : daemon_log (Ev (Open q O_CREATE_RDWR) a h :: l) → l = [].
Proof.
  assert (working (Ev (Open q O_CREATE_RDWR) a h :: l) → l = []) as Hworking.
  { intros ([|b0 b] & hd & E & Ho & Hb).
    - cbn in E. destruct Ho as [->|[(q' & x & -> & He)|(q' & x & f & -> & He & _ & fd & Hf)]]; try done.
      + by injection E.
      + injection E as <- _. done.
    - injection E as <- _. by apply Forall_cons in Hb as [? _]. }
  intros [Hw|([|y t'] & z & rest & E & Hz & Ht & Hw)]; [auto| |].
  - injection E as <- _. done.
  - injection E as <- _. by apply Forall_cons in Ht as [? _].
Qed.

(** ** The invariant of a history *)
Section Exclusion.
Context {K : Type} `{!Kernel K} `{!Env K} {I : Inet} (pth : list Z).
Implicit Types (s : shared) (pid : Z) (p : proc).

(** The process is, so far, a run of [main] that is not the parent of a
    background daemon, with [pth] as its pid file. *)
Definition follows p : Prop :=
  ∃ (O : Os K) turns opts w p0 r w' p',
    serves opts ∧ started p0 ∧ main turns opts (w, p0) = Some (r, (w', p'))
    ∧ (∀ a h, Ev Fork a h ∈ log p' → rc a ≤ 0)
    ∧ (∀ e, last (log p') = Some e → e_req e = Open pth O_CREATE_RDWR)
    ∧ log p `suffix_of` log p'.

(** It has not exited or been killed. *)
Definition running s pid p : Prop := procs s !! pid = Some p ∧ pid ∉ gone s.

(** What a run's log tells at any time. *)
Record run_log (l : list event) : Prop := {
  rl_guarded : guarded l;
  rl_log : daemon_log l;
  rl_path e : last l = Some e → e_req e = Open pth O_CREATE_RDWR;
}.

Lemma follows_log p : follows p → run_log (log p).
Proof.
  intros (O & turns & opts & w & p0 & r & w' & p' & Ho & Hs & E & _ & Hp & Hsuf). split.
  - eapply guarded_suffix; [done|]. by eapply (main_guarded turns opts w p0 r w' p').
  - eapply daemon_log_suffix; [done|].
    pose proof (main_log turns opts Ho (w, p0) r (w', p') ltac:(apply Hs) E) as H. by destruct r.
  - intros e He. apply Hp. destruct Hsuf as [k ->]. by rewrite last_app, He.
Qed.

Record hist_inv s : Prop := {
  hi_dom pid : is_Some (pf_open s !! pid) → is_Some (procs s !! pid);
  hi_opened pid p : procs s !! pid = Some p → opened pth (log p) → is_Some (pf_open s !! pid);
  hi_fresh pid p : procs s !! pid = Some p → log p = [] → held p = None;
  hi_held pid p : procs s !! pid = Some p → is_Some (held p) →
    ∃ fd a h, Ev (Flock fd LOCK_EX) a h ∈ log p;
  hi_lock pid1 pid2 p1 p2 i : pid1 ≠ pid2 → running s pid1 p1 → running s pid2 p2 →
    is_Some (held p1) → is_Some (held p2) →
    pf_open s !! pid1 = Some i → pf_open s !! pid2 = Some i → False;
  hi_home pid p i : running s pid p → pf_open s !! pid = Some i → ¬ retired (log p) →
    pf_dir s = Some i;
}.

(** No other process has the pid file open without its lock. *)
Definition undisturbed s pid : Prop := ∀ pid' p', pid' ≠ pid → running s pid' p' →
  is_Some (pf_open s !! pid') → is_Some (held p').

(** Nobody is starting at the moments the pid file is removed. *)
Definition calm_unlinks s0 (hs : list hstep) : Prop := ∀ pre pid a post s,
  hs = pre ++ HCall pid (Unlink pth) a :: post → rc a = 0 → sh_run pth s0 pre = Some s →
  undisturbed s pid.

Lemma held_step r a p :
  is_Some (held (proc_step r a p).2) → is_Some (held p) ∨ rc a = 0 ∧ ∃ fd, r = Flock fd LOCK_EX.
Proof.
  intros H. destruct r; cbn [proc_step] in H; repeat case_match; cbn in *; breflect; auto;
    try (case_bool_decide; [by destruct H|auto]); try (right; split; [done|by eexists]); left.
  - unfold load_obj in H. case_match; [done|]. cbn [set_objs held] in H.
    by rewrite (proj1 (add_fds_state _ _)) in H.
  - unfold destroy_obj in H. case_match; [done|]. cbn [set_objs held] in H. destruct H as [x H].
    apply (proj1 (lose_fds_state _ _)) in H. by exists x.
Qed.

Lemma locked_by_other_spec s pid i pid' p' :
  locked_by_other s pid i = false → pid' ≠ pid → running s pid' p' → is_Some (held p') →
  pf_open s !! pid' = Some i → False.
Proof.
  intros Hf Hne [Hp Hg] Hh Ho. apply not_true_iff_false in Hf. apply Hf. apply existsb_exists.
  exists (pid', p'). split; [by apply list_elem_of_In, elem_of_map_to_list|]. unfold holds_b. cbn [fst snd].
  rewrite (proj2 (Z.eqb_neq _ _) Hne), !bool_decide_eq_true_2; done.
Qed.

Section Step.
Context (s s' : shared) (pid : Z) (r : sysreq) (a : sysans) (p : proc).
Context (HI : hist_inv s) (Hr : running s pid p) (Hl : run_log (log (proc_step r a p).2)).
Context (Hprocs : procs s' = <[pid := (proc_step r a p).2]> (procs s)) (Hgone : gone s' = gone s).

#[local] Abbreviation p' := (proc_step r a p).2.

Lemma step_log : log p' = Ev r a (bool_decide (is_Some (held p))) :: log p.
Proof. apply proc_step_log. Qed.

Lemma step_running pid0 p0 : running s' pid0 p0 → pid0 = pid ∧ p0 = p' ∨ pid0 ≠ pid ∧ running s pid0 p0.
Proof.
  intros [H1 H2]. rewrite Hprocs in H1. rewrite Hgone in H2. destruct (decide (pid0 = pid)) as [->|Hne].
  - rewrite lookup_insert_eq in H1. left. by injection H1 as <-.
  - rewrite lookup_insert_ne in H1 by done. by right.
Qed.

Lemma step_held : (∃ fd a h, Ev (Flock fd LOCK_EX) a h ∈ log p') ∨ held p' = None.
Proof.
  destruct (held p') as [x|] eqn:E; [left|by right].
  destruct (held_step r a p) as [Hh|[_ [fd Er]]]; [by rewrite E| |].
  - destruct (hi_held _ HI pid p ltac:(apply Hr) Hh) as (fd & b & h & Hin).
    exists fd, b, h. rewrite step_log. by right.
  - exists fd, a, (bool_decide (is_Some (held p))). rewrite step_log, Er. by left.
Qed.

Lemma step_retired : retired (log p) → retired (log p').
Proof. intros Hret. rewrite step_log. apply retired_cons; [|done]. rewrite <-step_log. apply Hl. Qed.

Lemma step_opened : opened pth (log p') → log p = [] ∧ r = Open pth O_CREATE_RDWR ∧ 0 ≤ rc a
  ∨ is_Some (pf_open s !! pid).
Proof.
  intros (e & He & Hq & Hrc). rewrite step_log, last_cons in He.
  destruct (last (log p)) as [x|] eqn:E.
  - injection He as ->. right. apply (hi_opened _ HI pid p); [apply Hr|]. by exists e.
  - injection He as <-. left. by apply last_None in E as ->.
Qed.

(** A call that leaves the directory entry alone. *)
Lemma step_plain :
  pf_dir s' = pf_dir s → pf_open s' = pf_open s →
  (r = Open pth O_CREATE_RDWR → 0 ≤ rc a → False) →
  (∀ fd i, r = Flock fd LOCK_EX → rc a = 0 → pf_open s !! pid = Some i → locked_by_other s pid i = false) →
  hist_inv s'.
Proof.
  intros Hdir Hopen Hno Hlock. split.
  - intros pid0. rewrite Hopen, Hprocs. intros Hd%(hi_dom _ HI).
    destruct (decide (pid0 = pid)) as [->|]; [by rewrite lookup_insert_eq|by rewrite lookup_insert_ne].
  - intros pid0 p0 Hp Ho. rewrite Hopen, Hprocs in *. destruct (decide (pid0 = pid)) as [->|].
    + rewrite lookup_insert_eq in Hp. injection Hp as <-.
      destruct (step_opened Ho) as [(_ & ? & ?)|?]; [by exfalso; apply Hno|done].
    + rewrite lookup_insert_ne in Hp by done. by eapply (hi_opened _ HI).
  - intros pid0 p0 Hp Hnil. rewrite Hprocs in Hp. destruct (decide (pid0 = pid)) as [->|].
    + rewrite lookup_insert_eq in Hp. injection Hp as <-. by rewrite step_log in Hnil.
    + rewrite lookup_insert_ne in Hp by done. by eapply (hi_fresh _ HI).
  - intros pid0 p0 Hp Hh. rewrite Hprocs in Hp. destruct (decide (pid0 = pid)) as [->|].
    + rewrite lookup_insert_eq in Hp. injection Hp as <-. destruct step_held as [?|Hn]; [done|].
      rewrite Hn in Hh. by destruct Hh.
    + rewrite lookup_insert_ne in Hp by done. by eapply (hi_held _ HI).
  - assert (∀ pid2 p2 i, pid2 ≠ pid → running s pid2 p2 → is_Some (held p') → is_Some (held p2) →
      pf_open s !! pid = Some i → pf_open s !! pid2 = Some i → False) as Hex.
    { intros pid2 p2 i Hne H2 Hh Hh2 Ho Ho2. destruct (held_step r a p Hh) as [Hh'|[Ha [fd Er]]].
      - by eapply (hi_lock _ HI pid pid2 p p2).
      - by eapply (locked_by_other_spec s pid i pid2 p2); [eapply Hlock|..]. }
    intros pid1 pid2 p1 p2 i Hne H1 H2 Hh1 Hh2 Ho1 Ho2. rewrite Hopen in *.
    apply step_running in H1 as [[-> ->]|[Hn1 H1]], H2 as [[-> ->]|[Hn2 H2]].
    + done.
    + by eapply (Hex pid2).
    + by eapply (Hex pid1).
    + by eapply (hi_lock _ HI pid1 pid2).
  - intros pid0 p0 i H0 Ho Hret. rewrite Hopen, Hdir in *. apply step_running in H0 as [[-> ->]|[_ H0]].
    + eapply (hi_home _ HI pid p); [done..|]. intros ?. by apply Hret, step_retired.
    + by eapply (hi_home _ HI pid0 p0).
Qed.
End Step.

(** The pid file is opened: the file at the path, or a new one. *)
Lemma step_open s pid a p :
  hist_inv s → running s pid p → run_log (log (proc_step (Open pth O_CREATE_RDWR) a p).2) → 0 ≤ rc a →
  hist_inv (open_pidfile (set_proc s pid (proc_step (Open pth O_CREATE_RDWR) a p).2) pid).
Proof.
  intros HI Hr Hl Ha. set (p' := (proc_step _ a p).2) in *.
  set (s1 := set_proc s pid p').
  assert (log p = []) as Hnil.
  { eapply open_first. unfold p' in Hl. rewrite proc_step_log in Hl. apply Hl. }
  assert (held p' = None) as Hn.
  { pose proof (hi_fresh _ HI pid p ltac:(apply Hr) Hnil) as Hp.
    destruct (held p') as [x|] eqn:E; [|done].
    destruct (held_step (Open pth O_CREATE_RDWR) a p) as [Hh|[_ [fd ?]]]; [fold p'; by rewrite E| |done].
    rewrite Hp in Hh. by destruct Hh. }
  set (i := match pf_dir s with Some i => i | None => pf_next s end).
  assert (pf_dir (open_pidfile s1 pid) = Some i ∧ pf_open (open_pidfile s1 pid) = <[pid := i]> (pf_open s)
    ∧ procs (open_pidfile s1 pid) = <[pid := p']> (procs s) ∧ gone (open_pidfile s1 pid) = gone s)
    as (Ed & Eo & Ep & Eg).
  { unfold open_pidfile, s1, i. cbn [pf_dir set_proc]. by destruct (pf_dir s) eqn:E; cbn; rewrite ?E. }
  pose proof (λ x y, step_running s (open_pidfile s1 pid) pid _ a p Ep Eg x y) as Hrun.
  split.
  - intros pid0. rewrite Eo, Ep. destruct (decide (pid0 = pid)) as [->|]; [by rewrite !lookup_insert_eq|].
    rewrite !lookup_insert_ne by done. apply (hi_dom _ HI).
  - intros pid0 p0. rewrite Eo, Ep. destruct (decide (pid0 = pid)) as [->|]; [by rewrite !lookup_insert_eq|].
    rewrite !lookup_insert_ne by done. apply (hi_opened _ HI).
  - intros pid0 p0. rewrite Ep. destruct (decide (pid0 = pid)) as [->|];
      [rewrite lookup_insert_eq; by intros [= <-]|]. rewrite lookup_insert_ne by done. apply (hi_fresh _ HI).
  - intros pid0 p0. rewrite Ep. destruct (decide (pid0 = pid)) as [->|].
    + rewrite lookup_insert_eq. intros [= <-]. rewrite Hn. by intros [].
    + rewrite lookup_insert_ne by done. apply (hi_held _ HI).
  - intros pid1 pid2 p1 p2 j Hne H1 H2 Hh1 Hh2. rewrite Eo.
    apply Hrun in H1 as [[-> ->]|[Hn1 H1]]; [fold p' in Hh1; rewrite Hn in Hh1; by destruct Hh1|].
    apply Hrun in H2 as [[-> ->]|[Hn2 H2]]; [fold p' in Hh2; rewrite Hn in Hh2; by destruct Hh2|].
    rewrite !lookup_insert_ne by done. by apply (hi_lock _ HI pid1 pid2 p1 p2).
  - intros pid0 p0 j H0. rewrite Eo, Ed. apply Hrun in H0 as [[-> ->]|[Hne H0]].
    + by rewrite lookup_insert_eq.
    + rewrite lookup_insert_ne by done. intros Ho Hret.
      pose proof (hi_home _ HI pid0 p0 j H0 Ho Hret) as Hd. unfold i. by rewrite Hd.
Qed.

(** The pid file is removed, and nobody is starting. *)
Lemma step_unlink s pid a p :
  pth ≠ VG_SOCK_PATH → hist_inv s → running s pid p → run_log (log (proc_step (Unlink pth) a p).2) →
  undisturbed s pid →
  let s' := set_proc s pid (proc_step (Unlink pth) a p).2 in
  hist_inv (unlink_pidfile s').
Proof.
  intros Hpth HI Hr Hl Hun s'. pose proof (proc_step_log (Unlink pth) a p) as El.
  assert (farewell (Unlink pth) = true) as Hf by (cbn; by rewrite bool_decide_eq_false_2).
  assert (retired (log (proc_step (Unlink pth) a p).2)) as Hret'.
  { rewrite El. by eexists [], _, _. }
  assert (is_Some (held p)) as Hh.
  { pose proof (rl_guarded _ Hl) as Hg. rewrite El in Hg. destruct Hg as [Hg _].
    destruct (Hg eq_refl) as [Hb|[_ ?]]; [by apply bool_decide_eq_true in Hb|done]. }
  assert (¬ retired (log p)) as Hret.
  { intros Hret. pose proof (rl_log _ Hl) as Hd. rewrite El in Hd.
    apply retired_cons in Hd as [Hs _]; [|done]. unfold silent in Hs. cbn in Hs. by rewrite andb_false_r in Hs. }
  destruct (step_plain s s' pid (Unlink pth) a p HI Hr Hl eq_refl eq_refl eq_refl eq_refl)
    as [H1 H2 H3 H4 H5 H6]; [done..|].
  split; try done.
  intros pid0 p0 i H0 Ho Hn.
  apply (step_running s s' pid (Unlink pth) a p eq_refl eq_refl) in H0 as [[-> ->]|[Hne H0]]; [done|].
  exfalso. change (pf_open s !! pid0 = Some i) in Ho.
  pose proof (Hun pid0 p0 Hne H0 ltac:(by eexists)) as Hh0.
  pose proof (hi_home _ HI pid0 p0 i H0 Ho Hn) as Hd0.
  destruct (hi_held _ HI pid p ltac:(apply Hr) Hh) as (fd & b & h & Hin).
  assert (run_log (log p)) as Hlp.
  { rewrite El in Hl. destruct Hl as [G1 G2 G3]. split.
    - apply G1.
    - eapply daemon_log_suffix; [|exact G2]. by exists [Ev (Unlink pth) a (bool_decide (is_Some (held p)))].
    - intros e He. apply G3. by rewrite last_cons, He. }
  destruct (hi_opened _ HI pid p ltac:(apply Hr)) as [j Hj].
  { eapply locked_opened; [apply Hlp|apply Hlp|exact Hin]. }
  pose proof (hi_home _ HI pid p j Hr Hj Hret) as Hd. assert (i = j) as -> by congruence.
  by eapply (hi_lock _ HI pid0 pid p0 p).
Qed.

(** The cases of a call. *)
Lemma sh_call_cases s pid r a p s' :
  sh_call pth s pid r a p = Some s' →
  procs s' = <[pid := (proc_step r a p).2]> (procs s) ∧ gone s' = gone s
  ∧ ((r = Open pth O_CREATE_RDWR ∧ 0 ≤ rc a ∧ s' = open_pidfile (set_proc s pid (proc_step r a p).2) pid)
     ∨ (let s1 := set_proc s pid (proc_step r a p).2 in
        r = Unlink pth ∧ rc a = 0 ∧ s' = unlink_pidfile s1)
     ∨ (pf_dir s' = pf_dir s ∧ pf_open s' = pf_open s ∧ (r = Open pth O_CREATE_RDWR → 0 ≤ rc a → False)
        ∧ ∀ fd i, r = Flock fd LOCK_EX → rc a = 0 → pf_open s !! pid = Some i →
            locked_by_other s pid i = false)).
Proof.
  intros E. assert (procs s' = <[pid := (proc_step r a p).2]> (procs s) ∧ gone s' = gone s) as [H1 H2].
  { unfold sh_call, open_pidfile in E.
    destruct r; repeat (case_match; simplify_eq/=); try done; injection E as <-; done. }
  split_and!; [done|done|]. clear H1 H2. unfold sh_call in E.
  destruct r as [q m| |fd op| | | | | |q| | | | | | | | | | | | |?|?| | | | | | | | | | | | | | | | | | | | ];
    try (by right; right; injection E as <-; split_and!);
    try (by right; right; repeat case_match; simplify_eq/=; split_and!).
  - destruct m; try (by right; right; injection E as <-; split_and!).
    destruct (bool_decide (q = pth) && (0 <=? rc a)) eqn:Eq; injection E as <-; breflect.
    + left. by subst q.
    + right; right. split_and!; [done..| |done]. intros [= ->] Hrc.
      by rewrite bool_decide_eq_true_2, (proj2 (Z.leb_le _ _) Hrc) in Eq.
  - right; right. destruct op; [|by injection E as <-; split_and!].
    destruct (pf_open s !! pid) as [i|]; [|by injection E as <-; split_and!].
    destruct ((rc a =? 0) && locked_by_other s pid i) eqn:Eq; [done|]. injection E as <-.
    split_and!; [done..|]. intros fd0 i0 _ Ha [= <-]. rewrite (proj2 (Z.eqb_eq _ _) Ha) in Eq. done.
  - destruct (rc a =? 0) eqn:Ea; cbn [negb] in E; breflect; [|by right; right; injection E as <-; split_and!].
    case_bool_decide as Hq; [subst q; case_bool_decide; [done|]; injection E as <-; by right; left|].
    right; right. repeat case_match; simplify_eq/=; by split_and!.
Qed.

(** Processes only add to their logs. *)
Lemma sh_step_grows s h s' pid p :
  sh_step pth s h = Some s' → procs s !! pid = Some p →
  ∃ p', procs s' !! pid = Some p' ∧ log p `suffix_of` log p'.
Proof.
  intros E Hp. destruct h as [q fdl|q r a|q]; cbn [sh_step] in E.
  - case_bool_decide as Hq; [|done]. injection E as <-. cbn.
    rewrite lookup_insert_ne by congruence. by exists p.
  - case_bool_decide; [done|]. apply bind_Some in E as (x & Hx & E).
    apply sh_call_cases in E as (-> & _).
    destruct (decide (pid = q)) as [->|]; [|rewrite lookup_insert_ne by done; by exists p].
    rewrite lookup_insert_eq. eexists. split; [done|]. assert (x = p) as -> by congruence.
    rewrite proc_step_log. by eexists [_].
  - injection E as <-. by exists p.
Qed.

Lemma sh_run_grows hs s s' pid p :
  sh_run pth s hs = Some s' → procs s !! pid = Some p →
  ∃ p', procs s' !! pid = Some p' ∧ log p `suffix_of` log p'.
Proof.
  revert s p. induction hs as [|h hs IH]; intros s p E Hp; cbn [sh_run] in E.
  { injection E as <-. by exists p. }
  apply bind_Some in E as (s1 & E1 & E). destruct (sh_step_grows _ _ _ _ _ E1 Hp) as (p1 & Hp1 & Hs1).
  destruct (IH _ _ E Hp1) as (p2 & Hp2 & Hs2). exists p2. split; [done|]. by etrans.
Qed.

Lemma follows_suffix p p' : log p `suffix_of` log p' → follows p' → follows p.
Proof.
  intros Hs (O & turns & opts & w & p0 & r & w' & q & H1 & H2 & H3 & H4 & H5 & H6).
  exists O, turns, opts, w, p0, r, w', q. split_and!; try done. by etrans.
Qed.

(** A new process has done nothing yet. *)
Lemma step_start s pid fdl :
  hist_inv s → procs s !! pid = None → hist_inv (set_proc s pid (Proc fdl None [] [])).
Proof.
  intros HI Hq. set (p0 := Proc fdl None [] []).
  assert (pf_open s !! pid = None) as Hno.
  { apply eq_None_not_Some. intros Hd%(hi_dom _ HI). rewrite Hq in Hd. by destruct Hd. }
  assert (∀ x y, procs (set_proc s pid p0) !! x = Some y → x = pid ∧ y = p0 ∨ x ≠ pid ∧ procs s !! x = Some y) as Hin.
  { intros x y. cbn. destruct (decide (x = pid)) as [->|].
    - rewrite lookup_insert_eq. intros [= <-]. by left.
    - rewrite lookup_insert_ne by done. by right. }
  split.
  - intros x Hx%(hi_dom _ HI). cbn. destruct (decide (x = pid)) as [->|];
      [by rewrite lookup_insert_eq|by rewrite lookup_insert_ne].
  - intros x y [[-> ->]|[_ H]]%Hin Ho; [by destruct Ho as (? & ? & _)|by eapply (hi_opened _ HI)].
  - intros x y [[-> ->]|[_ H]]%Hin ?; [done|by eapply (hi_fresh _ HI)].
  - intros x y [[-> ->]|[_ H]]%Hin Hh; [by destruct Hh|by eapply (hi_held _ HI)].
  - intros x1 x2 p1 p2 i Hne [[[-> ->]|[_ H1]]%Hin G1] [[[-> ->]|[_ H2]]%Hin G2] Hh1 Hh2;
      [done|by destruct Hh1|by destruct Hh2|]. by apply (hi_lock _ HI x1 x2 p1 p2).
  - intros x y i [[[-> ->]|[_ H1]]%Hin G1]; [cbn; congruence|]. by apply (hi_home _ HI x y).
Qed.

Lemma step_exit s pid :
  hist_inv s → hist_inv (exit_proc s pid).
Proof.
  intros [H1 H2 H3 H4 H5 H6].
  assert (∀ x y, running (exit_proc s pid) x y → running s x y) as Hr.
  { intros x y [Hx Hg]. split; [done|]. cbn in Hg. set_solver. }
  split; try done.
  - intros x1 x2 p1 p2 i Hne R1%Hr R2%Hr. by apply (H5 x1 x2 p1 p2 i).
  - intros x y i R%Hr. by apply (H6 x y i).
Qed.

Lemma sh_step_inv s h s' :
  pth ≠ VG_SOCK_PATH → hist_inv s → sh_step pth s h = Some s' →
  (∀ pid p, procs s' !! pid = Some p → follows p) →
  (∀ pid a, h = HCall pid (Unlink pth) a → rc a = 0 → undisturbed s pid) → hist_inv s'.
Proof.
  intros Hpth HI E Hfol Hcalm. destruct h as [pid fdl|pid r a|pid]; cbn [sh_step] in E.
  - case_bool_decide as Hq; [|done]. injection E as <-. by apply step_start.
  - case_bool_decide as Hg; [done|]. apply bind_Some in E as (p & Hp & E).
    apply sh_call_cases in E as (Ep & Eg & E). assert (running s pid p) as Hr by done.
    assert (run_log (log (proc_step r a p).2)) as Hl.
    { apply follows_log, (Hfol pid). rewrite Ep. apply lookup_insert_eq. }
    destruct E as [(-> & Ha & ->)|[(-> & Ha & ->)|(H1 & H2 & H3 & H4)]].
    + by apply step_open.
    + apply step_unlink; try done. by eapply Hcalm.
    + by eapply (step_plain s s' pid r a p).
  - injection E as <-. by apply step_exit.
Qed.

Lemma sh_run_inv hs s s' :
  pth ≠ VG_SOCK_PATH → hist_inv s → sh_run pth s hs = Some s' →
  (∀ pid p, procs s' !! pid = Some p → follows p) → calm_unlinks s hs → hist_inv s'.
Proof.
  intros Hpth. revert s. induction hs as [|h hs IH]; intros s HI E Hfol Hcalm; cbn [sh_run] in E.
  { by injection E as <-. }
  apply bind_Some in E as (s1 & E1 & E). apply (IH s1); [|done|done|].
  - eapply sh_step_inv; [done|done|done| |].
    + intros pid p Hp. destruct (sh_run_grows _ _ _ _ _ E Hp) as (p' & Hp' & Hs).
      eapply follows_suffix; [done|by eapply Hfol].
    + intros pid a -> Ha. by apply (Hcalm [] pid a hs s).
  - intros pre pid a post s2 -> Ha Es. apply (Hcalm (h :: pre) pid a post s2); [done|done|].
    cbn [sh_run]. by rewrite E1.
Qed.

(** C11: one daemon at a time.  In any interleaving of any number of daemons
    on one pid file, with kills and crashes at any moment, as long as none of
    them is between opening and locking the pid file when another removes it,
    of two that hold their locks one has retired: it has removed the pid file
    and touched nothing shared since. *)
Theorem daemons_exclude s0 hs s pid1 pid2 p1 p2 :
  pth ≠ VG_SOCK_PATH → at_boot s0 → sh_run pth s0 hs = Some s →
  (∀ pid p, procs s !! pid = Some p → follows p) → calm_unlinks s0 hs →
  pid1 ≠ pid2 → running s pid1 p1 → running s pid2 p2 → is_Some (held p1) → is_Some (held p2) →
  retired (log p1) ∨ retired (log p2).
Proof.
  intros Hpth (Hp & Ho & _) E Hfol Hcalm Hne R1 R2 Hh1 Hh2.
  assert (hist_inv s0) as H0.
  { assert (∀ x y, procs s0 !! x = Some y → False) as Hno by (intros x y; by rewrite Hp, lookup_empty).
    split; try (by intros x y []%Hno); try (by intros x1 x2 q1 q2 i _ [[]%Hno _]); try (by intros x y i [[]%Hno _]).
    intros x. rewrite Ho, lookup_empty. by intros []. }
  pose proof (sh_run_inv _ _ _ Hpth H0 E Hfol Hcalm) as HI.
  assert (∀ pid p, running s pid p → is_Some (held p) → ¬ retired (log p) →
    ∃ i, pf_open s !! pid = Some i ∧ pf_dir s = Some i) as Hhome.
  { intros pid p R Hh Hr. destruct (hi_held _ HI pid p ltac:(apply R) Hh) as (fd & b & h & Hin).
    pose proof (follows_log p (Hfol pid p ltac:(apply R))) as Hl.
    destruct (hi_opened _ HI pid p ltac:(apply R)) as [i Hi].
    { eapply locked_opened; [apply Hl|apply Hl|exact Hin]. }
    exists i. split; [done|]. by eapply (hi_home _ HI pid p). }
  assert (∀ pid p, running s pid p → retired (log p) ∨ ¬ retired (log p)) as Hdec.
  { intros pid p R. apply retired_or, follows_log, (Hfol pid), R. }
  destruct (Hdec _ _ R1) as [|N1]; [by left|]. destruct (Hdec _ _ R2) as [|N2]; [by right|].
  destruct (Hhome _ _ R1 Hh1 N1) as (i & O1 & D1), (Hhome _ _ R2 Hh2 N2) as (j & O2 & D2).
  assert (j = i) as -> by congruence. exfalso. by eapply (hi_lock _ HI pid1 pid2 p1 p2).
Qed.
End Exclusion.
