(* ===== verification/Scenario.v ===== *)
(** * A small running gate

    A configuration, a kernel and a controller on which the theorems of the
    policy, the control socket and the whole system are instantiated, and
    those instances.  The gate protects 10.0.0.0/8 behind eth0, allows
    127.0.0.0/8, keeps at most 8 drop records and 8 snapshots, and aggregates
    at two records. *)

From Stdlib Require Import String.
From S2P Require Import Prelude Types CString Ipaddr IpaddrThms InetRef IpaddrMain Config Kernel.
From S2P Require Import KernelRef Maps MapsThms ConfigThms ConfigMain Lists DropTable DropThms.
From S2P Require Import TableMain Snap SnapThms SnapMain Double Policy PolicyThms SweepThms.
From S2P Require Import TickThms PolicyMain PolicyRate Xdp XdpThms XdpMain XdpWitness MapsMain.
From S2P Require Import Ctl CtlThms CtlMain System.
Import Dlist Hlist.
Open Scope Z_scope.

(** The state a computation leaves behind. *)
Definition run {S A} (m : M S A) (s : S) : S := match m s with Some (_, s') => s' | None => s end.

Lemma run_wp {S A} (m : M S A) (Q : A → S → Prop) (P : S → Prop) s :
  wp m Q s → (∀ a s', Q a s' → P s') → P (run m s).
Proof. intros (a & s' & E & HQ) H. unfold run. rewrite E. by eapply H. Qed.

(** ** The pieces *)

Definition net10 : vg_cidr := Cidr AF_INET (store16 [10; 0; 0; 0]) 8.
Definition lo8 : vg_cidr := Cidr AF_INET (store16 [127; 0; 0; 0]) 8.

Definition gate_cfg : vg_config := {|
  interface := bs "eth0"; xdp_mode := bs "auto"; log_file := bs "/tmp/l"; pid_file := bs "/tmp/p";
  ctl_socket_group := []; wake_pps := 2000; wake_mbps := 25; idle_poll_ms := 1000;
  clear_seconds := 30; threshold_pps := 500; threshold_mbps := 5; ban_time := 60; aggregate_k := 2;
  metrics_port := 0; remote_map_size := 4; drop_map_size := 4; cfg_allow_ports := [22; 443];
  local_cidr := [net10]; allow_cidr := [lo8]; auto_local := false |}.

Lemma parsed_ok s p : vg_parse_cidr (bs s) = Some p → prefix_ok p.
Proof. apply parse_ok. Qed.

Lemma net10_ok : prefix_ok net10.
Proof. apply (parsed_ok "10.0.0.0/8"). by vm_compute. Qed.
Lemma lo8_ok : prefix_ok lo8.
Proof. apply (parsed_ok "127.0.0.0/8"). by vm_compute. Qed.
Lemma net24_prefix : prefix_ok net24.
Proof. apply (parsed_ok "203.0.113.0/24"). by vm_compute. Qed.
Lemma host32_prefix : prefix_ok host32.
Proof. apply (parsed_ok "203.0.113.9"). by vm_compute. Qed.

Lemma gate_cfg_ok : cfg_ok gate_cfg.
Proof.
  split.
  1-5: by vm_compute.
  1-3: repeat (apply Forall_cons; split; [by vm_compute|]); apply Forall_nil_2.
  - split; [by apply Nat.leb_le|]. repeat (apply Forall_cons; split; [by vm_compute|]).
    apply Forall_nil_2.
  - split; [by vm_compute|]. apply Forall_singleton, net10_ok.
  - split; [by vm_compute|]. apply Forall_singleton, lo8_ok.
Qed.

(** The default networks of the source parse. *)
Lemma ref_defaults : defaults_parse (I := ref_inet).
Proof.
  unfold defaults_parse. cbn [allow_cidr vg_config_defaults].
  repeat (apply Forall_cons; split; [unfold cidr_literal;
    match goal with |- prefix_ok (default _ (vg_parse_cidr (bs ?s))) =>
      let r := eval vm_compute in (vg_parse_cidr (bs s)) in
      match r with Some ?p => apply (parsed_ok s p); by vm_compute | _ => idtac end
    end|]). apply Forall_nil_2.
Qed.

(** A configuration file that names other networks, and one address. *)
#[export] Instance ref_env : Env kref := {
  read_config _ w :=
    (Some ([bs "local_networks = 10.0.0.0/8, 198.51.100.0/24" ++ [10]; bs "allow_ports = 22" ++ [10];
            bs "ban_time = 90" ++ [10]], false), w);
  getifaddrs w := (Some [IfAddr (Some (bs "eth0")) (Some (AF_INET, [10; 0; 0; 1]))], w);
}.

Lemma ref_getifaddrs_ok (w : kref) l : (getifaddrs w).1 = Some l → Forall ifaddr_ok l.
Proof.
  intros [= <-]. apply Forall_singleton. intros f a [= <- <-] _.
  split; [done|]. repeat (apply Forall_cons; split; [by vm_compute|]). apply Forall_nil_2.
Qed.

#[export] Instance ref_env_laws : EnvLaws kref.
Proof. split; [done|done|apply ref_getifaddrs_ok]. Qed.

Definition gate_maps : vg_maps := maps_open_sizes 1.
Definition boot_world : kref := set_times [100; 100; 110; 120; 130; 140] (ref_boot 16).

Definition empty_tab : drop_tab := default
  (DropTab ∅ 0 0 ∅ 0 (HMem ∅ ∅ ∅) 0) (drops_init 4).

Definition gate_ctrl : vg_ctrl :=
  Ctrl VG_IDLE gate_cfg gate_maps (bs "/etc/voidgate.conf") [] None None d0 d0 0
    empty_tab (replicate 5 0) 0 (snap_init 4).

Lemma gate_init :
  vg_ctrl_init true true gate_cfg gate_maps (Some (bs "/etc/voidgate.conf")) None
  = Some (Some gate_ctrl).
Proof. vm_compute. reflexivity. Qed.

(** A kernel with the maps of an idle one. *)
Lemma ref_start w :
  k_trie w = k_trie (ref_boot 16) → k_cfg w = k_cfg (ref_boot 16) → k_failed w = [] → start_world w.
Proof.
  intros Ht Hc Hf. split; [eexists; cbn; by rewrite Hc|]. split; [cbn; unfold trie_of; by rewrite Ht|].
  split; [cbn; unfold trie_of; by rewrite Ht|]. intros q. by apply none_refused.
Qed.

Lemma boot_start : start_world boot_world.
Proof. by apply ref_start. Qed.

Lemma gate_good : Good gate_ctrl boot_world.
Proof. by eapply init_good; [apply gate_cfg_ok| |apply gate_init|apply boot_start]. Qed.

(** After 203.0.113.9 and 203.0.113.10 were dropped by the policy, then
    203.0.113.0/24 by hand. *)
Definition host10 : vg_cidr := Cidr AF_INET (store16 [203; 0; 113; 10]) 32.
Lemma host10_prefix : prefix_ok host10.
Proof. apply (parsed_ok "203.0.113.10"). by vm_compute. Qed.

Definition drops3 : M (vg_ctrl * kref) Z :=
  _ ← vg_ctrl_drop host32 VG_REASON_POLICY;
  _ ← vg_ctrl_drop host10 VG_REASON_POLICY;
  vg_ctrl_drop net24 VG_REASON_MANUAL.

Definition busy : vg_ctrl * kref := run drops3 (gate_ctrl, boot_world).

Lemma busy_inv : Inv busy.1 busy.2.
Proof.
  assert (keeps drops3) as Hk.
  { unfold drops3. apply keeps_bind; [apply drop_keeps, host32_prefix|intros _].
    apply keeps_bind; [apply drop_keeps, host10_prefix|intros _]. apply drop_keeps, net24_prefix. }
  unfold busy. eapply (run_wp drops3 _ (λ s, Inv s.1 s.2)); [apply Hk, gate_good|]. by intros a s' [? _].
Qed.

Lemma busy_walk : drop_all_walk (drops busy.1) = Some [0; 1; 2].
Proof. vm_compute. reflexivity. Qed.
