(* ===== verification/Instances.v ===== *)
(** * Instances of the main theorems

    Each theorem with hypotheses at a concrete input: the gate of
    [Scenario], small tables, short texts. *)

From Stdlib Require Import String.
From S2P Require Import Prelude Types CString Ipaddr IpaddrThms InetRef IpaddrMain Config Kernel.
From S2P Require Import KernelRef Maps MapsThms ConfigThms ConfigMain Log LogMain Lists DropTable DropThms.
From S2P Require Import TableMain Snap SnapThms SnapMain Double Policy PolicyThms SweepThms.
From S2P Require Import TickThms PolicyMain PolicyRate Xdp XdpThms XdpMain XdpWitness MapsMain.
From S2P Require Import Ctl CtlThms CtlMain System Scenario.
Import Dlist Hlist.
Open Scope Z_scope.

(** ** Configuration *)

(** Instance of [parse_u64_negative]. *)
Lemma parse_u64_negative_witness : parse_u64 (bs "-1") = Some (2 ^ 64 - 1).
Proof. apply (parse_u64_negative 1). lia. Defined.

(** Instance of [scalar_line_sets]. *)
Lemma scalar_line_sets_witness :
  ban_time <$> load_line (bs "ban_time = 90" ++ [10]) gate_cfg = Some 90.
Proof.
  change (bs "ban_time = 90" ++ [10]) with (bs "ban_time" ++ bs " = " ++ dec 90 ++ [10]).
  rewrite (scalar_line_sets (bs "ban_time") _ 90 gate_cfg eq_refl); [reflexivity|lia].
Defined.

(** Instance of [config_load_in_range]. *)
Lemma config_load_in_range_witness :
  ∃ c, vg_config_load (Some ([bs "idle_poll_ms = 0" ++ [10]], false)) = Some c
    ∧ cfg_ok c ∧ 0 < idle_poll_ms c.
Proof.
  destruct (vg_config_load (Some ([bs "idle_poll_ms = 0" ++ [10]], false))) as [c|] eqn:E;
    [|vm_compute in E; discriminate E].
  exists c. split; [done|]. by apply (config_load_in_range _ c ref_defaults E).
Defined.

(** Instance of [logged_config_loads]: a small file, one address on the
    interface, a coloured log. *)
Definition log_time : log_env := LogEnv true false (Tm 125 11 31 23 59 60).
Definition small_file : list Z :=
  bs "# gate" ++ [10] ++ bs "interface = ens3 " ++ [10] ++ bs "threshold_pps=900" ++ [10]
  ++ bs "allow_networks = 192.0.2.0/24,2001:db8::/32" ++ [10] ++ bs "allow_ports = 22,  443".
Definition ens3 : option (list ifaddr) :=
  Some [IfAddr (Some (bs "ens3")) (Some (AF_INET, [198; 51; 100; 7]))].

Lemma logged_config_loads_witness :
  ∃ c0 c, vg_config_load (Some (lines_of small_file [], false)) = Some c0
    ∧ vg_config_auto_local c0 ens3 = Some c ∧ cfg_allow_ports c = [22; 443]
    ∧ ∃ ls ts, lines_of (vg_log_config_at 1 log_time log_time (bs "src/voidgate.c") 401 c 4) []
        = vg_log_at log_time (bs "src/voidgate.c") 401 (bs "xdp attach flags 0x" ++ hex 4)
          :: vg_log_at log_time (bs "src/voidgate.c") 401 (bs "active configuration") :: ls
      ∧ Forall2 drawn ls ts ∧ vg_config_load (Some (ts, false)) = Some (as_logged c).
Proof.
  destruct (vg_config_load (Some (lines_of small_file [], false))) as [c0|] eqn:E0;
    [|vm_compute in E0; discriminate E0].
  destruct (vg_config_auto_local c0 ens3) as [c|] eqn:E.
  2:{ vm_compute in E0. injection E0 as <-. vm_compute in E. discriminate E. }
  assert (cfg_allow_ports c = [22; 443] ∧ allow_cidr c ≠ []) as [Hp Ha].
  { vm_compute in E0. injection E0 as <-. vm_compute in E. injection E as <-. split; [done|]. discriminate. }
  exists c0, c. split; [done|]. split; [done|]. split; [done|].
  apply (logged_config_loads 1 log_time log_time (bs "src/voidgate.c") 401 small_file ens3 c0 c 4);
    try done; try lia; [apply ref_defaults| |by apply no_nl_check].
  intros l [= <-]. constructor; [|constructor]. intros f a [= <- <-] _.
  split; [done|]. by repeat constructor.
Defined.

(** Instance of [protected_iff_shares]: 0.0.0.0/0 would cover 10.0.0.0/8. *)
Lemma protected_iff_shares_witness :
  ∃ q, q ∈ local_cidr gate_cfg ++ allow_cidr gate_cfg ∧ AF_INET = family q
    ∧ ∃ a, addr_ok AF_INET a ∧ in_cidr (Cidr AF_INET (store16 [0; 0; 0; 0]) 0) a ∧ in_cidr q a.
Proof.
  apply (protected_iff_shares gate_cfg (Cidr AF_INET (store16 [0; 0; 0; 0]) 0));
    [apply gate_cfg_ok|apply (parsed_ok "0.0.0.0/0"); by vm_compute|by vm_compute].
Defined.

(** ** Tables *)

Definition some_ops : list idx_op :=
  [OAdd net24 VG_REASON_MANUAL 5 0; OFind net24; OAdd net24 VG_REASON_POLICY 6 0;
   OAdd host32 VG_REASON_POLICY 7 0; ODel net24; OFind net24; OAdd net10 VG_REASON_TIMED 8 60].

(** Instance of [drop_index_refines]. *)
Lemma drop_index_refines_witness :
  ∃ t t' l, drops_init 1 = Some t
    ∧ idx_runs some_ops t = Some ([RAdded; RRec (Some (DropRec net24 VG_REASON_MANUAL 5 0)); RPresent;
                                   RAdded; RDone; RRec None; RAdded], t')
    ∧ drop_all_walk t' = Some l
    ∧ get_rec t' <$> l = [DropRec host32 VG_REASON_POLICY 7 0; DropRec net10 VG_REASON_TIMED 8 60]
    ∧ drop_count t' = Z.of_nat (List.length l)
    ∧ vg_ctrl_drops_check t' = Some 0.
Proof.
  apply (drop_index_refines 1 some_ops); [lia|].
  repeat (apply Forall_cons; split; [first [apply net24_prefix|apply host32_prefix|apply net10_ok]|]).
  apply Forall_nil_2.
Defined.

(** Instance of [drop_buckets_diverge]: [drop_map_size = 1073741825]. *)
Lemma drop_buckets_diverge_witness :
  drop_pool_cap_of 1073741825 = 2147483650
    ∧ ∀ fuel, nbuckets_loop fuel 1024 (drop_pool_cap_of 1073741825) = None.
Proof. split; [reflexivity|]. apply drop_buckets_diverge. lia. Defined.

(** A snapshot of 192.0.2.1 in walk 7; then walk 8 begins. *)
Definition snap1 : snap_tab :=
  match snap_get AF_INET [192; 0; 2; 1] (set_sgen (snap_init 2) 7) with
  | Some (Some (i, _), t) => set_sgen (snap_store i (HostCounters 10 1000) t) 8
  | _ => snap_init 2
  end.

Lemma snap0_ok : snap_ok (set_sgen (snap_init 2) 7).
Proof.
  destruct (snap_init_spec 2) as (fr & Hs & Hc). split; [done|]. eexists _, _. by apply srep_gen.
Qed.

Lemma snap1_ok : snap_ok snap1.
Proof.
  unfold snap1. destruct (snap_update _ AF_INET [192; 0; 2; 1] snap0_ok) as (r & t & E & Hr);
    [by apply Nat.leb_le|]. rewrite E. destruct r as [[i new]|].
  - destruct Hr as [_ Hr]. destruct (Hr (HostCounters 10 1000)) as [[Hc (bk & fr & Hs)] _].
    split; [done|]. exists bk, fr. by apply srep_gen.
  - destruct (snap_init_spec 2) as (fr & Hs & Hc). split; [done|]. by eexists _, _.
Qed.

(** Instance of [snap_get_updates]: the second sight of the address. *)
Lemma snap_get_updates_witness :
  ∃ i t', snap_get AF_INET [192; 0; 2; 1] snap1 = Some (Some (i, false), t')
    ∧ snap_seen (snap_store i (HostCounters 15 1500) t') AF_INET [192; 0; 2; 1] = Some (15, 1500, 8).
Proof.
  destruct (snap_get_updates snap1 AF_INET [192; 0; 2; 1] snap1_ok) as (r & t' & E & Hr);
    [by apply Nat.leb_le|].
  destruct r as [[i [|]]|].
  - exfalso. vm_compute in E. discriminate E.
  - exists i, t'. split; [done|]. by destruct Hr as [_ Hr], (Hr (HostCounters 15 1500)) as (_ & ? & _).
  - exfalso. vm_compute in E. discriminate E.
Defined.

(** Instance of [snap_prune_forgets]: walk 8 did not see the address. *)
Lemma snap_prune_forgets_witness :
  ∃ t', snap_prune snap1 = Some t' ∧ snap_seen t' AF_INET [192; 0; 2; 1] = None.
Proof.
  destruct (snap_prune_forgets snap1 snap1_ok) as (t' & E & _ & _ & H). exists t'. split; [done|].
  rewrite H. vm_compute. reflexivity.
Defined.

(** ** Maps *)

(** Instance of [sum_percpu_sums]: two CPUs. *)
Lemma sum_percpu_sums_witness :
  vg_sum_percpu (maps_open_sizes 2) (λ w : kref, (Some [1; 100; 2; 200], w)) 16 boot_world
  = Some (Some [3; 300], boot_world).
Proof. apply (sum_percpu_sums 2 _ 16 boot_world [1; 100; 2; 200] boot_world); [by left|done]. Defined.

(** Instance of [commit_ports]. *)
Lemma commit_ports_witness :
  ∃ w' bc, vg_cfg_commit 1 gate_cfg boot_world = Some (0, w') ∧ xdp_cfg w' = Some bc ∧ armed bc = 1
    ∧ ∀ port, port_allowed (Some bc) port = true ↔ port ∈ [22; 443].
Proof.
  destruct (commit_ports 1 gate_cfg boot_world gate_cfg_ok) as (e & w' & E & _ & H & _).
  assert (e = 0) as -> by (vm_compute in E; by injection E).
  destruct (H eq_refl) as (bc & ? & ? & ?). by exists w', bc.
Defined.

(** Instance of [populate_exact]. *)
Lemma populate_exact_witness :
  ∃ w', vg_populate_local gate_cfg boot_world = Some (tt, w')
    ∧ populated local_v4 local_v6 [net10] boot_world w'.
Proof. exact (proj1 (populate_exact gate_cfg boot_world gate_cfg_ok)). Defined.

(** ** Policy *)

#[local] Opaque busy.

(** Instance of [drop_add_outcome]: 198.51.100.7 is new. *)
Lemma drop_add_outcome_witness :
  ∃ z c' w' l',
    drop_add (host_cidr AF_INET [198; 51; 100; 7]) VG_REASON_POLICY 0 (busy.1, busy.2) = Some (z, (c', w'))
    ∧ drop_all_walk (drops c') = Some l' ∧ cfg c' = cfg busy.1
    ∧ drop_outcome busy.1 busy.2 (host_cidr AF_INET [198; 51; 100; 7]) VG_REASON_POLICY
        (now_of busy.2) 0 (recs busy.1 [0; 1; 2]) z (recs c' l') (state c') w'.
Proof.
  apply (drop_add_outcome busy.1 busy.2 [0; 1; 2] _ VG_REASON_POLICY 0); [apply busy_inv|apply busy_walk|].
  apply (parsed_ok "198.51.100.7"). by vm_compute.
Defined.

(** Instance of [timed_drop_extends]: a policy drop set at 100 with a ban
    time of 60 gets [ttl=5]. *)
Lemma timed_drop_extends_witness :
  ∃ s' l' r', vg_ctrl_drop_ttl host32 5 (busy.1, busy.2) = Some (0, s') ∧ drop_all_walk (drops s'.1) = Some l'
    ∧ r' ∈ recs s'.1 l' ∧ cidr r' = host32 ∧ reason r' = VG_REASON_TIMED ∧ 160 ≤ expires r'.
Proof.
  destruct (vg_ctrl_drop_ttl host32 5 (busy.1, busy.2)) as [[z s']|] eqn:E; [|vm_compute in E; discriminate E].
  assert (z = 0) as -> by (vm_compute in E; by injection E).
  destruct (timed_drop_extends busy.1 busy.2 [0; 1; 2] host32 5 (DropRec host32 VG_REASON_POLICY 100 0) s')
    as (l' & r' & H1 & H2 & H3 & [[H4 _]|(H4 & _ & H5)]);
    [apply busy_inv|apply busy_walk|apply host32_prefix| |reflexivity|exact E|discriminate|].
  - apply list_elem_of_lookup. exists 0%nat. vm_compute. reflexivity.
  - assert (ban_time (cfg busy.1) = 60) as Eb by (vm_compute; reflexivity).
    cbn [reason inserted] in H5. rewrite Eb in H5. change (VG_REASON_POLICY =? VG_REASON_TIMED) with false in H5.
    exists s', l', r'. split_and!; [reflexivity|assumption..].
Defined.

(** Instance of [undrop_lifts]. *)
Lemma undrop_lifts_witness :
  ∃ c' w' l', vg_ctrl_undrop net24 (busy.1, busy.2) = Some (0, (c', w')) ∧ drop_all_walk (drops c') = Some l'
    ∧ recs c' l' = without net24 (recs busy.1 [0; 1; 2]) ∧ map_deleted busy.2 w' net24.
Proof.
  destruct (undrop_lifts busy.1 busy.2 [0; 1; 2] net24 busy_inv busy_walk net24_prefix)
    as (z & c' & w' & l' & E & Hl & [(-> & H1 & H2)|(-> & _)]).
  - exists c', w', l'. split_and!; assumption.
  - vm_compute in E. discriminate E.
Defined.

(** The gate at 500, its policy drops due since 160. *)
Definition late : kref := set_times [500] busy.2.

Lemma late_inv : Inv busy.1 late.
Proof. eapply Inv_same; [apply busy_inv|]. by apply ref_same. Qed.

(** What is left after expiry: the manual drop alone, in the index and the
    map. *)
Lemma late_facts :
  match expire_drops (busy.1, late) with
  | Some (n, (c', w')) =>
      n = 2 ∧ recs c' (default [] (drop_all_walk (drops c'))) = [DropRec net24 VG_REASON_MANUAL 110 0]
      ∧ recs busy.1 [0; 1; 2] !! 0%nat = Some (DropRec host32 VG_REASON_POLICY 100 0)
  | None => False
  end.
Proof. vm_compute. repeat split. Qed.

(** Instance of [expire_exact]: the two policy drops are lifted, the manual
    one stays. *)
Lemma expire_exact_witness :
  ∃ c' w' l', expire_drops (busy.1, late) = Some (2, (c', w')) ∧ drop_all_walk (drops c') = Some l'
    ∧ recs c' l' = [DropRec net24 VG_REASON_MANUAL 110 0] ∧ ¬ in_map w' host32.
Proof.
  destruct (expire_exact busy.1 late [0; 1; 2] late_inv busy_walk)
    as (n & c' & w' & l' & E & Hl & _ & _ & _ & Hgone & _).
  pose proof late_facts as Hf. rewrite E, Hl in Hf. destruct Hf as (-> & Hc & Hin). change (recs c' l' = [DropRec net24 VG_REASON_MANUAL 110 0]) in Hc.
  exists c', w', l'. split; [exact E|]. split; [exact Hl|]. split; [exact Hc|].
  apply (Hgone (DropRec host32 VG_REASON_POLICY 100 0)).
  - apply list_elem_of_lookup. exists 0%nat. exact Hin.
  - rewrite Hc, list_elem_of_singleton. discriminate.
Defined.

(** Instance of [prune_protected_exact]: 203.0.113.9 becomes local, the drops
    of it and of 203.0.113.0/24 are lifted, that of 203.0.113.10 stays. *)
Definition new_cfg : vg_config := set_lists gate_cfg [22] [host32] [] false.

Lemma new_cfg_ok : cfg_ok new_cfg.
Proof.
  destruct gate_cfg_ok. split; try assumption.
  - split; [by apply Nat.leb_le|]. by apply Forall_singleton.
  - split; [by vm_compute|]. apply Forall_singleton, host32_prefix.
  - split; [by vm_compute|]. apply Forall_nil_2.
Qed.

Lemma prune_facts :
  match vg_ctrl_prune_protected (set_cfg busy.1 new_cfg, busy.2) with
  | Some (n, (c', w')) =>
      n = 2 ∧ cidrs c' (default [] (drop_all_walk (drops c'))) = [host10] ∧ k_failed w' = []
  | None => False
  end.
Proof. vm_compute. repeat split. Qed.

Lemma prune_protected_exact_witness :
  ∃ c' w' l', vg_ctrl_prune_protected (set_cfg busy.1 new_cfg, busy.2) = Some (2, (c', w'))
    ∧ drop_all_walk (drops c') = Some l' ∧ cidrs c' l' = [host10]
    ∧ ∀ r, r ∈ recs c' l' ↔ r ∈ recs busy.1 [0; 1; 2] ∧ ¬ touches new_cfg (cidr r).
Proof.
  destruct (prune_protected_exact busy.1 busy.2 [0; 1; 2] busy_inv busy_walk new_cfg new_cfg_ok)
    as (n & c' & w' & l' & E & Hl & _ & _ & _ & _ & _ & H).
  pose proof prune_facts as Hf. rewrite E, Hl in Hf. destruct Hf as (-> & Hc & Hnf).
  exists c', w', l'. split; [exact E|]. split; [exact Hl|]. split; [exact Hc|].
  apply H. intros p. exact (none_refused _ Hnf _ _).
Defined.

(** Instance of [disarm_clears]. *)
Lemma disarm_clears_witness :
  ∃ c' w', vg_ctrl_disarm (busy.1, busy.2) = Some (0, (c', w')) ∧ drop_all_walk (drops c') = Some []
    ∧ state c' = VG_IDLE.
Proof.
  destruct (disarm_clears busy.1 busy.2 busy_inv)
    as (z & c' & w' & E & H1 & _ & _ & _ & _ & [[-> H2]|[-> _]]).
  - exists c', w'. split_and!; assumption.
  - vm_compute in E. discriminate E.
Defined.

(** Instance of [tick_total]. *)
Lemma tick_total_witness :
  ∃ z c' w', vg_ctrl_tick (busy.1, busy.2) = Some (z, (c', w')) ∧ Inv c' w' ∧ cfg c' = cfg busy.1.
Proof. apply (tick_total busy.1 busy.2 busy_inv). Defined.

(** Instance of [remote_policy]: first sight of an address. *)
Lemma remote_policy_witness :
  ∃ t, snap_seen t AF_INET [192; 0; 2; 1] = Some (10, 1000, 0)
    ∧ policy_one_remote (of_int 1) AF_INET [192; 0; 2; 1] (HostCounters 10 1000) (busy.1, busy.2)
      = Some (tt, (set_snap busy.1 t, busy.2)).
Proof.
  destruct (remote_policy (of_int 1) AF_INET [192; 0; 2; 1] (HostCounters 10 1000) busy.1 busy.2 busy_inv)
    as (t & H1 & _ & H2); [by apply Nat.leb_le|].
  assert (snap_seen (snap busy.1) AF_INET [192; 0; 2; 1] = None) as E by (vm_compute; reflexivity).
  rewrite E in H2. exists t. destruct H1 as [H1|(_ & -> & H1)].
  - split; [|exact H2]. rewrite H1. vm_compute. reflexivity.
  - vm_compute in H1. discriminate H1.
Defined.

(** Instance of [aggregate_decides]: two hosts of 203.0.113.0/24 and the
    network itself are listed, two are enough. *)
Lemma aggregate_decides_witness :
  ∃ net, prefixlen net = 24 ∧ vg_cidr_contains net host32 = true
    ∧ maybe_aggregate host32 (busy.1, busy.2) =
      if 2 <=? Z.of_nat (List.length (filter (λ r,
           reason r ≠ VG_REASON_TIMED ∧ vg_cidr_contains net (cidr r) = true) (recs busy.1 [0; 1; 2])))
      then vg_ctrl_drop net VG_REASON_AGGREGATE (busy.1, busy.2) else Some (0, (busy.1, busy.2)).
Proof.
  destruct (aggregate_decides host32 busy.1 busy.2 [0; 1; 2] busy_walk host32_prefix eq_refl)
    as (net & _ & _ & H1 & H2 & H3).
  exists net. split_and!; [exact H1|exact H2|]. exact H3.
Defined.

(** ** Control socket *)

(** Instance of [request_from_stream]: "sta", interrupted, "tus\n". *)
Lemma request_from_stream_witness :
  recv [RData (bs "sta"); REintr; RData (bs "tus" ++ [10])] [] = Command (bs "status").
Proof.
  rewrite (request_from_stream [RData (bs "sta"); REintr; RData (bs "tus" ++ [10])]); [reflexivity|].
  cbn [reads_ok]. split; [done|]. split; [by apply Nat.leb_le|]. right; right.
  split; [done|]. split; [by apply Nat.leb_le|]. right; left. apply list_elem_of_In. vm_compute. tauto.
Defined.

(** Instance of [drop_command_reply]. *)
Lemma drop_command_reply_witness :
  ∃ c' w' l' p, dispatch (bs "drop 192.0.2.0/24 ttl=60") (busy.1, busy.2) = Some (msg "ok", (c', w'))
    ∧ drop_all_walk (drops c') = Some l' ∧ vg_parse_cidr_len (bs "192.0.2.0/24") = Some p
    ∧ in_map w' p ∧ ∀ q, q ∈ cidrs c' l' ↔ q ∈ cidrs busy.1 [0; 1; 2] ∨ q = p.
Proof.
  destruct (drop_command_reply (bs "192.0.2.0/24 ttl=60") busy.1 busy.2 [0; 1; 2] busy_inv busy_walk)
    as (r & c' & w' & l' & E & _ & Hl & [[-> (p & H1 & H2 & H3)]|[Hne _]]).
  - exists c', w', l', p. split_and!; assumption.
  - exfalso. vm_compute in E. injection E as <- _. discriminate Hne.
Defined.

(** Instance of [reload_applies]. *)
Lemma reload_applies_witness :
  ∃ c' w', vg_ctrl_reload (gate_ctrl, boot_world) = Some (0, (c', w'))
    ∧ cfg_allow_ports (cfg c') = [22] ∧ applied (cfg c') w'.
Proof.
  destruct (reload_applies gate_ctrl boot_world ref_defaults gate_good)
    as (z & c' & w' & E & _ & _ & H).
  assert (z = 0) as -> by (vm_compute in E; by injection E).
  destruct (H eq_refl) as (n & ifa & En & _ & _ & Ha). exists c', w'. split_and!; [exact E| |exact Ha].
  vm_compute in E. injection E as <- _. reflexivity.
Defined.

(** ** The running system *)

Lemma run_some {S A} (m : M S A) s :
  match m s with Some _ => true | None => false end = true → ∃ a, m s = Some (a, run m s).
Proof. unfold run. destruct (m s) as [[a s']|]; [|done]. by exists a. Qed.

(** The gate after [drop 203.0.113.0/24] on its socket. *)
Definition drop_request : list rd_event := [RData (bs "drop 203.0.113.0/24" ++ [10])].
Definition after_drop : vg_ctrl * kref := run (vg_ctl_server_handle drop_request [WSent 3]) (gate_ctrl, boot_world).

Lemma after_drop_reach : reach (after_drop.1, after_drop.2).
Proof.
  rewrite <-surjective_pairing.
  destruct (run_some (vg_ctl_server_handle drop_request [WSent 3]) (gate_ctrl, boot_world)) as [r E];
    [vm_compute; reflexivity|].
  eapply reach_ctl; [|exact E].
  eapply reach_start; [apply gate_cfg_ok|by vm_compute|apply gate_init|apply boot_start].
Qed.

#[local] Opaque after_drop.

Lemma after_drop_clean m k : ¬ refused m k after_drop.2.
Proof. apply none_refused. vm_compute. reflexivity. Qed.

(** Instance of [reachable_consistent]: no delete was refused so far. *)
Lemma reachable_consistent_witness :
  ∃ l, drop_all_walk (drops after_drop.1) = Some l
    ∧ vg_ctrl_drops_check (drops after_drop.1) = Some 0
    ∧ (∀ p, prefix_ok p → in_map after_drop.2 p ↔ p ∈ cidrs after_drop.1 l)
    ∧ (∀ p, p ∈ cidrs after_drop.1 l → vg_cidr_is_protected (cfg after_drop.1) p = false).
Proof.
  destruct (reachable_consistent ref_defaults after_drop.1 after_drop.2 after_drop_reach)
    as (l & H1 & H2 & _ & _ & _ & H3 & _).
  destruct (H3 (λ p, after_drop_clean _ _)) as [H4 H5]. exists l. split_and!; assumption.
Defined.

(** Instance of [reachable_progress]. *)
Lemma reachable_progress_witness :
  ∃ z s', vg_ctrl_tick (after_drop.1, after_drop.2) = Some (z, s').
Proof. exact (proj1 (reachable_progress ref_defaults _ after_drop_reach)). Defined.

(** Instance of [listed_drop_enforced]: the attacker of [XdpWitness]. *)
Lemma listed_drop_enforced_witness :
  ∃ w', voidgate_xdp attack after_drop.2 = Some (XDP_DROP, w').
Proof.
  destruct (ip_info attack) as [i|] eqn:Ei; [|vm_compute in Ei; discriminate Ei].
  destruct (xdp_cfg after_drop.2) as [bc|] eqn:Ec; [|vm_compute in Ec; discriminate Ec].
  eapply (listed_drop_enforced ref_defaults after_drop.1 after_drop.2 [0]
            (DropRec net24 VG_REASON_MANUAL 100 0) attack i bc after_drop_reach).
  - vm_compute. reflexivity.
  - apply list_elem_of_lookup. exists 0%nat. vm_compute. reflexivity.
  - vm_compute. repeat constructor; congruence.
  - exact Ei.
  - vm_compute in Ei. injection Ei as <-. reflexivity.
  - left. vm_compute in Ei. injection Ei as <-. intros k Hk. assert (k < 24)%nat as Hk' by exact Hk. clear Hk.
    do 24 (destruct k as [|k]; [reflexivity|]). lia.
  - exact Ec.
  - vm_compute in Ei. injection Ei as <-. vm_compute in Ec. injection Ec as <-. vm_compute. reflexivity.
Defined.

(** 10.0.0.2 to 10.0.0.1. *)
Definition inside : list Z := tcp4 [10; 0; 0; 2] [10; 0; 0; 1] 4000 80.

(** Both its ends are local. *)
Lemma inside_local i a :
  ip_info inside = Some i → a = pi_saddr i ∨ a = pi_daddr i →
  ∃ q, q ∈ local_cidr (cfg after_drop.1) ++ allow_cidr (cfg after_drop.1)
    ∧ family q = pkt_family i ∧ in_cidr q a.
Proof.
  intros Ei Ha. assert (local_cidr (cfg after_drop.1) = [net10]) as El by (vm_compute; reflexivity).
  rewrite El. exists net10. split; [by apply elem_of_cons; left|].
  vm_compute in Ei. injection Ei as <-. split; [reflexivity|]. intros k Hk.
  assert (k < 8)%nat as Hk' by exact Hk. clear Hk.
  destruct Ha as [-> | ->]; (do 8 (destruct k as [|k]; [reflexivity|]); lia).
Qed.

(** Instance of [protected_never_dropped]. *)
Lemma protected_never_dropped_witness :
  ∃ w', voidgate_xdp inside after_drop.2 = Some (XDP_PASS, w').
Proof.
  destruct (ip_info inside) as [i|] eqn:Ei; [|vm_compute in Ei; discriminate Ei].
  apply (protected_never_dropped ref_defaults after_drop.1 after_drop.2 inside i after_drop_reach).
  - intros p. exact (after_drop_clean _ _).
  - vm_compute. repeat constructor; congruence.
  - exact Ei.
  - intros a. exact (inside_local i a Ei).
Defined.
