(* ===== verification/DaemonWitness.v ===== *)
(** * A daemon that runs

    An operating system to run [main] on (its answers are fixed, but for
    whether a signal has come and whether the pid file can be written), and
    the theorems on the daemon, the metrics page and the client at runs on
    it and on the gate of [Scenario]. *)

From Stdlib Require Import String SpecFloat.
From S2P Require Import Prelude Types CString Ipaddr IpaddrThms InetRef IpaddrMain Config Kernel.
From S2P Require Import KernelRef Maps MapsThms ConfigThms Lists DropTable DropThms Snap SnapThms.
From S2P Require Import Double Policy PolicyThms SweepThms TickThms Xdp XdpThms MapsMain.
From S2P Require Import Ctl CtlThms CtlMain Http Client Os Setup Daemon ProcThms DaemonThms.
From S2P Require Import BpfMaps DaemonTime System DaemonMain DaemonReach Scenario.
Open Scope Z_scope.

(** A configuration file that asks for small tables. *)
#[local] Instance small_env : Env kref := {
  read_config _ w :=
    (Some ([bs "interface = eth0" ++ [10]; bs "local_networks = 10.0.0.0/8" ++ [10];
            bs "drop_map_size = 4" ++ [10]; bs "remote_map_size = 4" ++ [10];
            bs "metrics_port = 9110" ++ [10]], false), w);
  getifaddrs w := (Some [], w);
}.

#[local] Instance small_env_laws : EnvLaws kref.
Proof. split; [done|done|]. intros w l [= <-]. constructor. Qed.

(** Answers: a client asks for the status; the pid file of [-s stop] holds
    4294967295 and its lock is taken; libbpf keeps a descriptor
    for each of the twelve maps and one for the program. *)
Definition answer (signalled writable : bool) (r : sysreq) : sysans :=
  match r with
  | Stop => Ans (if signalled then 1 else 0) []
  | Pwrite _ buf => Ans (if writable then Z.of_nat (List.length buf) else -28) []
  | Read _ _ => Ans 11 (bs "4294967295" ++ [10])
  | Flock _ LOCK_SH => Ans (- EWOULDBLOCK) []
  | Connect _ _ => Ans (-2) []
  | Poll _ _ => Ans 1 [1; 0]
  | Getpid => Ans 77 []
  | IfNametoindex _ => Ans 2 []
  | NumCpus => Ans 1 []
  | Kill _ sig => Ans (if sig =? 0 then - ESRCH else 0) []
  | SkelLoad => Ans 0 (replicate 13 0)
  | _ => Ans 0 []
  end.

Definition fresh_world : kref :=
  set_clocks [Timespec 50 0; Timespec 50 999000000; Timespec 51 200000000] boot_world.

#[local] Instance ref_os (signalled writable : bool) : Os kref := {
  sys r w := (answer signalled writable r, match r with SkelLoad => fresh_world | _ => w end);
  conn_io w := (([RData (bs "status" ++ [10])], [WSent 4096]), w);
}.

#[local] Instance ref_os_laws signalled writable : OsLaws kref (Os0 := ref_os signalled writable).
Proof.
  split; [|intros w a w' [= <- <-] _; split_and!; [by intros []|by eexists|by intros o m k Hk%elem_of_nil]|done].
  intros r w H1 H2. by destruct r.
Qed.

(** Started by a shell; by a daemon supervisor that passes descriptor 5. *)
Definition shell : proc := Proc [0; 1; 2] None [] [].

Lemma shell_started : started shell.
Proof. split; [done|]. split; [done|]. split; [|done]. by vm_compute. Qed.

Definition opt_c : list (Z * list Z) := [(99, bs "/etc/vg.conf")].

Lemma opt_serves : serves opt_c.
Proof. intros o. vm_compute. by intros [= <-]. Qed.

(** The end of a run: how it stopped, the length of its log, descriptors,
    and the program that stayed on the hook. *)
Definition summary (r : option ((stop + Z) * (kref * proc))) :
    option (Z * Z * nat * list Z * option (Z * Z)) :=
  match r with
  | Some (x, (_, p)) =>
      let '(kind, z) := match x with
                        | inr z => (0, z)
                        | inl (Exit z) => (1, z)
                        | inl (Cut (Some _)) => (2, 0)
                        | inl (Cut None) => (3, 0)
                        end in
      Some (kind, z, List.length (log p), fds p, xdp_on (log p))
  | None => None
  end.

(** Two requests served, then cut off. *)
Lemma run_cut :
  ∃ c w' p', main (Os0 := ref_os false true) 2 opt_c (boot_world, shell)
             = Some (inl (Cut (Some c)), (w', p'))
    ∧ List.length (log p') = 49%nat ∧ fds p' = [18; 17; 4; 5; 6; 7; 8; 9; 10; 11; 12; 13; 14; 15; 16; 2; 3; 0; 1].
Proof.
  destruct (main (Os0 := ref_os false true) 2 opt_c (boot_world, shell)) as [[x [w' p']]|] eqn:E;
    assert (summary (main (Os0 := ref_os false true) 2 opt_c (boot_world, shell))
            = Some (2, 0, 49%nat, [18; 17; 4; 5; 6; 7; 8; 9; 10; 11; 12; 13; 14; 15; 16; 2; 3; 0; 1], Some (2, XDP_FLAGS_DRV_MODE))) as Es by (vm_compute; reflexivity);
    rewrite E in Es; [|discriminate Es].
  destruct x as [[z|[c|]]|z]; try discriminate Es. injection Es as E1 E2 _.
  exists c, w', p'. split_and!; [reflexivity|exact E1|exact E2].
Qed.

(** A signal at once. *)
Lemma run_return :
  ∃ w' p', main (Os0 := ref_os true true) 2 opt_c (boot_world, shell) = Some (inr 0, (w', p')).
Proof.
  destruct (main (Os0 := ref_os true true) 2 opt_c (boot_world, shell)) as [[x [w' p']]|] eqn:E;
    assert ((λ r, (r.1.1.1.1, r.1.1.1.2)) <$> summary (main (Os0 := ref_os true true) 2 opt_c (boot_world, shell))
            = Some (0, 0)) as Es by (vm_compute; reflexivity);
    rewrite E in Es; [|discriminate Es].
  destruct x as [[z|[c|]]|z]; try discriminate Es. injection Es as ->. exists w', p'. reflexivity.
Qed.

(** The disk is full. *)
Definition is_detach (e : event) : bool := match e_req e with XdpDetach _ _ => true | _ => false end.

Lemma run_full :
  ∃ w' p', main (Os0 := ref_os true false) 2 opt_c (boot_world, shell)
           = Some (inl (Exit 1), (w', p'))
    ∧ xdp_on (log p') = Some (2, XDP_FLAGS_DRV_MODE) ∧ existsb is_detach (log p') = false.
Proof.
  destruct (main (Os0 := ref_os true false) 2 opt_c (boot_world, shell)) as [[x [w' p']]|] eqn:E;
    assert ((λ r, (r.1.1.1.1, r.1.1.1.2, r.2)) <$> summary (main (Os0 := ref_os true false) 2 opt_c (boot_world, shell))
            = Some (1, 1, Some (2, XDP_FLAGS_DRV_MODE))
      ∧ (λ r, existsb is_detach (log r.2.2)) <$> main (Os0 := ref_os true false) 2 opt_c (boot_world, shell)
        = Some false) as [Es Ed] by (split; vm_compute; reflexivity);
    rewrite E in Es, Ed; [|discriminate Es].
  destruct x as [[z|[c|]]|z]; try discriminate Es. injection Es as -> Ex. injection Ed as Ed.
  exists w', p'. split_and!; [reflexivity|exact Ex|exact Ed].
Qed.


(** Instance of [main_returns_clean]: a daemon that is stopped at once. *)
Lemma main_returns_clean_witness :
  ∃ w' p', main (Os0 := ref_os true true) 2 opt_c (boot_world, shell) = Some (inr 0, (w', p'))
    ∧ (∀ x, xdp_on (log p') = Some x → stuck x (log p'))
    ∧ held p' = None ∧ fd_set p' = fd_set shell ∧ objs p' = [].
Proof.
  destruct run_return as (w' & p' & E). exists w', p'. split; [exact E|].
  exact (main_returns_clean (Os0 := ref_os true true) 2 opt_c boot_world shell 0 w' p' opt_serves
           shell_started E).
Defined.


(** Instance of [main_descriptors_bounded]. *)
Lemma main_descriptors_bounded_witness :
  ∃ c w' p', main (Os0 := ref_os false true) 2 opt_c (boot_world, shell)
             = Some (inl (Cut (Some c)), (w', p'))
    ∧ is_Some (held p')
    ∧ ∃ l, objs p' = [l] ∧ (size (fd_set p') ≤ size (fd_set shell) + 3 + List.length l)%nat.
Proof.
  destruct run_cut as (c & w' & p' & E & _). exists c, w', p'. split; [exact E|].
  exact (main_descriptors_bounded (Os0 := ref_os false true) 2 opt_c boot_world shell c w' p'
           opt_serves shell_started E).
Defined.

(** Instance of [main_reaches]. *)
Lemma main_reaches_witness :
  ∃ c w' p', main (Os0 := ref_os false true) 2 opt_c (boot_world, shell)
             = Some (inl (Cut (Some c)), (w', p'))
    ∧ reach (Env0 := small_env) (c, w').
Proof.
  destruct run_cut as (c & w' & p' & E & _). exists c, w', p'. split; [exact E|].
  apply (main_reaches (Os0 := ref_os false true) ref_defaults 2 opt_c boot_world shell c w' p'); [|exact E].
  intros o cf Ho Hc. vm_compute in Ho. injection Ho as <-. vm_compute in Hc. injection Hc as <-. by vm_compute.
Defined.


(** ** A turn of the loop *)

Lemma fresh_reach : reach (Env0 := small_env) (gate_ctrl, fresh_world).
Proof.
  eapply reach_start; [apply gate_cfg_ok|by vm_compute|apply gate_init|by apply ref_start].
Qed.

Definition last_tick_at : timespec := Timespec 49 500000000.

(** Instance of [turn_completes]. *)
Lemma turn_completes_witness :
  ∃ r c' w' p', loop_body (Os0 := ref_os false true) 4 5 last_tick_at gate_ctrl (fresh_world, shell)
                = Some (inr (r, c'), (w', p')) ∧ reach (Env0 := small_env) (c', w').
Proof.
  apply (turn_completes (Os0 := ref_os false true) ref_defaults 4 5 last_tick_at gate_ctrl fresh_world shell
           fresh_reach).
  vm_compute. split; [discriminate|reflexivity].
Defined.

Lemma ref_clock_ok (w : kref) : ts_ok (sys_clock w).1.
Proof. unfold ts_ok. cbn [sys_clock ref_kernel fst tv_nsec]. apply Z.mod_pos_bound. lia. Qed.

Lemma run_turn :
  ∃ last' c' w' p', loop_body (Os0 := ref_os false true) 4 5 last_tick_at gate_ctrl (fresh_world, shell)
                = Some (inr (Some last', c'), (w', p')).
Proof.
  destruct (loop_body (Os0 := ref_os false true) 4 5 last_tick_at gate_ctrl (fresh_world, shell))
    as [[x [w' p']]|] eqn:E;
    assert (match loop_body (Os0 := ref_os false true) 4 5 last_tick_at gate_ctrl (fresh_world, shell) with
            | Some (inr (Some _, _), _) => true | _ => false end = true) as Es by (vm_compute; reflexivity);
    rewrite E in Es; [|discriminate Es].
  destruct x as [z|[[last'|] c']]; try discriminate Es. exists last', c', w', p'. reflexivity.
Qed.

(** Instance of [turn_timing]. *)
Lemma turn_timing_witness :
  ∃ last' c' w' fds wait pr, turn_end last_tick_at gate_ctrl pr last' c' w'
    ∧ (0 < wait → 500 * 10 ^ 6 + wait * 10 ^ 6 < 1001 * 10 ^ 6)
    ∧ ∃ p' h, Ev (Poll fds wait) pr h ∈ log p'.
Proof.
  destruct run_turn as (last' & c' & w' & p' & E).
  destruct (turn_timing (Os0 := ref_os false true) ref_clock_ok 4 5 last_tick_at gate_ctrl fresh_world shell
              last' c' w' p') as (fds & wait & pr & h & H1 & H2 & _ & H4); [| |exact E|].
  - split; [discriminate|reflexivity].
  - vm_compute. split; [discriminate|reflexivity].
  - exists last', c', w', fds, wait, pr. split_and!; [exact H2|exact H4|]. exists p', h. exact H1.
Defined.

(** ** The metrics page and the client *)

Definition get_metrics : list rd_event := [RData (bs "GET /metrics HTTP/1.1" ++ crlf ++ crlf)].

(** Instance of [http_response]. *)
Lemma http_response_witness :
  ∃ out w', vg_http_handle get_metrics 4608 (gate_ctrl, boot_world) = Some (out, (gate_ctrl, w'))
    ∧ ∃ m, vg_metrics_read gate_maps boot_world = Some (m, w')
         ∧ out = ok_header 431 ++ prometheus_text gate_ctrl (default zero_metrics m).
Proof.
  destruct (http_response get_metrics 4608 gate_ctrl boot_world eq_refl)
    as (out & w' & E & H); [vm_compute; split; [discriminate|reflexivity]|].
  exists out, w'. split; [exact E|]. destruct H as [[H _]|[(_ & H & _)|(_ & _ & m & Em & _ & Ho)]].
  - discriminate H.
  - exfalso. apply H, wants_metrics_spec. vm_compute. reflexivity.
  - exists m. split; [exact Em|]. clear E. vm_compute in Em. injection Em as <- _.
    rewrite Ho; [vm_compute; reflexivity|]. vm_compute. discriminate.
Defined.

Definition drop_words : list (list Z) := [bs "drop"; bs "192.0.2.0/24"; bs "ttl=60"].

Lemma drop_words_ok : words_ok drop_words.
Proof. split; [done|]. split; apply has_byte_false; vm_compute; reflexivity. Qed.

(** The command in two reads. *)
Definition two_reads : list rd_event :=
  [RData (take 7 (client_cmd drop_words)); REintr; RData (drop 7 (client_cmd drop_words))].

Lemma two_reads_ok : reads_ok two_reads 0.
Proof.
  cbn [reads_ok two_reads]. split_and!; [discriminate|vm_compute; lia|]. right. right.
  split_and!; [discriminate|vm_compute; lia|]. right. left. apply has_byte_true. vm_compute. reflexivity.
Qed.

(** Instance of [client_request]. *)
Lemma client_request_witness : recv two_reads [] = Command (bs "drop 192.0.2.0/24 ttl=60").
Proof. exact (client_request drop_words two_reads drop_words_ok two_reads_ok eq_refl). Defined.

(** Instance of [client_drop_status]: the reply [ok] and the status 0. *)
Lemma client_drop_status_witness :
  ∃ c' w' l' p, vg_ctl_server_handle two_reads [WSent 3] (busy.1, busy.2) = Some (msg "ok", (c', w'))
    ∧ exit_status (client_main drop_words true true 25 [RData (msg "ok")]) = 0
    ∧ drop_all_walk (drops c') = Some l' ∧ in_map w' p
    ∧ ∀ q, q ∈ cidrs c' l' ↔ q ∈ cidrs busy.1 [0; 1; 2] ∨ q = p.
Proof.
  destruct (client_drop_status [bs "192.0.2.0/24"; bs "ttl=60"] two_reads busy.1 busy.2 [0; 1; 2] busy_inv
              busy_walk drop_words_ok) as (r & c' & w' & l' & _ & Hl & Ed & Hsend & Hst & _);
    [discriminate|vm_compute; lia|exact two_reads_ok|vm_compute; reflexivity|].
  assert (r = msg "ok") as -> by (clear -Ed; vm_compute in Ed; injection Ed as <- _; reflexivity).
  assert (vg_ctl_server_handle two_reads [WSent 3] (busy.1, busy.2) = Some (msg "ok", (c', w'))) as Eh.
  { apply Hsend. right. vm_compute. split; [split; discriminate|reflexivity]. }
  destruct (Hst [RData (msg "ok")] 25) as [[H1 (p & _ & H2 & H3)]|[H1 _]].
  - split_and!; [apply Forall_singleton; exact I|reflexivity|vm_compute; lia].
  - discriminate.
  - exists c', w', l', p. split_and!; [exact Eh|exact H1|exact Hl|exact H2|exact H3].
  - discriminate H1.
Defined.

(** Instance of [tables_fit]: room for four drops per family. *)
Lemma ref_resize : resize_succeeds (K := kref) (Os0 := ref_os false true).
Proof. intros name n w. reflexivity. Qed.

