(* ===== verification/TracedWitness.v ===== *)
(** * Inside the operations of a small gate

    The claims of [TracedMain] at concrete runs: a tick, a repeated drop and
    a reload of the gate of [Scenario]. *)

From Stdlib Require Import String.
From S2P Require Import Prelude Types CString Ipaddr IpaddrThms InetRef IpaddrMain Config Kernel.
From S2P Require Import KernelRef Maps MapsThms ConfigThms ConfigMain Lists DropTable DropThms.
From S2P Require Import TableMain Snap SnapThms SnapMain Double Policy PolicyThms SweepThms.
From S2P Require Import TickThms PolicyMain PolicyRate Xdp XdpThms XdpMain XdpWitness MapsMain.
From S2P Require Import Ctl CtlThms CtlMain System Scenario Instances Traced TracedThms TracedMain.
Open Scope Z_scope.

(** The run of an operation from the gate with its drop, on the recording
    kernel, and the world after its first call. *)
Definition traced_run (o : daemon_op) : option (unit * (vg_ctrl * tw kref)) :=
  @run_op (tw kref) (@traced_kernel kref ref_kernel) (@traced_env kref ref_env) ref_inet o
    (after_drop.1, TW after_drop.2 []).

Definition first_world (o : daemon_op) : kref :=
  match traced_run o with
  | Some (_, (_, t)) => default after_drop.2 (head (seen t))
  | None => after_drop.2
  end.

Lemma first_visited o :
  match traced_run o with Some (_, (_, t)) => negb (bool_decide (length (seen t) = 0%nat)) | None => false end = true →
  visits o after_drop.1 after_drop.2 (first_world o).
Proof.
  unfold visits, first_world. fold (traced_run o). intros H.
  destruct (traced_run o) as [[[] [c' t']]|]; [|discriminate H]. exists c', t'. split; [reflexivity|].
  destruct (seen t') as [|x l]; [discriminate H|]. left.
Qed.

#[local] Opaque after_drop.

Lemma tick_visited : visits OpTick after_drop.1 after_drop.2 (first_world OpTick).
Proof. apply first_visited. vm_compute. reflexivity. Qed.

(** Instance of [protected_throughout]. *)
Lemma protected_throughout_witness :
  ∃ x x', visits OpTick after_drop.1 after_drop.2 x
    ∧ voidgate_xdp inside x = Some (XDP_PASS, x').
Proof.
  destruct (ip_info inside) as [i|] eqn:Ei; [|vm_compute in Ei; discriminate Ei].
  destruct (protected_throughout ref_defaults OpTick after_drop.1 after_drop.2 (first_world OpTick) inside i
           after_drop_reach) as [x' Hx'].
  - intros p. exact (after_drop_clean _ _).
  - exact tick_visited.
  - vm_compute. repeat constructor; congruence.
  - exact Ei.
  - intros a. exact (inside_local i a Ei).
  - exists (first_world OpTick), x'. split; [exact tick_visited|exact Hx'].
Defined.

(** The gate is told again to drop 203.0.113.0/24. *)
Definition redrop_op : daemon_op := OpRequest drop_request [WSent 3].

Lemma redrop_visited :
  visits redrop_op after_drop.1 after_drop.2 (first_world redrop_op).
Proof. apply first_visited. vm_compute. reflexivity. Qed.

Definition redropped : vg_ctrl * kref := run (run_op redrop_op) after_drop.

Lemma redrop_runs :
  run_op redrop_op (after_drop.1, after_drop.2)
  = Some (tt, (redropped.1, redropped.2)).
Proof.
  rewrite <-!surjective_pairing.
  destruct (run_some (run_op redrop_op) after_drop) as [[] E];
    [vm_compute; reflexivity|exact E].
Qed.

#[local] Opaque redropped.

(** Instance of [drop_without_gap]: the attacker of [XdpWitness]. *)
Lemma drop_without_gap_witness :
  ∃ x x', visits redrop_op after_drop.1 after_drop.2 x
    ∧ voidgate_xdp attack x = Some (XDP_DROP, x').
Proof.
  destruct (ip_info attack) as [i|] eqn:Ei; [|vm_compute in Ei; discriminate Ei].
  destruct (xdp_cfg (first_world redrop_op)) as [bc|] eqn:Ec; [|vm_compute in Ec; discriminate Ec].
  destruct (drop_without_gap ref_defaults redrop_op after_drop.1 after_drop.2 [0]
           (DropRec net24 VG_REASON_MANUAL 100 0) redropped.1 redropped.2 [0]
           (DropRec net24 VG_REASON_MANUAL 100 0) (first_world redrop_op) attack i bc
           after_drop_reach) as [x' Hx'].
  - vm_compute. reflexivity.
  - apply list_elem_of_lookup. exists 0%nat. vm_compute. reflexivity.
  - exact redrop_runs.
  - vm_compute. reflexivity.
  - apply list_elem_of_lookup. exists 0%nat. vm_compute. reflexivity.
  - reflexivity.
  - exact redrop_visited.
  - vm_compute. repeat constructor; congruence.
  - exact Ei.
  - vm_compute in Ei. injection Ei as <-. reflexivity.
  - left. vm_compute in Ei. injection Ei as <-. intros k Hk. assert (k < 24)%nat as Hk' by exact Hk. clear Hk.
    do 24 (destruct k as [|k]; [reflexivity|]). lia.
  - exact Ec.
  - vm_compute in Ei. injection Ei as <-. vm_compute in Ec. injection Ec as <-. vm_compute. reflexivity.
  - exists (first_world redrop_op), x'. split; [exact redrop_visited|exact Hx'].
Defined.

(** The reload of the gate. *)
Definition reload_run : option (Z * (vg_ctrl * tw kref)) :=
  @vg_ctrl_reload (tw kref) (@traced_kernel kref ref_kernel) (@traced_env kref ref_env) ref_inet
    (after_drop.1, TW after_drop.2 []).

Definition verdict_of (pkt : list Z) (w : kref) : option verdict :=
  match voidgate_xdp pkt w with Some (v, _) => Some v | None => None end.

(** The gate before its reload: local networks in the maps. *)
Lemma reload_facts :
  match reload_run with
  | Some (z, (c', t')) =>
      z = 0 ∧ drop_all_walk (drops c') = Some [0]
      ∧ recs c' [0] !! 0%nat = Some (DropRec net24 VG_REASON_MANUAL 100 0)
      ∧ verdict_of ssh (cur t') = Some XDP_PASS ∧ k_failed (cur t') = []
      ∧ ∀ i, ip_info ssh = Some i → allow_exempt i (cur t') = false
  | None => False
  end.
Proof.
  vm_compute. split_and!; try reflexivity. intros i [= <-]. reflexivity.
Qed.

(** Instance of [reload_window]: a connection to port 22, let through when
    the reload is done, is cut inside it. *)
Lemma reload_window_witness :
  ∃ c' t' x x', reload_run = Some (0, (c', t')) ∧ verdict_of ssh (cur t') = Some XDP_PASS
    ∧ x ∈ seen t' ∧ lpm_view local_v4 x = ∅ ∧ voidgate_xdp ssh x = Some (XDP_DROP, x').
Proof.
  pose proof reload_facts as Hf. destruct reload_run as [[z [c' t']]|] eqn:E; [|destruct Hf].
  destruct Hf as (-> & Hl & Hr & Hv & Hnf & Ha).
  destruct (ip_info ssh) as [i|] eqn:Ei; [|vm_compute in Ei; discriminate Ei].
  destruct (reload_window ref_defaults after_drop.1 after_drop.2 c' t' [0]
           (DropRec net24 VG_REASON_MANUAL 100 0) ssh i after_drop_reach E
           (none_refused _ Hnf) Hl) as (x & x' & Hx & H4 & _ & Hd).
  - apply list_elem_of_lookup. exists 0%nat. exact Hr.
  - vm_compute. repeat constructor; congruence.
  - exact Ei.
  - vm_compute in Ei. injection Ei as <-. reflexivity.
  - left. vm_compute in Ei. injection Ei as <-. intros k Hk. assert (k < 24)%nat as Hk' by exact Hk. clear Hk.
    do 24 (destruct k as [|k]; [reflexivity|]). lia.
  - vm_compute in Ei. injection Ei as <-. reflexivity.
  - vm_compute in Ei. injection Ei as <-. reflexivity.
  - exact (Ha i eq_refl).
  - exists c', t', x, x'. split; [reflexivity|]. split; [exact Hv|]. split; [exact Hx|]. split; [exact H4|exact Hd].
Defined.
