(* ===== verification/UnitCidr.v ===== *)
(** * t/unit/cidr.c: the unit test of the prefix parser, run on the model

    The test program of the repository as a definition: every check compares
    what the model does with the text or the return value that the test
    expects.  The addresses are printed as the C library does, with the
    longest run of zero groups as [::], so that the expected texts are those
    of the test. *)

From Stdlib Require Import String.
From S2P Require Import Prelude CString Ipaddr IpaddrThms InetRef Types Config Log.
Open Scope Z_scope.

(** ** [inet_ntop] of the C library *)

Fixpoint words (a : list Z) : list Z :=
  match a with
  | h :: l :: a => (h * 256 + l) :: words a
  | _ => []
  end.

(** How many of the first words are zero. *)
Fixpoint zeros (w : list Z) : nat :=
  match w with x :: w => if x =? 0 then S (zeros w) else O | [] => O end.

(** Start and length of the first longest run of zeros from index [i] on,
    [best] the longest before it. *)
Fixpoint best_run (w : list Z) (i : nat) (best : nat * nat) : nat * nat :=
  match w with
  | [] => best
  | _ :: w' =>
      let n := zeros w in best_run w' (S i) (if (best.2 <? n)%nat then (i, n) else best)
  end.

(** An address that ends in an IPv4 address (after six zero groups, or five
    and 0xffff) prints it with dots. *)
Definition ntop6 (a : list Z) : list Z :=
  let w := words a in
  let '(base, len) := best_run w 0 (O, O) in
  if (len <? 2)%nat then join 58 (hex <$> w)
  else if (base =? 0)%nat && (len =? 6)%nat then bs "::" ++ join 46 (dec <$> drop 12 a)
  else if (base =? 0)%nat && (len =? 5)%nat && (default 0 (w !! 5%nat) =? 0xffff)
    then bs "::ffff:" ++ join 46 (dec <$> drop 12 a)
  else join 58 (hex <$> take base w) ++ bs "::" ++ join 58 (hex <$> drop (base + len) w).

Definition libc_inet : Inet := {|
  inet_pton := inet_pton (Inet := ref_inet);
  inet_ntop := λ f a, if f =? AF_INET then join 46 (dec <$> a) else ntop6 a;
|}.

Section WithInet.
Context {I : Inet}.

(** ** The checks

    Each returns what it adds to [g_fail]; [want] is [None] for NULL. *)

(** [want == NULL && rc == 0 || want != NULL && (rc != 0 || strcmp)] *)
Definition differs (got : option vg_cidr) (want : option string) : bool :=
  match want, got with
  | None, Some _ => true
  | None, None => false
  | Some _, None => true
  | Some t, Some p => negb (bool_decide (vg_cidr_to_str p 80 = bs t))
  end.

Definition expect_cidr (input : list Z) (want : option string) : Z :=
  if differs (vg_parse_cidr input) want then 1 else 0.

(** The first [n] bytes of the buffer [s]. *)
Definition expect_cidr_len (s : list Z) (n : nat) (want : option string) : Z :=
  if differs (vg_parse_cidr_len (take n s)) want then 1 else 0.

(** The file holds the line and a newline. *)
Definition load_config (line : list Z) : option vg_config :=
  vg_config_load (Some (lines_of (line ++ [10]) [], false)).

Definition expect_config (line : string) (want_rc : Z) : Z :=
  let rc := match load_config (bs line) with Some _ => 0 | None => -1 end in
  if negb (rc =? want_rc) then 1 else 0.

(** The loop that writes the list into [line], [used] bytes so far. *)
Fixpoint list_line (family : Z) (turns i : nat) (line : list Z) (used : Z) : list Z :=
  match turns with
  | O => line
  | S turns =>
      let sep := if (i =? 0)%nat then bs " " else bs ", " in
      let z := Z.of_nat i in
      let text :=
        if family =? AF_INET
        then sep ++ bs "10." ++ dec_signed (z / 256) ++ bs "." ++ dec_signed (z mod 256) ++ bs ".0/24"
        else sep ++ bs "2001:db8:" ++ hex z ++ bs "::/48" in
      list_line family turns (S i) (line ++ snprintf (16384 - used) text)
        (used + Z.of_nat (List.length text))
  end.

Definition expect_long_list (family : Z) (n : nat) : Z :=
  let plen := if family =? AF_INET then 24 else 48 in
  let start := (if family =? AF_INET then bs "allow_networks" else bs "local_networks") ++ bs " =" in
  let line := list_line family n 0 (snprintf 16384 start) (Z.of_nat (List.length start)) in
  match load_config line with
  | None => 1
  | Some cfg =>
      let list := if family =? AF_INET then allow_cidr cfg else local_cidr cfg in
      if negb (List.length list =? n)%nat then 1
      else if existsb (λ p, negb (prefixlen p =? plen)) list then 1 else 0
  end.

(** "10.0.0.0/8" and then ones, 255 bytes in all. *)
Definition long_cidr : list Z := bs "10.0.0.0/8" ++ replicate 245 49.

(** The exit status. *)
Definition main : Z :=
  let g_fail :=
    expect_cidr (bs "10.1.2.3/24") (Some "10.1.2.0/24"%string)
    + expect_cidr (bs "10.0.0.1") (Some "10.0.0.1/32"%string)
    + expect_cidr (bs "0.0.0.0/0") (Some "0.0.0.0/0"%string)
    + expect_cidr (bs "10.0.0.0/08") (Some "10.0.0.0/8"%string)
    + expect_cidr (bs "2001:db8::1/64") (Some "2001:db8::/64"%string)
    + expect_cidr (bs "2001:db8::1") (Some "2001:db8::1/128"%string)
    + expect_cidr (bs "::/0") (Some "::/0"%string)
    + expect_cidr (bs "10.0.0.0/33") None
    + expect_cidr (bs "10.0.0.0/280") None
    + expect_cidr (bs "10.0.0.0/4294967320") None
    + expect_cidr (bs "2001:db8::/129") None
    + expect_cidr (bs "2001:db8::/300") None
    + expect_cidr (bs "10.0.0.1/") None
    + expect_cidr (bs "10.0.0.1/abc") None
    + expect_cidr (bs "10.0.0.1/-8") None
    + expect_cidr (bs "10.0.0.1/+24") None
    + expect_cidr (bs "10.0.0.1/ 24") None
    + expect_cidr (bs "10.0.0.1/24x") None
    + expect_cidr (bs "10.0.0.1/24/8") None
    + expect_cidr (bs "/24") None
    + expect_cidr (bs "") None
    + expect_cidr long_cidr None
    + expect_cidr_len (bs "10.1.2.3/24 ttl=60") 11 (Some "10.1.2.0/24"%string)
    + expect_cidr_len (bs "2001:db8::1/64 ttl=60") 14 (Some "2001:db8::/64"%string)
    + expect_cidr_len (bs "10.0.0.1/24") 8 (Some "10.0.0.1/32"%string)
    + expect_cidr_len (bs "10.0.0.1/24") 9 None
    + expect_cidr_len (bs "10.0.0.1 ttl=60") 0 None
    + expect_cidr_len (bs "10.0.0.1" ++ 0 :: bs "/8") 11 None
    + expect_cidr_len long_cidr 255 None
    + expect_config "allow_networks = 192.0.2.0/24, 2001:db8::/32" 0
    + expect_config "allow_networks = 10.0.0.0/" (-1)
    + expect_config "allow_networks = 10.0.0.0/abc" (-1)
    + expect_config "local_networks = 198.51.100.0/280" (-1)
    + expect_long_list AF_INET (Z.to_nat VG_MAX_CIDR_LIST)
    + expect_long_list AF_INET6 (Z.to_nat VG_MAX_CIDR_LIST) in
  if negb (g_fail =? 0) then 1 else 0.
End WithInet.

(** The parser of prefixes and of the network lists passes the unit test
    of the repository: all its checks, run on the model, succeed, the lists
    of 256 networks on one line included. *)
Theorem cidr_test_passes : main (I := libc_inet) = 0.
Proof. vm_compute. reflexivity. Qed.
