(* ===== verification/UnitPolicy.v ===== *)
(** * t/unit/policy.c: the regression test of the controller, run on the model

    The test program of the repository as a definition: policy.c against maps
    that only record what they are asked, a remote walk over a list of the
    test, and checks after each operation.  A failed [assert] is [None].  The
    checks of the log output are not part of it, and the number of steps of
    the random test is an argument. *)

From Stdlib Require Import String.
From S2P Require Import Prelude CString Types Ipaddr IpaddrThms InetRef Config Kernel Maps MapsThms Lists DropTable.
From S2P Require Import Snap Double Policy.
Import Dlist Hlist.
Open Scope Z_scope.

(** ** The variables of the test and its map functions *)

Record item := Item { it_family : Z; it_addr : list Z; it_c : host_counters }.

Record mock := Mock {
  deleted : vg_cidr;
  deleted_count : Z;
  del_fail : bool;
  add_fail : bool;
  complete_scan : bool;
  nitems : nat;
  items : list item;
  (* the clocks, which stand still *)
  m_time : Z;
  m_clock : timespec;
}.

Definition EIO : Z := 5.
Definition ENOSPC : Z := 28.

Section Setters.
Context (w : mock).
Definition set_deleted p n := Mock p n (del_fail w) (add_fail w) (complete_scan w) (nitems w) (items w)
  (m_time w) (m_clock w).
Definition set_fails d a := Mock (deleted w) (deleted_count w) d a (complete_scan w) (nitems w) (items w)
  (m_time w) (m_clock w).
Definition set_scan b := Mock (deleted w) (deleted_count w) (del_fail w) (add_fail w) b (nitems w) (items w)
  (m_time w) (m_clock w).
Definition set_items n l := Mock (deleted w) (deleted_count w) (del_fail w) (add_fail w) (complete_scan w)
  n l (m_time w) (m_clock w).
End Setters.

(** [vg_drop_del] of the test: fails, or notes the prefix. *)
Definition mock_drop_del (p : vg_cidr) : M mock Z := λ w,
  if del_fail w then Some (EIO, w) else Some (0, set_deleted w p (deleted_count w + 1)).

(** [vg_drop_add] of the test. *)
Definition mock_drop_add (p : vg_cidr) (reason now : Z) : M mock Z := λ w,
  Some (if add_fail w then ENOSPC else 0, w).

(** The prefix of a key of a trie. *)
Definition cidr_of_key (m : lpm_map) (k : lpm_key) : vg_cidr :=
  Cidr (if lpm_bits m =? 32 then AF_INET else AF_INET6) (store16 k.2) k.1.

(** The kernel under the map functions of the test: tries that are always
    empty, updates and deletes that succeed or fail as the test says, a cfg
    array that takes everything, counters of zero. *)
#[export] Instance mock_kernel : Kernel mock := {
  bpf_lpm_update m k v w := (if add_fail w then ENOSPC else 0, w);
  bpf_lpm_delete m k w :=
    if del_fail w then (EIO, w) else (0, set_deleted w (cidr_of_key m k) (deleted_count w + 1));
  bpf_lpm_next_key m o w := (None, w);
  bpf_cfg_update c w := (0, w);
  bpf_metrics_read w := (Some (replicate 7 0), w);
  bpf_hash_next_key h o w := (None, w);
  bpf_hash_read h k w := (None, w);
  sys_time w := (m_time w, w);
  sys_clock w := (m_clock w, w);
  xdp_cfg w := None;
  xdp_metrics w := None;
  xdp_metrics_store x w := w;
  xdp_lpm_hit m a w := false;
  xdp_hash_lookup h a w := None;
  xdp_hash_update_noexist h a c w := w;
  xdp_hash_store h a c w := w;
  lpm_view m w := ∅;
  lpm_keys m w := [];
  failed o m k w := False;
}.

(** [vg_remote_foreach] of the test: the items in their order. *)
Fixpoint foreach_items {T} (fn : Z → list Z → host_counters → M (T * mock) unit) (l : list item)
  : M (T * mock) unit :=
  match l with
  | [] => mret tt
  | it :: l => _ ← fn (it_family it) (it_addr it) (it_c it); foreach_items fn l
  end.

#[export] Instance mock_remote_foreach : RemoteWalk mock := λ T fn m budget,
  l ← gets (λ s, take (nitems s.2) (items s.2));
  _ ← foreach_items fn l;
  gets (λ s, complete_scan s.2).

(** With this kernel the functions of maps.c that policy.c calls are those of
    the test. *)
Lemma mock_maps p rs now cf a m w :
  prefix_ok p → ncpus m = 1 → sum_scratch_size m = sizeof_vg_metrics →
  vg_drop_del p w = mock_drop_del p w ∧ vg_drop_add p rs now w = mock_drop_add p rs now w
  ∧ vg_cfg_commit a cf w = Some (0, w) ∧ vg_drop_flush w = Some (tt, w)
  ∧ vg_metrics_read m w = Some (Some (Metrics 0 0 0 0 0 0 0), w).
Proof.
  intros [Hp Hc] Hn Hs. split_and!; try done.
  - unfold vg_drop_del, lpm_delete, call, mock_drop_del. cbn. rewrite lpm_key_eq by done.
    destruct (del_fail w); [done|]. do 3 f_equal. unfold cidr_of_key, drop_fd. cbn [fst snd].
    rewrite canon_store16 by done. pose proof (ok_family _ Hp) as Hf.
    destruct p as [f ad n]. cbn [family] in *. by destruct Hf as [-> | ->].
  - unfold vg_metrics_read, vg_sum_percpu. rewrite Hn, Hs. done.
Qed.

(** ** Helpers of the test *)

Abbreviation T A := (M (vg_ctrl * mock) A).

Definition assert (b : bool) : T unit := λ s, if b then Some (tt, s) else None.

(** [assert(call == rc)] *)
Definition assert_rc (m : T Z) (rc : Z) : T unit := x ← m; assert (x =? rc).
Definition assert_fails (m : T Z) : T unit := x ← m; assert (x <? 0).

Definition modw (f : mock → mock) : T unit := modify (λ s, (s.1, f s.2)).

(** [memset] of an item and the assignments; [id] in host byte order. *)
Definition set_v4_item (i : nat) (id pkts : Z) : T unit :=
  modw (λ w, set_items w (nitems w)
          (<[i := Item AF_INET (store16 (le_bytes 4 id)) (HostCounters pkts 0)]> (items w))).

Definition set_nitems (n : nat) : T unit := modw (λ w, set_items w n (items w)).

(** [items[0].c.in_pkts = v] and [+= v]. *)
Definition set_pkts (f : Z → Z) : T unit :=
  modw (λ w, set_items w (nitems w)
    (alter (λ it, Item (it_family it) (it_addr it)
                    (HostCounters (f (in_pkts (it_c it))) (in_bytes (it_c it)))) 0%nat (items w))).

Definition force_dt : T unit :=
  now ← onK (call sys_clock);
  modc (λ c, set_last_m (set_last_tick c (Some (Timespec (tv_sec now - 1) (tv_nsec now))))
               (Some (default (Metrics 0 0 0 0 0 0 0) (last_m c)))).

Definition tick : T Z := _ ← force_dt; vg_ctrl_tick.

(** The [while] of [nth] from node [l], [k] steps to go. *)
Fixpoint nth_loop (t : drop_tab) (l : loc) (k : nat) : option loc :=
  if bool_decide (l = L_all) then None
  else match k with O => Some l | S k => nx ← node_next t l; nth_loop t nx k end.

(** The record of the k-th listed drop. *)
Definition nth (k : nat) : T Z :=
  t ← getc drops;
  l ← lift (l ← node_next t L_all; nth_loop t l k);
  lift (list_entry l).

Definition nth_rec (k : nat) : T vg_drop_rec := i ← nth k; deref i.

Fixpoint age_loop (l : list Z) (exp : Z) (policy_too : bool) : T unit :=
  match l with
  | [] => mret tt
  | i :: l =>
      r ← deref i;
      _ ← onD (put_rec i (DropRec (cidr r) (reason r) (if policy_too then 0 else inserted r) exp));
      age_loop l exp policy_too
  end.

Definition age_all (exp : Z) (policy_too : bool) : T unit :=
  t ← getc drops;
  l ← lift (drop_all_walk t);
  age_loop l exp policy_too.

Definition assert_count (n : Z) : T unit := t ← getc drops; assert (drop_count t =? n).
Definition assert_check : T unit := t ← getc drops; z ← lift (vg_ctrl_drops_check t); assert (z =? 0).
Definition assert_snaps (n : Z) : T unit :=
  t ← getc snap; z ← lift (vg_ctrl_snap_count t); assert (z =? n).

(** [vg_ctrl_drops_find(&c, p) != NULL] *)
Definition found (p : vg_cidr) : T bool := r ← onD (drops_find p); mret (bool_decide (is_Some r)).

(** [htonl] on a little-endian host. *)
Definition htonl (x : Z) : Z :=
  x / 2 ^ 24 mod 256 + 2 ^ 8 * (x / 2 ^ 16 mod 256) + 2 ^ 16 * (x / 2 ^ 8 mod 256) + 2 ^ 24 * (x mod 256).

Section WithInet.
Context {I : Inet}.

(** [assert(vg_parse_cidr(s, &p) == 0)] *)
Definition parse (s : string) : T vg_cidr := lift (vg_parse_cidr (bs s)).

(** The body of a test on a fresh controller. *)
Definition with_ctrl (cf : vg_config) (body : T unit) : M mock unit := λ w,
  match vg_ctrl_init true true cf (maps_open_sizes 1) None None with
  | Some (Some c) => match body (c, w) with Some (_, s) => Some (tt, s.2) | None => None end
  | _ => None
  end.

(** The configuration of most tests: no rate wakes or calms the gate. *)
Definition test_cfg (cf : vg_config) : vg_config :=
  set_nums cf 0 0 (idle_poll_ms cf) (clear_seconds cf) (threshold_pps cf) (threshold_mbps cf)
    (ban_time cf) (aggregate_k cf) (metrics_port cf) 16 (drop_map_size cf).

Definition set_aggregate_k (cf : vg_config) (k : Z) : vg_config :=
  set_nums cf (wake_pps cf) (wake_mbps cf) (idle_poll_ms cf) (clear_seconds cf) (threshold_pps cf)
    (threshold_mbps cf) (ban_time cf) k (metrics_port cf) (remote_map_size cf) (drop_map_size cf).

Definition set_map_sizes (cf : vg_config) (remote dm : Z) : vg_config :=
  set_nums cf (wake_pps cf) (wake_mbps cf) (idle_poll_ms cf) (clear_seconds cf) (threshold_pps cf)
    (threshold_mbps cf) (ban_time cf) (aggregate_k cf) (metrics_port cf) remote dm.

(** ** The tests *)

Definition test_ttl : M mock unit :=
  with_ctrl (set_aggregate_k (test_cfg vg_config_defaults) 2) (
  now ← onK (call sys_time);
  cf ← getc cfg;
  _ ← modw (λ w, set_scan (set_items w 0 (items w)) true);
  (* a ttl drop arms the gate like a manual one *)
  a ← parse "198.18.0.1/32";
  b ← parse "2001:db8::1/128";
  _ ← assert_rc (vg_ctrl_drop_ttl a 60) 0;
  st ← getc state; _ ← assert (bool_decide (st = VG_ACTIVE));
  _ ← assert_rc (vg_ctrl_drop_ttl b 60) 0;
  _ ← assert_count 2;
  r ← nth_rec 0; _ ← assert (reason r =? VG_REASON_TIMED);
  _ ← assert (now + 60 <=? expires r);
  (* a shorter ban does not shorten it, a longer one extends it *)
  _ ← assert_rc (vg_ctrl_drop_ttl a 10) 0;
  r ← nth_rec 0; _ ← assert (now + 60 <=? expires r);
  _ ← assert_rc (vg_ctrl_drop_ttl a 600) 0;
  r ← nth_rec 0; _ ← assert (now + 600 <=? expires r);
  (* not expired: kept; expired: lifted *)
  _ ← assert_rc tick 0;
  _ ← assert_count 2;
  _ ← age_all (now - 1) false;
  _ ← assert_rc tick 0;
  _ ← assert_count 0;
  (* manual wins *)
  m ← parse "198.18.1.0/24";
  _ ← assert_rc (vg_ctrl_drop m VG_REASON_MANUAL) 0;
  _ ← assert_rc (vg_ctrl_drop_ttl m 1) 0;
  r ← nth_rec 0; _ ← assert (reason r =? VG_REASON_MANUAL);
  _ ← assert_rc (vg_ctrl_drop_ttl a 1) 0;
  _ ← assert_rc (vg_ctrl_drop a VG_REASON_MANUAL) 0;
  r ← nth_rec 1; _ ← assert (reason r =? VG_REASON_MANUAL);
  i ← nth 1; _ ← onD (put_rec i (DropRec (cidr r) (reason r) (inserted r) (now - 1)));
  _ ← assert_rc tick 0;
  _ ← assert_count 2;
  _ ← assert_rc (vg_ctrl_undrop m) 0;
  _ ← assert_rc (vg_ctrl_undrop a) 0;
  (* a ttl drop on a policy drop keeps at least the ban time *)
  _ ← assert_rc (vg_ctrl_drop a VG_REASON_POLICY) 0;
  _ ← assert_rc (vg_ctrl_drop_ttl a 1) 0;
  r ← nth_rec 0; _ ← assert (reason r =? VG_REASON_TIMED);
  _ ← assert (now + ban_time cf <=? expires r);
  _ ← assert_rc (vg_ctrl_undrop a) 0;
  (* ttl bans do not count toward aggregate_k *)
  a ← parse "198.18.2.1/32";
  _ ← assert_rc (vg_ctrl_drop_ttl a 60) 0;
  a ← parse "198.18.2.2/32";
  _ ← assert_rc (vg_ctrl_drop_ttl a 60) 0;
  _ ← set_nitems 1;
  _ ← set_v4_item 0 (htonl 0xc6120203) 1;
  _ ← assert_rc tick 0;
  _ ← set_pkts (λ x, x + threshold_pps cf + 1);
  _ ← assert_rc tick 0;
  _ ← assert_count 3;
  r0 ← nth_rec 0; _ ← assert (prefixlen (cidr r0) =? 32);
  r1 ← nth_rec 1; _ ← assert (prefixlen (cidr r1) =? 32);
  r2 ← nth_rec 2; _ ← assert (prefixlen (cidr r2) =? 32);
  (* disarm flushes ttl drops too *)
  _ ← assert_rc vg_ctrl_disarm 0;
  _ ← assert_count 0;
  set_nitems 0).

Definition test_del_fail : M mock unit :=
  with_ctrl (test_cfg vg_config_defaults) (
  now ← onK (call sys_time);
  _ ← set_nitems 0;
  a ← parse "198.18.7.1/32";
  b ← parse "198.18.7.2/32";
  _ ← assert_rc (vg_ctrl_drop_ttl a 60) 0;
  _ ← assert_rc (vg_ctrl_drop_ttl b 60) 0;
  _ ← modw (λ w, set_fails w true (add_fail w));
  _ ← assert_fails (vg_ctrl_undrop a);
  _ ← assert_count 2;
  f ← found a; _ ← assert f;
  (* expiry skips the failing record and does not spin on it *)
  _ ← age_all (now - 1) false;
  _ ← assert_rc tick 0;
  _ ← assert_count 2;
  _ ← assert_check;
  _ ← modw (λ w, set_fails w false (add_fail w));
  _ ← assert_rc tick 0;
  _ ← assert_count 0;
  assert_check).

(** A loop of the test: [body] for the elements of a list. *)
Fixpoint each {A} (body : A → T unit) (l : list A) : T unit :=
  match l with [] => mret tt | x :: l => _ ← body x; each body l end.

Definition host (a b c d : Z) : vg_cidr := Cidr AF_INET (store16 [a; b; c; d]) 32.

Definition test_pool : M mock unit :=
  with_ctrl (set_map_sizes (test_cfg vg_config_defaults) 16 2) (
  _ ← set_nitems 0;
  t ← getc drops; _ ← assert (drop_pool_cap t =? 4);
  let p i := host 198 18 11 i in
  _ ← each (λ i, assert_rc (vg_ctrl_drop_ttl (p i) 60) 0) [0; 1; 2; 3];
  _ ← assert_fails (vg_ctrl_drop_ttl (p 4) 60);
  _ ← assert_rc (vg_ctrl_drop_ttl (p 3) 600) 0;
  _ ← assert_count 4;
  _ ← assert_check;
  _ ← assert_rc (vg_ctrl_undrop (p 1)) 0;
  _ ← assert_rc (vg_ctrl_drop_ttl (p 4) 60) 0;
  t ← getc drops; _ ← assert (drop_used t =? 4);
  _ ← assert_count 4;
  _ ← assert_check;
  (* a failed map write returns the record *)
  _ ← assert_rc (vg_ctrl_undrop (p 0)) 0;
  _ ← modw (λ w, set_fails w (del_fail w) true);
  _ ← assert_fails (vg_ctrl_drop_ttl (p 5) 60);
  _ ← modw (λ w, set_fails w (del_fail w) false);
  _ ← assert_count 3;
  f ← found (p 5); _ ← assert (negb f);
  _ ← assert_rc (vg_ctrl_drop_ttl (p 5) 60) 0;
  t ← getc drops; _ ← assert (drop_used t =? 4);
  _ ← assert_check;
  (* oldest first *)
  _ ← each (λ i, r ← nth_rec i; assert (bool_decide (cidr r = p (Z.of_nat i + 2)))) [0; 1; 2; 3]%nat;
  (* disarm hands the whole pool back *)
  _ ← assert_rc vg_ctrl_disarm 0;
  t ← getc drops; _ ← assert (drop_used t =? 0);
  _ ← assert_count 0;
  assert_check).

(** *** The random test *)

Definition POOL : nat := 3000.

(** [pool[i]]: every third prefix is an IPv6 host, the others are the IPv4
    hosts and /24 networks of the same addresses. *)
Definition pool_at (i : Z) : vg_cidr :=
  if i mod 3 =? 2 then
    Cidr AF_INET6 ([0x20; 0x01; 0x0d; 0xb8] ++ replicate 10 0 ++ [u8 (Z.shiftr i 8); u8 i]) 128
  else
    vg_cidr_mask (Cidr AF_INET (store16 [10; u8 (Z.shiftr i 8); u8 i]) (if i mod 3 =? 0 then 32 else 24)).

Definition pool : list Z := Z.of_nat <$> seq 0 POOL.

(** The shadow set: the indices of the prefixes that are listed. *)
Abbreviation shadow := (gmap Z unit).

(** The [default] branch: everything but manual drops expires. *)
Fixpoint relist (l : list Z) (acc : shadow) : T shadow :=
  match l with
  | [] => mret acc
  | i :: l =>
      r ← onD (drops_find (pool_at i));
      m ← match r with
          | Some k => rc ← deref k; mret (reason rc =? VG_REASON_MANUAL)
          | None => mret false
          end;
      relist l (if (m : bool) then <[i := tt]> acc else acc)
  end.

Definition all_found (listed : shadow) : T unit :=
  each (λ i, f ← found (pool_at i); assert (Bool.eqb f (bool_decide (is_Some (listed !! i))))) pool.

(** One operation of the random test, chosen by [op] for the prefix [k]. *)
Definition random_op (op k : Z) (listed : shadow) : T shadow :=
  let p := pool_at k in
  if op <? 3 then _ ← assert_rc (vg_ctrl_drop_ttl p 600) 0; mret (<[k := tt]> listed)
  else if op =? 3 then _ ← assert_rc (vg_ctrl_drop p VG_REASON_POLICY) 0; mret (<[k := tt]> listed)
  else if op =? 4 then _ ← assert_rc (vg_ctrl_drop p VG_REASON_MANUAL) 0; mret (<[k := tt]> listed)
  else if op <? 7 then _ ← assert_rc (vg_ctrl_undrop p) 0; mret (delete k listed)
  else
    now ← onK (call sys_time);
    _ ← age_all (now - 1) true;
    _ ← assert_rc tick 0;
    listed ← relist pool ∅;
    t ← getc drops;
    _ ← each (λ i, r ← nth_rec i; assert (reason r =? VG_REASON_MANUAL)) (seq 0 (Z.to_nat (drop_count t)));
    mret listed.

Fixpoint random_loop (steps step : nat) (seed : Z) (listed : shadow) : T unit :=
  match steps with
  | O => mret tt
  | S steps =>
      let seed := u32 (seed * 1103515245 + 12345) in
      let k := Z.shiftr seed 8 mod Z.of_nat POOL in
      listed ← random_op (Z.shiftr seed 4 mod 8) k listed;
      _ ← assert_check;
      _ ← (if (step mod 500 =? 0)%nat then all_found listed else mret tt);
      random_loop steps (S step) seed listed
  end.

Definition test_drop_index (steps : nat) : M mock unit :=
  with_ctrl (set_map_sizes (test_cfg vg_config_defaults) 16 1024) (
  _ ← set_nitems 0;
  t ← getc drops; _ ← assert ((drop_nbuckets t =? 2048) && (drop_pool_cap t =? 2048));
  _ ← random_loop steps 0 12345 ∅;
  _ ← assert_rc vg_ctrl_disarm 0;
  _ ← assert_check;
  each (λ i, f ← found (pool_at i); assert (negb f)) pool).

(** *** [main] *)

(** [set_v4_item(i, base + i, 1)] for the first [n] items. *)
Definition fill_items (n : nat) (base : Z) : T unit :=
  each (λ i, set_v4_item i (base + Z.of_nat i) 1) (seq 0 n).

(** The part of [main] on its own controller. *)
Definition main_body : T unit :=
  cf ← getc cfg;
  t ← getc snap; _ ← assert (snap_cap t =? 32);
  _ ← modc (λ c, set_state c VG_ACTIVE);
  expired ← parse "203.0.113.1/32";
  manual ← parse "2001:db8::bad/128";
  _ ← assert_rc (vg_ctrl_drop expired VG_REASON_POLICY) 0;
  _ ← assert_rc (vg_ctrl_drop manual VG_REASON_MANUAL) 0;
  i ← nth 0; r ← deref i; _ ← onD (put_rec i (DropRec (cidr r) (reason r) 0 (expires r)));
  _ ← set_nitems 0;
  _ ← modw (λ w, set_scan w true);
  _ ← assert_rc tick 0;
  d ← gets (λ s, deleted s.2); _ ← assert (bool_decide (d = expired));
  _ ← assert_count 1;
  r ← nth_rec 0; _ ← assert ((reason r =? VG_REASON_MANUAL) && bool_decide (cidr r = manual));
  (* truncated walks keep snapshots *)
  _ ← modw (λ w, set_scan w false);
  _ ← set_nitems 1;
  _ ← set_v4_item 0 10 1000;
  before ← getc (λ c, drop_count (drops c));
  _ ← assert_rc tick 0;
  _ ← assert_snaps 1;
  _ ← assert_count before;
  _ ← set_pkts (λ _, 1000 + threshold_pps cf + 1);
  _ ← assert_rc tick 0;
  _ ← assert_snaps 1;
  _ ← assert_count (before + 1);
  (* a newly observed counter is a baseline, not a flood *)
  _ ← set_nitems 1;
  _ ← set_v4_item 0 11 1000000000;
  before ← getc (λ c, drop_count (drops c));
  _ ← assert_rc tick 0;
  _ ← assert_count before;
  (* truncated walks retain remotes that were not in this batch *)
  _ ← set_nitems 8; _ ← fill_items 8 100;
  _ ← assert_rc tick 0;
  _ ← assert_snaps 10;
  _ ← set_nitems 8; _ ← fill_items 8 200;
  _ ← assert_rc tick 0;
  _ ← assert_snaps 18;
  (* a complete scan prunes remotes that left the map *)
  _ ← modw (λ w, set_scan w true);
  _ ← set_nitems 3; _ ← fill_items 3 200;
  _ ← assert_rc tick 0;
  _ ← assert_snaps 3;
  _ ← modw (λ w, set_scan w true);
  _ ← set_nitems 0;
  _ ← assert_rc tick 0;
  _ ← assert_snaps 0;
  (* at the cap existing entries stay, new ones are refused *)
  _ ← modw (λ w, set_scan w false);
  _ ← set_nitems 32; _ ← fill_items 32 300;
  _ ← assert_rc tick 0;
  _ ← assert_snaps 32;
  _ ← set_nitems 32; _ ← fill_items 32 400;
  _ ← assert_rc tick 0;
  _ ← assert_snaps 32;
  (* a configuration change lifts drops that now cover local or allow *)
  keep ← parse "198.18.0.0/24";
  now_local ← parse "203.0.113.0/24";
  now_allow ← parse "192.0.2.0/24";
  _ ← assert_rc vg_ctrl_disarm 0;
  _ ← assert_rc (vg_ctrl_drop keep VG_REASON_MANUAL) 0;
  _ ← assert_rc (vg_ctrl_drop now_local VG_REASON_AGGREGATE) 0;
  _ ← assert_rc (vg_ctrl_drop now_allow VG_REASON_MANUAL) 0;
  _ ← modw (λ w, set_deleted w (deleted w) 0);
  _ ← assert_rc vg_ctrl_prune_protected 0;
  _ ← assert_count 3;
  n ← gets (λ s, deleted_count s.2); _ ← assert (n =? 0);
  lc ← parse "203.0.113.5/32";
  ac ← parse "192.0.2.99/32";
  _ ← modc (λ c, set_cfg c (set_lists (cfg c) (cfg_allow_ports (cfg c)) [lc]
                              (allow_cidr (cfg c) ++ [ac]) (auto_local (cfg c))));
  _ ← assert_rc vg_ctrl_prune_protected 2;
  n ← gets (λ s, deleted_count s.2); _ ← assert (n =? 2);
  _ ← assert_count 1;
  r ← nth_rec 0; assert (bool_decide (cidr r = keep)).

(** [main] without the two tests of the log; 0 is its exit status. *)
Definition main (steps : nat) : M mock Z :=
  _ ← with_ctrl (set_map_sizes vg_config_defaults 16 (drop_map_size vg_config_defaults)) main_body;
  _ ← test_ttl;
  _ ← test_drop_index steps;
  _ ← test_del_fail;
  _ ← test_pool;
  mret 0.
End WithInet.

(** The variables when the program starts, at a time of the clocks. *)
Definition mock_start (now : Z) (clock : timespec) : mock :=
  Mock (Cidr 0 (replicate 16 0) 0) 0 false false true 0
    (replicate 64 (Item 0 (replicate 16 0) (HostCounters 0 0))) now clock.

(** The controller passes the regression test of the repository: run on
    the model with a fixed clock, [main] gets through every [assert] of its
    own body and of the tests of expiry, of failing deletes, of the pool and
    of the first twenty steps of the random test, and returns 0. *)
Theorem policy_test_passes :
  ∃ w, main (I := ref_inet) 20 (mock_start 1700000000 (Timespec 5000 0)) = Some (0, w).
Proof.
  assert (fst <$> main (I := ref_inet) 20 (mock_start 1700000000 (Timespec 5000 0)) = Some 0) as H
    by (vm_cast_no_check (eq_refl (Some 0))).
  apply fmap_Some in H as ([z w] & E & Ez). exists w.
  cbn [fst] in Ez. subst z. exact E.
Qed.
