(* ===== verification/PeersWitness.v ===== *)
(** * Three daemons and one pid file

    Runs of [main] put side by side: the instance of [daemons_exclude], and
    the history in which a daemon that starts while another stops ends up
    beside a third one. *)

From Stdlib Require Import String.
From S2P Require Import Prelude Types CString Ipaddr IpaddrThms InetRef IpaddrMain Config Kernel.
From S2P Require Import KernelRef Maps MapsThms ConfigThms Lists DropTable DropThms Snap SnapThms.
From S2P Require Import Double Policy PolicyThms SweepThms TickThms Xdp XdpThms MapsMain.
From S2P Require Import Ctl CtlThms CtlMain Http Client Os Setup Daemon ProcThms DaemonThms.
From S2P Require Import DaemonTime System DaemonMain DaemonReach Scenario Peers PeersThms PeersMain.
Open Scope Z_scope.

(** ** Checking that nobody starts when the pid file is removed *)
Section Check.
Context (pth : list Z).

Definition undisturbed_b (s : shared) (pid : Z) : bool :=
  forallb (λ x, (x.1 =? pid) || bool_decide (x.1 ∈ gone s) || bool_decide (pf_open s !! x.1 = None)
                || bool_decide (is_Some (held x.2))) (map_to_list (procs s)).

Definition unlinks_b (h : hstep) : option Z :=
  match h with
  | HCall pid (Unlink q) a => if bool_decide (q = pth) && (rc a =? 0) then Some pid else None
  | _ => None
  end.

Fixpoint calm_b (s : shared) (hs : list hstep) : bool :=
  match hs with
  | [] => true
  | h :: hs =>
      match unlinks_b h with Some pid => undisturbed_b s pid | None => true end
      && match sh_step pth s h with Some s' => calm_b s' hs | None => true end
  end.

Lemma undisturbed_b_spec s pid : undisturbed_b s pid = true → undisturbed s pid.
Proof.
  intros H pid' p' Hne [Hp Hg] Ho. unfold undisturbed_b in H. rewrite forallb_forall in H.
  specialize (H (pid', p')). cbn [fst snd] in H.
  rewrite (proj2 (Z.eqb_neq _ _) Hne), (bool_decide_eq_false_2 _ Hg) in H.
  assert (pf_open s !! pid' ≠ None) as Hn by (destruct Ho as [x ->]; done).
  rewrite (bool_decide_eq_false_2 _ Hn) in H. cbn [orb] in H. apply bool_decide_eq_true in H; [done|].
  by apply list_elem_of_In, elem_of_map_to_list.
Qed.

Lemma calm_b_spec s hs : calm_b s hs = true → calm_unlinks pth s hs.
Proof.
  intros H pre. revert s hs H. induction pre as [|h pre IH]; intros s hs H pid a post s' -> Ha E.
  - cbn in E. injection E as <-. cbn in H. rewrite bool_decide_eq_true_2, (proj2 (Z.eqb_eq _ _) Ha) in H by done.
    cbn [andb] in H. apply andb_true_iff in H as [H _]. by apply undisturbed_b_spec.
  - cbn in E. apply bind_Some in E as (s1 & E1 & E). cbn in H. rewrite E1 in H.
    apply andb_true_iff in H as [_ H]. by eapply (IH s1 (pre ++ HCall pid (Unlink pth) a :: post)).
Qed.
End Check.

(** ** The runs *)

#[local] Instance plain_env : Env kref := {
  read_config _ w :=
    (Some ([bs "interface = eth0" ++ [10]; bs "local_networks = 10.0.0.0/8" ++ [10];
            bs "drop_map_size = 4" ++ [10]; bs "remote_map_size = 4" ++ [10];
            bs "metrics_port = 0" ++ [10]], false), w);
  getifaddrs w := (Some [], w);
}.

(** Every call succeeds, nobody answers at the socket; the signal may have
    come, and there may be a socket file to remove. *)
Definition peer_answer (signalled stale : bool) (r : sysreq) : sysans :=
  match r with
  | Stop => Ans (if signalled then 1 else 0) []
  | Pwrite _ buf => Ans (Z.of_nat (List.length buf)) []
  | Unlink q => Ans (if negb stale && bool_decide (q = VG_SOCK_PATH) then - ENOENT else 0) []
  | Connect _ _ => Ans (-2) []
  | Getpid => Ans 77 []
  | IfNametoindex _ => Ans 2 []
  | NumCpus => Ans 1 []
  | _ => Ans 0 []
  end.

Definition peer_os (signalled stale : bool) : Os kref := {|
  sys r w := (peer_answer signalled stale r, w);
  conn_io w := (([], []), w);
|}.

Definition pid_path : list Z := bs "/run/voidgate.pid".
Definition term : proc := Proc [0; 1; 2] None [] [].
Definition conf : list (Z * list Z) := [(99, bs "/etc/vg.conf")].

Lemma term_started : started term.
Proof. split; [done|]. split; [done|]. split; [|done]. by vm_compute. Qed.

Lemma conf_serves : serves conf.
Proof. intros o. vm_compute. by intros [= <-]. Qed.

(** The log of such a run, cut off in its loop if no signal comes. *)
Definition peer_log (signalled stale : bool) : list event :=
  match main (Os0 := peer_os signalled stale) 0 conf (boot_world, term) with
  | Some (_, (_, p)) => log p
  | None => []
  end.

Definition not_fork (e : event) : bool := match e_req e with Fork => false | _ => true end.

(** Such a run returns or is cut off, does not fork, and opens its pid file
    first. *)
Lemma peer_log_facts signalled stale :
  forallb not_fork (peer_log signalled stale) = true
  ∧ (e_req <$> last (peer_log signalled stale)) = Some (Open pid_path O_CREATE_RDWR)
  ∧ match main (Os0 := peer_os signalled stale) 0 conf (boot_world, term) with Some _ => true | None => false end = true.
Proof. destruct signalled, stale; split_and!; vm_compute; reflexivity. Qed.

Lemma peer_follows signalled stale p :
  log p `suffix_of` peer_log signalled stale → follows (K := kref) pid_path p.
Proof.
  intros Hs. destruct (peer_log_facts signalled stale) as (Hf & Hl & Hm). revert Hs Hf Hl. unfold peer_log.
  destruct (main (Os0 := peer_os signalled stale) 0 conf (boot_world, term)) as [[r [w' p']]|] eqn:E;
    [|discriminate Hm].
  intros Hs Hf Hl. exists (peer_os signalled stale), 0%nat, conf, boot_world, term, r, w', p'.
  split; [exact conf_serves|]. split; [exact term_started|]. split; [exact E|]. clear E Hm.
  split; [|split; [|exact Hs]].
  - intros a h Hin. rewrite forallb_forall in Hf. apply list_elem_of_In, Hf in Hin. discriminate Hin.
  - intros e He. rewrite He in Hl. by injection Hl.
Qed.

#[local] Opaque peer_log.

(** Its calls from the [n]-th on, at most [k]. *)
Definition slice (pid : Z) (l : list event) (n k : nat) : list hstep :=
  (λ e, HCall pid (e_req e) (e_ans e)) <$> take k (drop n (reverse l)).

(** A stale socket file from before. *)
Definition boot : shared := Shared None 1 ∅ (Some (Sock 0 0 false)) ∅ ∅ ∅.

Lemma boot_ok : at_boot boot.
Proof. done. Qed.

Abbreviation old_log := (peer_log true true).
Abbreviation b_log := (peer_log true false).
Abbreviation c_log := (peer_log false true).

(** Daemon 1 lives and has removed the pid file; daemon 2 has the lock of
    a new one. *)
Definition handover : list hstep :=
  HStart 1 [0; 1; 2] :: slice 1 old_log 0 (List.length old_log - 1)
  ++ HStart 2 [0; 1; 2] :: slice 2 b_log 0 2.

(** A process at the end of a history: what it holds, whether it has exited,
    what it attached, whether it removed its pid file. *)
Definition state_of (o : option shared) (pid : Z) : option (option Z * bool * option (Z * Z) * bool) :=
  s ← o; p ← procs s !! pid;
  Some (held p, bool_decide (pid ∈ gone s), xdp_on (log p), existsb (λ e, farewell (e_req e)) (log p)).

Lemma state_of_spec s pid fd x y :
  state_of (Some s) pid = Some (Some fd, false, x, y) →
  ∃ p, running s pid p ∧ is_Some (held p) ∧ xdp_on (log p) = x ∧ (y = false → ¬ retired (log p)).
Proof.
  intros H. cbn [state_of] in H. apply bind_Some in H as (p & E & H). injection H as A B C Hy.
  exists p. split_and!; [split; [exact E|by apply bool_decide_eq_false in B]|by rewrite A|exact C|].
  intros -> (t & e & rest & El & He & _). apply not_true_iff_false in Hy. apply Hy, existsb_exists.
  exists e. split; [|exact He]. apply list_elem_of_In. rewrite El. apply elem_of_app. right. by left.
Qed.

Definition suffix_b (l l' : list event) : bool :=
  bool_decide ((λ e, (e_req e, rc (e_ans e), out (e_ans e), e_held e)) <$> l
    = (λ e, (e_req e, rc (e_ans e), out (e_ans e), e_held e)) <$> drop (List.length l' - List.length l) l').

Lemma suffix_b_spec l l' : suffix_b l l' = true → l `suffix_of` l'.
Proof.
  intros H%bool_decide_eq_true. exists (take (List.length l' - List.length l) l').
  apply list_fmap_eq_inj in H.
  { pose proof (take_drop (List.length l' - List.length l) l') as E. by rewrite <-H in E. }
  intros [r1 [rc1 o1] h1] [r2 [rc2 o2] h2]. cbn. by intros [= -> -> -> ->].
Qed.

(** Every process of the history is at a point of the run it is meant to be. *)
Definition all_follow_b (o : option shared) (run_of : Z → list event) : bool :=
  match o with
  | Some s => forallb (λ x, suffix_b (log x.2) (run_of x.1)) (map_to_list (procs s))
  | None => false
  end.

Definition run_of (pid : Z) : list event :=
  if pid =? 1 then old_log else if pid =? 2 then b_log else c_log.

Lemma all_follow s :
  all_follow_b (Some s) run_of = true →
  ∀ pid p, procs s !! pid = Some p → follows (K := kref) pid_path p.
Proof.
  intros H pid p Hp. cbn [all_follow_b] in H. rewrite forallb_forall in H.
  specialize (H (pid, p) ltac:(by apply list_elem_of_In, elem_of_map_to_list)). cbn [fst snd] in H.
  apply suffix_b_spec in H. unfold run_of in H.
  destruct (pid =? 1); [exact (peer_follows true true p H)|].
  destruct (pid =? 2); [exact (peer_follows true false p H)|exact (peer_follows false true p H)].
Qed.

(** The end of a history, with its processes. *)
Lemma handover_end :
  ∃ s p1 p2, sh_run pid_path boot handover = Some s ∧ all_follow_b (Some s) run_of = true
    ∧ calm_b pid_path boot handover = true
    ∧ running s 1 p1 ∧ running s 2 p2 ∧ is_Some (held p1) ∧ is_Some (held p2).
Proof.
  assert (all_follow_b (sh_run pid_path boot handover) run_of = true
    ∧ calm_b pid_path boot handover = true
    ∧ state_of (sh_run pid_path boot handover) 1 = Some (Some 3, false, None, true)
    ∧ state_of (sh_run pid_path boot handover) 2 = Some (Some 3, false, None, false)) as (H1 & H2 & H3 & H4)
    by (split_and!; vm_compute; reflexivity).
  destruct (sh_run pid_path boot handover) as [s|]; [|discriminate H1].
  apply state_of_spec in H3 as (p1 & R1 & A1 & _), H4 as (p2 & R2 & A2 & _). exists s, p1, p2.
  split; [reflexivity|]. split; [exact H1|]. split; [exact H2|]. by split_and!.
Qed.

(** Instance of [daemons_exclude]: a daemon stops, the next one starts. *)
Lemma daemons_exclude_witness :
  ∃ s p1 p2, sh_run pid_path boot handover = Some s ∧ running s 1 p1 ∧ running s 2 p2
    ∧ (retired (log p1) ∨ retired (log p2)).
Proof.
  destruct handover_end as (s & p1 & p2 & E & Hf & Hc & R1 & R2 & Hh1 & Hh2).
  exists s, p1, p2. split; [exact E|]. split; [exact R1|]. split; [exact R2|].
  refine (daemons_exclude (K := kref) pid_path boot handover s 1 2 p1 p2 _ boot_ok E (all_follow s Hf)
            (calm_b_spec _ _ _ Hc) _ R1 R2 Hh1 Hh2).
  - vm_compute. discriminate.
  - discriminate.
Defined.

(** ** The race *)

(** Daemon 2 opens the pid file, daemon 1 removes it and exits, daemon 2
    locks the file it has open, which has no name any more; daemon 3 creates
    a new file and locks that.  Both find nobody at the socket, and both
    start. *)
Definition race : list hstep :=
  HStart 1 [0; 1; 2] :: slice 1 old_log 0 39
  ++ HStart 2 [0; 1; 2] :: slice 2 b_log 0 1
  ++ slice 1 old_log 39 2 ++ HExit 1 :: slice 2 b_log 1 1
  ++ HStart 3 [0; 1; 2] :: slice 3 c_log 0 2
  ++ slice 2 b_log 2 3 ++ slice 3 c_log 2 3 ++ slice 2 b_log 5 29 ++ slice 3 c_log 5 40.

(** A signal stops daemon 2: it detaches. *)
Definition race_end : list hstep := slice 2 b_log 34 2.

(** Interface 2, in native mode. *)
Definition eth0_native : Z * Z := (2, XDP_FLAGS_DRV_MODE).

(** What to check of a history and of what comes after, by running them. *)
Definition race_checks (o : option shared) (hs : list hstep) : Prop :=
  all_follow_b o run_of = true
  ∧ state_of o 2 = Some (Some 3, false, Some eth0_native, false)
  ∧ state_of o 3 = Some (Some 3, false, Some eth0_native, false)
  ∧ (s ← o; hook s !! 2) = Some (3, XDP_FLAGS_DRV_MODE)
  ∧ all_follow_b (s ← o; sh_run pid_path s hs) run_of = true
  ∧ state_of (s ← o; sh_run pid_path s hs) 3 = Some (Some 3, false, Some eth0_native, false)
  ∧ (s ← o; s' ← sh_run pid_path s hs; hook s' !! 2) = None.

Lemma race_checked : race_checks (sh_run pid_path boot race) race_end.
Proof. unfold race_checks. repeat (apply conj; [vm_compute; reflexivity|]). vm_compute. reflexivity. Qed.

(** A daemon at work: it runs, holds a lock, has not retired, and has a
    program attached by its own account. *)
Definition at_work (s : shared) (pid : Z) : Prop :=
  ∃ p, running s pid p ∧ is_Some (held p) ∧ ¬ retired (log p) ∧ xdp_on (log p) = Some eth0_native.

Lemma state_at_work s pid fd :
  state_of (Some s) pid = Some (Some fd, false, Some eth0_native, false) → at_work s pid.
Proof. intros (p & R & L & X & N)%state_of_spec. exists p. split_and!; auto. Qed.

Lemma race_checks_spec o hs :
  race_checks o hs →
  ∃ s s', o = Some s ∧ sh_run pid_path s hs = Some s'
    ∧ (∀ pid p, procs s !! pid = Some p → follows (K := kref) pid_path p)
    ∧ (∀ pid p, procs s' !! pid = Some p → follows (K := kref) pid_path p)
    ∧ at_work s 2 ∧ at_work s 3 ∧ hook s !! 2 = Some (3, XDP_FLAGS_DRV_MODE)
    ∧ at_work s' 3 ∧ hook s' !! 2 = None.
Proof.
  intros (H1 & H2 & H3 & H4 & H5 & H6 & H7). destruct o as [s|]; [|discriminate H1].
  cbn [mbind option_bind] in *. destruct (sh_run pid_path s hs) as [s'|] eqn:Es; [|discriminate H5].
  exists s, s'. split; [reflexivity|]. split; [exact Es|].
  split; [exact (all_follow s H1)|]. split; [exact (all_follow s' H5)|].
  split; [exact (state_at_work _ _ _ H2)|]. split; [exact (state_at_work _ _ _ H3)|]. split; [exact H4|].
  split; [exact (state_at_work _ _ _ H6)|exact H7].
Qed.

(** C12: without that proviso two daemons run at once: there is a history of
    three runs of [main], one of them starting while another stops, at whose
    end daemons 2 and 3 both hold a lock, neither has retired, and both have
    attached to the same interface and mode by their own account; but the
    interface carries the program of daemon 3 only, which replaced the other
    one.  When daemon 2 stops next it detaches, and the interface has no
    program, while daemon 3 runs on, holds its lock and believes its program
    attached. *)
Theorem daemons_race :
  ∃ s s', sh_run pid_path boot race = Some s ∧ sh_run pid_path s race_end = Some s'
    ∧ (∀ pid p, procs s !! pid = Some p → follows (K := kref) pid_path p)
    ∧ (∀ pid p, procs s' !! pid = Some p → follows (K := kref) pid_path p)
    ∧ at_work s 2 ∧ at_work s 3 ∧ hook s !! 2 = Some (3, XDP_FLAGS_DRV_MODE)
    ∧ at_work s' 3 ∧ hook s' !! 2 = None.
Proof. exact (race_checks_spec _ _ race_checked). Qed.
