(* ===== verification/DetectWitness.v ===== *)
(** * Instance of the detection theorem

    The reference kernel is calm when its maps have room and its clock stays
    put; on it a remote with 1000 packets in a second is caught. *)

From S2P Require Import Prelude Types Ipaddr IpaddrThms Config ConfigThms Kernel KernelRef Maps MapsThms.
From S2P Require Import Lists DropTable DropThms Snap SnapThms Double Policy PolicyThms SweepThms.
From S2P Require Import TickThms PolicyMain PolicyRate Xdp XdpThms XdpWitness MapsMain Detect System.
From S2P Require Import Ctl CtlThms TracedThms DetectMain Wake Scenario.
Open Scope Z_scope.

(** ** Calm states of the reference kernel *)

Definition ref_calm (sc : scene) (n : nat) (w : kref) : Prop :=
  (∀ h, sc_keys sc h = hash_keys w h)
  ∧ (∀ h k c, k_hash w h !! k = Some c → sc_reads sc h k [in_pkts c; in_bytes c])
  ∧ Forall (λ t, sc_from sc ≤ t < sc_till sc) (0 :: k_times w)
  ∧ is_Some (k_metrics w) ∧ k_errs w = []
  ∧ ∀ m, (length (trie_of w m) + n ≤ k_cap w)%nat.

Lemma succ_of_after k l : succ_of k l = after_key k l.
Proof. induction l as [|x l IH]; [done|]. cbn. by rewrite IH. Qed.

Lemma hash_keys_nodup w h : NoDup (hash_keys w h).
Proof. apply NoDup_filter, NoDup_fst_map_to_list. Qed.

Lemma hash_keys_in w h k : k ∈ hash_keys w h → is_Some (k_hash w h !! k).
Proof.
  intros [_ Hin]%list_elem_of_filter. apply list_elem_of_fmap in Hin as ([k' c] & -> & Hin).
  apply elem_of_map_to_list in Hin. by exists c.
Qed.

Lemma ref_calm_time sc n w :
  ref_calm sc n w → sc_from sc ≤ (sys_time w).1 < sc_till sc ∧ ref_calm sc n (sys_time w).2.
Proof.
  intros (H1 & H2 & H3 & H4 & H6 & H5). apply Forall_cons in H3 as [H0 H3]. cbn.
  destruct (k_times w) as [|t l]; cbn.
  - split; [done|]. split_and!; try done. by apply Forall_cons.
  - apply Forall_cons in H3 as [Ht H3]. split; [done|]. split_and!; try done. by apply Forall_cons.
Qed.

Lemma trie_del_len k (t : trie) : (length (trie_del k t) ≤ length t)%nat.
Proof. apply length_filter. Qed.

Lemma update_room m k v w :
  key_ok_b m k = true → k_errs w = [] → (length (trie_of w m) < k_cap w)%nat →
  bpf_lpm_update m k v w
  = (0, set_trie m ((k, v) :: trie_del k (trie_of w m)) (set_errs (tl (k_errs w)) w)).
Proof.
  intros Hk He Hroom. change (bpf_lpm_update m k v w) with (ref_lpm_update m k v w).
  unfold ref_lpm_update, next_err. rewrite He at 1. change (negb (_ =? 0)) with false. rewrite Hk.
  change (trie_of (set_errs (tl (k_errs w)) w) m) with (trie_of w m).
  change (k_cap (set_errs (tl (k_errs w)) w)) with (k_cap w).
  apply Nat.leb_gt in Hroom. by rewrite Hroom, andb_false_r.
Qed.

Lemma ref_calm_update sc n w m k v :
  ref_calm sc (S n) w → key_ok m k →
  (bpf_lpm_update m k v w).1 = 0 ∧ ref_calm sc n (bpf_lpm_update m k v w).2.
Proof.
  intros (H1 & H2 & H3 & H4 & H6 & H5) Hk%key_ok_b_spec. pose proof (H5 m) as Hroom.
  rewrite update_room by (done || lia). split; [done|]. split_and!; try done.
  { cbn. by rewrite H6. }
  intros m'. cbn [snd k_cap set_trie set_errs]. destruct (decide (m' = m)) as [->|Hm].
  - rewrite trie_of_set by (constructor; [done|apply trie_del_ok]). cbn [length].
    pose proof (trie_del_len k (trie_of w m)). lia.
  - unfold trie_of. cbn [k_trie set_trie set_errs]. rewrite decide_False by done.
    specialize (H5 m'). unfold trie_of in H5. lia.
Qed.

#[local, program] Instance calm_ref : Calm kref := { calm := ref_calm }.
Next Obligation. intros sc n w h (-> & _). apply hash_keys_nodup. Qed.
Next Obligation.
  intros sc n n' w (H1 & H2 & H3 & H4 & H6 & H5) Hn. split_and!; try done. intros m. specialize (H5 m). lia.
Qed.
Next Obligation. apply ref_calm_time. Qed.
Next Obligation. done. Qed.
Next Obligation. intros sc n w Hc. split; [|done]. destruct Hc as (_ & _ & _ & [x Hx] & _). cbn. by rewrite Hx. Qed.
Next Obligation.
  intros sc n w h o Hc Hin. split; [|done]. destruct Hc as (-> & _). destruct o as [k|]; [|done].
  symmetry. apply succ_of_after.
Qed.
Next Obligation.
  intros sc n w h k Hc Hin. split; [|done]. destruct Hc as (Hk & Hr & _). rewrite Hk in Hin.
  destruct (hash_keys_in w h k Hin) as [c Hx]. cbn. rewrite Hx. eexists. split; [done|]. by apply Hr.
Qed.
Next Obligation. apply ref_calm_update. Qed.

(** ** A flood *)

(** 203.0.113.9 has sent 10 packets; the gate is armed and ticks twice, a
    second apart, so that it has a snapshot; then there are 1010. *)
Definition flooder : list Z := [203; 0; 113; 9].
Definition calm_world : kref :=
  set_clocks [Timespec 0 0; Timespec 1 0; Timespec 2 0]
    (set_hash remote_v4 {[flooder := HostCounters 10 1000]} (ref_boot 16)).

Definition warmup : M (vg_ctrl * kref) Z := _ ← vg_ctrl_arm; _ ← vg_ctrl_tick; vg_ctrl_tick.
Definition warm : vg_ctrl * kref := run warmup (gate_ctrl, calm_world).
Definition flood_world : kref := set_hash remote_v4 {[flooder := HostCounters 1010 60000]} warm.2.

Lemma set_hash_same h t w : same_maps w (set_hash h t w).
Proof. done. Qed.

Lemma warm_good : Good warm.1 flood_world.
Proof.
  assert (Good gate_ctrl calm_world) as [HI Hok].
  { eapply init_good; [apply gate_cfg_ok|by vm_compute|apply gate_init|by apply ref_start]. }
  assert (keeps warmup) as Hk.
  { unfold warmup. apply keeps_bind; [apply arm_keeps|intros _]. apply keeps_bind; [|intros _]; apply tick_keeps. }
  assert (Inv warm.1 warm.2 ∧ cfg warm.1 = gate_cfg) as [HI' Hcf].
  { unfold warm. eapply (run_wp warmup _ (λ s, Inv s.1 s.2 ∧ cfg s.1 = gate_cfg)); [by apply Hk|].
    by intros a s' (? & ? & _). }
  split; [|rewrite Hcf; apply gate_cfg_ok]. exact (Inv_same _ _ _ HI' (set_hash_same _ _ _)).
Qed.

(** What a world holds now, its clock at 0. *)
Definition scene_of (w : kref) : scene :=
  Scene (hash_keys w) (λ h k buf, ∃ c, k_hash w h !! k = Some c ∧ buf = [in_pkts c; in_bytes c]) 0 1.
Definition flood_scene : scene := scene_of flood_world.

Lemma calm_of w n :
  k_times w = [] → k_errs w = [] → is_Some (k_metrics w) → (∀ m, length (trie_of w m) + n ≤ k_cap w)%nat →
  ref_calm (scene_of w) n w.
Proof.
  intros Ht He Hm Htr. split_and!; try done.
  - intros h k c Hk. by exists c.
  - rewrite Ht. by apply Forall_singleton.
Qed.

(** The parts of the state [flooding] looks at. *)
Lemma warm_ctrl :
  state warm.1 = VG_ACTIVE ∧ maps warm.1 = maps_open_sizes 1 ∧ drop_count (drops warm.1) = 0
  ∧ drop_pool_cap (drops warm.1) = 8 ∧ snap_gen (snap warm.1) = 1 ∧ last_tick warm.1 = Some (Timespec 1 0)
  ∧ snap_seen (snap warm.1) AF_INET flooder = Some (10, 1000, 1) ∧ cfg warm.1 = gate_cfg
  ∧ drops_find (host_cidr AF_INET flooder) (drops warm.1) = Some (None, drops warm.1).
Proof. split_and!; vm_compute; reflexivity. Qed.

Lemma warm_kernel :
  (sys_clock flood_world).1 = Timespec 2 0 ∧ k_times flood_world = [] ∧ k_errs flood_world = []
  ∧ k_metrics flood_world = Some (Metrics 0 0 0 0 0 0 0) ∧ k_cap flood_world = 16%nat
  ∧ hash_keys flood_world remote_v4 = [flooder] ∧ hash_keys flood_world remote_v6 = []
  ∧ k_hash flood_world remote_v4 !! flooder = Some (HostCounters 1010 60000).
Proof. split_and!; vm_compute; reflexivity. Qed.

Lemma warm_tries m : length (trie_of flood_world m) = 0%nat.
Proof. destruct m; vm_compute; reflexivity. Qed.

Lemma flood_calm : ref_calm flood_scene 2 flood_world.
Proof.
  destruct warm_kernel as (_ & Ht & He & Hm & Hcap & _). apply calm_of; [exact Ht|exact He|rewrite Hm; by eexists|].
  intros m. rewrite Hcap, warm_tries. lia.
Qed.

Lemma flooder_ok : addr_ok AF_INET flooder.
Proof. split; [reflexivity|]. repeat (apply Forall_cons; split; [by vm_compute|]). apply Forall_nil_2. Qed.

Lemma flood_flooding : flooding flood_scene 1 AF_INET flooder warm.1 flood_world.
Proof.
  destruct warm_ctrl as (Hst & Hmp & Hcnt & Hcap & Hgen & Hlast & Hseen & Hcf & Hfind).
  destruct warm_kernel as (Hclk & _ & _ & _ & _ & H4 & H6 & Hctr).
  split.
  - apply warm_good.
  - exact Hst.
  - exact Hmp.
  - left. reflexivity.
  - exact flooder_ok.
  - exact Hfind.
  - rewrite Hcf. vm_compute. reflexivity.
  - rewrite Hcf. cbn [sc_keys scene_of flood_scene]. change (remote_of AF_INET) with remote_v4.
    rewrite H4. change (Z.to_nat (walk_budget gate_cfg)) with 4%nat. apply list_elem_of_here.
  - exists (Timespec 1 0), 10, 1000, 1. split; [exact Hlast|]. split; [exact Hseen|]. cbv zeta.
    rewrite Hclk. split; [vm_compute; reflexivity|]. intros buf (c & Hc & ->). rewrite Hcf.
    change (remote_of AF_INET) with remote_v4 in Hc. rewrite Hctr in Hc. injection Hc as <-.
    vm_compute. reflexivity.
  - rewrite Hgen. vm_compute. discriminate.
  - cbv zeta. cbn [sc_keys scene_of flood_scene]. rewrite H4, H6. cbn [length]. split; [exact flood_calm|].
    rewrite Hcnt, Hcap. lia.
  - rewrite Hcf. cbn. lia.
Qed.

(** Instance of [flood_dropped]: the packet of [XdpWitness] comes from
    203.0.113.9. *)
Definition after_flood : vg_ctrl * kref := run vg_ctrl_tick (warm.1, flood_world).

Lemma flood_dropped_witness :
  (∃ l' r, drop_all_walk (drops after_flood.1) = Some l' ∧ r ∈ recs after_flood.1 l'
     ∧ cidr r = host_cidr AF_INET flooder ∧ reason r = VG_REASON_POLICY)
  ∧ ∃ w2, voidgate_xdp attack after_flood.2 = Some (XDP_DROP, w2).
Proof.
  destruct (flood_dropped flood_scene 1 AF_INET flooder warm.1 flood_world flood_flooding)
    as (z & c' & w' & l' & r & E & Hl & Hin & Hcr & Hrs & Hx); [apply warm_good|].
  assert (after_flood = (c', w')) as Ea by (unfold after_flood, run; rewrite E; reflexivity).
  destruct (ip_info attack) as [i|] eqn:Ei; [|vm_compute in Ei; discriminate Ei].
  destruct (xdp_cfg after_flood.2) as [bc|] eqn:Ec; [|vm_compute in Ec; discriminate Ec].
  assert (exempt bc i after_flood.2 = false) as He.
  { vm_compute in Ei. injection Ei as <-. vm_compute in Ec. injection Ec as <-. vm_compute. reflexivity. }
  rewrite Ea in *. cbn [fst snd] in *. split.
  - exists l', r. split_and!; [exact Hl|exact Hin|exact Hcr|exact Hrs].
  - apply (Hx w' (same_maps_refl _) attack i bc); [vm_compute; repeat constructor; congruence|exact Ei| | |exact Ec|exact He];
      vm_compute in Ei; injection Ei as <-; [reflexivity|left; reflexivity].
Defined.

(** ** A flood that finds the gate idle *)

(** After its first tick the gate is idle; a second later 5000 packets have
    been received, and 203.0.113.9 goes on as above. *)
Definition quiet_world : kref :=
  set_clocks [Timespec 0 0; Timespec 1 0; Timespec 2 0; Timespec 3 0] (ref_boot 16).
Definition idle1 : vg_ctrl * kref := run vg_ctrl_tick (gate_ctrl, quiet_world).
Definition loud_world : kref := set_kmetrics (Metrics 5000 300000 5000 0 0 0 0) idle1.2.
Definition armed1 : vg_ctrl * kref := run vg_ctrl_tick (idle1.1, loud_world).
Definition sight_world : kref := set_hash remote_v4 {[flooder := HostCounters 10 1000]} armed1.2.
Definition sighted1 : vg_ctrl * kref := run vg_ctrl_tick (armed1.1, sight_world).
Definition rise_world : kref := set_hash remote_v4 {[flooder := HostCounters 1010 60000]} sighted1.2.

Lemma set_kmetrics_same x w : same_maps w (set_kmetrics x w).
Proof. done. Qed.

Lemma idle1_inv : Inv idle1.1 loud_world ∧ cfg idle1.1 = gate_cfg.
Proof.
  assert (Good gate_ctrl quiet_world) as [HI _].
  { eapply init_good; [apply gate_cfg_ok|by vm_compute|apply gate_init|by apply ref_start]. }
  destruct (run_wp vg_ctrl_tick _ (λ s, Inv s.1 s.2 ∧ cfg s.1 = gate_cfg) _ (tick_keeps _ _ HI)) as [HI1 Hcf].
  { by intros a s' (? & ? & _). }
  split; [|exact Hcf]. exact (Inv_same _ _ _ HI1 (set_kmetrics_same _ _)).
Qed.

(** What the tick of the idle gate reads. *)
Lemma idle1_facts :
  state idle1.1 = VG_IDLE ∧ maps idle1.1 = maps_open_sizes 1 ∧ last_tick idle1.1 = Some (Timespec 0 0)
  ∧ (sys_clock loud_world).1 = Timespec 1 0 ∧ snap_cap (snap idle1.1) = 8 ∧ snap_gen (snap idle1.1) = 0
  ∧ drop_pool_cap (drops idle1.1) = 8
  ∧ (bpf_metrics_read (sys_clock loud_world).2).1 = Some [5000; 300000; 5000; 0; 0; 0; 0]
  ∧ over_wake (entered (Timespec 1 0) (seconds_between (Timespec 0 0) (Timespec 1 0))
      (metrics_of 1 [5000; 300000; 5000; 0; 0; 0; 0]) idle1.1) = true
  ∧ (bpf_cfg_update (bpf_cfg_of 1 gate_cfg) (bpf_metrics_read (sys_clock loud_world).2).2).1 = 0.
Proof. split_and!; vm_compute; reflexivity. Qed.

Lemma idle1_waking : waking 1 idle1.1 loud_world.
Proof.
  destruct idle1_facts as (Hst & Hm & Hl & Hclk & _ & _ & _ & Hr & Hw & Hc).
  destruct idle1_inv as [HI Hcf]. split; [exact HI|exact Hst|exact Hm|].
  exists (Timespec 0 0), [5000; 300000; 5000; 0; 0; 0; 0], (bpf_metrics_read (sys_clock loud_world).2).2,
    (bpf_cfg_update (bpf_cfg_of 1 gate_cfg) (bpf_metrics_read (sys_clock loud_world).2).2).2.
  rewrite Hclk, Hcf. split; [exact Hl|]. cbv zeta. split; [vm_compute; reflexivity|].
  split; [rewrite <-Hr; apply surjective_pairing|]. split; [exact Hw|].
  rewrite <-Hc. apply surjective_pairing.
Qed.

(** What the two ticks after that find. *)
Lemma sight_facts :
  (sys_clock sight_world).1 = Timespec 2 0 ∧ (sys_clock rise_world).1 = Timespec 3 0
  ∧ k_times sight_world = [] ∧ k_times rise_world = []
  ∧ bool_decide (is_Some (k_metrics sight_world)) = true ∧ bool_decide (is_Some (k_metrics rise_world)) = true
  ∧ k_cap sight_world = 16%nat ∧ k_cap rise_world = 16%nat
  ∧ hash_keys sight_world remote_v4 = [flooder] ∧ hash_keys sight_world remote_v6 = []
  ∧ hash_keys rise_world remote_v4 = [flooder] ∧ hash_keys rise_world remote_v6 = []
  ∧ k_hash sight_world remote_v4 !! flooder = Some (HostCounters 10 1000)
  ∧ k_hash rise_world remote_v4 !! flooder = Some (HostCounters 1010 60000).
Proof. split_and!; vm_compute; reflexivity. Qed.

Lemma sight_errs : k_errs sight_world = [] ∧ k_errs rise_world = [].
Proof. split; vm_compute; reflexivity. Qed.

Lemma sight_tries m : length (trie_of sight_world m) = 0%nat ∧ length (trie_of rise_world m) = 0%nat.
Proof. split; destruct m; vm_compute; reflexivity. Qed.

Lemma flooder_onset : onset (scene_of sight_world) (scene_of rise_world) AF_INET flooder idle1.1.
Proof.
  destruct idle1_facts as (_ & _ & _ & _ & Hsc & Hg & Hcap & _).
  destruct sight_facts as (_ & _ & _ & _ & _ & _ & _ & _ & H4 & H6 & H4' & H6' & _).
  destruct idle1_inv as [_ Hcf]. split.
  - left. reflexivity.
  - exact flooder_ok.
  - rewrite Hcf. vm_compute. reflexivity.
  - intros sc Hsc'. rewrite Hcf. change (Z.to_nat (walk_budget gate_cfg)) with 4%nat.
    change (remote_of AF_INET) with remote_v4.
    destruct Hsc' as [-> | ->]; cbn [sc_keys scene_of]; [rewrite H4|rewrite H4']; apply list_elem_of_here.
  - rewrite Hsc. unfold all_keys. cbn [sc_keys scene_of]. rewrite H4, H6. cbn [length]. lia.
  - rewrite Hcap. unfold all_keys. cbn [sc_keys scene_of]. rewrite H4', H6'. cbn [length]. lia.
  - rewrite Hg. lia.
  - rewrite Hcf. cbn. lia.
  - rewrite Hcf. cbn. lia.
Qed.

Lemma sight_calm : calm (scene_of sight_world) 0 sight_world.
Proof.
  destruct sight_facts as (_ & _ & Ht & _ & Hm & _ & Hc & _). apply bool_decide_eq_true in Hm.
  apply calm_of; [exact Ht|apply sight_errs|exact Hm|]. intros m. destruct (sight_tries m) as [-> _]. rewrite Hc. lia.
Qed.

Lemma rise_calm : calm (scene_of rise_world) (2 * all_keys (scene_of rise_world)) rise_world.
Proof.
  destruct sight_facts as (_ & _ & _ & Ht & _ & Hm & _ & Hc & _ & _ & H4 & H6 & _).
  apply bool_decide_eq_true in Hm. apply calm_of; [exact Ht|apply sight_errs|exact Hm|]. intros m.
  destruct (sight_tries m) as [_ ->]. rewrite Hc. unfold all_keys. cbn [sc_keys scene_of].
  rewrite H4, H6. cbn [length]. lia.
Qed.

(** Instance of [flood_from_idle]. *)
Lemma flood_from_idle_witness :
  state armed1.1 = VG_ACTIVE ∧ drops sighted1.1 = drops idle1.1
  ∧ stopped_by_tick AF_INET flooder sighted1.1 rise_world.
Proof.
  destruct (flood_from_idle (scene_of sight_world) (scene_of rise_world) 1 AF_INET flooder idle1.1 loud_world
    idle1_waking) as (c1 & w1 & E1 & Hst & H1); [rewrite (proj2 idle1_inv); exact gate_cfg_ok|exact flooder_onset|].
  assert (armed1 = (c1, w1)) as Ea by (unfold armed1, run; rewrite E1; reflexivity).
  assert (w1 = armed1.2 ∧ c1 = armed1.1) as [-> ->] by (rewrite Ea; split; reflexivity).
  destruct idle1_facts as (_ & _ & _ & Hclk & _).
  destruct sight_facts as (Hclk2 & Hclk3 & _ & _ & _ & _ & _ & _ & _ & _ & _ & _ & Hk2 & Hk3).
  destruct (H1 sight_world (set_hash_same _ _ _) sight_calm) as (c2 & w2 & E2 & Hd & H2).
  { rewrite Hclk, Hclk2. vm_compute. reflexivity. }
  assert (sighted1 = (c2, w2)) as Eb by (unfold sighted1, run; rewrite E2; reflexivity).
  assert (w2 = sighted1.2 ∧ c2 = sighted1.1) as [-> ->] by (rewrite Eb; split; reflexivity).
  split; [exact Hst|]. split; [exact Hd|].
  apply (H2 rise_world (set_hash_same _ _ _) rise_calm); rewrite Hclk2, Hclk3.
  - vm_compute. reflexivity.
  - intros buf2 buf3 (x2 & Hx2 & ->) (x3 & Hx3 & ->). rewrite (proj2 idle1_inv).
    change (remote_of AF_INET) with remote_v4 in Hx2, Hx3. rewrite Hk2 in Hx2. rewrite Hk3 in Hx3.
    injection Hx2 as <-. injection Hx3 as <-. vm_compute. reflexivity.
Defined.
